(** * klogg: the indexing and change-detection worker (logdataworker.cpp)

    A shallow embedding of [IndexingData], [IndexOperation::parseDataBlock],
    [IndexOperation::doIndex], [FullIndexOperation::start],
    [PartialIndexOperation::start] and [CheckFileChangesOperation::start],
    followed by the properties the specification states about them. *)

From Stdlib Require Import ZArith List Lia Bool.
From Stdlib Require Import Strings.Byte.
Import ListNotations.
Open Scope Z_scope.

(** ** Machine integers *)

(** [static_cast<int>( x )]: the low 32 bits of [x], read as a signed value. *)
Definition to_int (x : Z) : Z := (x + 2 ^ 31) mod 2 ^ 32 - 2 ^ 31.

(** [QByteArray::size()] and friends. *)
Definition zlen {A : Type} (l : list A) : Z := Z.of_nat (length l).

Arguments zlen {A} l : simpl never.

(** ** Single-precision numbers *)

(** The progress computation is carried out in [float] (IEEE 754 binary32,
    rounding to nearest, ties to even, every operation rounded). A finite
    value is written as a fraction [(n, d)] with [d > 0]. Its operands are
    64-bit integers, for which no intermediate value leaves the range of the
    normal numbers, so the bounds of the exponent are not modelled. *)
Definition float : Type := (Z * Z)%type.

(** [scale n d e] is the fraction [n / (d * 2 ^ e)], for [e] of either sign. *)
Definition scale (n d e : Z) : Z * Z :=
  if 0 <=? e then (n, d * 2 ^ e) else (n * 2 ^ (- e), d).

(** The exponent [e] of the unit in the last place of a positive [n / d]
    under a significand of 24 bits: [2 ^ 23 <= n / (d * 2 ^ e) < 2 ^ 24]. *)
Definition ulp_exponent (n d : Z) : Z :=
  let k := Z.log2 n - Z.log2 d in
  let '(n', d') := scale n d k in
  (if d' <=? n' then k else k - 1) - 23.

(** The integer nearest to [n / d], the even one of two that are equally
    near. *)
Definition round_nearest_even (n d : Z) : Z :=
  let q := n / d in
  let r := n mod d in
  if 2 * r <? d then q
  else if d <? 2 * r then q + 1
  else if Z.even q then q else q + 1.

(** The [float] nearest to a fraction. *)
Definition round_binary32 (x : float) : float :=
  let '(n, d) := x in
  if n =? 0 then (0, 1)
  else
    let e := ulp_exponent (Z.abs n) d in
    let '(n', d') := scale (Z.abs n) d e in
    let m := Z.sgn n * round_nearest_even n' d' in
    if 0 <=? e then (m * 2 ^ e, 1) else (m, 2 ^ (- e)).

(** The conversion of an integer to [float], the product of two [float]s,
    and [std::floor]. *)
Definition float_of_int (z : Z) : float := round_binary32 (z, 1).

Definition float_mul (a b : float) : float :=
  round_binary32 (fst a * fst b, snd a * snd b).

Definition float_floor (a : float) : Z := fst a / snd a.

(** ** QCryptographicHash::Md5

    The digest is Qt library code; it is the function of RFC 1321, written
    out here so that the operations below can be run on concrete files. *)
Module MD5.

Definition w32 (x : Z) : Z := x mod 2 ^ 32.

Definition rotl (x s : Z) : Z :=
  w32 (Z.lor (Z.shiftl x s) (Z.shiftr x (32 - s))).

Definition K : list Z :=
  [ 0xd76aa478; 0xe8c7b756; 0x242070db; 0xc1bdceee;
    0xf57c0faf; 0x4787c62a; 0xa8304613; 0xfd469501;
    0x698098d8; 0x8b44f7af; 0xffff5bb1; 0x895cd7be;
    0x6b901122; 0xfd987193; 0xa679438e; 0x49b40821;
    0xf61e2562; 0xc040b340; 0x265e5a51; 0xe9b6c7aa;
    0xd62f105d; 0x02441453; 0xd8a1e681; 0xe7d3fbc8;
    0x21e1cde6; 0xc33707d6; 0xf4d50d87; 0x455a14ed;
    0xa9e3e905; 0xfcefa3f8; 0x676f02d9; 0x8d2a4c8a;
    0xfffa3942; 0x8771f681; 0x6d9d6122; 0xfde5380c;
    0xa4beea44; 0x4bdecfa9; 0xf6bb4b60; 0xbebfbc70;
    0x289b7ec6; 0xeaa127fa; 0xd4ef3085; 0x04881d05;
    0xd9d4d039; 0xe6db99e5; 0x1fa27cf8; 0xc4ac5665;
    0xf4292244; 0x432aff97; 0xab9423a7; 0xfc93a039;
    0x655b59c3; 0x8f0ccc92; 0xffeff47d; 0x85845dd1;
    0x6fa87e4f; 0xfe2ce6e0; 0xa3014314; 0x4e0811a1;
    0xf7537e82; 0xbd3af235; 0x2ad7d2bb; 0xeb86d391 ].

Definition S : list Z :=
  [ 7; 12; 17; 22; 7; 12; 17; 22; 7; 12; 17; 22; 7; 12; 17; 22;
    5; 9; 14; 20; 5; 9; 14; 20; 5; 9; 14; 20; 5; 9; 14; 20;
    4; 11; 16; 23; 4; 11; 16; 23; 4; 11; 16; 23; 4; 11; 16; 23;
    6; 10; 15; 21; 6; 10; 15; 21; 6; 10; 15; 21; 6; 10; 15; 21 ].

Record regs := Regs { rA : Z; rB : Z; rC : Z; rD : Z }.

Definition init : regs :=
  Regs 0x67452301 0xefcdab89 0x98badcfe 0x10325476.

(** One of the 64 steps on the 16-word message block [M]. *)
Definition round (M : list Z) (r : regs) (i : nat) : regs :=
  let '(Regs a b c d) := r in
  let zi := Z.of_nat i in
  let '(f, g) :=
    if zi <? 16 then (Z.lor (Z.land b c) (Z.land (Z.lxor b 0xffffffff) d), zi)
    else if zi <? 32 then
      (Z.lor (Z.land d b) (Z.land (Z.lxor d 0xffffffff) c), (5 * zi + 1) mod 16)
    else if zi <? 48 then (Z.lxor b (Z.lxor c d), (3 * zi + 5) mod 16)
    else (Z.lxor c (Z.lor b (Z.lxor d 0xffffffff)), (7 * zi) mod 16) in
  let f' := w32 (f + a + nth i K 0 + nth (Z.to_nat g) M 0) in
  Regs d (w32 (b + rotl f' (nth i S 0))) b c.

Definition compress (r : regs) (M : list Z) : regs :=
  let r' := fold_left (round M) (seq 0 64) r in
  Regs (w32 (rA r + rA r')) (w32 (rB r + rB r'))
       (w32 (rC r + rC r')) (w32 (rD r + rD r')).

(** Little-endian 32-bit words of a byte sequence. *)
Fixpoint words (l : list Z) : list Z :=
  match l with
  | b0 :: b1 :: b2 :: b3 :: r =>
      (b0 + 2 ^ 8 * b1 + 2 ^ 16 * b2 + 2 ^ 24 * b3) :: words r
  | _ => []
  end.

Fixpoint le_bytes (n : nat) (x : Z) : list Z :=
  match n with
  | O => []
  | Datatypes.S k => x mod 256 :: le_bytes k (x / 256)
  end.

Fixpoint blocks (n : nat) (ws : list Z) (r : regs) : regs :=
  match n with
  | O => r
  | Datatypes.S k =>
      match ws with
      | [] => r
      | _ => blocks k (skipn 16 ws) (compress r (firstn 16 ws))
      end
  end.

Definition pad (l : list Z) : list Z :=
  let n := zlen l in
  l ++ [0x80] ++ repeat 0 (Z.to_nat ((55 - n) mod 64)) ++ le_bytes 8 (8 * n).

Definition digest (msg : list byte) : list byte :=
  let ws := words (pad (map (fun b => Z.of_N (Byte.to_N b)) msg)) in
  let r := blocks (length ws) ws init in
  map (fun z => match Byte.of_N (Z.to_N z) with Some b => b | None => x00 end)
      (le_bytes 4 (rA r) ++ le_bytes 4 (rB r) ++ le_bytes 4 (rC r)
       ++ le_bytes 4 (rD r)).

End MD5.

Definition md5 (data : list byte) : list byte := MD5.digest data.

Arguments md5 : simpl never.

(** ** Bytes and files *)

Definition LF : byte := x0a.
Definition TAB : byte := x09.

(** [std::memchr( data + start, c, n )] on a block, as the offset of the
    match from [data].  [QByteArray::data()] is followed by one NUL byte;
    a search that runs past it would read memory the block does not own,
    and is taken to find nothing there. *)
Fixpoint find_from (c : byte) (l : list byte) (i : Z) : option Z :=
  match l with
  | [] => None
  | b :: r => if Byte.eqb b c then Some i else find_from c r (i + 1)
  end.

Definition memchr (data : list byte) (start : Z) (c : byte) (n : Z) : option Z :=
  find_from c (firstn (Z.to_nat n) (skipn (Z.to_nat start) data)) start.

(** What [fileName_] resolves to on disk: a file that [QFile::open] refuses
    (missing or unreadable; [QFileInfo::size] still reports a size, 0 for a
    missing file) or a readable sequence of bytes. *)
Inductive DiskFile :=
| Unopenable (reported_size : Z)
| Openable (content : list byte).

(** [QFileInfo::size()] *)
Definition info_size (f : DiskFile) : Z :=
  match f with
  | Unopenable n => n
  | Openable c => zlen c
  end.

(** [file.read( n )] at file position [fp]. *)
Definition file_read (content : list byte) (fp n : Z) : list byte :=
  firstn (Z.to_nat n) (skipn (Z.to_nat fp) content).

(** [file.atEnd()] *)
Definition atEnd (content : list byte) (fp : Z) : bool := zlen content <=? fp.

(** ** Collaborators declared in other files *)

(** Modelled from the spec: [EncodingParameters] (declared with the encoding
    detector), the width of a line feed in bytes and the offset of the 0x0A
    byte inside it ([getBeforeCrOffset]). *)
Record EncodingParameters := {
  lineFeedWidth : Z;
  beforeCrOffset : Z }.

(** Text codecs, the encoding detector and the two ways of building
    [EncodingParameters] are taken as given. A [QTextCodec*] is an
    [option Codec]; the detector and the locale never return null. *)
Class Collaborators := {
  Codec : Type;
  detectEncoding : list byte -> Codec;
  codecForLocale : Codec;
  encodingParameters : Codec -> EncodingParameters;
  defaultEncodingParameters : EncodingParameters }.

(** Modelled from the spec: the constant [AbstractLogData::tabStop], declared
    in abstractlogdata.h; the spec fixes TAB_STOP = 8. *)
Definition tabStop : Z := 8.
Arguments tabStop : simpl never.

(** [const uint32_t sizeChunk = 1024 * 1024] *)
Definition sizeChunk : Z := 1024 * 1024.
Arguments sizeChunk : simpl never.

(** Modelled from the spec: [LinePositionArray] and [FastLinePositionArray]
    (declared in linepositionarray.h), which differ in storage only. An ordered
    sequence of offsets with a flag telling that the last entry is the
    synthetic one; the data-model invariant (as many entries as line feeds
    consumed, plus one if the flag is set) makes an append drop a synthetic
    last entry before adding, and a bulk append take over the flag of the
    appended array. *)
Record LinePositionArray := {
  array : list Z;
  fakeFinalLF : bool }.

Definition emptyLinePositionArray : LinePositionArray :=
  {| array := []; fakeFinalLF := false |}.

Definition real_entries (a : LinePositionArray) : list Z :=
  if fakeFinalLF a then removelast (array a) else array a.

Definition append (pos : Z) (a : LinePositionArray) : LinePositionArray :=
  {| array := real_entries a ++ [pos]; fakeFinalLF := false |}.

Definition setFakeFinalLF (a : LinePositionArray) : LinePositionArray :=
  {| array := array a; fakeFinalLF := true |}.

Definition append_list (other a : LinePositionArray) : LinePositionArray :=
  {| array := real_entries a ++ array other; fakeFinalLF := fakeFinalLF other |}.

(** Modelled from the spec: [IndexedHash] (declared in logdataworker.h), a
    digest and a size. The digest is the byte array that
    [QCryptographicHash::result()] returns, so that [hash_ = {}] leaves an
    empty byte array and size 0. *)
Record IndexedHash := {
  hash : list byte;
  size : Z }.

Definition emptyIndexedHash : IndexedHash := {| hash := []; size := 0 |}.

(** Modelled from the spec: the file status, the result of an operation (a
    variant of [bool] and [MonitoredFileStatus]) and the completion events,
    all declared in headers. *)
Inductive MonitoredFileStatus := Unchanged | DataAdded | Truncated.

Inductive OperationResult :=
| Completion (finished : bool)
| FileStatus (status : MonitoredFileStatus).




(** The interrupt request is an atomic flag that another thread may raise
    at any moment and that nothing lowers while an operation runs. An
    operation only sees it through its reads, so the moment of raising is
    the number of reads that still find it lowered: [Some n] is a flag
    raised after the n-th read, [None] a flag that stays lowered. *)
Definition InterruptFlag := option nat.

Definition read_flag (f : InterruptFlag) : bool * InterruptFlag :=
  match f with
  | None => (false, None)
  | Some O => (true, Some O)
  | Some (S n) => (false, Some n)
  end.

Inductive fault := DivisionByZero | OutOfFuel.

Inductive outcome (A : Type) :=
| Done (a : A)
| Fault (f : fault).
Arguments Done {A} a.
Arguments Fault {A} f.

Section SharedIndex.

Context {collaborators : Collaborators}.

(** ** IndexingData *)

(** The members are those that the methods below read and write.
    [indexHash_], the running [QCryptographicHash], is the sequence of bytes
    added since the last reset; its [result()] is their digest. *)
Record IndexingData := {
  linePosition_ : LinePositionArray;
  maxLength_ : Z;
  hash_ : IndexedHash;
  indexHash_ : list byte;
  encodingGuess_ : option Codec;
  encodingForced_ : option Codec }.

Definition getSize (d : IndexingData) : Z := size (hash_ d).
Definition getHash (d : IndexingData) : IndexedHash := hash_ d.
Definition getMaxLength (d : IndexingData) : Z := maxLength_ d.
Definition getNbLines (d : IndexingData) : Z := zlen (array (linePosition_ d)).
Definition getPosForLine (line : nat) (d : IndexingData) : option Z :=
  nth_error (array (linePosition_ d)) line.
Definition getEncodingGuess (d : IndexingData) : option Codec := encodingGuess_ d.
Definition getForcedEncoding (d : IndexingData) : option Codec := encodingForced_ d.

Definition setEncodingGuess (codec : option Codec) (d : IndexingData) : IndexingData :=
  {| linePosition_ := linePosition_ d;
     maxLength_ := maxLength_ d;
     hash_ := hash_ d;
     indexHash_ := indexHash_ d;
     encodingGuess_ := codec;
     encodingForced_ := encodingForced_ d |}.

Definition forceEncoding (codec : option Codec) (d : IndexingData) : IndexingData :=
  {| linePosition_ := linePosition_ d;
     maxLength_ := maxLength_ d;
     hash_ := hash_ d;
     indexHash_ := indexHash_ d;
     encodingGuess_ := encodingGuess_ d;
     encodingForced_ := codec |}.

Definition addAll (block : list byte) (length : Z) (linePosition : LinePositionArray)
    (encoding : option Codec) (d : IndexingData) : IndexingData :=
  let indexHash := indexHash_ d ++ block in
  {| linePosition_ := append_list linePosition (linePosition_ d);
     maxLength_ := Z.max (maxLength_ d) length;
     hash_ := {| hash := md5 indexHash; size := size (hash_ d) + zlen block |};
     indexHash_ := indexHash;
     encodingGuess_ := encoding;
     encodingForced_ := encodingForced_ d |}.

Definition clear : IndexingData :=
  {| linePosition_ := emptyLinePositionArray;
     maxLength_ := 0;
     hash_ := emptyIndexedHash;
     indexHash_ := [];
     encodingGuess_ := None;
     encodingForced_ := None |}.

(** ** The worker's view of the world and its operations' monad *)

(** The shared index, the interrupt request and the [indexingProgressed]
    signals emitted so far, oldest first. *)
Record World := {
  indexing_data_ : IndexingData;
  interruptRequest_ : InterruptFlag;
  progressed : list Z }.

Definition M (A : Type) : Type := World -> outcome (A * World).

Definition ret {A : Type} (a : A) : M A := fun w => Done (a, w).

Definition bind {A B : Type} (m : M A) (k : A -> M B) : M B :=
  fun w => match m w with
           | Done (a, w') => k a w'
           | Fault f => Fault f
           end.

Definition lift {A : Type} (o : outcome A) : M A :=
  fun w => match o with
           | Done a => Done (a, w)
           | Fault f => Fault f
           end.

Definition getData : M IndexingData := fun w => Done (indexing_data_ w, w).

Definition modifyData (f : IndexingData -> IndexingData) : M unit :=
  fun w => Done (tt, {| indexing_data_ := f (indexing_data_ w);
                        interruptRequest_ := interruptRequest_ w;
                        progressed := progressed w |}).

Definition emitIndexingProgressed (p : Z) : M unit :=
  fun w => Done (tt, {| indexing_data_ := indexing_data_ w;
                        interruptRequest_ := interruptRequest_ w;
                        progressed := progressed w ++ [p] |}).

Definition interruptRequested : M bool :=
  fun w => let (b, f) := read_flag (interruptRequest_ w) in
           Done (b, {| indexing_data_ := indexing_data_ w;
                       interruptRequest_ := f;
                       progressed := progressed w |}).

End SharedIndex.

Notation "x <- m ;; k" := (bind m (fun x => k))
  (at level 61, m at next level, right associativity).
Notation "m ;;; k" := (bind m (fun _ => k))
  (at level 61, right associativity).

Section Operations.

Context {collaborators : Collaborators}.

(** ** IndexOperation *)

(** Modelled from the spec: [IndexingState] (declared in logdataworker.h),
    the scan cursor carried across blocks. A fresh one has the default
    encoding parameters and every other member zero or null;
    [additional_spaces] is read before [doIndex] ever writes it. *)
Record IndexingState := {
  encodingParams : EncodingParameters;
  pos : Z;
  max_length : Z;
  additional_spaces : Z;
  end_ : Z;
  file_size : Z;
  encodingGuess : option Codec;
  fileTextCodec : option Codec }.

Definition set_additional_spaces (v : Z) (s : IndexingState) : IndexingState :=
  {| encodingParams := encodingParams s; pos := pos s; max_length := max_length s;
     additional_spaces := v; end_ := end_ s; file_size := file_size s;
     encodingGuess := encodingGuess s; fileTextCodec := fileTextCodec s |}.

Definition set_max_length (v : Z) (s : IndexingState) : IndexingState :=
  {| encodingParams := encodingParams s; pos := pos s; max_length := v;
     additional_spaces := additional_spaces s; end_ := end_ s;
     file_size := file_size s;
     encodingGuess := encodingGuess s; fileTextCodec := fileTextCodec s |}.

(** [adjustToCharWidth] *)
Definition adjustToCharWidth (state : IndexingState) (p : Z) : Z :=
  p - beforeCrOffset (encodingParams state).

(** The statement that a tab found at offset [pos_within_block] executes. *)
Definition tab_found (block_beginning pos_within_block : Z) (state : IndexingState)
    : IndexingState :=
  set_additional_spaces
    (additional_spaces state
     + (tabStop
        - Z.rem (to_int ((block_beginning - pos state) + pos_within_block
                         + additional_spaces state)) tabStop
        - 1))
    state.

(** The [while ( next_tab != nullptr )] loop of the [expandTabs] lambda.
    The lambda also stores into [pos_within_block]; both of its callers
    overwrite that variable right after the call, so the store is left out. *)
Fixpoint expandTabs_loop (fuel : nat) (block_beginning : Z) (block : list byte)
    (tab_search_start line_size : Z) (next_tab : option Z) (state : IndexingState)
    : outcome IndexingState :=
  match next_tab with
  | None => Done state
  | Some tab =>
      match fuel with
      | O => Fault OutOfFuel
      | S fuel' =>
          let state' := tab_found block_beginning (adjustToCharWidth state tab) state in
          let tab_substring_size := tab - tab_search_start in
          let line_size' := line_size - tab_substring_size in
          let tab_search_start' := tab + 1 in
          let next_tab' :=
            if line_size' >? 0
            then memchr block tab_search_start' TAB line_size'
            else None in
          expandTabs_loop fuel' block_beginning block tab_search_start' line_size'
                          next_tab' state'
      end
  end.

Definition expandTabs (block_beginning : Z) (block : list byte)
    (search_start line_size : Z) (state : IndexingState) : outcome IndexingState :=
  expandTabs_loop (S (length block)) block_beginning block search_start line_size
                  (memchr block search_start TAB line_size) state.

(** The statements under [if ( pos_within_block != -1 )]. *)
Definition line_found (block_beginning pos_within_block : Z) (state : IndexingState)
    : IndexingState :=
  let e := pos_within_block + block_beginning in
  let length := to_int (e - pos state + additional_spaces state) in
  {| encodingParams := encodingParams state;
     pos := e + lineFeedWidth (encodingParams state);
     max_length := if length >? max_length state then length else max_length state;
     additional_spaces := 0;
     end_ := e;
     file_size := file_size state;
     encodingGuess := encodingGuess state;
     fileTextCodec := fileTextCodec state |}.

(** The [while ( pos_within_block != -1 )] loop of [parseDataBlock]. *)
Fixpoint parse_loop (fuel : nat) (block_beginning : Z) (block : list byte)
    (state : IndexingState) (line_positions : LinePositionArray)
    : outcome (IndexingState * LinePositionArray) :=
  match fuel with
  | O => Fault OutOfFuel
  | S fuel' =>
      let pos_within_block := Z.max (to_int (pos state - block_beginning)) 0 in
      let search_line_size := zlen block - pos_within_block in
      let searched :=
        if search_line_size >? 0 then
          match memchr block pos_within_block LF search_line_size with
          | Some next_line_feed =>
              match expandTabs block_beginning block pos_within_block
                               (next_line_feed - pos_within_block) state with
              | Done state' => Done (state', adjustToCharWidth state' next_line_feed)
              | Fault f => Fault f
              end
          | None =>
              match expandTabs block_beginning block pos_within_block
                               search_line_size state with
              | Done state' => Done (state', -1)
              | Fault f => Fault f
              end
          end
        else Done (state, -1) in
      match searched with
      | Fault f => Fault f
      | Done (state', pos_within_block') =>
          if pos_within_block' =? -1 then Done (state', line_positions)
          else
            let state'' := line_found block_beginning pos_within_block' state' in
            parse_loop fuel' block_beginning block state''
                       (append (pos state'') line_positions)
      end
  end.

Definition parseDataBlock (block_beginning : Z) (block : list byte)
    (state : IndexingState) : outcome (IndexingState * LinePositionArray) :=
  parse_loop (S (length block)) block_beginning block (set_max_length 0 state)
             emptyLinePositionArray.

Definition guessEncoding (block : list byte) (state : IndexingState)
    (d : IndexingData) : IndexingState :=
  let guess := match encodingGuess state with
               | Some c => c
               | None => detectEncoding block
               end in
  match fileTextCodec state with
  | Some c =>
      {| encodingParams := encodingParams state; pos := pos state;
         max_length := max_length state;
         additional_spaces := additional_spaces state; end_ := end_ state;
         file_size := file_size state;
         encodingGuess := Some guess; fileTextCodec := Some c |}
  | None =>
      let codec := match getForcedEncoding d with
                   | Some c => c
                   | None => match getEncodingGuess d with
                             | Some c => c
                             | None => guess
                             end
                   end in
      {| encodingParams := encodingParameters codec; pos := pos state;
         max_length := max_length state;
         additional_spaces := additional_spaces state; end_ := end_ state;
         file_size := file_size state;
         encodingGuess := Some guess; fileTextCodec := Some codec |}
  end.

(** The quotient of two [float]s. By zero it is an infinity or a NaN, on
    which the [static_cast<int>] that follows is not defined: a fault. *)
Definition divide (a b : float) : outcome float :=
  if fst b =? 0 then Fault DivisionByZero
  else Done (round_binary32 (Z.sgn (fst b) * fst a * snd b,
                             snd a * Z.abs (fst b))).

(** [static_cast<int>( std::floor( file_size > 0 ? pos * 100.f / file_size
    : 100 ) )]: [pos] is converted to [float] and multiplied by [100.f],
    [file_size] is converted to [float], and the quotient is taken, each
    step rounded. The floor of the quotient is an integer; the cast keeps
    it when it is within [int] (it is, at most 100, when
    [0 <= pos <= file_size]), and is not defined by the language otherwise,
    where the value is kept here as well. *)
Definition progress_of (state : IndexingState) : outcome Z :=
  if file_size state >? 0 then
    match divide (float_mul (float_of_int (pos state)) (100, 1))
                 (float_of_int (file_size state)) with
    | Done quotient => Done (float_floor quotient)
    | Fault f => Fault f
    end
  else Done 100.

(** The body of the [blockParser] node. *)
Definition blockParser (block_beginning : Z) (block : list byte)
    (state : IndexingState) : M IndexingState :=
  d <- getData ;;
  let state := guessEncoding block state d in
  match block with
  | _ :: _ =>
      r <- lift (parseDataBlock block_beginning block state) ;;
      let '(state, line_positions) := r in
      modifyData (addAll block (max_length state) line_positions
                         (encodingGuess state)) ;;;
      progress <- lift (progress_of state) ;;
      emitIndexingProgressed progress ;;;
      ret state
  | [] =>
      modifyData (setEncodingGuess (encodingGuess state)) ;;;
      ret state
  end.

(** The flow graph of [doIndex]: the [blockReader] source is asked for block
    after block until it declines; each block goes through the limiter and
    the queue to the serial [blockParser]. Blocks are parsed one at a time
    and in file order whatever the prefetch depth, and the parser does not
    read the interrupt request, so the index ends up as if each block were
    parsed right after it was read. [fp] is the position of [file]. *)
Fixpoint indexingGraph (fuel : nat) (content : list byte) (fp : Z)
    (state : IndexingState) : M IndexingState :=
  match fuel with
  | O => lift (Fault OutOfFuel)
  | S fuel' =>
      interrupted <- interruptRequested ;;
      if interrupted then ret state
      else if negb (atEnd content fp) then
        let block := file_read content fp sizeChunk in
        state' <- blockParser fp block state ;;
        indexingGraph fuel' content (fp + zlen block) state'
      else ret state
  end.

Definition doIndex (initialPosition : Z) (file : DiskFile) : M unit :=
  match file with
  | Unopenable _ =>
      modifyData (fun _ => clear) ;;;
      modifyData (setEncodingGuess (Some codecForLocale)) ;;;
      emitIndexingProgressed 100
  | Openable content =>
      d <- getData ;;
      let state :=
        {| encodingParams := defaultEncodingParameters;
           pos := initialPosition;
           max_length := 0;
           additional_spaces := 0;
           end_ := 0;
           file_size := zlen content;
           encodingGuess := getEncodingGuess d;
           fileTextCodec := match getForcedEncoding d with
                            | Some c => Some c
                            | None => getEncodingGuess d
                            end |} in
      state <- indexingGraph (S (length content)) content (pos state) state ;;
      interrupted <- interruptRequested ;;
      (if negb interrupted && (file_size state >? pos state) then
         modifyData (addAll [] 0
                       (setFakeFinalLF (append (file_size state + 1)
                                               emptyLinePositionArray))
                       (encodingGuess state))
       else ret tt) ;;;
      d <- getData ;;
      match getEncodingGuess d with
      | None => modifyData (setEncodingGuess (Some codecForLocale))
      | Some _ => ret tt
      end
  end.

(** [FullIndexOperation::start]; the read of the interrupt request that only
    feeds the log is left out. *)
Definition FullIndexOperation_start (forcedEncoding : option Codec)
    (file : DiskFile) : M OperationResult :=
  emitIndexingProgressed 0 ;;;
  modifyData (fun _ => clear) ;;;
  modifyData (forceEncoding forcedEncoding) ;;;
  doIndex 0 file ;;;
  interrupted <- interruptRequested ;;
  ret (Completion (if interrupted then false else true)).

(** [PartialIndexOperation::start] *)
Definition PartialIndexOperation_start (file : DiskFile) : M OperationResult :=
  d <- getData ;;
  let initial_position := getSize d in
  emitIndexingProgressed 0 ;;;
  doIndex initial_position file ;;;
  interrupted <- interruptRequested ;;
  ret (Completion (if interrupted then false else true)).

(** ** CheckFileChangesOperation *)

Definition bytes_eqb (a b : list byte) : bool :=
  if list_eq_dec Byte.byte_eq_dec a b then true else false.

(** The [do ... while] loop; [hashed] is what has been fed to the local
    [QCryptographicHash]. *)
Fixpoint read_loop (fuel : nat) (content : list byte) (buffer_size indexed_size : Z)
    (fp totalSize : Z) (hashed : list byte) : outcome (list byte) :=
  match fuel with
  | O => Fault OutOfFuel
  | S fuel' =>
      let chunk := file_read content fp buffer_size in
      let readSize := zlen chunk in
      let hashed' := if readSize >? 0 then hashed ++ chunk else hashed in
      let totalSize' := if readSize >? 0 then totalSize + readSize else totalSize in
      if (readSize >? 0) && (totalSize' <? indexed_size)
      then read_loop fuel' content buffer_size indexed_size (fp + readSize)
                     totalSize' hashed'
      else Done hashed'
  end.

(** [CheckFileChangesOperation::start]. [QByteArray( n, 0 )] is empty for
    a size that is not positive. *)
Definition CheckFileChangesOperation_start (file : DiskFile) : M OperationResult :=
  d <- getData ;;
  let indexedHash := getHash d in
  let realFileSize := info_size file in
  if (realFileSize =? 0) || (realFileSize <? size indexedHash) then
    ret (FileStatus Truncated)
  else
    match file with
    | Openable content =>
        let buffer_size := Z.max 0 (to_int (size indexedHash)) in
        hashed <- lift (read_loop (S (length content)) content buffer_size
                                  (size indexedHash) 0 0 []) ;;
        let realHash := md5 hashed in
        if negb (bytes_eqb (hash indexedHash) realHash) then
          ret (FileStatus Truncated)
        else if realFileSize >? size indexedHash then
          ret (FileStatus DataAdded)
        else
          ret (FileStatus Unchanged)
    | Unopenable _ => ret (FileStatus Truncated)
    end.

End Operations.

(** ** A concrete set of collaborators, for running the operations *)

Inductive SampleCodec := Latin1 | Utf8.

#[local] Instance sample : Collaborators := {|
  Codec := SampleCodec;
  detectEncoding := fun _ => Utf8;
  codecForLocale := Latin1;
  encodingParameters := fun _ => {| lineFeedWidth := 1; beforeCrOffset := 0 |};
  defaultEncodingParameters := {| lineFeedWidth := 1; beforeCrOffset := 0 |} |}.

Definition idle : World :=
  {| indexing_data_ := clear; interruptRequest_ := None; progressed := [] |}.


(** ** The notions the specification is written in *)

(** The offsets that follow a line feed, for bytes [l] found at offset [i]. *)
Fixpoint line_starts (i : Z) (l : list byte) : list Z :=
  match l with
  | [] => []
  | b :: r =>
      if Byte.eqb b LF then (i + 1) :: line_starts (i + 1) r
      else line_starts (i + 1) r
  end.

(** [count(0x0A, F)] *)
Definition count_LF (l : list byte) : Z :=
  zlen (filter (fun b => Byte.eqb b LF) l).

Definition ends_in_LF (l : list byte) : bool := Byte.eqb (last l x00) LF.

(** The lines of a file: those closed by a line feed, in order, and the
    bytes after the last line feed. *)
Fixpoint lines_of (l : list byte) : list (list byte) * list byte :=
  match l with
  | [] => ([], [])
  | b :: r =>
      let (closed, rest) := lines_of r in
      if Byte.eqb b LF then ([] :: closed, rest)
      else match closed with
           | [] => ([], b :: rest)
           | first :: others => ((b :: first) :: others, rest)
           end
  end.

(** The display column reached after [line] when it starts at column [col]:
    a tab moves to the next multiple of [tabStop], any other byte takes
    one column. *)
Fixpoint expand (col : Z) (line : list byte) : Z :=
  match line with
  | [] => col
  | b :: r =>
      if Byte.eqb b TAB then expand (col + (tabStop - col mod tabStop)) r
      else expand (col + 1) r
  end.

Definition display_width (line : list byte) : Z := expand 0 line.

Definition list_max (l : list Z) : Z := fold_right Z.max 0 l.

(** No line has a second tab; [seen] tells whether the line that [l]
    continues already has one. *)
Fixpoint one_tab_per_line (seen : bool) (l : list byte) : bool :=
  match l with
  | [] => true
  | b :: r =>
      if Byte.eqb b LF then one_tab_per_line false r
      else if Byte.eqb b TAB then negb seen && one_tab_per_line true r
      else one_tab_per_line seen r
  end.

Fixpoint tab_seen (seen : bool) (l : list byte) : bool :=
  match l with
  | [] => seen
  | b :: r =>
      if Byte.eqb b LF then tab_seen false r
      else if Byte.eqb b TAB then tab_seen true r
      else tab_seen seen r
  end.

(** Encoding parameters of a single-byte encoding. *)
Definition single_byte : EncodingParameters :=
  {| lineFeedWidth := 1; beforeCrOffset := 0 |}.

(** Every codec at hand, and the default parameters, are single-byte. *)
Definition single_byte_encodings `{Collaborators} : Prop :=
  defaultEncodingParameters = single_byte
  /\ forall c, encodingParameters c = single_byte.

(** The line feed is wider than the offset of its 0x0A byte, and at most
    four bytes wide. *)
Definition well_formed (p : EncodingParameters) : Prop :=
  0 <= beforeCrOffset p < lineFeedWidth p /\ lineFeedWidth p <= 4.

Definition well_formed_encodings `{Collaborators} : Prop :=
  well_formed defaultEncodingParameters
  /\ forall c, well_formed (encodingParameters c).

Section Scanner.

Context {collaborators : Collaborators}.

(** The block parser read one byte at a time: what a line feed and a tab at
    file offset [i] do to the state, and the offsets collected. *)
Fixpoint scan (i : Z) (l : list byte) (state : IndexingState) : IndexingState :=
  match l with
  | [] => state
  | b :: r =>
      if Byte.eqb b LF then scan (i + 1) r (line_found 0 i state)
      else if Byte.eqb b TAB then scan (i + 1) r (tab_found 0 i state)
      else scan (i + 1) r state
  end.

(** Two states that differ at most in the tab carry and the longest line. *)
Definition same_cursor (s t : IndexingState) : Prop :=
  encodingParams s = encodingParams t /\ pos s = pos t /\ end_ s = end_ t
  /\ file_size s = file_size t /\ encodingGuess s = encodingGuess t
  /\ fileTextCodec s = fileTextCodec t.

End Scanner.

(** ** Notions used to state what the operations do *)

Section Notions.

Context {collaborators : Collaborators}.

(** Two states with the same encoding fields and file size. *)
Definition same_encoding (s t : IndexingState) : Prop :=
  encodingParams s = encodingParams t /\ file_size s = file_size t
  /\ encodingGuess s = encodingGuess t /\ fileTextCodec s = fileTextCodec t.

(** The display column reached in the line that is open at the end of [l],
    when [l] starts at column [col]. *)
Fixpoint column_after (col : Z) (l : list byte) : Z :=
  match l with
  | [] => col
  | b :: r =>
      if Byte.eqb b LF then column_after 0 r
      else if Byte.eqb b TAB then column_after (col + (tabStop - col mod tabStop)) r
      else column_after (col + 1) r
  end.

(** The largest of [m] and the display widths of the lines closed in [l],
    the first of which starts at column [col]. *)
Fixpoint widest_line (col m : Z) (l : list byte) : Z :=
  match l with
  | [] => m
  | b :: r =>
      if Byte.eqb b LF then widest_line 0 (Z.max m col) r
      else if Byte.eqb b TAB then widest_line (col + (tabStop - col mod tabStop)) m r
      else widest_line (col + 1) m r
  end.

(** The first [n] blocks the reader takes from position [fp]. *)
Fixpoint first_blocks (n : nat) (content : list byte) (fp : Z) : list byte :=
  match n with
  | O => []
  | S n' =>
      let block := file_read content fp sizeChunk in
      block ++ first_blocks n' content (fp + zlen block)
  end.

(** The bytes that reach the parser: all of the file from [fp] on while the
    interrupt request stays lowered, the blocks read before the reader
    finds it raised otherwise. *)
Definition consumed (flag : InterruptFlag) (content : list byte) (fp : Z) : list byte :=
  match flag with
  | None => skipn (Z.to_nat fp) content
  | Some n => first_blocks n content fp
  end.

(** The number of blocks between [fp] and the end of the file. *)
Definition blocks_from (content : list byte) (fp : Z) : nat :=
  Z.to_nat ((zlen content - fp + sizeChunk - 1) / sizeChunk).

(** The interrupt request once the reader has stopped: it has read the flag
    once per block and once more. *)
Definition flag_after_reader (flag : InterruptFlag) (content : list byte) (fp : Z)
    : InterruptFlag :=
  match flag with
  | None => None
  | Some n => Some (n - S (blocks_from content fp))%nat
  end.

(** The guess that the parser settles on at the first block it sees. *)
Definition settled_guess (state : IndexingState) (block : list byte) : Codec :=
  match encodingGuess state with
  | Some c => c
  | None => detectEncoding block
  end.

(** The index [d'] is the index [d] grown by the bytes [B] found at [fp]. *)
Definition index_grown (d d' : IndexingData) (fp : Z) (B : list byte) (g : Codec)
    : Prop :=
  match B with
  | [] => d' = d
  | _ :: _ =>
      linePosition_ d'
      = {| array := real_entries (linePosition_ d) ++ line_starts fp B;
           fakeFinalLF := false |}
      /\ hash_ d' = {| hash := md5 (indexHash_ d ++ B);
                       size := size (hash_ d) + zlen B |}
      /\ indexHash_ d' = indexHash_ d ++ B
      /\ encodingGuess_ d' = Some g
      /\ encodingForced_ d' = encodingForced_ d
      /\ maxLength_ d <= maxLength_ d'
  end.

(** The entry that stands for the end of a last line without line feed. *)
Definition fake_final_entry (file_size : Z) : LinePositionArray :=
  setFakeFinalLF (append (file_size + 1) emptyLinePositionArray).

(** The last statement of [doIndex]: an index without guess gets the
    codec of the locale. *)
Definition with_default_guess (d : IndexingData) : IndexingData :=
  match getEncodingGuess d with
  | None => setEncodingGuess (Some codecForLocale) d
  | Some _ => d
  end.

(** What [doIndex] leaves of the index [d1] that the graph has built from
    the bytes [B] read at [p0]: [lowered] is what the read of the interrupt
    request after the graph has drained finds, [guess] is the state's guess. *)
Definition index_closed (lowered : bool) (size_on_disk p0 : Z) (B : list byte)
    (guess : option Codec) (d1 : IndexingData) : IndexingData :=
  with_default_guess
    (if lowered && (size_on_disk >? last (line_starts p0 B) p0)
     then addAll [] 0 (fake_final_entry size_on_disk) guess d1
     else d1).

(** The hash of the index [d'] is the hash of [d] fed with the bytes [B]. *)
Definition hash_grown (d d' : IndexingData) (B : list byte) : Prop :=
  match B with
  | [] => d' = d
  | _ :: _ =>
      hash_ d' = {| hash := md5 (indexHash_ d ++ B);
                    size := size (hash_ d) + zlen B |}
      /\ indexHash_ d' = indexHash_ d ++ B
      /\ encodingForced_ d' = encodingForced_ d
      /\ encodingGuess_ d' <> None
  end.

(** The index of a file that cannot be opened. *)
Definition index_of_nothing : IndexingData :=
  {| linePosition_ := emptyLinePositionArray;
     maxLength_ := 0;
     hash_ := emptyIndexedHash;
     indexHash_ := [];
     encodingGuess_ := Some codecForLocale;
     encodingForced_ := None |}.

(** An outcome other than the fault of a division by zero. *)
Definition no_division_by_zero {A : Type} (o : outcome A) : Prop :=
  o <> Fault DivisionByZero.

(** Two calls of [CheckFileChangesOperation::start] in a row. *)
Definition check_twice (file : DiskFile) : M (OperationResult * OperationResult) :=
  first <- CheckFileChangesOperation_start file ;;
  second <- CheckFileChangesOperation_start file ;;
  ret (first, second).

(** A file of three lines, each closed by a line feed. *)
Definition three_lines : list byte :=
  ["a"; x0a; "b"; "b"; x0a; "c"; "c"; "c"; x0a]%byte.

(** The index of a file that was read from its first to its last byte;
    [m] is its maximal length. *)
Definition index_of (forced : option Codec) (F : list byte) (m : Z) : IndexingData :=
  match F with
  | [] =>
      {| linePosition_ := emptyLinePositionArray;
         maxLength_ := 0;
         hash_ := emptyIndexedHash;
         indexHash_ := [];
         encodingGuess_ := Some codecForLocale;
         encodingForced_ := forced |}
  | _ :: _ =>
      {| linePosition_ :=
           if ends_in_LF F
           then {| array := line_starts 0 F; fakeFinalLF := false |}
           else {| array := line_starts 0 F ++ [zlen F + 1];
                   fakeFinalLF := true |};
         maxLength_ := m;
         hash_ := {| hash := md5 F; size := zlen F |};
         indexHash_ := F;
         encodingGuess_ := Some (detectEncoding (file_read F 0 sizeChunk));
         encodingForced_ := forced |}
  end.

(** The display widths of [lines], the first of which starts at [col]. *)
Definition widths (col : Z) (lines : list (list byte)) : list Z :=
  match lines with
  | [] => []
  | first :: others => expand col first :: map display_width others
  end.

(** Two tabs, a line feed, a tab, a line feed. *)
Definition two_tabs_then_one : list byte := [x09; x09; x0a; x09; x0a]%byte.

(** The guess an uninterrupted full index of [F] settles on. *)
Definition first_guess (F : list byte) : Codec :=
  match F with
  | [] => codecForLocale
  | _ :: _ => detectEncoding (file_read F 0 sizeChunk)
  end.

(** Four bytes without line feed, to which a byte and a line feed are
    appended. *)
Definition open_line : list byte := ["a"; "a"; "a"; "a"]%byte.
Definition closing_tail : list byte := ["b"; x0a]%byte.

(** The reads of the interrupt request that an undisturbed reader makes from
    position [p0] on: one before each block and one at the end of the file. *)
Definition reads_by_reader (content : list byte) (p0 : Z) : nat :=
  S (blocks_from content p0).

(** A single byte, no line feed. *)
Definition one_byte : list byte := ["a"]%byte.

End Notions.

(** ** Notions for the single-precision numbers *)

(** [2 ^ e <= n / d < 2 ^ (e + 1)], for an exponent of either sign. *)
Definition between_powers (n d e : Z) : Prop :=
  d * 2 ^ Z.max 0 e <= n * 2 ^ Z.max 0 (- e)
  /\ n * 2 ^ Z.max 0 (- (e + 1)) < d * 2 ^ Z.max 0 (e + 1).

(** The fraction [a] is not above the fraction [b]. *)
Definition float_le (a b : float) : Prop := fst a * snd b <= fst b * snd a.

(** [floor( pos * 100.f / file_size )] for a positive [file_size]. *)
Definition progress_at (pos file_size : Z) : Z :=
  let p := float_mul (float_of_int pos) (100, 1) in
  let f := float_of_int file_size in
  float_floor (round_binary32 (fst p * snd f, snd p * fst f)).

(** ** Further notions: the order of positions, interruption, encodings *)

(** The entries of [l] grow strictly with their rank. *)
Definition increasing (l : list Z) : Prop :=
  forall i j p q,
    (i < j)%nat -> nth_error l i = Some p -> nth_error l j = Some q -> p < q.

(** [interruptRequest_.clear()], which [indexAll], [indexAdditionalLines]
    and [checkFileChanges] call before they start an operation; here the
    request is not raised again afterwards. *)
Definition clearInterrupt `{Collaborators} : M unit :=
  fun w => Done (tt, {| indexing_data_ := indexing_data_ w;
                        interruptRequest_ := None;
                        progressed := progressed w |}).

(** A world with an empty index in which the interrupt request is raised
    after [n] reads. *)
Definition raised_after `{Collaborators} (n : nat) : World :=
  {| indexing_data_ := clear; interruptRequest_ := Some n; progressed := [] |}.

(** The entries of [l] never decrease with their rank. *)
Definition nondecreasing (l : list Z) : Prop :=
  forall i j p q,
    (i <= j)%nat -> nth_error l i = Some p -> nth_error l j = Some q -> p <= q.

(** The parser scans with the parameters of a single-byte encoding and goes
    on doing so: the codec of the file is settled, so that [guessEncoding]
    leaves the parameters alone, or every codec at hand is single-byte. *)
Definition scans_single_byte `{Collaborators} (state : IndexingState) : Prop :=
  encodingParams state = single_byte
  /\ (fileTextCodec state <> None \/ forall c, encodingParameters c = single_byte).

(** In the bytes [B], which start at offset [p0] of the file, no byte is
    more than 2^31 bytes after the start of its line (the offset that
    follows the last line feed before it, or [p0] when there is none): no
    line is longer than 2 GiB. Up to that distance
    [static_cast<int>( state.pos - block_beginning )] is the difference it
    is taken for. *)
Definition short_lines (p0 : Z) (B : list byte) : Prop :=
  forall k, (k <= length B)%nat ->
    p0 + Z.of_nat k - last (line_starts p0 (firstn k B)) p0 <= 2 ^ 31.

(** The encoding parameters that [doIndex] scans with on the index [d]: the
    default ones when the index names a codec for the file (a forced
    encoding or a stored guess, which [guessEncoding] then leaves alone),
    those of the codec the detector finds in the first block otherwise. *)
Definition parameters_scanned_with `{Collaborators} (d : IndexingData)
    (first_block : list byte) : EncodingParameters :=
  match getForcedEncoding d, getEncodingGuess d with
  | None, None => encodingParameters (detectEncoding first_block)
  | _, _ => defaultEncodingParameters
  end.

(** What holds between two blocks while the graph of [doIndex], started at
    offset [p0] in state [st0] on the index [d0] with the signals [evs0]
    emitted, scans as for a single-byte encoding: the file position [fp]
    follows the bytes [seg] parsed so far, the next block, if there is one,
    is scanned with single-byte parameters, the index has grown by [seg],
    the state's position is the last line start, and the progress signals
    sent never decrease, lie between 0 and 100 and are not above the
    progress of the state's position. *)
Definition scanned `{Collaborators} (content : list byte) (p0 : Z)
    (st0 : IndexingState) (d0 : IndexingData) (evs0 : list Z)
    (fp : Z) (st : IndexingState) (d : IndexingData) (evs : list Z) : Prop :=
  exists seg events,
    fp = p0 + zlen seg
    /\ skipn (Z.to_nat p0) content = seg ++ skipn (Z.to_nat fp) content
    /\ (zlen content <= fp
        \/ encodingParams (guessEncoding (file_read content fp sizeChunk) st d)
           = single_byte)
    /\ file_size st = zlen content
    /\ pos st = last (line_starts p0 seg) (pos st0)
    /\ encodingGuess st
       = match seg with
         | [] => encodingGuess st0
         | _ => Some (settled_guess st0 (file_read content p0 sizeChunk))
         end
    /\ index_grown d0 d p0 seg (settled_guess st0 (file_read content p0 sizeChunk))
    /\ evs = evs0 ++ events
    /\ nondecreasing events
    /\ Forall (fun p => 0 <= p <= 100
                        /\ p <= progress_at (pos st) (zlen content)) events.

(** The index either names a codec for the file (a forced encoding or a
    stored guess), or every codec at hand is single-byte: [doIndex] then
    scans with the default parameters from the first block to the last. *)
Definition keeps_default_parameters `{Collaborators} (d : IndexingData) : Prop :=
  getForcedEncoding d <> None \/ getEncodingGuess d <> None
  \/ forall c, encodingParameters c = single_byte.

(** A second set of collaborators, with a codec whose line feed is two
    bytes wide; the detector takes a NUL in second place for UTF-16 LE. *)
Inductive WideCodec := Local8Bit | Utf16LE.

Definition wide : Collaborators := {|
  Codec := WideCodec;
  detectEncoding := fun block => match block with
                                 | _ :: x00 :: _ => Utf16LE
                                 | _ => Local8Bit
                                 end;
  codecForLocale := Local8Bit;
  encodingParameters := fun c => match c with
                                 | Local8Bit => single_byte
                                 | Utf16LE => {| lineFeedWidth := 2;
                                                 beforeCrOffset := 0 |}
                                 end;
  defaultEncodingParameters := single_byte |}.

(** The text hi and a line feed, in UTF-16 LE. *)
Definition hi_utf16 : list byte := ["h"; x00; "i"; x00; x0a; x00]%byte.

(** A world without interrupt request whose index is [d]. *)
Definition undisturbed `{Collaborators} (d : IndexingData) : World :=
  {| indexing_data_ := d; interruptRequest_ := None; progressed := [] |}.

(** A scan state at the start of a file of five bytes, with single-byte
    parameters. *)
Definition at_start `{Collaborators} : IndexingState :=
  {| encodingParams := single_byte; pos := 0; max_length := 0;
     additional_spaces := 0; end_ := 0; file_size := 5;
     encodingGuess := None; fileTextCodec := None |}.

(** The byte [0x0A] of the line feed that ends before offset [p], for a
    line feed [lineFeedWidth] bytes wide whose [0x0A] byte is the
    [beforeCrOffset]-th. *)
Definition line_feed_byte (params : EncodingParameters) (p : Z) : Z :=
  p - lineFeedWidth params + beforeCrOffset params.

(** Every offset of [positions] follows a line feed of [bytes], which start
    at offset [i]. *)
Definition follow_line_feeds (params : EncodingParameters) (i : Z)
    (bytes : list byte) (positions : list Z) : Prop :=
  Forall (fun p => i <= line_feed_byte params p < i + zlen bytes
                   /\ nth_error bytes (Z.to_nat (line_feed_byte params p - i))
                      = Some LF)
         positions.

(** Parameters of UTF-16 BE: the line feed is [00 0A]. *)
Definition utf16_be : EncodingParameters :=
  {| lineFeedWidth := 2; beforeCrOffset := 1 |}.

(** A scan state at the start of a file of four bytes, with the parameters of
    UTF-16 BE. *)
Definition at_start_utf16_be `{Collaborators} : IndexingState :=
  {| encodingParams := utf16_be; pos := 0; max_length := 0;
     additional_spaces := 0; end_ := 0; file_size := 4;
     encodingGuess := None; fileTextCodec := None |}.

(** U+0A41 and a line feed, in UTF-16 BE. *)
Definition gurmukhi_line : list byte := [x0a; x41; x00; x0a]%byte.

(** The encoding parameters that a full index scans with: those of the
    detector's codec for the first block, or the default ones under a forced
    encoding (which [guessEncoding] then leaves alone). *)
Definition parameters_in_use `{Collaborators} (forced : option Codec)
    (F : list byte) : EncodingParameters :=
  match forced with
  | Some _ => defaultEncodingParameters
  | None => encodingParameters (detectEncoding (file_read F 0 sizeChunk))
  end.

(** The state in which [doIndex] enters its graph for a full index. *)
Definition full_index_start `{Collaborators} (forced : option Codec)
    (F : list byte) : IndexingState :=
  {| encodingParams := defaultEncodingParameters; pos := 0; max_length := 0;
     additional_spaces := 0; end_ := 0; file_size := zlen F;
     encodingGuess := None; fileTextCodec := forced |}.

(** What holds between two blocks of a full index of [F], whatever the
    encoding: the positions collected grow, none is beyond the position of
    the state, and each follows a [0x0A] byte of the file. *)
Definition sound_so_far `{Collaborators} (forced : option Codec) (F : list byte)
    (fp : Z) (st : IndexingState) (d : IndexingData) (evs : list Z) : Prop :=
  0 <= pos st <= fp + 4
  /\ file_size st = zlen F
  /\ fakeFinalLF (linePosition_ d) = false
  /\ increasing (array (linePosition_ d))
  /\ Forall (fun p => p <= pos st) (array (linePosition_ d))
  /\ follow_line_feeds (parameters_in_use forced F) 0 F (array (linePosition_ d))
  /\ ((fp = 0 /\ st = full_index_start forced F
       /\ d = forceEncoding forced clear)
      \/ (encodingParams st = parameters_in_use forced F
          /\ fileTextCodec st <> None)).

(** What holds between two blocks of an index operation that scans the file
    [F] from its start as for a single-byte encoding, whatever the tabs: the
    longest line of the index is at least the display width of every line
    closed so far, and the column the state stands at is at least the
    display column of the open line. *)
Definition measured_so_far `{Collaborators} (F : list byte)
    (fp : Z) (st : IndexingState) (d : IndexingData) (evs : list Z) : Prop :=
  scans_single_byte st
  /\ file_size st = zlen F
  /\ 0 <= pos st <= fp
  /\ fp <= zlen F
  /\ 0 <= maxLength_ d
  /\ widest_line 0 0 (firstn (Z.to_nat fp) F) <= maxLength_ d
  /\ column_after 0 (firstn (Z.to_nat fp) F)
     <= fp - pos st + additional_spaces st
     <= 8 * fp.

(** ** The width of the line-number gutter (abstractlogview.cpp) *)

(** [__builtin_clzll( value )], the branch of [countLeadingZeroes] compiled
    outside Windows: the number of zero bits above the highest set bit,
    counted down from bit [n - 1]. The builtin is not defined for zero; its
    only caller passes [x | 1]. *)
Fixpoint leading_zeroes (n : nat) (value : Z) : Z :=
  match n with
  | O => 0
  | S k => if Z.testbit value (Z.of_nat k) then 0 else 1 + leading_zeroes k value
  end.

Definition countLeadingZeroes (value : Z) : Z := leading_zeroes 64 value.

Definition intLog2 (x : Z) : Z := 63 - countLeadingZeroes (Z.lor x 1).

(** The [static uint64_t table[]] of [countDigits]. *)
Definition table : list Z :=
  [ 9;
    99;
    999;
    9999;
    99999;
    999999;
    9999999;
    99999999;
    999999999;
    9999999999;
    99999999999;
    999999999999;
    9999999999999;
    99999999999999;
    999999999999999;
    9999999999999999;
    99999999999999999;
    999999999999999999;
    9999999999999999999;
    0xFFFFFFFFFFFFFF ].

(** [countDigits], on a [uint64_t]. *)
Definition countDigits (x : Z) : Z :=
  let l2 := intLog2 x in
  let ans := Z.shiftr (77 * l2) 8 in
  let ans := if x >? nth (Z.to_nat ans) table 0 then ans + 1 else ans in
  ans + 1.

(** What [countDigits] relies on for a value whose highest set bit is [k]. *)
Definition digits_bracket (k : Z) : bool :=
  let a := Z.shiftr (77 * k) 8 in
  (0 <=? a) && (a <=? 18)
  && (nth (Z.to_nat a) table 0 =? 10 ^ (a + 1) - 1)
  && (10 ^ a <=? 2 ^ k)
  && (2 ^ (k + 1) <=? 10 ^ (a + 2)).

(** ** Inputs for the claims *)

(** A file of 2 GiB, all zero bytes. *)
Definition two_gib_of_zeroes : list byte := repeat x00 (Z.to_nat (2 ^ 31)).

(** The index of [F] as far as [CheckFileChangesOperation] reads it: the
    MD5 and the length of [F]. *)
Definition indexed_in_full `{Collaborators} (F : list byte) : World :=
  {| indexing_data_ :=
       {| linePosition_ := emptyLinePositionArray;
          maxLength_ := 0;
          hash_ := {| hash := md5 F; size := zlen F |};
          indexHash_ := F;
          encodingGuess_ := None;
          encodingForced_ := None |};
     interruptRequest_ := None;
     progressed := [] |}.

(** The scan state for a file that was empty when [doIndex] asked for its
    size. *)
Definition opened_empty `{Collaborators} : IndexingState :=
  {| encodingParams := defaultEncodingParameters; pos := 0; max_length := 0;
     additional_spaces := 0; end_ := 0; file_size := 0;
     encodingGuess := None; fileTextCodec := None |}.

(** The scan state before the last block of a file of 671089 bytes whose
    last line starts at offset 671000. *)
Definition before_last_block `{Collaborators} : IndexingState :=
  {| encodingParams := defaultEncodingParameters; pos := 671000; max_length := 0;
     additional_spaces := 0; end_ := 0; file_size := 671089;
     encodingGuess := None; fileTextCodec := None |}.



(** The scan state in a file of 2 GiB and two bytes whose first line has
    not ended yet. *)
Definition in_a_long_line `{Collaborators} : IndexingState :=
  {| encodingParams := single_byte; pos := 0; max_length := 0;
     additional_spaces := 0; end_ := 0; file_size := 2 ^ 31 + 2;
     encodingGuess := None; fileTextCodec := None |}.


(** A line of 2 GiB and 1 MiB, closed by a line feed. *)
Definition long_line : list byte :=
  repeat "a"%byte (Z.to_nat (2 ^ 31 + 2 ^ 20)) ++ [LF].

(** What holds between two blocks of the full index of [long_line]: the
    blocks start at multiples of the chunk size, the parameters are those of
    a single-byte encoding once the codec is settled, no line position has
    been found, and the position of the state is still 0. *)
Definition in_the_long_line (fp : Z) (st : @IndexingState sample)
    (d : @IndexingData sample) (evs : list Z) : Prop :=
  file_size st = zlen long_line
  /\ pos st = 0
  /\ (fileTextCodec st <> None -> encodingParams st = single_byte)
  /\ linePosition_ d = emptyLinePositionArray
  /\ ((fp mod sizeChunk = 0 /\ 0 <= fp <= 2 ^ 31 + 2 ^ 20)
      \/ fp = 2 ^ 31 + 2 ^ 20 + 1).


(** ** Arithmetic and list facts *)

Lemma to_int_id x : - 2 ^ 31 <= x < 2 ^ 31 -> to_int x = x.
Proof.
  intros H. unfold to_int.
  rewrite Z.mod_small by lia. lia.
Qed.

Lemma zlen_nonneg {A} (l : list A) : 0 <= zlen l.
Proof. unfold zlen. lia. Qed.

Lemma zlen_app {A} (l1 l2 : list A) : zlen (l1 ++ l2) = zlen l1 + zlen l2.
Proof. unfold zlen. rewrite length_app. lia. Qed.

Lemma zlen_cons {A} (a : A) (l : list A) : zlen (a :: l) = 1 + zlen l.
Proof. unfold zlen. simpl length. lia. Qed.

Lemma zlen_nil {A} : zlen (@nil A) = 0.
Proof. reflexivity. Qed.

Lemma skipn_zlen_app {A} (pre seg : list A) :
  skipn (Z.to_nat (zlen pre)) (pre ++ seg) = seg.
Proof.
  unfold zlen. rewrite Nat2Z.id.
  rewrite skipn_app, Nat.sub_diag, skipn_all. reflexivity.
Qed.

Lemma firstn_zlen_app {A} (l r : list A) :
  firstn (Z.to_nat (zlen l)) (l ++ r) = l.
Proof.
  unfold zlen. rewrite Nat2Z.id.
  rewrite firstn_app, Nat.sub_diag, firstn_all. simpl. apply app_nil_r.
Qed.

Lemma find_from_none c l i : ~ In c l -> find_from c l i = None.
Proof.
  revert i. induction l as [|b r IH]; intros i Hn; simpl; [reflexivity|].
  destruct (Byte.eqb b c) eqn:E.
  - apply Byte.byte_dec_bl in E. subst. exfalso. apply Hn. left. reflexivity.
  - apply IH. intros Hin. apply Hn. right. exact Hin.
Qed.

Lemma find_from_first c pre post i :
  ~ In c pre -> find_from c (pre ++ c :: post) i = Some (i + zlen pre).
Proof.
  revert i. induction pre as [|b r IH]; intros i Hn; simpl.
  - rewrite Byte.byte_dec_lb by reflexivity. rewrite zlen_nil. f_equal. lia.
  - destruct (Byte.eqb b c) eqn:E.
    + apply Byte.byte_dec_bl in E. subst. exfalso. apply Hn. left. reflexivity.
    + rewrite IH by (intros Hin; apply Hn; right; exact Hin).
      rewrite zlen_cons. f_equal. lia.
Qed.

(** A search either misses, or splits the bytes at the first match. *)
Lemma find_from_cases c l i :
  (find_from c l i = None /\ ~ In c l)
  \/ exists pre post, l = pre ++ c :: post /\ ~ In c pre
                      /\ find_from c l i = Some (i + zlen pre).
Proof.
  revert i. induction l as [|b r IH]; intros i.
  - left. split; [reflexivity | intros []].
  - destruct (Byte.byte_eq_dec b c) as [->|Hne].
    + right. exists [], r. repeat split; [intros []|].
      apply (find_from_first c [] r i). intros [].
    + destruct (IH (i + 1)) as [[Hf Hn]|(pre & post & Hl & Hn & Hf)].
      * left. split.
        -- apply find_from_none. intros [Hb|Hr]; [congruence|contradiction].
        -- intros [Hb|Hr]; [congruence|contradiction].
      * right. exists (b :: pre), post. subst r. repeat split.
        -- intros [Hb|Hp]; [congruence|contradiction].
        -- apply (find_from_first c (b :: pre) post i).
           intros [Hb|Hp]; [congruence|contradiction].
Qed.

(** [memchr] on the bytes [seg] that follow the first [zlen pre] ones,
    over at most [n] of them. *)
Lemma memchr_app pre seg c n :
  memchr (pre ++ seg) (zlen pre) c n
  = find_from c (firstn (Z.to_nat n) seg) (zlen pre).
Proof. unfold memchr. rewrite skipn_zlen_app. reflexivity. Qed.

Lemma LF_not_TAB : LF <> TAB.
Proof. discriminate. Qed.

Lemma find_from_range c l i k :
  find_from c l i = Some k -> i <= k < i + zlen l.
Proof.
  destruct (find_from_cases c l i) as [[Hf _]|(pre & post & Hl & _ & Hf)];
    rewrite Hf; [discriminate|].
  intros [= <-]. subst l. rewrite zlen_app, zlen_cons.
  pose proof (zlen_nonneg pre). pose proof (zlen_nonneg post). lia.
Qed.

Lemma memchr_range block s c n t :
  0 <= s -> memchr block s c n = Some t -> s <= t < zlen block.
Proof.
  intros Hs H. unfold memchr in H. apply find_from_range in H.
  unfold zlen in *. rewrite length_firstn, length_skipn in H. lia.
Qed.

(** ** Rounding to single precision *)
Lemma scale_eq n d e :
  scale n d e = (n * 2 ^ Z.max 0 (- e), d * 2 ^ Z.max 0 e).
Proof.
  unfold scale. destruct (0 <=? e) eqn:E.
  - apply Z.leb_le in E. rewrite (Z.max_l 0 (- e)) by lia.
    rewrite (Z.max_r 0 e) by lia. rewrite Z.pow_0_r, Z.mul_1_r. reflexivity.
  - apply Z.leb_gt in E. rewrite (Z.max_r 0 (- e)) by lia.
    rewrite (Z.max_l 0 e) by lia. rewrite Z.pow_0_r, Z.mul_1_r. reflexivity.
Qed.

Lemma pow2_pos k : 0 < 2 ^ k \/ k < 0.
Proof. destruct (Z_lt_ge_dec k 0); [right; lia|left; apply Z.pow_pos_nonneg; lia]. Qed.

Lemma pow2_gt0 k : 0 <= k -> 0 < 2 ^ k.
Proof. intros. apply Z.pow_pos_nonneg; lia. Qed.

(** [x * 2 ^ b <= y * 2 ^ a] depends on [b - a] only. *)
Lemma pow_le_shift x y a b a' b' :
  0 <= a -> 0 <= b -> 0 <= a' -> 0 <= b' -> b - a = b' - a' ->
  (x * 2 ^ b <= y * 2 ^ a <-> x * 2 ^ b' <= y * 2 ^ a').
Proof.
  intros Ha Hb Ha' Hb' E.
  assert (G : forall a b c, 0 <= a -> 0 <= b -> 0 <= c ->
            (x * 2 ^ b <= y * 2 ^ a <-> x * 2 ^ (b + c) <= y * 2 ^ (a + c))).
  { intros a0 b0 c H1 H2 H3. rewrite !Z.pow_add_r by lia.
    pose proof (pow2_gt0 c H3) as Hc.
    rewrite !Z.mul_assoc. split; intros H.
    - apply Z.mul_le_mono_nonneg_r; lia.
    - apply Z.mul_le_mono_pos_r in H; lia. }
  destruct (Z_le_gt_dec a a') as [L|L].
  - replace a' with (a + (a' - a)) by lia. replace b' with (b + (a' - a)) by lia.
    apply G; lia.
  - replace a with (a' + (a - a')) by lia. replace b with (b' + (a - a')) by lia.
    symmetry. apply G; lia.
Qed.

Lemma pow_lt_shift x y a b a' b' :
  0 <= a -> 0 <= b -> 0 <= a' -> 0 <= b' -> b - a = b' - a' ->
  (y * 2 ^ a < x * 2 ^ b <-> y * 2 ^ a' < x * 2 ^ b').
Proof.
  intros Ha Hb Ha' Hb' E.
  pose proof (pow_le_shift x y a b a' b' Ha Hb Ha' Hb' E) as H.
  lia.
Qed.


Lemma floor_log2_fraction n d :
  0 < n -> 0 < d ->
  between_powers n d (ulp_exponent n d + 23).
Proof.
  intros Hn Hd. unfold ulp_exponent.
  set (k := Z.log2 n - Z.log2 d).
  rewrite scale_eq.
  pose proof (Z.log2_spec n Hn) as [Hn1 Hn2].
  pose proof (Z.log2_spec d Hd) as [Hd1 Hd2].
  pose proof (Z.log2_nonneg n) as Ln. pose proof (Z.log2_nonneg d) as Ld.
  assert (Hlow : d * 2 ^ Z.log2 n <= n * 2 ^ (Z.log2 d + 1)).
  { replace (Z.succ (Z.log2 d)) with (Z.log2 d + 1) in Hd2 by lia.
    pose proof (pow2_gt0 (Z.log2 n) Ln). pose proof (pow2_gt0 (Z.log2 d + 1) ltac:(lia)).
    transitivity (2 ^ (Z.log2 d + 1) * 2 ^ Z.log2 n).
    - apply Z.mul_le_mono_nonneg_r; lia.
    - rewrite Z.mul_comm. apply Z.mul_le_mono_nonneg_r; lia. }
  assert (Hhigh : n * 2 ^ Z.log2 d < d * 2 ^ (Z.log2 n + 1)).
  { replace (Z.succ (Z.log2 n)) with (Z.log2 n + 1) in Hn2 by lia.
    pose proof (pow2_gt0 (Z.log2 d) Ld). pose proof (pow2_gt0 (Z.log2 n + 1) ltac:(lia)).
    apply Z.lt_le_trans with (2 ^ (Z.log2 n + 1) * 2 ^ Z.log2 d).
    - apply Z.mul_lt_mono_pos_r; lia.
    - rewrite Z.mul_comm. apply Z.mul_le_mono_nonneg_r; lia. }
  destruct (d * 2 ^ Z.max 0 k <=? n * 2 ^ Z.max 0 (- k)) eqn:T.
  - apply Z.leb_le in T. replace (k - 23 + 23) with k by lia. split; [exact T|].
    apply (pow_lt_shift d n (Z.log2 d) (Z.log2 n + 1)); try lia.
  - apply Z.leb_gt in T. replace (k - 1 - 23 + 23) with (k - 1) by lia. split.
    + apply (pow_le_shift d n (Z.log2 d + 1) (Z.log2 n)); try lia.
    + replace (k - 1 + 1) with k by lia. exact T.
Qed.

(** The scaled fraction has its quotient in [2^23, 2^24). *)
Lemma scale_ulp n d :
  0 < n -> 0 < d ->
  let e := ulp_exponent n d in
  let N := n * 2 ^ Z.max 0 (- e) in
  let D := d * 2 ^ Z.max 0 e in
  0 < D /\ 2 ^ 23 * D <= N < 2 ^ 24 * D.
Proof.
  intros Hn Hd e N D.
  destruct (floor_log2_fraction n d Hn Hd) as [H1 H2]. fold e in H1, H2.
  assert (HD : 0 < D).
  { unfold D. apply Z.mul_pos_pos; [lia|apply pow2_gt0; lia]. }
  split; [exact HD|]. unfold N, D. split.
  - replace (2 ^ 23 * (d * 2 ^ Z.max 0 e)) with (d * 2 ^ (Z.max 0 e + 23))
      by (rewrite Z.pow_add_r by lia; ring).
    apply (pow_le_shift d n (Z.max 0 (- (e + 23))) (Z.max 0 (e + 23))); try lia.
  - replace (2 ^ 24 * (d * 2 ^ Z.max 0 e)) with (d * 2 ^ (Z.max 0 e + 24))
      by (rewrite Z.pow_add_r by lia; ring).
    apply (pow_lt_shift d n (Z.max 0 (- (e + 23 + 1))) (Z.max 0 (e + 23 + 1))); try lia.
Qed.



Lemma round_nearest_even_cases n d :
  0 < d ->
  let q := n / d in let r := n mod d in
  n = d * q + r /\ 0 <= r < d
  /\ ((round_nearest_even n d = q /\ (2 * r < d \/ (2 * r = d /\ Z.even q = true)))
      \/ (round_nearest_even n d = q + 1
          /\ (d < 2 * r \/ (2 * r = d /\ Z.even q = false)))).
Proof.
  intros Hd q r.
  pose proof (Z.div_mod n d ltac:(lia)) as E.
  pose proof (Z.mod_pos_bound n d Hd) as B. fold q r in E, B.
  split; [exact E|]. split; [exact B|].
  unfold round_nearest_even. fold q r.
  destruct (2 * r <? d) eqn:A; [left; split; [reflexivity|left; lia]|].
  destruct (d <? 2 * r) eqn:A'; [right; split; [reflexivity|left; lia]|].
  destruct (Z.even q) eqn:Ev.
  - left. split; [reflexivity|right; split; [lia|reflexivity]].
  - right. split; [reflexivity|right; split; [lia|reflexivity]].
Qed.

Lemma round_nearest_even_mono n1 d1 n2 d2 :
  0 < d1 -> 0 < d2 -> n1 * d2 <= n2 * d1 ->
  round_nearest_even n1 d1 <= round_nearest_even n2 d2.
Proof.
  intros H1 H2 Hle.
  destruct (round_nearest_even_cases n1 d1 H1) as (E1 & B1 & C1).
  destruct (round_nearest_even_cases n2 d2 H2) as (E2 & B2 & C2).
  set (q1 := n1 / d1) in *. set (r1 := n1 mod d1) in *.
  set (q2 := n2 / d2) in *. set (r2 := n2 mod d2) in *.
  assert (Hq : q1 <= q2).
  { destruct (Z_le_gt_dec q1 q2) as [L|L]; [exact L|exfalso].
    assert (q2 + 1 <= q1) by lia.
    assert (n2 * d1 < n1 * d2); [|lia].
    rewrite E1, E2.
    assert (d2 * q2 + r2 < d2 * (q2 + 1)) by lia.
    assert (d1 * (q2 + 1) <= d1 * q1 + r1) by nia.
    nia. }
  destruct (Z.eq_dec q1 q2) as [Eq|Ne].
  - assert (Hr : r1 * d2 <= r2 * d1).
    { rewrite E1, E2, Eq in Hle. nia. }
    destruct C1 as [[-> _]|[-> C1]]; destruct C2 as [[-> C2]|[-> _]]; try lia.
    exfalso. rewrite Eq in C1.
    destruct C1 as [C1|[C1 Ev1]]; destruct C2 as [C2|[C2 Ev2]]; try congruence; nia.
  - destruct C1 as [[-> _]|[-> _]]; destruct C2 as [[-> _]|[-> _]]; lia.
Qed.

Lemma round_nearest_even_exact k d : 0 < d -> round_nearest_even (k * d) d = k.
Proof.
  intros Hd. unfold round_nearest_even.
  rewrite Z.div_mul by lia. rewrite Z.mod_mul by lia.
  replace (2 * 0 <? d) with true by (symmetry; apply Z.ltb_lt; lia). reflexivity.
Qed.

Lemma round_nearest_even_near n d :
  0 < d ->
  2 * (d * round_nearest_even n d) <= 2 * n + d
  /\ 2 * n <= 2 * (d * round_nearest_even n d) + d.
Proof.
  intros Hd.
  destruct (round_nearest_even_cases n d Hd) as (E & B & C).
  set (q := n / d) in *. set (r := n mod d) in *.
  destruct C as [[-> C]|[-> C]]; nia.
Qed.




Lemma round_binary32_pos n d :
  0 < n -> 0 < d ->
  let e := ulp_exponent n d in
  let m := round_nearest_even (n * 2 ^ Z.max 0 (- e)) (d * 2 ^ Z.max 0 e) in
  round_binary32 (n, d) = (m * 2 ^ Z.max 0 e, 2 ^ Z.max 0 (- e))
  /\ 2 ^ 23 <= m <= 2 ^ 24.
Proof.
  intros Hn Hd e m.
  destruct (scale_ulp n d Hn Hd) as (HD & Hlo & Hhi). fold e in HD, Hlo, Hhi.
  split.
  - unfold round_binary32.
    replace (n =? 0) with false by (symmetry; apply Z.eqb_neq; lia).
    rewrite Z.abs_eq by lia. fold e. rewrite scale_eq.
    replace (Z.sgn n) with 1 by (symmetry; apply Z.sgn_pos; lia).
    rewrite Z.mul_1_l. fold m.
    destruct (0 <=? e) eqn:E.
    + apply Z.leb_le in E. rewrite (Z.max_r 0 e), (Z.max_l 0 (- e)) by lia. reflexivity.
    + apply Z.leb_gt in E. rewrite (Z.max_l 0 e), (Z.max_r 0 (- e)) by lia.
      rewrite Z.pow_0_r, Z.mul_1_r. reflexivity.
  - split.
    + rewrite <- (round_nearest_even_exact (2 ^ 23) _ HD).
      apply round_nearest_even_mono; try assumption. nia.
    + rewrite <- (round_nearest_even_exact (2 ^ 24) _ HD).
      apply round_nearest_even_mono; try assumption. nia.
Qed.

Lemma round_binary32_zero d : round_binary32 (0, d) = (0, 1).
Proof. reflexivity. Qed.

Lemma round_binary32_sign n d :
  0 <= n -> 0 < d ->
  0 <= fst (round_binary32 (n, d)) /\ 0 < snd (round_binary32 (n, d))
  /\ (0 < n -> 0 < fst (round_binary32 (n, d))).
Proof.
  intros Hn Hd. destruct (Z.eq_dec n 0) as [->|Hne].
  - rewrite round_binary32_zero. cbn. lia.
  - destruct (round_binary32_pos n d ltac:(lia) Hd) as (-> & Hm1 & Hm2).
    cbn [fst snd].
    pose proof (pow2_gt0 (Z.max 0 (ulp_exponent n d)) ltac:(lia)).
    pose proof (pow2_gt0 (Z.max 0 (- ulp_exponent n d)) ltac:(lia)).
    assert (0 < 2 ^ 23) by reflexivity.
    split; [nia|]. split; [lia|]. intros _. nia.
Qed.

Lemma pow2_le_inv a b : 0 <= a -> 0 <= b -> 2 ^ a < 2 ^ b -> a < b.
Proof.
  intros Ha Hb H. destruct (Z_lt_ge_dec a b) as [L|L]; [exact L|exfalso].
  assert (2 ^ b <= 2 ^ a) by (apply Z.pow_le_mono_r; lia). lia.
Qed.

Lemma round_binary32_mono n1 d1 n2 d2 :
  0 <= n1 -> 0 < d1 -> 0 < d2 -> n1 * d2 <= n2 * d1 ->
  float_le (round_binary32 (n1, d1)) (round_binary32 (n2, d2)).
Proof.
  intros Hn1 Hd1 Hd2 Hle. unfold float_le.
  assert (Hn2 : 0 <= n2) by nia.
  destruct (Z.eq_dec n1 0) as [->|Hne1].
  { rewrite round_binary32_zero. cbn [fst snd].
    destruct (round_binary32_sign n2 d2 Hn2 Hd2) as (H1 & H2 & _). lia. }
  assert (Hp2 : 0 < n2) by nia.
  destruct (round_binary32_pos n1 d1 ltac:(lia) Hd1) as (-> & Hm1).
  destruct (round_binary32_pos n2 d2 Hp2 Hd2) as (-> & Hm2).
  destruct (scale_ulp n1 d1 ltac:(lia) Hd1) as (HD1 & Hlo1 & Hhi1).
  destruct (scale_ulp n2 d2 Hp2 Hd2) as (HD2 & Hlo2 & Hhi2).
  set (e1 := ulp_exponent n1 d1) in *. set (e2 := ulp_exponent n2 d2) in *.
  set (a1 := Z.max 0 (- e1)) in *. set (b1 := Z.max 0 e1) in *.
  set (a2 := Z.max 0 (- e2)) in *. set (b2 := Z.max 0 e2) in *.
  set (m1 := round_nearest_even _ _) in *.
  set (m2 := round_nearest_even (n2 * _) _) in *.
  cbn [fst snd].
  assert (Ha1 : 0 <= a1) by lia. assert (Hb1 : 0 <= b1) by lia.
  assert (Ha2 : 0 <= a2) by lia. assert (Hb2 : 0 <= b2) by lia.
  pose proof (pow2_gt0 a1 Ha1) as Pa1. pose proof (pow2_gt0 b1 Hb1) as Pb1.
  pose proof (pow2_gt0 a2 Ha2) as Pa2. pose proof (pow2_gt0 b2 Hb2) as Pb2.
  assert (E1 : b1 - a1 = e1) by lia. assert (E2 : b2 - a2 = e2) by lia.
  destruct (Z.compare_spec e1 e2) as [Eq|Lt|Gt].
  - assert (a1 = a2) by lia. assert (b1 = b2) by lia.
    assert (m1 <= m2).
    { unfold m1, m2. apply round_nearest_even_mono; try assumption.
      replace a2 with a1 by lia. replace b2 with b1 by lia.
      replace (n1 * 2 ^ a1 * (d2 * 2 ^ b1)) with (n1 * d2 * (2 ^ a1 * 2 ^ b1)) by ring.
      replace (n2 * 2 ^ a1 * (d1 * 2 ^ b1)) with (n2 * d1 * (2 ^ a1 * 2 ^ b1)) by ring.
      apply Z.mul_le_mono_nonneg_r; [nia|exact Hle]. }
    replace a2 with a1 by lia. replace b2 with b1 by lia.
    apply Z.mul_le_mono_nonneg_r; [lia|].
    apply Z.mul_le_mono_nonneg_r; lia.
  - transitivity (2 ^ 24 * 2 ^ b1 * 2 ^ a2).
    + apply Z.mul_le_mono_nonneg_r; [lia|]. apply Z.mul_le_mono_nonneg_r; lia.
    + transitivity (2 ^ 23 * 2 ^ b2 * 2 ^ a1).
      * rewrite <- !Z.pow_add_r by lia. apply Z.pow_le_mono_r; lia.
      * apply Z.mul_le_mono_nonneg_r; [lia|]. apply Z.mul_le_mono_nonneg_r; lia.
  - exfalso.
    assert (S1 : 2 ^ 23 * (d1 * 2 ^ b1) * (d2 * 2 ^ a2) <= n1 * 2 ^ a1 * (d2 * 2 ^ a2)).
    { apply Z.mul_le_mono_nonneg_r; [nia|exact Hlo1]. }
    assert (S2 : n1 * 2 ^ a1 * (d2 * 2 ^ a2) <= n2 * 2 ^ a2 * (d1 * 2 ^ a1)).
    { replace (n1 * 2 ^ a1 * (d2 * 2 ^ a2)) with (n1 * d2 * (2 ^ a1 * 2 ^ a2)) by ring.
      replace (n2 * 2 ^ a2 * (d1 * 2 ^ a1)) with (n2 * d1 * (2 ^ a1 * 2 ^ a2)) by ring.
      apply Z.mul_le_mono_nonneg_r; [nia|exact Hle]. }
    assert (S3 : n2 * 2 ^ a2 * (d1 * 2 ^ a1) < 2 ^ 24 * (d2 * 2 ^ b2) * (d1 * 2 ^ a1)).
    { apply Z.mul_lt_mono_pos_r; [nia|exact Hhi2]. }
    assert (S4 : 2 ^ (23 + b1 + a2) * (d1 * d2) < 2 ^ (24 + b2 + a1) * (d1 * d2)).
    { rewrite !Z.pow_add_r by lia.
      replace (2 ^ 23 * 2 ^ b1 * 2 ^ a2 * (d1 * d2))
        with (2 ^ 23 * (d1 * 2 ^ b1) * (d2 * 2 ^ a2)) by ring.
      replace (2 ^ 24 * 2 ^ b2 * 2 ^ a1 * (d1 * d2))
        with (2 ^ 24 * (d2 * 2 ^ b2) * (d1 * 2 ^ a1)) by ring.
      lia. }
    apply Z.mul_lt_mono_pos_r in S4; [|nia].
    apply pow2_le_inv in S4; lia.
Qed.

Lemma round_binary32_upper n d :
  0 < n -> 0 < d ->
  2 ^ 24 * fst (round_binary32 (n, d)) * d
  <= (2 ^ 24 + 1) * n * snd (round_binary32 (n, d)).
Proof.
  intros Hn Hd.
  destruct (round_binary32_pos n d Hn Hd) as (-> & Hm).
  destruct (scale_ulp n d Hn Hd) as (HD & Hlo & Hhi).
  set (e := ulp_exponent n d) in *.
  set (N := n * 2 ^ Z.max 0 (- e)) in *. set (D := d * 2 ^ Z.max 0 e) in *.
  set (m := round_nearest_even N D) in *.
  destruct (round_nearest_even_near N D HD) as [Hup _]. fold m in Hup.
  cbn [fst snd].
  replace (2 ^ 24 * (m * 2 ^ Z.max 0 e) * d) with (2 ^ 24 * (D * m)) by (unfold D; ring).
  replace ((2 ^ 24 + 1) * n * 2 ^ Z.max 0 (- e)) with ((2 ^ 24 + 1) * N)
    by (unfold N; ring).
  change (2 ^ 24) with 16777216 in *. change (2 ^ 23) with 8388608 in *. lia.
Qed.

Lemma float_floor_mono (a b : float) :
  0 < snd a -> 0 < snd b -> float_le a b -> float_floor a <= float_floor b.
Proof.
  unfold float_le, float_floor. intros Ha Hb H.
  apply Z.div_le_lower_bound; [exact Hb|].
  pose proof (Z.mul_div_le (fst a) (snd a) Ha) as Hq.
  set (q := fst a / snd a) in *.
  assert (snd b * q * snd a <= fst b * snd a) by nia.
  apply Z.mul_le_mono_pos_r in H0; lia.
Qed.


Lemma progress_at_mono pos1 pos2 file_size :
  0 <= pos1 <= pos2 -> 0 < file_size ->
  progress_at pos1 file_size <= progress_at pos2 file_size.
Proof.
  intros Hpos Hfs. unfold progress_at, float_mul, float_of_int.
  destruct (round_binary32_sign file_size 1 ltac:(lia) ltac:(lia)) as (_ & Hfd & Hfn).
  specialize (Hfn Hfs).
  set (f := round_binary32 (file_size, 1)) in *.
  destruct (round_binary32_sign pos1 1 ltac:(lia) ltac:(lia)) as (Hx1 & Hdx1 & _).
  destruct (round_binary32_sign pos2 1 ltac:(lia) ltac:(lia)) as (Hx2 & Hdx2 & _).
  pose proof (round_binary32_mono pos1 1 pos2 1 ltac:(lia) ltac:(lia) ltac:(lia)
                ltac:(lia)) as Hx.
  set (x1 := round_binary32 (pos1, 1)) in *. set (x2 := round_binary32 (pos2, 1)) in *.
  unfold float_le in Hx. cbn [fst snd].
  destruct (round_binary32_sign (fst x1 * 100) (snd x1 * 1) ltac:(lia) ltac:(lia))
    as (Hp1 & Hdp1 & _).
  destruct (round_binary32_sign (fst x2 * 100) (snd x2 * 1) ltac:(lia) ltac:(lia))
    as (Hp2 & Hdp2 & _).
  pose proof (round_binary32_mono (fst x1 * 100) (snd x1 * 1) (fst x2 * 100) (snd x2 * 1)
                ltac:(lia) ltac:(lia) ltac:(lia) ltac:(lia)) as Hp.
  set (p1 := round_binary32 (fst x1 * 100, snd x1 * 1)) in *.
  set (p2 := round_binary32 (fst x2 * 100, snd x2 * 1)) in *.
  unfold float_le in Hp.
  assert (Hq : fst p1 * snd f * (snd p2 * fst f) <= fst p2 * snd f * (snd p1 * fst f)).
  { replace (fst p1 * snd f * (snd p2 * fst f))
      with (fst p1 * snd p2 * (snd f * fst f)) by ring.
    replace (fst p2 * snd f * (snd p1 * fst f))
      with (fst p2 * snd p1 * (snd f * fst f)) by ring.
    apply Z.mul_le_mono_nonneg_r; [nia|exact Hp]. }
  apply float_floor_mono.
  - apply round_binary32_sign; nia.
  - apply round_binary32_sign; nia.
  - apply round_binary32_mono; try nia.
Qed.

Lemma progress_at_bounds pos file_size :
  0 <= pos <= file_size -> 0 < file_size ->
  0 <= progress_at pos file_size <= 100.
Proof.
  intros Hpos Hfs. split.
  - unfold progress_at, float_mul, float_of_int.
    destruct (round_binary32_sign file_size 1 ltac:(lia) ltac:(lia)) as (_ & Hfd & Hfn).
    specialize (Hfn Hfs).
    set (f := round_binary32 (file_size, 1)) in *.
    destruct (round_binary32_sign pos 1 ltac:(lia) ltac:(lia)) as (Hx1 & Hdx1 & _).
    set (x1 := round_binary32 (pos, 1)) in *. cbn [fst snd].
    destruct (round_binary32_sign (fst x1 * 100) (snd x1 * 1) ltac:(lia) ltac:(lia))
      as (Hp1 & Hdp1 & _).
    set (p1 := round_binary32 (fst x1 * 100, snd x1 * 1)) in *.
    destruct (round_binary32_sign (fst p1 * snd f) (snd p1 * fst f) ltac:(nia) ltac:(nia))
      as (Hq1 & Hdq1 & _).
    unfold float_floor. apply Z.div_pos; lia.
  - transitivity (progress_at file_size file_size);
      [apply progress_at_mono; lia|].
    unfold progress_at, float_mul, float_of_int.
    destruct (round_binary32_sign file_size 1 ltac:(lia) ltac:(lia)) as (_ & Hfd & Hfn).
    specialize (Hfn Hfs).
    set (f := round_binary32 (file_size, 1)) in *. cbn [fst snd].
    destruct (round_binary32_sign (fst f * 100) (snd f * 1) ltac:(lia) ltac:(lia))
      as (_ & Hdp & Hnp). specialize (Hnp ltac:(lia)).
    pose proof (round_binary32_upper (fst f * 100) (snd f * 1) ltac:(lia) ltac:(lia)) as Hup.
    set (p := round_binary32 (fst f * 100, snd f * 1)) in *.
    assert (Hq : float_le (round_binary32 (fst p * snd f, snd p * fst f))
                          (round_binary32 (201, 2))).
    { change (2 ^ 24) with 16777216 in Hup. apply round_binary32_mono; nia. }
    destruct (round_binary32_sign (fst p * snd f) (snd p * fst f) ltac:(nia) ltac:(nia))
      as (Hq1 & Hdq1 & _).
    set (q := round_binary32 (fst p * snd f, snd p * fst f)) in *.
    change (round_binary32 (201, 2)) with (13172736, 131072) in Hq.
    unfold float_le in Hq. cbn [fst snd] in Hq.
    unfold float_floor.
    apply Z.lt_succ_r. apply Z.div_lt_upper_bound; [exact Hdq1|]. lia.
Qed.

Lemma progress_at_zero file_size : progress_at 0 file_size = 0.
Proof. reflexivity. Qed.

Section ExpandTabs.

Context {collaborators : Collaborators}.

Lemma set_additional_spaces_twice v v' (st : IndexingState) :
  set_additional_spaces v' (set_additional_spaces v st) = set_additional_spaces v' st.
Proof. reflexivity. Qed.

Lemma set_additional_spaces_same (st : IndexingState) :
  set_additional_spaces (additional_spaces st) st = st.
Proof. destruct st; reflexivity. Qed.

(** The tab search ends, whatever it finds, and touches only the carry. *)
Lemma expandTabs_loop_total fuel block_beginning block :
  forall search_start line_size next_tab (state : IndexingState),
    (forall t, next_tab = Some t ->
                0 <= t < zlen block /\ zlen block - t <= Z.of_nat fuel) ->
    exists v, expandTabs_loop fuel block_beginning block search_start line_size
                              next_tab state
              = Done (set_additional_spaces v state).
Proof.
  induction fuel as [|fuel IH]; intros s n nt st Hnt.
  - destruct nt as [t|].
    + destruct (Hnt t eq_refl) as [H0 H1].
      lia.
    + exists (additional_spaces st). simpl. now rewrite set_additional_spaces_same.
  - destruct nt as [t|]; simpl.
    + destruct (Hnt t eq_refl) as [H0 H1].
      set (st' := tab_found _ _ _).
      destruct (IH (t + 1) (n - (t - s))
                   (if n - (t - s) >? 0
                    then memchr block (t + 1) TAB (n - (t - s)) else None) st')
        as [v Hv].
      * intros t' Ht'. destruct (n - (t - s) >? 0); [|discriminate].
        apply memchr_range in Ht'; lia.
      * exists v. rewrite Hv. reflexivity.
    + exists (additional_spaces st). now rewrite set_additional_spaces_same.
Qed.


Lemma expandTabs_total block_beginning block search_start line_size
    (state : IndexingState) :
  0 <= search_start ->
  exists v, expandTabs block_beginning block search_start line_size state
            = Done (set_additional_spaces v state).
Proof.
  intros Hs. unfold expandTabs. apply expandTabs_loop_total.
  intros t Ht. apply memchr_range in Ht; [|exact Hs].
  rewrite Nat2Z.inj_succ. fold (zlen block). lia.
Qed.

Lemma tab_found_shift block_beginning p (state : IndexingState) :
  tab_found block_beginning p state = tab_found 0 (block_beginning + p) state.
Proof.
  unfold tab_found.
  replace (0 - pos state + (block_beginning + p) + additional_spaces state)
    with (block_beginning - pos state + p + additional_spaces state) by lia.
  reflexivity.
Qed.

Lemma line_found_shift block_beginning p (state : IndexingState) :
  line_found block_beginning p state = line_found 0 (block_beginning + p) state.
Proof.
  unfold line_found.
  replace (block_beginning + p + 0) with (p + block_beginning) by lia.
  reflexivity.
Qed.

Lemma scan_app l1 : forall i l2 (state : IndexingState),
  scan i (l1 ++ l2) state = scan (i + zlen l1) l2 (scan i l1 state).
Proof.
  induction l1 as [|b r IH]; intros i l2 st; simpl.
  - rewrite zlen_nil. f_equal. lia.
  - rewrite zlen_cons.
    replace (i + (1 + zlen r)) with (i + 1 + zlen r) by lia.
    destruct (Byte.eqb b LF); [|destruct (Byte.eqb b TAB)]; apply IH.
Qed.

Lemma eqb_neq (b c : byte) : b <> c -> Byte.eqb b c = false.
Proof.
  intros H. destruct (Byte.eqb b c) eqn:E; [|reflexivity].
  apply Byte.byte_dec_bl in E. contradiction.
Qed.

Lemma scan_plain l : forall i (state : IndexingState),
  ~ In LF l -> ~ In TAB l -> scan i l state = state.
Proof.
  induction l as [|b r IH]; intros i st HL HT; simpl; [reflexivity|].
  rewrite (eqb_neq b LF), (eqb_neq b TAB).
  - apply IH; intros H; [apply HL | apply HT]; right; exact H.
  - intros ->. apply HT. left. reflexivity.
  - intros ->. apply HL. left. reflexivity.
Qed.

Lemma scan_one_tab l1 l2 i (state : IndexingState) :
  ~ In LF (l1 ++ TAB :: l2) -> ~ In TAB l1 -> ~ In TAB l2 ->
  scan i (l1 ++ TAB :: l2) state = tab_found 0 (i + zlen l1) state.
Proof.
  intros HL H1 H2. rewrite scan_app.
  rewrite (scan_plain l1); [| |exact H1].
  - simpl. apply scan_plain; [|exact H2].
    intros H. apply HL. apply in_or_app. right. right. exact H.
  - intros H. apply HL. apply in_or_app. left. exact H.
Qed.

(** A line without line feed that keeps to one tab has no tab at all, or
    exactly one. *)
Lemma one_tab_cases line : forall seen,
  ~ In LF line -> one_tab_per_line seen line = true ->
  ~ In TAB line
  \/ (seen = false
      /\ exists l1 l2, line = l1 ++ TAB :: l2 /\ ~ In TAB l1 /\ ~ In TAB l2).
Proof.
  induction line as [|b r IH]; intros seen HL H.
  - left. intros [].
  - simpl in H. rewrite (eqb_neq b LF) in H
      by (intros ->; apply HL; left; reflexivity).
    assert (HLr : ~ In LF r) by (intros Hr; apply HL; right; exact Hr).
    destruct (Byte.eqb b TAB) eqn:E.
    + apply Byte.byte_dec_bl in E. subst b.
      apply andb_true_iff in H. destruct H as [Hs Hr].
      apply negb_true_iff in Hs. right. split; [exact Hs|].
      exists [], r. repeat split; [intros []|].
      destruct (IH true HLr Hr) as [Hn|[Hc _]]; [exact Hn|discriminate].
    + apply Byte.eqb_false in E.
      destruct (IH seen HLr H) as [Hn|[Hs (l1 & l2 & Hl & H1 & H2)]].
      * left. intros [Hb|Hr]; [congruence|contradiction].
      * right. split; [exact Hs|]. exists (b :: l1), l2. subst r.
        repeat split; [|exact H2].
        intros [Hb|Hr]; [congruence|contradiction].
Qed.

(** On a stretch of the block that holds no line feed, keeps to one tab and
    is not followed by a tab, the tab search does what the byte-wise reading
    does. *)
Lemma expandTabs_scan block_beginning pre line tail seen (state : IndexingState) :
  beforeCrOffset (encodingParams state) = 0 ->
  ~ In LF line -> one_tab_per_line seen line = true ->
  ~ In TAB (firstn 1 tail) ->
  expandTabs block_beginning (pre ++ line ++ tail) (zlen pre) (zlen line) state
  = Done (scan (block_beginning + zlen pre) line state).
Proof.
  intros Hbco HL Hone Htail. unfold expandTabs.
  rewrite memchr_app, firstn_zlen_app.
  destruct (one_tab_cases line seen HL Hone)
    as [Hn|[_ (l1 & l2 & -> & H1 & H2)]].
  - rewrite find_from_none by exact Hn. simpl.
    rewrite scan_plain by assumption. reflexivity.
  - rewrite find_from_first by exact H1.
    rewrite scan_one_tab by assumption.
    cbn [expandTabs_loop]. unfold adjustToCharWidth. rewrite Hbco, Z.sub_0_r.
    rewrite tab_found_shift.
    set (n := zlen (l1 ++ TAB :: l2) - (zlen pre + zlen l1 - zlen pre)).
    assert (Hn : n = 1 + zlen l2).
    { unfold n. rewrite zlen_app, zlen_cons. lia. }
    assert (Hnext : (if n >? 0
                     then memchr (pre ++ (l1 ++ TAB :: l2) ++ tail)
                                 (zlen pre + zlen l1 + 1) TAB n
                     else None) = None).
    { destruct (n >? 0); [|reflexivity].
      replace (pre ++ (l1 ++ TAB :: l2) ++ tail)
        with ((pre ++ l1 ++ [TAB]) ++ (l2 ++ tail))
        by (rewrite <- !app_assoc; reflexivity).
      replace (zlen pre + zlen l1 + 1) with (zlen (pre ++ l1 ++ [TAB]))
        by (rewrite !zlen_app, zlen_cons, zlen_nil; lia).
      rewrite memchr_app. apply find_from_none.
      rewrite Hn. unfold zlen.
      replace (Z.to_nat (1 + Z.of_nat (length l2))) with (S (length l2)) by lia.
      rewrite firstn_app, firstn_all2 by lia.
      replace (S (length l2) - length l2)%nat with 1%nat by lia.
      intros Hin. apply in_app_or in Hin. destruct Hin; contradiction. }
    rewrite Hnext, Z.add_assoc.
    destruct (length (pre ++ (l1 ++ TAB :: l2) ++ tail)); reflexivity.
Qed.

End ExpandTabs.

Lemma line_starts_app l1 : forall i l2,
  line_starts i (l1 ++ l2) = line_starts i l1 ++ line_starts (i + zlen l1) l2.
Proof.
  induction l1 as [|b r IH]; intros i l2; simpl.
  - rewrite zlen_nil. f_equal. lia.
  - rewrite zlen_cons.
    replace (i + (1 + zlen r)) with (i + 1 + zlen r) by lia.
    destruct (Byte.eqb b LF); simpl; rewrite IH; reflexivity.
Qed.

Lemma line_starts_no_LF l : forall i, ~ In LF l -> line_starts i l = [].
Proof.
  induction l as [|b r IH]; intros i H; simpl; [reflexivity|].
  rewrite eqb_neq by (intros ->; apply H; left; reflexivity).
  apply IH. intros Hr. apply H. right. exact Hr.
Qed.

Lemma line_starts_line line rest i :
  ~ In LF line ->
  line_starts i (line ++ LF :: rest)
  = (i + zlen line + 1) :: line_starts (i + zlen line + 1) rest.
Proof.
  intros H. rewrite line_starts_app, line_starts_no_LF by exact H. reflexivity.
Qed.

Lemma one_tab_per_line_app l1 : forall seen l2,
  one_tab_per_line seen (l1 ++ l2)
  = one_tab_per_line seen l1 && one_tab_per_line (tab_seen seen l1) l2.
Proof.
  induction l1 as [|b r IH]; intros seen l2; simpl; [reflexivity|].
  destruct (Byte.eqb b LF); [apply IH|].
  destruct (Byte.eqb b TAB); [|apply IH].
  rewrite IH. apply andb_assoc.
Qed.

Lemma one_tab_per_line_line line rest seen :
  one_tab_per_line seen (line ++ LF :: rest) = true ->
  one_tab_per_line seen line = true /\ one_tab_per_line false rest = true.
Proof.
  rewrite one_tab_per_line_app. simpl. apply andb_true_iff.
Qed.

Section ParseDataBlock.

Context {collaborators : Collaborators}.

Lemma same_cursor_refl (s : IndexingState) : same_cursor s s.
Proof. repeat split. Qed.

Lemma same_cursor_sym (s t : IndexingState) : same_cursor s t -> same_cursor t s.
Proof. unfold same_cursor. intuition congruence. Qed.

Lemma same_cursor_trans (s t u : IndexingState) :
  same_cursor s t -> same_cursor t u -> same_cursor s u.
Proof. unfold same_cursor. intuition congruence. Qed.

Lemma same_cursor_set v (s : IndexingState) :
  same_cursor (set_additional_spaces v s) s.
Proof. repeat split. Qed.

Lemma tab_found_cursor block_beginning p (s : IndexingState) :
  same_cursor (tab_found block_beginning p s) s.
Proof. repeat split. Qed.

Lemma line_found_cursor block_beginning p (s t : IndexingState) :
  same_cursor s t ->
  same_cursor (line_found block_beginning p s) (line_found block_beginning p t).
Proof.
  unfold same_cursor, line_found. simpl. intros (-> & H). intuition congruence.
Qed.

Lemma scan_cursor l : forall i (s t : IndexingState),
  same_cursor s t -> same_cursor (scan i l s) (scan i l t).
Proof.
  induction l as [|b r IH]; intros i s t H; simpl; [exact H|].
  destruct (Byte.eqb b LF); [apply IH, line_found_cursor, H|].
  destruct (Byte.eqb b TAB); [|apply IH, H].
  apply IH.
  eapply same_cursor_trans; [apply tab_found_cursor|].
  eapply same_cursor_trans; [exact H|].
  apply same_cursor_sym, tab_found_cursor.
Qed.

Lemma scan_no_LF_cursor l : forall i (s : IndexingState),
  ~ In LF l -> same_cursor (scan i l s) s.
Proof.
  induction l as [|b r IH]; intros i s H; simpl; [apply same_cursor_refl|].
  rewrite eqb_neq by (intros ->; apply H; left; reflexivity).
  assert (Hr : ~ In LF r) by (intros Hr; apply H; right; exact Hr).
  destruct (Byte.eqb b TAB); [|apply IH, Hr].
  eapply same_cursor_trans; [apply IH, Hr|apply tab_found_cursor].
Qed.

Lemma scan_line line rest i (s : IndexingState) :
  scan i (line ++ LF :: rest) s
  = scan (i + zlen line + 1) rest (line_found 0 (i + zlen line) (scan i line s)).
Proof. rewrite scan_app. reflexivity. Qed.

Lemma append_real pos (lines : LinePositionArray) :
  fakeFinalLF lines = false ->
  append pos lines = {| array := array lines ++ [pos]; fakeFinalLF := false |}.
Proof. intros H. unfold append, real_entries. rewrite H. reflexivity. Qed.


(** The block parser against the byte-wise reading, for a single-byte
    encoding: [pre] is the part of the block before the current line start. *)
Lemma parse_loop_scan fuel block_beginning :
  forall pre seg (state : IndexingState) lines,
    encodingParams state = single_byte ->
    Z.max (to_int (pos state - block_beginning)) 0 = zlen pre ->
    zlen (pre ++ seg) < 2 ^ 31 ->
    fakeFinalLF lines = false ->
    zlen seg < Z.of_nat fuel ->
    exists state',
      parse_loop fuel block_beginning (pre ++ seg) state lines
      = Done (state',
              {| array := array lines
                          ++ line_starts (block_beginning + zlen pre) seg;
                 fakeFinalLF := false |})
      /\ same_cursor state' (scan (block_beginning + zlen pre) seg state)
      /\ forall seen, one_tab_per_line seen seg = true ->
                      state' = scan (block_beginning + zlen pre) seg state.
Proof.
  induction fuel as [|fuel IH]; intros pre seg st lines Hsb Hp Hlen Hfake Hfuel.
  - pose proof (zlen_nonneg seg). lia.
  - cbn [parse_loop]. rewrite Hp.
    replace (zlen (pre ++ seg) - zlen pre) with (zlen seg)
      by (rewrite zlen_app; lia).
    destruct (zlen seg >? 0) eqn:Hpos.
    2:{ (* the block is used up *)
        assert (seg = []) as ->.
        { destruct seg; [reflexivity|]. rewrite zlen_cons in Hpos.
          pose proof (zlen_nonneg seg). lia. }
        simpl. exists st. rewrite app_nil_r. destruct lines. simpl in *. subst.
        repeat split. }
    rewrite memchr_app.
    replace (firstn (Z.to_nat (zlen seg)) seg) with seg
      by (unfold zlen; rewrite Nat2Z.id, firstn_all; reflexivity).
    destruct (find_from_cases LF seg (zlen pre))
      as [[Hf Hn]|(line & rest & -> & Hn & Hf)]; rewrite Hf.
    + (* no line feed left in the block *)
      pose proof (expandTabs_total block_beginning (pre ++ seg) (zlen pre)
                    (zlen seg) st (zlen_nonneg pre)) as [v Hv].
      rewrite Hv. simpl.
      exists (set_additional_spaces v st).
      rewrite line_starts_no_LF, app_nil_r by exact Hn.
      split; [destruct lines; simpl in *; subst; reflexivity|].
      split.
      * eapply same_cursor_trans; [apply same_cursor_set|].
        apply same_cursor_sym, scan_no_LF_cursor, Hn.
      * intros seen Hone.
        pose proof (expandTabs_scan block_beginning pre seg [] seen st) as He.
        rewrite app_nil_r in He. rewrite He in Hv.
        -- congruence.
        -- rewrite Hsb. reflexivity.
        -- exact Hn.
        -- exact Hone.
        -- intros [].
    + (* a line feed at offset [zlen pre + zlen line] *)
      replace (zlen pre + zlen line - zlen pre) with (zlen line) by lia.
      pose proof (expandTabs_total block_beginning (pre ++ line ++ LF :: rest)
                    (zlen pre) (zlen line) st (zlen_nonneg pre)) as [v Hv].
      rewrite Hv. unfold adjustToCharWidth. cbn [encodingParams set_additional_spaces].
      rewrite Hsb. cbn [beforeCrOffset single_byte]. rewrite Z.sub_0_r.
      pose proof (zlen_nonneg pre) as Hpre. pose proof (zlen_nonneg line) as Hline.
      pose proof (zlen_nonneg rest) as Hrest.
      rewrite !zlen_app in Hlen. rewrite zlen_cons in Hlen.
      rewrite !zlen_app, zlen_cons in Hfuel.
      replace (zlen pre + zlen line =? -1) with false by (symmetry; lia).
      set (st1 := set_additional_spaces v st).
      set (st2 := line_found block_beginning (zlen pre + zlen line) st1).
      assert (Hpos2 : pos st2 = block_beginning + zlen pre + zlen line + 1).
      { unfold st2, line_found, st1. cbn. rewrite Hsb. cbn. lia. }
      destruct (IH (pre ++ line ++ [LF]) rest st2 (append (pos st2) lines))
        as (st' & Hrun & Hcur & Hexact).
      * unfold st2, st1. cbn. exact Hsb.
      * rewrite Hpos2, !zlen_app, zlen_cons. change (zlen (@nil byte)) with 0.
        rewrite to_int_id by lia. lia.
      * rewrite <- !app_assoc. simpl. rewrite !zlen_app, zlen_cons. lia.
      * reflexivity.
      * lia.
      * rewrite <- !app_assoc in Hrun.
        change ([LF] ++ rest) with (LF :: rest) in Hrun.
        assert (Hz : block_beginning + zlen (pre ++ line ++ [LF])
                     = block_beginning + zlen pre + zlen line + 1).
        { rewrite !zlen_app, zlen_cons. change (zlen (@nil byte)) with 0. lia. }
        rewrite Hz in *.
        assert (Hst2 : same_cursor st2
                  (line_found 0 (block_beginning + zlen pre + zlen line)
                              (scan (block_beginning + zlen pre) line st))).
        { unfold st2. rewrite line_found_shift, Z.add_assoc.
          apply line_found_cursor.
          eapply same_cursor_trans; [apply same_cursor_set|].
          apply same_cursor_sym, scan_no_LF_cursor, Hn. }
        exists st'. rewrite Hrun, scan_line, line_starts_line by exact Hn.
        rewrite append_real, Hpos2 by exact Hfake. cbn [array].
        rewrite <- app_assoc. split; [reflexivity|]. split.
        -- eapply same_cursor_trans; [exact Hcur|]. apply scan_cursor, Hst2.
        -- intros seen Hone. apply one_tab_per_line_line in Hone.
           destruct Hone as [Hone1 Hone2].
           rewrite (Hexact false Hone2). f_equal.
           unfold st2. rewrite line_found_shift, Z.add_assoc. f_equal.
           pose proof (expandTabs_scan block_beginning pre line (LF :: rest)
                         seen st) as He.
           rewrite He in Hv.
           ++ unfold st1. congruence.
           ++ rewrite Hsb. reflexivity.
           ++ exact Hn.
           ++ exact Hone1.
           ++ simpl. intros [H|[]]. discriminate.
Qed.

End ParseDataBlock.

Section ParseTotal.

Context {collaborators : Collaborators}.

(** Whatever the encoding, the block parser comes to an end: every line
    feed found moves the line start past it. *)
Lemma parse_loop_total fuel block_beginning block :
  forall (state : IndexingState) lines,
    well_formed (encodingParams state) ->
    zlen block <= 2 ^ 30 ->
    Z.max 0 (zlen block - Z.max (to_int (pos state - block_beginning)) 0)
    < Z.of_nat fuel ->
    exists state' lines',
      parse_loop fuel block_beginning block state lines = Done (state', lines')
      /\ same_encoding state state'.
Proof.
  induction fuel as [|fuel IH]; intros st lines Hwf Hlen Hfuel.
  - exfalso. lia.
  - cbn [parse_loop].
    set (p := Z.max (to_int (pos st - block_beginning)) 0) in *.
    assert (Hp : 0 <= p) by (unfold p; lia).
    destruct (zlen block - p >? 0) eqn:Hpos.
    2:{ simpl. exists st, lines. repeat split. }
    destruct (memchr block p LF (zlen block - p)) as [nl|] eqn:Hm.
    + apply memchr_range in Hm; [|exact Hp].
      destruct (expandTabs_total block_beginning block p (nl - p) st Hp) as [v Hv].
      rewrite Hv. unfold adjustToCharWidth. cbn [encodingParams set_additional_spaces].
      destruct (nl - beforeCrOffset (encodingParams st) =? -1).
      * exists (set_additional_spaces v st), lines. repeat split.
      * set (st2 := line_found _ _ _).
        destruct Hwf as [Hw1 Hw2].
        destruct (IH st2 (append (pos st2) lines)) as (st' & lines' & Hrun & Hsame).
        -- exact (conj Hw1 Hw2).
        -- exact Hlen.
        -- unfold st2, line_found. cbn.
           replace (nl - beforeCrOffset (encodingParams st) + block_beginning
                    + lineFeedWidth (encodingParams st) - block_beginning)
             with (nl - beforeCrOffset (encodingParams st)
                   + lineFeedWidth (encodingParams st)) by lia.
           rewrite to_int_id by lia. lia.
        -- exists st', lines'. split; [exact Hrun|].
           destruct Hsame as (H1 & H2 & H3 & H4). repeat split; assumption.
    + destruct (expandTabs_total block_beginning block p (zlen block - p) st Hp)
        as [v Hv].
      rewrite Hv. simpl. exists (set_additional_spaces v st), lines. repeat split.
Qed.

Lemma parseDataBlock_total block_beginning block (state : IndexingState) :
  well_formed (encodingParams state) ->
  zlen block <= 2 ^ 30 ->
  exists state' lines',
    parseDataBlock block_beginning block state = Done (state', lines')
    /\ same_encoding state state'.
Proof.
  intros Hwf Hlen. unfold parseDataBlock.
  destruct (parse_loop_total (S (length block)) block_beginning block
              (set_max_length 0 state) emptyLinePositionArray)
    as (st' & lines' & Hrun & Hsame).
  - exact Hwf.
  - exact Hlen.
  - unfold zlen. lia.
  - exists st', lines'. split; [exact Hrun|].
    destruct Hsame as (H1 & H2 & H3 & H4). repeat split; assumption.
Qed.

(** What one block does to the index and the state in the single-byte case;
    the line start is not beyond the block beginning. *)
Lemma parseDataBlock_scan block_beginning block (state : IndexingState) :
  encodingParams state = single_byte ->
  - 2 ^ 31 <= pos state - block_beginning <= 0 ->
  zlen block < 2 ^ 31 ->
  exists state',
    parseDataBlock block_beginning block state
    = Done (state', {| array := line_starts block_beginning block;
                       fakeFinalLF := false |})
    /\ same_cursor state' (scan block_beginning block (set_max_length 0 state))
    /\ forall seen, one_tab_per_line seen block = true ->
                    state' = scan block_beginning block (set_max_length 0 state).
Proof.
  intros Hsb Hpos Hlen. unfold parseDataBlock.
  destruct (parse_loop_scan (S (length block)) block_beginning [] block
              (set_max_length 0 state) emptyLinePositionArray)
    as (st' & Hrun & Hcur & Hexact).
  - exact Hsb.
  - cbn [pos set_max_length]. rewrite to_int_id by lia.
    change (zlen (@nil byte)) with 0. lia.
  - exact Hlen.
  - reflexivity.
  - rewrite Nat2Z.inj_succ. fold (zlen block). lia.
  - change (zlen (@nil byte)) with 0 in *. rewrite Z.add_0_r in *.
    change ([] ++ block) with block in Hrun.
    change (array emptyLinePositionArray ++ line_starts block_beginning block)
      with (line_starts block_beginning block) in Hrun.
    exists st'. rewrite Hrun. split; [reflexivity|]. split; assumption.
Qed.

End ParseTotal.

Lemma tab_stop_step col : 0 <= col -> 1 <= tabStop - col mod tabStop <= 8.
Proof.
  intros H. unfold tabStop.
  pose proof (Z.mod_pos_bound col 8 ltac:(lia)). lia.
Qed.

Lemma column_after_app l1 : forall col l2,
  column_after col (l1 ++ l2) = column_after (column_after col l1) l2.
Proof.
  induction l1 as [|b r IH]; intros col l2; cbn [column_after widest_line app]; [reflexivity|].
  destruct (Byte.eqb b LF); [|destruct (Byte.eqb b TAB)]; apply IH.
Qed.

Lemma widest_line_app l1 : forall col m l2,
  widest_line col m (l1 ++ l2)
  = widest_line (column_after col l1) (widest_line col m l1) l2.
Proof.
  induction l1 as [|b r IH]; intros col m l2; cbn [column_after widest_line app]; [reflexivity|].
  destruct (Byte.eqb b LF); [|destruct (Byte.eqb b TAB)]; apply IH.
Qed.

Lemma column_after_bounds l : forall col,
  0 <= col -> 0 <= column_after col l <= col + 8 * zlen l.
Proof.
  induction l as [|b r IH]; intros col H; cbn [column_after].
  - change (zlen (@nil byte)) with 0. lia.
  - rewrite zlen_cons. pose proof (zlen_nonneg r). pose proof (tab_stop_step col H).
    destruct (Byte.eqb b LF); [|destruct (Byte.eqb b TAB)].
    + specialize (IH 0). lia.
    + specialize (IH (col + (tabStop - col mod tabStop))). lia.
    + specialize (IH (col + 1)). lia.
Qed.

Lemma widest_line_ge l : forall col m, m <= widest_line col m l.
Proof.
  induction l as [|b r IH]; intros col m; cbn [widest_line]; [lia|].
  destruct (Byte.eqb b LF); [|destruct (Byte.eqb b TAB)].
  - specialize (IH 0 (Z.max m col)). lia.
  - apply IH.
  - apply IH.
Qed.

Lemma widest_line_from l : forall col m,
  0 <= m -> widest_line col m l = Z.max m (widest_line col 0 l).
Proof.
  induction l as [|b r IH]; intros col m Hm; cbn [widest_line]; [lia|].
  destruct (Byte.eqb b LF); [|destruct (Byte.eqb b TAB)].
  - rewrite (IH 0 (Z.max m col)), (IH 0 (Z.max 0 col)) by lia. lia.
  - apply IH, Hm.
  - apply IH, Hm.
Qed.

Lemma line_starts_bounds l : forall i x,
  In x (line_starts i l) -> i + 1 <= x <= i + zlen l.
Proof.
  induction l as [|b r IH]; intros i x H; simpl in H; [contradiction|].
  rewrite zlen_cons. pose proof (zlen_nonneg r).
  destruct (Byte.eqb b LF).
  - destruct H as [<-|H]; [lia|]. apply IH in H. lia.
  - apply IH in H. lia.
Qed.

Lemma last_in_or {A} (l : list A) d : last l d = d \/ In (last l d) l.
Proof.
  induction l as [|a r IH]; [left; reflexivity|].
  destruct r as [|b r']; [right; left; reflexivity|].
  change (last (a :: b :: r') d) with (last (b :: r') d).
  destruct IH as [H|H]; [left; exact H|right; right; exact H].
Qed.

Lemma last_cons {A} (l : list A) : forall a d, last (a :: l) d = last l a.
Proof.
  induction l as [|b r IH]; intros a d; [reflexivity|].
  change (last (a :: b :: r) d) with (last (b :: r) d).
  rewrite (IH b d), (IH b a). reflexivity.
Qed.

Section ScanFacts.

Context {collaborators : Collaborators}.

(** The byte-wise reading keeps the line start at the last offset collected. *)
Lemma scan_pos l : forall i (state : IndexingState),
  encodingParams state = single_byte ->
  pos (scan i l state) = last (line_starts i l) (pos state)
  /\ encodingParams (scan i l state) = single_byte.
Proof.
  induction l as [|b r IH]; intros i st Hsb; simpl; [split; [reflexivity|exact Hsb]|].
  destruct (Byte.eqb b LF).
  - destruct (IH (i + 1) (line_found 0 i st)) as [Hp He].
    + cbn. exact Hsb.
    + split; [|exact He]. rewrite Hp. cbn [pos line_found]. rewrite Hsb.
      cbn [lineFeedWidth single_byte].
      replace (i + 0 + 1) with (i + 1) by lia.
      symmetry. apply last_cons.
  - destruct (Byte.eqb b TAB);
      [exact (IH (i + 1) (tab_found 0 i st) Hsb) | exact (IH (i + 1) st Hsb)].
Qed.

(** The carry and the longest line of the byte-wise reading are the display
    columns of the specification, while these fit an [int]. *)
Lemma scan_columns l : forall i (state : IndexingState) col,
  encodingParams state = single_byte ->
  0 <= col -> col + 8 * zlen l < 2 ^ 31 ->
  i - pos state + additional_spaces state = col ->
  (i + zlen l) - pos (scan i l state) + additional_spaces (scan i l state)
  = column_after col l
  /\ max_length (scan i l state) = widest_line col (max_length state) l.
Proof.
  induction l as [|b r IH]; intros i st col Hsb Hcol Hbound HJ;
    cbn [scan column_after widest_line].
  - change (zlen (@nil byte)) with 0. split; [lia|reflexivity].
  - rewrite zlen_cons in *. pose proof (zlen_nonneg r) as Hr.
    replace (i + (1 + zlen r)) with (i + 1 + zlen r) by lia.
    destruct (Byte.eqb b LF); [|destruct (Byte.eqb b TAB)].
    + destruct (IH (i + 1) (line_found 0 i st) 0) as [H1 H2].
      * exact Hsb.
      * lia.
      * lia.
      * cbn [pos additional_spaces line_found]. rewrite Hsb.
        cbn [lineFeedWidth single_byte]. lia.
      * split; [exact H1|]. rewrite H2. f_equal.
        cbn [max_length line_found].
        replace (i + 0 - pos st + additional_spaces st) with col by lia.
        rewrite to_int_id by lia.
        destruct (col >? max_length st) eqn:E; lia.
    + pose proof (tab_stop_step col Hcol) as Hstep.
      destruct (IH (i + 1) (tab_found 0 i st) (col + (tabStop - col mod tabStop)))
        as [H1 H2].
      * exact Hsb.
      * lia.
      * lia.
      * cbn [pos additional_spaces tab_found set_additional_spaces].
        replace (0 - pos st + i + additional_spaces st) with col by lia.
        rewrite to_int_id by lia.
        rewrite Z.rem_mod_nonneg by (unfold tabStop; lia). lia.
      * split; [exact H1|exact H2].
    + apply IH; try assumption; lia.
Qed.

End ScanFacts.

Section BlockParser.

Context {collaborators : Collaborators}.

Lemma scan_keeps l : forall i (state : IndexingState),
  file_size (scan i l state) = file_size state
  /\ encodingGuess (scan i l state) = encodingGuess state.
Proof.
  induction l as [|b r IH]; intros i st; cbn [scan]; [split; reflexivity|].
  destruct (Byte.eqb b LF); [exact (IH (i + 1) (line_found 0 i st))|].
  destruct (Byte.eqb b TAB);
    [exact (IH (i + 1) (tab_found 0 i st)) | exact (IH (i + 1) st)].
Qed.

Lemma progress_of_cases (state : IndexingState) :
  exists progress,
    progress_of state = Done progress
    /\ (file_size state > 0 ->
        progress = progress_at (pos state) (file_size state))
    /\ (file_size state <= 0 -> progress = 100).
Proof.
  unfold progress_of, divide.
  destruct (file_size state >? 0) eqn:E.
  - destruct (round_binary32_sign (file_size state) 1 ltac:(lia) ltac:(lia))
      as (_ & _ & Hf). specialize (Hf ltac:(lia)). fold (float_of_int (file_size state)) in Hf.
    replace (fst (float_of_int (file_size state)) =? 0) with false by (symmetry; lia).
    eexists. split; [reflexivity|]. split; [|lia]. intros _.
    unfold progress_at. cbv zeta.
    rewrite Z.sgn_pos by exact Hf. rewrite Z.abs_eq by lia.
    rewrite Z.mul_1_l. reflexivity.
  - exists 100. split; [reflexivity|]. split; [lia|reflexivity].
Qed.

Lemma progress_of_total (state : IndexingState) :
  exists p, progress_of state = Done p.
Proof. destruct (progress_of_cases state) as (p & Hp & _). exists p. exact Hp. Qed.

Hypothesis Hsb : single_byte_encodings.

Lemma guessEncoding_single_byte block (state : IndexingState) d :
  encodingParams state = single_byte ->
  encodingParams (guessEncoding block state d) = single_byte.
Proof.
  intros H. unfold guessEncoding.
  destruct (fileTextCodec state); cbn [encodingParams]; [exact H|].
  apply Hsb.
Qed.

Lemma guessEncoding_fields block (state : IndexingState) d :
  pos (guessEncoding block state d) = pos state
  /\ additional_spaces (guessEncoding block state d) = additional_spaces state
  /\ file_size (guessEncoding block state d) = file_size state
  /\ encodingGuess (guessEncoding block state d) = Some (settled_guess state block).
Proof.
  unfold guessEncoding, settled_guess.
  destruct (fileTextCodec state); repeat split.
Qed.

(** One block through the parser node, single-byte encodings. *)
Lemma blockParser_single_byte block_beginning block (state : IndexingState) w :
  encodingParams state = single_byte ->
  block <> [] ->
  zlen block < 2 ^ 31 ->
  - 2 ^ 31 <= pos state - block_beginning <= 0 ->
  exists state' p,
    blockParser block_beginning block state w
    = Done (state',
            {| indexing_data_ :=
                 addAll block (max_length state')
                        {| array := line_starts block_beginning block;
                           fakeFinalLF := false |}
                        (Some (settled_guess state block)) (indexing_data_ w);
               interruptRequest_ := interruptRequest_ w;
               progressed := progressed w ++ [p] |})
    /\ pos state' = last (line_starts block_beginning block) (pos state)
    /\ encodingParams state' = single_byte
    /\ file_size state' = file_size state
    /\ encodingGuess state' = Some (settled_guess state block)
    /\ forall seen col,
         one_tab_per_line seen block = true ->
         0 <= col -> col + 8 * zlen block < 2 ^ 31 ->
         block_beginning - pos state + additional_spaces state = col ->
         max_length state' = widest_line col 0 block
         /\ (block_beginning + zlen block) - pos state' + additional_spaces state'
            = column_after col block.
Proof.
  intros Hp Hne Hlen Hpos.
  set (st0 := guessEncoding block state (indexing_data_ w)).
  pose proof (guessEncoding_single_byte block state (indexing_data_ w) Hp) as Hp0.
  destruct (guessEncoding_fields block state (indexing_data_ w))
    as (Hpos0 & Hadd0 & Hfs0 & Hg0).
  fold st0 in Hp0, Hpos0, Hadd0, Hfs0, Hg0.
  destruct (parseDataBlock_scan block_beginning block st0 Hp0) as (st' & Hrun & Hcur & Hexact).
  { rewrite Hpos0. exact Hpos. }
  { exact Hlen. }
  destruct (progress_of_total st') as [p Hprog].
  destruct (scan_pos block block_beginning (set_max_length 0 st0) Hp0) as [Hsp Hse].
  destruct (scan_keeps block block_beginning (set_max_length 0 st0)) as [Hsf Hsg].
  destruct Hcur as (C1 & C2 & C3 & C4 & C5 & C6).
  exists st', p. split.
  - unfold blockParser, bind, getData. fold st0.
    destruct block as [|b r]; [contradiction|].
    unfold lift. rewrite Hrun. unfold modifyData. rewrite Hprog.
    unfold emitIndexingProgressed, ret. cbn [indexing_data_ interruptRequest_ progressed].
    rewrite C5, Hsg. cbn [encodingGuess set_max_length]. rewrite Hg0. reflexivity.
  - split; [rewrite C2, Hsp; cbn [pos set_max_length]; rewrite Hpos0; reflexivity|].
    split; [rewrite C1; exact Hse|].
    split; [rewrite C4, Hsf; exact Hfs0|].
    split; [rewrite C5, Hsg; exact Hg0|].
    intros seen col Hone Hcol Hb HJ.
    rewrite (Hexact seen Hone).
    destruct (scan_columns block block_beginning (set_max_length 0 st0) col Hp0 Hcol Hb)
      as [H1 H2].
    + cbn [pos additional_spaces set_max_length]. rewrite Hpos0, Hadd0. exact HJ.
    + split; [exact H2|exact H1].
Qed.

End BlockParser.

Lemma sizeChunk_pos : 0 < sizeChunk.
Proof. reflexivity. Qed.

Lemma file_read_length content fp n :
  0 <= fp -> 0 <= n ->
  zlen (file_read content fp n) = Z.max 0 (Z.min n (zlen content - fp)).
Proof.
  intros Hfp Hn. unfold file_read, zlen.
  rewrite length_firstn, length_skipn. lia.
Qed.

Lemma file_read_split content fp n :
  0 <= fp -> 0 <= n ->
  skipn (Z.to_nat fp) content
  = file_read content fp n
    ++ skipn (Z.to_nat (fp + zlen (file_read content fp n))) content.
Proof.
  intros Hfp Hn. unfold file_read.
  rewrite <- (firstn_skipn (Z.to_nat n) (skipn (Z.to_nat fp) content)) at 1.
  f_equal. rewrite skipn_skipn.
  set (k := zlen _).
  assert (Hk : k = Z.max 0 (Z.min n (zlen content - fp)))
    by (apply file_read_length; assumption).
  destruct (Z_le_gt_dec n (zlen content - fp)).
  - f_equal. lia.
  - rewrite !skipn_all2; [reflexivity| |]; unfold zlen in *; lia.
Qed.

Lemma atEnd_true content fp : atEnd content fp = true -> zlen content <= fp.
Proof. unfold atEnd. lia. Qed.

Lemma atEnd_false content fp : atEnd content fp = false -> fp < zlen content.
Proof. unfold atEnd. lia. Qed.

Lemma file_read_at_end content fp n :
  0 <= fp -> zlen content <= fp -> file_read content fp n = [].
Proof.
  intros Hfp H. unfold file_read. rewrite skipn_all2; [apply firstn_nil|].
  unfold zlen in H. lia.
Qed.

Lemma first_blocks_at_end n : forall content fp,
  0 <= fp -> zlen content <= fp -> first_blocks n content fp = [].
Proof.
  induction n as [|n IH]; intros content fp Hfp H; cbn [first_blocks]; [reflexivity|].
  rewrite file_read_at_end by assumption.
  change (zlen (@nil byte)) with 0. rewrite Z.add_0_r. apply IH; assumption.
Qed.

Lemma consumed_at_end flag content fp :
  0 <= fp -> zlen content <= fp -> consumed flag content fp = [].
Proof.
  intros Hfp H. destruct flag as [n|]; cbn [consumed].
  - apply first_blocks_at_end; assumption.
  - apply skipn_all2. unfold zlen in H. lia.
Qed.

Lemma blocks_from_at_end content fp :
  zlen content <= fp -> blocks_from content fp = O.
Proof.
  intros H. unfold blocks_from.
  assert ((zlen content - fp + sizeChunk - 1) / sizeChunk <= 0); [|lia].
  pose proof sizeChunk_pos.
  apply Z.lt_succ_r. apply Z.div_lt_upper_bound; lia.
Qed.

Lemma blocks_from_step content fp :
  0 <= fp -> fp < zlen content ->
  blocks_from content fp
  = S (blocks_from content (fp + zlen (file_read content fp sizeChunk))).
Proof.
  intros Hfp H. pose proof sizeChunk_pos as HN.
  rewrite file_read_length by lia. unfold blocks_from.
  destruct (Z_le_gt_dec sizeChunk (zlen content - fp)).
  - replace (Z.max 0 (Z.min sizeChunk (zlen content - fp))) with sizeChunk by lia.
    replace (zlen content - fp + sizeChunk - 1)
      with ((zlen content - (fp + sizeChunk) + sizeChunk - 1) + 1 * sizeChunk) by lia.
    rewrite Z.div_add by lia.
    assert (0 <= (zlen content - (fp + sizeChunk) + sizeChunk - 1) / sizeChunk)
      by (apply Z.div_pos; lia).
    lia.
  - replace (Z.max 0 (Z.min sizeChunk (zlen content - fp)))
      with (zlen content - fp) by lia.
    replace (zlen content - (fp + (zlen content - fp)) + sizeChunk - 1)
      with (sizeChunk - 1) by lia.
    rewrite (Z.div_small (sizeChunk - 1)) by lia.
    replace (zlen content - fp + sizeChunk - 1)
      with ((zlen content - fp - 1) + 1 * sizeChunk) by lia.
    rewrite Z.div_add, Z.div_small by lia. reflexivity.
Qed.

Lemma last_app_default {A} (l1 l2 : list A) d :
  last (l1 ++ l2) d = last l2 (last l1 d).
Proof.
  revert d. induction l1 as [|a r IH]; intros d; [reflexivity|].
  change ((a :: r) ++ l2) with (a :: (r ++ l2)).
  rewrite !last_cons. apply IH.
Qed.

Section IndexingGraph.

Context {collaborators : Collaborators}.

Lemma index_grown_step (d d' : IndexingData) fp block m B g :
  block <> [] ->
  index_grown
    (addAll block m {| array := line_starts fp block; fakeFinalLF := false |}
            (Some g) d)
    d' (fp + zlen block) B g ->
  index_grown d d' fp (block ++ B) g.
Proof.
  intros Hne H. destruct block as [|b r]; [contradiction|].
  destruct B as [|b' B'].
  - cbn [index_grown] in H. subst d'. rewrite app_nil_r.
    cbn [index_grown addAll linePosition_ hash_ indexHash_ encodingGuess_
         encodingForced_ append_list array fakeFinalLF maxLength_].
    repeat split. lia.
  - cbn [index_grown] in H. destruct H as (H1 & H2 & H3 & H4 & H5 & H6).
    cbn [maxLength_ addAll] in H6.
    change ((b :: r) ++ b' :: B') with (b :: (r ++ b' :: B')).
    cbn [index_grown].
    change (b :: (r ++ b' :: B')) with ((b :: r) ++ b' :: B').
    rewrite H1, H2, H3, H4, H5.
    cbn [addAll linePosition_ hash_ indexHash_ encodingGuess_ encodingForced_
         append_list array fakeFinalLF real_entries size].
    rewrite line_starts_app, zlen_app, <- !app_assoc.
    repeat split; [f_equal; lia | lia].
Qed.

Hypothesis Hsb : single_byte_encodings.

(** The reader and the parser over the rest of the file, single-byte
    encodings, for a file below 2 GiB. *)
Lemma indexingGraph_single_byte fuel content :
  forall fp (state : IndexingState) w,
    zlen content < 2 ^ 31 ->
    encodingParams state = single_byte ->
    0 <= pos state <= fp ->
    Z.max 0 (zlen content - fp) < Z.of_nat fuel ->
    let B := consumed (interruptRequest_ w) content fp in
    let g := settled_guess state (file_read content fp sizeChunk) in
    exists state' d' events,
      indexingGraph fuel content fp state w
      = Done (state',
              {| indexing_data_ := d';
                 interruptRequest_ :=
                   flag_after_reader (interruptRequest_ w) content fp;
                 progressed := progressed w ++ events |})
      /\ index_grown (indexing_data_ w) d' fp B g
      /\ pos state' = last (line_starts fp B) (pos state)
      /\ file_size state' = file_size state
      /\ encodingGuess state'
         = match B with [] => encodingGuess state | _ => Some g end
      /\ forall seen col,
           one_tab_per_line seen B = true ->
           0 <= col -> col + 8 * zlen B < 2 ^ 31 ->
           fp - pos state + additional_spaces state = col ->
           0 <= maxLength_ (indexing_data_ w) ->
           maxLength_ d'
           = Z.max (maxLength_ (indexing_data_ w)) (widest_line col 0 B)
           /\ (fp + zlen B) - pos state' + additional_spaces state'
              = column_after col B.
Proof.
  induction fuel as [|fuel IH]; intros fp st w Hlen Hp Hpos Hfuel B g; [lia|].
  cbn [indexingGraph]. unfold bind at 1. unfold interruptRequested.
  destruct w as [d fl evs]. cbn [interruptRequest_ indexing_data_ progressed] in *.
  assert (Hstop : forall fl',
             B = [] -> flag_after_reader fl content fp = fl' ->
             exists state' d' events,
               Done (st, {| indexing_data_ := d; interruptRequest_ := fl';
                            progressed := evs |})
               = Done (state',
                       {| indexing_data_ := d';
                          interruptRequest_ := flag_after_reader fl content fp;
                          progressed := evs ++ events |})
               /\ index_grown d d' fp B g
               /\ pos state' = last (line_starts fp B) (pos st)
               /\ file_size state' = file_size st
               /\ encodingGuess state'
                  = match B with [] => encodingGuess st | _ => Some g end
               /\ forall seen col,
                    one_tab_per_line seen B = true ->
                    0 <= col -> col + 8 * zlen B < 2 ^ 31 ->
                    fp - pos st + additional_spaces st = col ->
                    0 <= maxLength_ d ->
                    maxLength_ d' = Z.max (maxLength_ d) (widest_line col 0 B)
                    /\ (fp + zlen B) - pos state' + additional_spaces state'
                       = column_after col B).
  { intros fl' HB Hfl. exists st, d, []. rewrite HB, Hfl, app_nil_r.
    do 5 (split; [reflexivity|]).
    intros seen col _ _ _ HJ Hm. split; [cbn [widest_line]; lia|].
    change (zlen (@nil byte)) with 0. cbn [column_after]. lia. }
  destruct (atEnd content fp) eqn:Hend.
  - (* nothing left to read *)
    apply atEnd_true in Hend.
    assert (HB : B = []) by (apply consumed_at_end; lia).
    destruct fl as [[|n]|]; cbn [read_flag ret negb];
      apply Hstop; try exact HB; cbn [flag_after_reader];
      rewrite ?blocks_from_at_end by exact Hend; try reflexivity.
    f_equal. lia.
  - apply atEnd_false in Hend.
    set (block := file_read content fp sizeChunk) in *.
    set (fp1 := fp + zlen block).
    assert (Hzb : zlen block = Z.min sizeChunk (zlen content - fp)).
    { unfold block. rewrite file_read_length by (pose proof sizeChunk_pos; lia).
      pose proof sizeChunk_pos. lia. }
    assert (Hne : block <> []).
    { intros E. rewrite E in Hzb. change (zlen (@nil byte)) with 0 in Hzb.
      pose proof sizeChunk_pos. lia. }
    assert (Hstep : forall fl0,
               B = block ++ consumed fl0 content fp1 ->
               flag_after_reader fl content fp = flag_after_reader fl0 content fp1 ->
               exists state' d' events,
                 (state' <- blockParser fp block st ;;
                  indexingGraph fuel content fp1 state')
                   {| indexing_data_ := d; interruptRequest_ := fl0;
                      progressed := evs |}
                 = Done (state',
                         {| indexing_data_ := d';
                            interruptRequest_ := flag_after_reader fl content fp;
                            progressed := evs ++ events |})
                 /\ index_grown d d' fp B g
                 /\ pos state' = last (line_starts fp B) (pos st)
                 /\ file_size state' = file_size st
                 /\ encodingGuess state'
                    = match B with [] => encodingGuess st | _ => Some g end
                 /\ forall seen col,
                      one_tab_per_line seen B = true ->
                      0 <= col -> col + 8 * zlen B < 2 ^ 31 ->
                      fp - pos st + additional_spaces st = col ->
                      0 <= maxLength_ d ->
                      maxLength_ d' = Z.max (maxLength_ d) (widest_line col 0 B)
                      /\ (fp + zlen B) - pos state' + additional_spaces state'
                         = column_after col B).
    { intros fl0 HB Hfl.
      destruct (blockParser_single_byte Hsb fp block st
                  {| indexing_data_ := d; interruptRequest_ := fl0;
                     progressed := evs |})
        as (st1 & p & Hbp & Hpos1 & Hp1 & Hfs1 & Hg1 & Htab1);
        [exact Hp|exact Hne|lia|lia|].
      cbn [indexing_data_ interruptRequest_ progressed] in Hbp.
      set (d1 := addAll block (max_length st1) _ _ d) in Hbp.
      assert (Hpos1' : 0 <= pos st1 <= fp1).
      { rewrite Hpos1. pose proof (zlen_nonneg block).
        destruct (last_in_or (line_starts fp block) (pos st)) as [E|E].
        - rewrite E. unfold fp1. lia.
        - apply line_starts_bounds in E. unfold fp1. lia. }
      destruct (IH fp1 st1
                   {| indexing_data_ := d1; interruptRequest_ := fl0;
                      progressed := evs ++ [p] |})
        as (st' & d' & events & Hrun & Hgrown & Hpos' & Hfs' & Hg' & Htab');
        [exact Hlen|exact Hp1|exact Hpos1'
        |unfold fp1; pose proof sizeChunk_pos; lia|].
      cbn [indexing_data_ interruptRequest_ progressed] in *.
      assert (Hsg : settled_guess st1 (file_read content fp1 sizeChunk) = g).
      { unfold settled_guess at 1. rewrite Hg1. reflexivity. }
      rewrite Hsg in *. fold g in Hg1, Hbp, d1.
      exists st', d', ([p] ++ events).
      unfold bind. rewrite Hbp, Hrun, Hfl, app_assoc.
      split; [reflexivity|].
      split; [rewrite HB; apply (index_grown_step d d' fp block (max_length st1));
              [exact Hne|exact Hgrown]|].
      split; [rewrite HB, line_starts_app, last_app_default, <- Hpos1; exact Hpos'|].
      split; [congruence|].
      split.
      { rewrite HB. destruct block as [|b r]; [contradiction|].
        cbn [app]. rewrite Hg'. destruct (consumed fl0 content fp1); [exact Hg1|reflexivity]. }
      intros seen col Hone Hcol Hb HJ Hm. rewrite HB in *.
      rewrite one_tab_per_line_app in Hone. apply andb_true_iff in Hone.
      destruct Hone as [Hone1 Hone2].
      rewrite zlen_app in *.
      pose proof (zlen_nonneg block). pose proof (zlen_nonneg (consumed fl0 content fp1)).
      destruct (Htab1 seen col Hone1 Hcol ltac:(lia) HJ) as [Hm1 HJ1].
      pose proof (column_after_bounds block col Hcol) as Hcb.
      pose proof (widest_line_ge block col 0) as Hwg.
      destruct (Htab' (tab_seen seen block) (column_after col block) Hone2)
        as [Hm' HJ'].
      - lia.
      - lia.
      - exact HJ1.
      - unfold d1. cbn [maxLength_ addAll]. lia.
      - split.
        + rewrite Hm'. unfold d1. cbn [maxLength_ addAll]. rewrite Hm1.
          rewrite widest_line_app, (widest_line_from _ _ (widest_line col 0 block))
            by exact Hwg.
          lia.
        + rewrite column_after_app, <- HJ'. unfold fp1. lia. }
    destruct fl as [[|n]|]; cbn [read_flag ret negb].
    + (* the reader finds the request raised *)
      apply Hstop; reflexivity.
    + apply Hstep.
      * reflexivity.
      * cbn [flag_after_reader]. rewrite (blocks_from_step content fp) by lia.
        reflexivity.
    + apply Hstep.
      * unfold B. cbn [consumed]. apply file_read_split; [lia|].
        pose proof sizeChunk_pos. lia.
      * reflexivity.
Qed.

End IndexingGraph.

Section DoIndex.

Context {collaborators : Collaborators}.

Hypothesis Hsb : single_byte_encodings.

Lemma doIndex_single_byte p0 content w :
  zlen content < 2 ^ 31 -> 0 <= p0 ->
  let d := indexing_data_ w in
  let B := consumed (interruptRequest_ w) content p0 in
  let g := match getEncodingGuess d with
           | Some c => c
           | None => detectEncoding (file_read content p0 sizeChunk)
           end in
  let guess := match B with [] => getEncodingGuess d | _ => Some g end in
  let fl1 := flag_after_reader (interruptRequest_ w) content p0 in
  exists d1 events,
    doIndex p0 (Openable content) w
    = Done (tt,
            {| indexing_data_ :=
                 index_closed (negb (fst (read_flag fl1))) (zlen content) p0 B
                              guess d1;
               interruptRequest_ := snd (read_flag fl1);
               progressed := progressed w ++ events |})
    /\ index_grown d d1 p0 B g
    /\ (forall seen,
          one_tab_per_line seen B = true -> 8 * zlen B < 2 ^ 31 ->
          0 <= maxLength_ d ->
          maxLength_ d1 = Z.max (maxLength_ d) (widest_line 0 0 B)).
Proof.
  intros Hlen Hp0 d B g guess fl1.
  cbn [doIndex]. unfold bind at 1. unfold getData at 1.
  set (st0 := {| encodingParams := defaultEncodingParameters; pos := p0;
                 max_length := 0; additional_spaces := 0; end_ := 0;
                 file_size := zlen content;
                 encodingGuess := getEncodingGuess (indexing_data_ w);
                 fileTextCodec := _ |}).
  destruct (indexingGraph_single_byte Hsb (S (length content)) content p0 st0 w)
    as (st' & d1 & events & Hrun & Hgrown & Hpos & Hfs & Hg & Htab).
  - exact Hlen.
  - apply Hsb.
  - cbn [pos st0]. lia.
  - unfold zlen. lia.
  - exists d1, events. split; [|split].
    + unfold bind at 1. cbn [pos st0] in Hrun |- *. rewrite Hrun.
      unfold bind at 1. unfold interruptRequested.
      cbn [interruptRequest_ indexing_data_ progressed].
      fold fl1. destruct (read_flag fl1) as [b fl2] eqn:Hread.
      cbn [fst snd]. rewrite Hfs, Hpos, Hg. cbn [file_size pos st0 encodingGuess].
      fold d B. unfold settled_guess. cbn [encodingGuess st0]. fold d g guess.
      unfold index_closed, with_default_guess.
      change (setFakeFinalLF (append (zlen content + 1) emptyLinePositionArray))
        with (fake_final_entry (zlen content)).
      destruct (negb b && (zlen content >? last (line_starts p0 B) p0));
        unfold bind, modifyData, ret, getData;
        cbn [indexing_data_ interruptRequest_ progressed];
        match goal with
        | |- context [getEncodingGuess ?x] => destruct (getEncodingGuess x)
        end; reflexivity.
    + exact Hgrown.
    + intros seen Hone Hb Hm.
      destruct (Htab seen 0 Hone) as [H _]; try assumption; try lia.
      cbn [pos additional_spaces st0]. lia.
Qed.

End DoIndex.

Section AnyEncoding.

Context {collaborators : Collaborators}.

Lemma hash_grown_step (d d' : IndexingData) block m lines g B :
  block <> [] ->
  hash_grown (addAll block m lines (Some g) d) d' B ->
  hash_grown d d' (block ++ B).
Proof.
  intros Hne H. destruct block as [|b r]; [contradiction|].
  destruct B as [|b' B'].
  - cbn [hash_grown] in H. subst d'. rewrite app_nil_r.
    cbn [hash_grown addAll hash_ indexHash_ encodingForced_ encodingGuess_].
    repeat split. discriminate.
  - cbn [hash_grown] in H. destruct H as (H1 & H2 & H3 & H4).
    change ((b :: r) ++ b' :: B') with (b :: (r ++ b' :: B')).
    cbn [hash_grown].
    change (b :: (r ++ b' :: B')) with ((b :: r) ++ b' :: B').
    rewrite H1, H2, H3.
    cbn [addAll hash_ indexHash_ encodingForced_ size].
    rewrite zlen_app, <- !app_assoc.
    repeat split; [f_equal; lia | exact H4].
Qed.

Hypothesis Hwf : well_formed_encodings.

Lemma guessEncoding_well_formed block (state : IndexingState) d :
  well_formed (encodingParams state) ->
  well_formed (encodingParams (guessEncoding block state d)).
Proof.
  intros H. unfold guessEncoding.
  destruct (fileTextCodec state); cbn [encodingParams]; [exact H|].
  apply Hwf.
Qed.

(** One block through the parser node, whatever the encoding. *)
Lemma blockParser_total block_beginning block (state : IndexingState) w :
  well_formed (encodingParams state) ->
  block <> [] ->
  zlen block <= 2 ^ 30 ->
  exists state' m lines p,
    blockParser block_beginning block state w
    = Done (state',
            {| indexing_data_ :=
                 addAll block m lines (Some (settled_guess state block))
                        (indexing_data_ w);
               interruptRequest_ := interruptRequest_ w;
               progressed := progressed w ++ [p] |})
    /\ well_formed (encodingParams state')
    /\ file_size state' = file_size state.
Proof.
  intros Hp Hne Hlen.
  set (st0 := guessEncoding block state (indexing_data_ w)).
  pose proof (guessEncoding_well_formed block state (indexing_data_ w) Hp) as Hp0.
  destruct (guessEncoding_fields block state (indexing_data_ w))
    as (_ & _ & Hfs0 & Hg0).
  fold st0 in Hp0, Hfs0, Hg0.
  destruct (parseDataBlock_total block_beginning block st0 Hp0 Hlen)
    as (st' & lines & Hrun & C1 & C2 & C3 & C4).
  destruct (progress_of_total st') as [p Hprog].
  exists st', (max_length st'), lines, p. split; [|split].
  - unfold blockParser, bind, getData. fold st0.
    destruct block as [|b r]; [contradiction|].
    unfold lift. rewrite Hrun. unfold modifyData. rewrite Hprog.
    unfold emitIndexingProgressed, ret. cbn [indexing_data_ interruptRequest_ progressed].
    rewrite <- C3, Hg0. reflexivity.
  - rewrite <- C1. exact Hp0.
  - rewrite <- C2. exact Hfs0.
Qed.

(** The reader and the parser over the rest of the file come to an end, and
    the index has hashed what was read. *)
Lemma indexingGraph_total fuel content :
  forall fp (state : IndexingState) w,
    well_formed (encodingParams state) ->
    0 <= fp ->
    Z.max 0 (zlen content - fp) < Z.of_nat fuel ->
    let B := consumed (interruptRequest_ w) content fp in
    exists state' d' events,
      indexingGraph fuel content fp state w
      = Done (state',
              {| indexing_data_ := d';
                 interruptRequest_ :=
                   flag_after_reader (interruptRequest_ w) content fp;
                 progressed := progressed w ++ events |})
      /\ hash_grown (indexing_data_ w) d' B
      /\ file_size state' = file_size state
      /\ (B = [] -> state' = state).
Proof.
  induction fuel as [|fuel IH]; intros fp st w Hp Hfp Hfuel B; [lia|].
  cbn [indexingGraph]. unfold bind at 1. unfold interruptRequested.
  destruct w as [d fl evs]. cbn [interruptRequest_ indexing_data_ progressed] in *.
  assert (Hstop : forall fl',
             B = [] -> flag_after_reader fl content fp = fl' ->
             exists state' d' events,
               Done (st, {| indexing_data_ := d; interruptRequest_ := fl';
                            progressed := evs |})
               = Done (state',
                       {| indexing_data_ := d';
                          interruptRequest_ := flag_after_reader fl content fp;
                          progressed := evs ++ events |})
               /\ hash_grown d d' B
               /\ file_size state' = file_size st
               /\ (B = [] -> state' = st)).
  { intros fl' HB Hfl. exists st, d, []. rewrite HB, Hfl, app_nil_r.
    repeat split. }
  destruct (atEnd content fp) eqn:Hend.
  - apply atEnd_true in Hend.
    assert (HB : B = []) by (apply consumed_at_end; lia).
    destruct fl as [[|n]|]; cbn [read_flag ret negb];
      apply Hstop; try exact HB; cbn [flag_after_reader];
      rewrite ?blocks_from_at_end by exact Hend; try reflexivity.
    f_equal. lia.
  - apply atEnd_false in Hend.
    set (block := file_read content fp sizeChunk) in *.
    set (fp1 := fp + zlen block).
    assert (Hzb : zlen block = Z.min sizeChunk (zlen content - fp)).
    { unfold block. rewrite file_read_length by (pose proof sizeChunk_pos; lia).
      pose proof sizeChunk_pos. lia. }
    assert (Hne : block <> []).
    { intros E. rewrite E in Hzb. change (zlen (@nil byte)) with 0 in Hzb.
      pose proof sizeChunk_pos. lia. }
    assert (Hstep : forall fl0,
               B = block ++ consumed fl0 content fp1 ->
               flag_after_reader fl content fp = flag_after_reader fl0 content fp1 ->
               exists state' d' events,
                 (state' <- blockParser fp block st ;;
                  indexingGraph fuel content fp1 state')
                   {| indexing_data_ := d; interruptRequest_ := fl0;
                      progressed := evs |}
                 = Done (state',
                         {| indexing_data_ := d';
                            interruptRequest_ := flag_after_reader fl content fp;
                            progressed := evs ++ events |})
                 /\ hash_grown d d' B
                 /\ file_size state' = file_size st
                 /\ (B = [] -> state' = st)).
    { intros fl0 HB Hfl.
      destruct (blockParser_total fp block st
                  {| indexing_data_ := d; interruptRequest_ := fl0;
                     progressed := evs |})
        as (st1 & m & lines & p & Hbp & Hp1 & Hfs1);
        [exact Hp|exact Hne| |].
      { rewrite Hzb. assert (sizeChunk <= 2 ^ 30) by (unfold sizeChunk; lia). lia. }
      cbn [indexing_data_ interruptRequest_ progressed] in Hbp.
      destruct (IH fp1 st1
                   {| indexing_data_ := addAll block m lines
                                          (Some (settled_guess st block)) d;
                      interruptRequest_ := fl0;
                      progressed := evs ++ [p] |})
        as (st' & d' & events & Hrun & Hgrown & Hfs' & _);
        [exact Hp1|unfold fp1; pose proof (zlen_nonneg block); lia
        |unfold fp1; pose proof sizeChunk_pos; lia|].
      cbn [indexing_data_ interruptRequest_ progressed] in *.
      exists st', d', ([p] ++ events).
      unfold bind. rewrite Hbp, Hrun, Hfl, app_assoc.
      split; [reflexivity|].
      split; [rewrite HB; eapply hash_grown_step; [exact Hne|exact Hgrown]|].
      split; [congruence|].
      intros E. rewrite HB in E. apply app_eq_nil in E. destruct E. contradiction. }
    destruct fl as [[|n]|]; cbn [read_flag ret negb].
    + apply Hstop; reflexivity.
    + apply Hstep.
      * reflexivity.
      * cbn [flag_after_reader]. rewrite (blocks_from_step content fp) by lia.
        reflexivity.
    + apply Hstep.
      * unfold B. cbn [consumed]. apply file_read_split; [lia|].
        pose proof sizeChunk_pos. lia.
      * reflexivity.
Qed.

End AnyEncoding.

(** The chunk size only matters through [sizeChunk_pos] from here on. *)
#[global] Opaque sizeChunk.

Lemma first_blocks_succ n content fp :
  first_blocks (S n) content fp
  = file_read content fp sizeChunk
    ++ first_blocks n content (fp + zlen (file_read content fp sizeChunk)).
Proof. reflexivity. Qed.

Lemma consumed_nil flag content p0 :
  0 <= p0 -> consumed flag content p0 = [] ->
  zlen content <= p0 \/ flag = Some O.
Proof.
  intros Hp H. destruct flag as [[|n]|]; unfold consumed in H.
  - right. reflexivity.
  - left. rewrite first_blocks_succ in H.
    apply app_eq_nil in H. destruct H as [H _].
    assert (Hz : zlen (file_read content p0 sizeChunk) = 0) by (rewrite H; reflexivity).
    rewrite file_read_length in Hz by (pose proof sizeChunk_pos; lia).
    pose proof sizeChunk_pos. lia.
  - left.
    assert (Hz : length (skipn (Z.to_nat p0) content) = O) by (rewrite H; reflexivity).
    rewrite length_skipn in Hz. unfold zlen. lia.
Qed.

Section DoIndexAnyEncoding.

Context {collaborators : Collaborators}.

Hypothesis Hwf : well_formed_encodings.

(** [doIndex] on a readable file comes to an end, whatever the encoding and
    the interrupt request, and hashes exactly the bytes [B] it has read. *)
Lemma doIndex_total p0 content w :
  0 <= p0 ->
  let d := indexing_data_ w in
  let B := consumed (interruptRequest_ w) content p0 in
  let fl1 := flag_after_reader (interruptRequest_ w) content p0 in
  exists d2 events,
    doIndex p0 (Openable content) w
    = Done (tt, {| indexing_data_ := d2;
                   interruptRequest_ := snd (read_flag fl1);
                   progressed := progressed w ++ events |})
    /\ indexHash_ d2 = indexHash_ d ++ B
    /\ size (hash_ d2) = size (hash_ d) + zlen B
    /\ hash (hash_ d2)
       = match B with [] => hash (hash_ d) | _ => md5 (indexHash_ d ++ B) end.
Proof.
  intros Hp0 d B fl1.
  cbn [doIndex]. unfold bind at 1. unfold getData at 1.
  set (st0 := {| encodingParams := defaultEncodingParameters; pos := p0;
                 max_length := 0; additional_spaces := 0; end_ := 0;
                 file_size := zlen content;
                 encodingGuess := getEncodingGuess (indexing_data_ w);
                 fileTextCodec := _ |}).
  destruct (indexingGraph_total Hwf (S (length content)) content p0 st0 w)
    as (st' & d1 & events & Hrun & Hgrown & Hfs & Hsame).
  - apply Hwf.
  - exact Hp0.
  - unfold zlen. lia.
  - fold B d in Hgrown, Hsame.
    unfold bind at 1. cbn [pos st0] in Hrun |- *. rewrite Hrun.
    unfold bind at 1. unfold interruptRequested.
    cbn [interruptRequest_ indexing_data_ progressed].
    fold fl1. destruct (read_flag fl1) as [b fl2] eqn:Hread. cbn [snd].
    assert (Hfake : B = [] ->
                    negb b && (file_size st' >? pos st') = false).
    { intros HB. rewrite (Hsame HB). cbn [file_size pos st0].
      destruct (consumed_nil _ _ _ Hp0 HB) as [Hle|Hfl].
      - replace (zlen content >? p0) with false by (symmetry; lia).
        apply andb_false_r.
      - unfold fl1 in Hread. rewrite Hfl in Hread. cbn in Hread.
        injection Hread as <- <-. reflexivity. }
    destruct (negb b && (file_size st' >? pos st')) eqn:Hcond.
    + (* the entry for a last line without line feed is added *)
      destruct B as [|b0 B0] eqn:HB; [discriminate (Hfake eq_refl)|].
      cbn [hash_grown] in Hgrown. destruct Hgrown as (H1 & H2 & H3 & H4).
      unfold bind, modifyData, ret, getData.
      cbn [indexing_data_ interruptRequest_ progressed].
      match goal with
      | |- context [getEncodingGuess ?x] => destruct (getEncodingGuess x)
      end;
        (eexists; exists events; split; [reflexivity|]);
        cbn [indexing_data_ setEncodingGuess addAll indexHash_ hash_ size hash];
        rewrite H1, H2; cbn [size]; rewrite app_nil_r;
        change (zlen (@nil byte)) with 0;
        (split; [reflexivity|split; [lia|reflexivity]]).
    + unfold bind, modifyData, ret, getData.
      cbn [indexing_data_ interruptRequest_ progressed].
      assert (Hd1 : indexHash_ d1 = indexHash_ d ++ B
                    /\ size (hash_ d1) = size (hash_ d) + zlen B
                    /\ hash (hash_ d1)
                       = match B with
                         | [] => hash (hash_ d)
                         | _ => md5 (indexHash_ d ++ B)
                         end).
      { destruct B as [|b0 B0]; cbn [hash_grown] in Hgrown.
        - subst d1. rewrite app_nil_r. change (zlen (@nil byte)) with 0.
          repeat split. lia.
        - destruct Hgrown as (H1 & H2 & H3 & H4). rewrite H1, H2.
          repeat split. }
      destruct (getEncodingGuess d1);
        (eexists; exists events; split; [reflexivity|exact Hd1]).
Qed.

End DoIndexAnyEncoding.

Section CheckFileChanges.

Context {collaborators : Collaborators}.

Lemma read_loop_total content buffer_size indexed_size fuel :
  forall fp totalSize hashed,
    0 <= fp ->
    Z.max 0 (zlen content - fp) < Z.of_nat fuel ->
    exists r, read_loop fuel content buffer_size indexed_size fp totalSize hashed
              = Done r.
Proof.
  induction fuel as [|fuel IH]; intros fp total hashed Hfp Hfuel; [lia|].
  cbn [read_loop].
  set (chunk := file_read content fp buffer_size).
  destruct ((zlen chunk >? 0) && _) eqn:Hc; [|eexists; reflexivity].
  apply andb_true_iff in Hc. destruct Hc as [Hc _].
  apply IH; [lia|].
  assert (zlen chunk <= Z.max 0 (zlen content - fp)).
  { unfold chunk, file_read, zlen. rewrite length_firstn, length_skipn. lia. }
  lia.
Qed.

Lemma read_loop_prefix content n fuel :
  0 <= n <= zlen content ->
  read_loop (S fuel) content n n 0 0 [] = Done (firstn (Z.to_nat n) content).
Proof.
  intros Hn. cbn [read_loop].
  assert (Hread : file_read content 0 n = firstn (Z.to_nat n) content) by reflexivity.
  rewrite Hread.
  assert (Hz : zlen (firstn (Z.to_nat n) content) = n).
  { unfold zlen in *. rewrite length_firstn. lia. }
  rewrite Hz.
  destruct (n >? 0) eqn:E.
  - replace (0 + n <? n) with false by (symmetry; lia). reflexivity.
  - cbn [andb]. replace n with 0 by lia. reflexivity.
Qed.

Lemma bytes_eqb_eq a b : bytes_eqb a b = true <-> a = b.
Proof.
  unfold bytes_eqb. destruct (list_eq_dec Byte.byte_eq_dec a b); split; congruence.
Qed.

(** C9. [CheckFileChangesOperation::start] always returns a file status and
    leaves the world exactly as it found it: every field of the shared
    index (line positions, maximal length, hash, running hash state, guessed
    and forced encoding) is what it was before the call, whichever status
    comes back. The operation only reads the index, through [getHash]. *)
Theorem check_file_changes_frame file w :
  exists status,
    CheckFileChangesOperation_start file w = Done (FileStatus status, w).
Proof.
  unfold CheckFileChangesOperation_start, bind, getData.
  destruct ((info_size file =? 0) || _); [eexists; reflexivity|].
  destruct file as [n|content]; [eexists; reflexivity|].
  destruct (read_loop_total content
              (Z.max 0 (to_int (size (getHash (indexing_data_ w)))))
              (size (getHash (indexing_data_ w))) (S (length content)) 0 0 [])
    as [hashed Hr]; [lia|unfold zlen; lia|].
  unfold lift. rewrite Hr.
  destruct (negb _); [eexists; reflexivity|].
  destruct (_ >? _); eexists; reflexivity.
Qed.

(** The status that a check returns, case by case. *)
Lemma check_file_changes_cases file w :
  0 <= size (getHash (indexing_data_ w)) < 2 ^ 31 ->
  let indexedHash := getHash (indexing_data_ w) in
  exists status,
    CheckFileChangesOperation_start file w = Done (FileStatus status, w)
    /\ (info_size file = 0 \/ info_size file < size indexedHash ->
        status = Truncated)
    /\ (forall n, file = Unopenable n -> status = Truncated)
    /\ (forall content,
          file = Openable content ->
          let realHash := md5 (firstn (Z.to_nat (size indexedHash)) content) in
          (realHash <> hash indexedHash -> status = Truncated)
          /\ (realHash = hash indexedHash ->
              info_size file > size indexedHash -> status = DataAdded)
          /\ (realHash = hash indexedHash ->
              info_size file = size indexedHash -> info_size file <> 0 ->
              status = Unchanged)).
Proof.
  intros Hsize h. fold h in Hsize.
  unfold CheckFileChangesOperation_start, bind, getData. fold h.
  destruct ((info_size file =? 0) || (info_size file <? size h)) eqn:Hguard.
  - (* the size on disk is zero or below the indexed size *)
    exists Truncated. unfold ret. split; [reflexivity|].
    split; [reflexivity|]. split; [reflexivity|].
    intros content Hfile. split; [reflexivity|].
    apply orb_true_iff in Hguard. split; intros; lia.
  - apply orb_false_iff in Hguard. destruct Hguard as [Hz Hlt].
    destruct file as [n|content].
    + exists Truncated. unfold ret. split; [reflexivity|].
      split; [reflexivity|]. split; [reflexivity|]. intros content. discriminate.
    + cbn [info_size] in *.
      rewrite to_int_id by lia. rewrite Z.max_r by lia.
      rewrite read_loop_prefix by lia. unfold lift.
      set (realHash := md5 (firstn (Z.to_nat (size h)) content)).
      destruct (bytes_eqb (hash h) realHash) eqn:Heq; cbn [negb].
      * apply bytes_eqb_eq in Heq.
        destruct (zlen content >? size h) eqn:Hgt; unfold ret;
          eexists; (split; [reflexivity|]);
          (split; [intros; lia|]); (split; [discriminate|]);
          intros c [= <-]; fold realHash;
          (split; [congruence|]); split; intros; try reflexivity; lia.
      * exists Truncated. unfold ret. split; [reflexivity|].
        split; [reflexivity|]. split; [reflexivity|].
        intros c [= <-]. fold realHash. split; [reflexivity|].
        assert (hash h <> realHash).
        { intros E. apply bytes_eqb_eq in E. congruence. }
        split; intros; congruence.
Qed.

(** Within the range of [int]: for every attached file and every prior
    index whose indexed size fits the [int] the read buffer is sized with
    (it is below 2^31), the operation returns
    Truncated when the size on disk is zero or smaller than the indexed
    size, or when the file cannot be opened, or when the MD5 of the first
    [hash.size] bytes on disk differs from the indexed hash; past these
    cases it returns DataAdded when that MD5 matches and the size on disk
    is greater than the indexed size, and Unchanged when it matches and the
    sizes are equal. The cases are taken in the order the claim lists them:
    a file of size zero is Truncated whatever its hash. *)
Theorem check_file_changes_status file w :
  0 <= size (getHash (indexing_data_ w)) < 2 ^ 31 ->
  let indexedHash := getHash (indexing_data_ w) in
  exists status,
    CheckFileChangesOperation_start file w = Done (FileStatus status, w)
    /\ (info_size file = 0 \/ info_size file < size indexedHash ->
        status = Truncated)
    /\ (forall n, file = Unopenable n -> status = Truncated)
    /\ (forall content,
          file = Openable content ->
          let realHash := md5 (firstn (Z.to_nat (size indexedHash)) content) in
          (realHash <> hash indexedHash -> status = Truncated)
          /\ (realHash = hash indexedHash ->
              info_size file > size indexedHash -> status = DataAdded)
          /\ (realHash = hash indexedHash ->
              info_size file = size indexedHash -> info_size file <> 0 ->
              status = Unchanged)).
Proof. exact (check_file_changes_cases file w). Qed.

End CheckFileChanges.

Section OpenFailure.

Context {collaborators : Collaborators}.

(** Both index operations on a file that cannot be opened. *)
Lemma unopenable_file_runs forced n w :
  let interrupted := fst (read_flag (interruptRequest_ w)) in
  let w' := {| indexing_data_ := index_of_nothing;
               interruptRequest_ := snd (read_flag (interruptRequest_ w));
               progressed := progressed w ++ [0; 100] |} in
  FullIndexOperation_start forced (Unopenable n) w
  = Done (Completion (negb interrupted), w')
  /\ PartialIndexOperation_start (Unopenable n) w
     = Done (Completion (negb interrupted), w')
  /\ count_occ Z.eq_dec [0; 100] 100 = 1%nat.
Proof.
  intros interrupted w'. unfold interrupted, w'.
  unfold FullIndexOperation_start, PartialIndexOperation_start, doIndex,
    bind, emitIndexingProgressed, modifyData, interruptRequested, getData, ret.
  cbn [indexing_data_ interruptRequest_ progressed].
  destruct (read_flag (interruptRequest_ w)) as [b fl] eqn:E. cbn [fst snd].
  rewrite <- !app_assoc. cbn [app].
  destruct b; repeat split.
Qed.

(** C7. When the file cannot be opened, a full and a partial index
    operation both leave an index that is cleared in every field (no line
    position, maximal length 0, empty hash of size 0, no forced encoding)
    but for the guess, which is the codec of the locale; after the opening
    progress 0 they emit exactly one progress event, 100; and they return
    [Completion true] when the read of the interrupt request that follows
    finds it lowered, [Completion false] when it finds it raised. *)
Theorem index_unopenable_file forced n w :
  let interrupted := fst (read_flag (interruptRequest_ w)) in
  let w' := {| indexing_data_ := index_of_nothing;
               interruptRequest_ := snd (read_flag (interruptRequest_ w));
               progressed := progressed w ++ [0; 100] |} in
  FullIndexOperation_start forced (Unopenable n) w
  = Done (Completion (negb interrupted), w')
  /\ PartialIndexOperation_start (Unopenable n) w
     = Done (Completion (negb interrupted), w')
  /\ count_occ Z.eq_dec [0; 100] 100 = 1%nat.
Proof. exact (unopenable_file_runs forced n w). Qed.

End OpenFailure.

Section Progress.

Context {collaborators : Collaborators}.

Lemma fault_other_type {A B : Type} f :
  no_division_by_zero (@Fault A f) -> no_division_by_zero (@Fault B f).
Proof.
  unfold no_division_by_zero. intros H E. apply H. injection E as ->. reflexivity.
Qed.

Lemma bind_no_division {A B : Type} (m : M A) (k : A -> M B) w :
  no_division_by_zero (m w) ->
  (forall a w', m w = Done (a, w') -> no_division_by_zero (k a w')) ->
  no_division_by_zero (bind m k w).
Proof.
  unfold bind, no_division_by_zero. intros Hm Hk.
  destruct (m w) as [[a w']|f];
    [apply (Hk a w' eq_refl)|exact (fault_other_type f Hm)].
Qed.

Lemma expandTabs_loop_no_division fuel block_beginning block :
  forall search_start line_size next_tab (state : IndexingState),
    no_division_by_zero
      (expandTabs_loop fuel block_beginning block search_start line_size
                       next_tab state).
Proof.
  unfold no_division_by_zero.
  induction fuel as [|fuel IH]; intros s n nt st; destruct nt as [t|];
    cbn [expandTabs_loop]; try discriminate.
  apply IH.
Qed.

Lemma parse_loop_no_division fuel block_beginning block :
  forall (state : IndexingState) lines,
    no_division_by_zero (parse_loop fuel block_beginning block state lines).
Proof.
  unfold no_division_by_zero.
  induction fuel as [|fuel IH]; intros st lines; cbn [parse_loop]; [discriminate|].
  set (p := Z.max (to_int (pos st - block_beginning)) 0).
  destruct (zlen block - p >? 0).
  2:{ cbn. discriminate. }
  destruct (memchr block p LF (zlen block - p)) as [nl|].
  - pose proof (expandTabs_loop_no_division (S (length block)) block_beginning
                  block p (nl - p) (memchr block p TAB (nl - p)) st) as He.
    unfold expandTabs.
    destruct (expandTabs_loop _ _ _ _ _ _ _) as [st1|f].
    + destruct (adjustToCharWidth st1 nl =? -1); [discriminate|apply IH].
    + exact (fault_other_type f He).
  - pose proof (expandTabs_loop_no_division (S (length block)) block_beginning
                  block p (zlen block - p)
                  (memchr block p TAB (zlen block - p)) st) as He.
    unfold expandTabs.
    destruct (expandTabs_loop _ _ _ _ _ _ _) as [st1|f].
    + cbn. discriminate.
    + exact (fault_other_type f He).
Qed.

Lemma blockParser_no_division block_beginning block (state : IndexingState) w :
  no_division_by_zero (blockParser block_beginning block state w).
Proof.
  unfold blockParser. apply bind_no_division; [discriminate|].
  intros d w' _. destruct block as [|b r].
  - apply bind_no_division; discriminate.
  - apply bind_no_division.
    + unfold lift, parseDataBlock.
      pose proof (parse_loop_no_division (S (length (b :: r))) block_beginning
                    (b :: r)
                    (set_max_length 0 (guessEncoding (b :: r) state d))
                    emptyLinePositionArray) as Hp.
      destruct (parse_loop _ _ _ _ _) as [[st1 l1]|f];
        [discriminate|exact (fault_other_type f Hp)].
    + intros [st1 l1] w1 _. apply bind_no_division; [discriminate|].
      intros _ w2 _. apply bind_no_division.
      * unfold lift. destruct (progress_of_cases st1) as (p & Hp & _).
        rewrite Hp. discriminate.
      * intros p w3 _. apply bind_no_division; discriminate.
Qed.

Lemma indexingGraph_no_division fuel content :
  forall fp (state : IndexingState) w,
    no_division_by_zero (indexingGraph fuel content fp state w).
Proof.
  induction fuel as [|fuel IH]; intros fp st w; cbn [indexingGraph]; [discriminate|].
  apply bind_no_division; [unfold interruptRequested;
                           destruct (read_flag _); discriminate|].
  intros b w1 _. destruct b; [discriminate|].
  destruct (negb (atEnd content fp)); [|discriminate].
  apply bind_no_division; [apply blockParser_no_division|].
  intros st1 w2 _. apply IH.
Qed.

Lemma doIndex_no_division initialPosition file w :
  no_division_by_zero (doIndex initialPosition file w).
Proof.
  destruct file as [n|content]; cbn [doIndex].
  - repeat (apply bind_no_division; [discriminate|intros ? ? _]). discriminate.
  - apply bind_no_division; [discriminate|]. intros d w1 _.
    apply bind_no_division; [apply indexingGraph_no_division|]. intros st w2 _.
    apply bind_no_division; [unfold interruptRequested;
                             destruct (read_flag _); discriminate|].
    intros b w3 _.
    apply bind_no_division.
    + destruct (negb b && _); discriminate.
    + intros _ w4 _. apply bind_no_division; [discriminate|].
      intros d4 w5 _. destruct (getEncodingGuess d4); discriminate.
Qed.

(** What an index operation leaves of the file size, and the one signal
    per block. *)
Lemma expandTabs_loop_file_size fuel block_beginning block :
  forall search_start line_size next_tab (state state' : IndexingState),
    expandTabs_loop fuel block_beginning block search_start line_size
                    next_tab state = Done state' ->
    file_size state' = file_size state.
Proof.
  induction fuel as [|fuel IH]; intros s n nt st st' H; destruct nt as [t|];
    cbn [expandTabs_loop] in H; try discriminate.
  - injection H as <-. reflexivity.
  - apply IH in H. rewrite H. reflexivity.
  - injection H as <-. reflexivity.
Qed.

Lemma parse_loop_file_size fuel block_beginning block :
  forall (state : IndexingState) lines state' lines',
    parse_loop fuel block_beginning block state lines = Done (state', lines') ->
    file_size state' = file_size state.
Proof.
  induction fuel as [|fuel IH]; intros st lines st' lines' H;
    cbn [parse_loop] in H; [discriminate|].
  set (p := Z.max (to_int (pos st - block_beginning)) 0) in H.
  destruct (zlen block - p >? 0).
  2:{ cbn in H. injection H as <- _. reflexivity. }
  destruct (memchr block p LF (zlen block - p)) as [nl|].
  - unfold expandTabs in H.
    destruct (expandTabs_loop _ _ _ _ _ _ _) as [st1|f] eqn:He; [|discriminate].
    apply expandTabs_loop_file_size in He.
    destruct (adjustToCharWidth st1 nl =? -1).
    + injection H as <- _. exact He.
    + apply IH in H. rewrite H. cbn [line_found file_size]. exact He.
  - unfold expandTabs in H.
    destruct (expandTabs_loop _ _ _ _ _ _ _) as [st1|f] eqn:He; [|discriminate].
    apply expandTabs_loop_file_size in He.
    cbn in H. injection H as <- _. exact He.
Qed.

Lemma blockParser_signal block_beginning block (state : IndexingState) w state' w' :
  block <> [] ->
  blockParser block_beginning block state w = Done (state', w') ->
  exists progress,
    progressed w' = progressed w ++ [progress]
    /\ progress_of state' = Done progress
    /\ file_size state' = file_size state.
Proof.
  intros Hne H. unfold blockParser, bind, getData in H.
  destruct block as [|b r]; [contradiction|].
  unfold lift in H.
  destruct (parseDataBlock block_beginning (b :: r)
              (guessEncoding (b :: r) state (indexing_data_ w)))
    as [[st1 lines]|f] eqn:Hparse; [|discriminate].
  unfold modifyData in H. cbn [indexing_data_ interruptRequest_ progressed] in H.
  destruct (progress_of st1) as [p|f] eqn:Hprog; [|discriminate].
  unfold emitIndexingProgressed, ret in H.
  cbn [indexing_data_ interruptRequest_ progressed] in H.
  injection H as <- <-. exists p. cbn [progressed].
  split; [reflexivity|]. split; [exact Hprog|].
  unfold parseDataBlock in Hparse. apply parse_loop_file_size in Hparse.
  rewrite Hparse. cbn [set_max_length file_size].
  destruct (guessEncoding_fields (b :: r) state (indexing_data_ w))
    as (_ & _ & Hfs & _). exact Hfs.
Qed.
(** What [blockParser] does with a block that is not empty, whatever the
    file size the state carries: it returns, and has sent one progress
    signal more. *)
Lemma blockParser_progress block_beginning block (state : IndexingState) w :
  well_formed (encodingParams (guessEncoding block state (indexing_data_ w))) ->
  block <> [] ->
  zlen block <= 2 ^ 30 ->
  exists state' d' progress,
    blockParser block_beginning block state w
    = Done (state', {| indexing_data_ := d';
                       interruptRequest_ := interruptRequest_ w;
                       progressed := progressed w ++ [progress] |})
    /\ file_size state' = file_size state
    /\ progress_of state' = Done progress.
Proof.
  intros Hwf Hne Hlen. destruct w as [d fl evs].
  cbn [indexing_data_ interruptRequest_ progressed] in *.
  destruct (parseDataBlock_total block_beginning block (guessEncoding block state d)
              Hwf Hlen) as (st' & lines & Hparse & Henc).
  destruct (progress_of_total st') as [p Hprog].
  destruct (guessEncoding_fields block state d) as (_ & _ & Hfs & _).
  exists st', (addAll block (max_length st') lines (encodingGuess st') d), p.
  split; [|split; [|exact Hprog]].
  - unfold blockParser, bind, getData. cbn [indexing_data_].
    destruct block as [|b r]; [contradiction|].
    unfold lift. rewrite Hparse. cbn [indexing_data_ interruptRequest_ progressed].
    unfold modifyData. cbn [indexing_data_ interruptRequest_ progressed].
    rewrite Hprog. unfold emitIndexingProgressed, ret.
    cbn [indexing_data_ interruptRequest_ progressed]. reflexivity.
  - destruct Henc as (_ & Hfs2 & _). rewrite <- Hfs2, Hfs. reflexivity.
Qed.

(** C10. The progress computation is total: it returns for every state,
    and returns 100 when [file_size <= 0], where no quotient is taken.
    Whenever the parser returns from a block that is not empty it has sent
    exactly one progress signal, whatever file size the state carries: 100
    when [file_size <= 0], and the floor of the single-precision quotient of
    [pos * 100.f] by [file_size], taken at the position the parse of the
    block has reached, when [file_size > 0]; and it does return, for a
    block of at most 2^30 bytes under encoding parameters whose line feed is
    at most four bytes wide with its [0x0A] byte inside. No full or partial
    index operation, on any file, under any encoding and any interrupt
    request, ends in a division by zero, although the quotient by zero is a
    fault of its own in this model. *)
Theorem progress_never_divides_by_zero :
  (forall state : IndexingState,
      exists progress,
        progress_of state = Done progress
        /\ (file_size state <= 0 -> progress = 100))
  /\ (forall block_beginning block (state : IndexingState) w state' w',
        block <> [] ->
        blockParser block_beginning block state w = Done (state', w') ->
        exists progress,
          progressed w' = progressed w ++ [progress]
          /\ (file_size state <= 0 -> progress = 100)
          /\ (file_size state > 0 ->
              progress = progress_at (pos state') (file_size state)))
  /\ (forall block_beginning block (state : IndexingState) w,
        well_formed
          (encodingParams (guessEncoding block state (indexing_data_ w))) ->
        block <> [] ->
        zlen block <= 2 ^ 30 ->
        exists state' d' progress,
          blockParser block_beginning block state w
          = Done (state', {| indexing_data_ := d';
                             interruptRequest_ := interruptRequest_ w;
                             progressed := progressed w ++ [progress] |}))
  /\ (forall forced file w,
        FullIndexOperation_start forced file w <> Fault DivisionByZero)
  /\ (forall file w,
        PartialIndexOperation_start file w <> Fault DivisionByZero)
  /\ (forall a d, divide a (0, d) = Fault DivisionByZero).
Proof.
  split; [|split; [|split; [|split; [|split]]]].
  - intros state. destruct (progress_of_cases state) as (p & Hp & _ & Hzero).
    exists p. split; [exact Hp|exact Hzero].
  - intros bb block state w st' w' Hne Hrun.
    destruct (blockParser_signal bb block state w st' w' Hne Hrun)
      as (p & Hsent & Hprog & Hfs).
    exists p. split; [exact Hsent|].
    destruct (progress_of_cases st') as (p' & Hp' & Hpos & Hzero).
    rewrite Hprog in Hp'. injection Hp' as <-. rewrite Hfs in Hpos, Hzero.
    split; [exact Hzero|exact Hpos].
  - intros bb block state w Hwf Hne Hlen.
    destruct (blockParser_progress bb block state w Hwf Hne Hlen)
      as (st' & d' & p & Hrun & _).
    exists st', d', p. exact Hrun.
  - intros forced file w. unfold FullIndexOperation_start.
    do 3 (apply bind_no_division; [discriminate|intros ? ? _]).
    apply bind_no_division; [apply doIndex_no_division|intros ? ? _].
    apply bind_no_division; [unfold interruptRequested;
                             destruct (read_flag _); discriminate|].
    intros; discriminate.
  - intros file w. unfold PartialIndexOperation_start.
    do 2 (apply bind_no_division; [discriminate|intros ? ? _]).
    apply bind_no_division; [apply doIndex_no_division|intros ? ? _].
    apply bind_no_division; [unfold interruptRequested;
                             destruct (read_flag _); discriminate|].
    intros; discriminate.
  - reflexivity.
Qed.

End Progress.

Section HashOfTheIndex.

Context {collaborators : Collaborators}.

Lemma indexed_hash_eq (h : IndexedHash) bytes n :
  hash h = bytes -> size h = n -> h = {| hash := bytes; size := n |}.
Proof. destruct h. cbn. intros -> ->. reflexivity. Qed.

Lemma check_unchanged F w :
  F <> [] -> zlen F < 2 ^ 31 ->
  getHash (indexing_data_ w) = {| hash := md5 F; size := zlen F |} ->
  CheckFileChangesOperation_start (Openable F) w = Done (FileStatus Unchanged, w).
Proof.
  intros Hne Hlen Hh.
  pose proof (zlen_nonneg F) as H0.
  destruct (check_file_changes_cases (Openable F) w) as (s & Hrun & _ & _ & Hs).
  - rewrite Hh. cbn [size]. lia.
  - rewrite Hrun. destruct (Hs F eq_refl) as (_ & _ & Hu).
    rewrite Hu; [reflexivity| | |].
    + rewrite Hh. cbn [size hash]. unfold zlen. rewrite Nat2Z.id, firstn_all.
      reflexivity.
    + rewrite Hh. reflexivity.
    + cbn [info_size]. destruct F; [contradiction|]. rewrite zlen_cons.
      pose proof (zlen_nonneg F). lia.
Qed.

Lemma check_empty_file w :
  CheckFileChangesOperation_start (Openable []) w = Done (FileStatus Truncated, w).
Proof. reflexivity. Qed.

Hypothesis Hwf : well_formed_encodings.

(** An uninterrupted full index hashes the whole file. *)
Lemma full_index_hash forced F w :
  interruptRequest_ w = None ->
  exists d events,
    FullIndexOperation_start forced (Openable F) w
    = Done (Completion true,
            {| indexing_data_ := d; interruptRequest_ := None;
               progressed := progressed w ++ events |})
    /\ indexHash_ d = F
    /\ getHash d = match F with
                   | [] => emptyIndexedHash
                   | _ => {| hash := md5 F; size := zlen F |}
                   end.
Proof.
  intros Hfl. unfold FullIndexOperation_start.
  unfold bind at 1. unfold emitIndexingProgressed at 1.
  unfold bind at 1. unfold modifyData at 1.
  unfold bind at 1. unfold modifyData at 1.
  cbn [indexing_data_ interruptRequest_ progressed]. rewrite Hfl.
  set (w0 := {| indexing_data_ := forceEncoding forced clear;
                interruptRequest_ := None;
                progressed := progressed w ++ [0] |}).
  destruct (doIndex_total Hwf 0 F w0 ltac:(lia)) as (d2 & events & Hrun & H1 & H2 & H3).
  cbn [indexing_data_ interruptRequest_ progressed w0 consumed flag_after_reader
       read_flag snd forceEncoding clear indexHash_ hash_ size hash
       emptyIndexedHash app] in Hrun, H1, H2, H3.
  change (skipn (Z.to_nat 0) F) with F in *.
  unfold bind at 1. rewrite Hrun.
  unfold bind, interruptRequested, ret.
  cbn [indexing_data_ interruptRequest_ progressed read_flag].
  exists d2, ([0] ++ events). rewrite app_assoc.
  split; [reflexivity|]. split; [exact H1|].
  unfold getHash. destruct F as [|b r].
  - apply indexed_hash_eq; [exact H3|exact H2].
  - apply indexed_hash_eq; [exact H3|]. rewrite H2. lia.
Qed.

Lemma index_operations_keep_size_of_hash :
  (forall forced file w,
      exists r w',
        FullIndexOperation_start forced file w = Done (r, w')
        /\ size (hash_ (indexing_data_ w')) = zlen (indexHash_ (indexing_data_ w')))
  /\ (forall file w,
        size (hash_ (indexing_data_ w)) = zlen (indexHash_ (indexing_data_ w)) ->
        exists r w',
          PartialIndexOperation_start file w = Done (r, w')
          /\ size (hash_ (indexing_data_ w'))
             = zlen (indexHash_ (indexing_data_ w'))).
Proof.
  split.
  - intros forced [n|content] w.
    + destruct (unopenable_file_runs forced n w) as [H _].
      cbv zeta in H. rewrite H. do 2 eexists. split; [reflexivity|reflexivity].
    + unfold FullIndexOperation_start.
      unfold bind at 1. unfold emitIndexingProgressed at 1.
      unfold bind at 1. unfold modifyData at 1.
      unfold bind at 1. unfold modifyData at 1.
      cbn [indexing_data_ interruptRequest_ progressed].
      set (w0 := {| indexing_data_ := forceEncoding forced clear;
                    interruptRequest_ := interruptRequest_ w;
                    progressed := progressed w ++ [0] |}).
      destruct (doIndex_total Hwf 0 content w0 ltac:(lia))
        as (d2 & events & Hrun & H1 & H2 & H3).
      set (fl2 := snd (read_flag _)) in Hrun.
      unfold bind at 1. rewrite Hrun.
      unfold bind, interruptRequested, ret.
      cbn [indexing_data_ interruptRequest_ progressed].
      destruct (read_flag fl2) as [b fl]. do 2 eexists. split; [reflexivity|].
      cbn [indexing_data_]. rewrite H1, H2, zlen_app. reflexivity.
  - intros [n|content] w Hinv.
    + destruct (unopenable_file_runs None n w) as (_ & H & _).
      cbv zeta in H. rewrite H. do 2 eexists. split; [reflexivity|reflexivity].
    + unfold PartialIndexOperation_start.
      unfold bind at 1. unfold getData at 1.
      unfold bind at 1. unfold emitIndexingProgressed at 1.
      set (w0 := {| indexing_data_ := indexing_data_ w;
                    interruptRequest_ := interruptRequest_ w;
                    progressed := progressed w ++ [0] |}).
      destruct (doIndex_total Hwf (getSize (indexing_data_ w)) content w0)
        as (d2 & events & Hrun & H1 & H2 & H3).
      { unfold getSize. rewrite Hinv. apply zlen_nonneg. }
      set (fl2 := snd (read_flag _)) in Hrun.
      unfold bind at 1. rewrite Hrun.
      unfold bind, interruptRequested, ret.
      cbn [indexing_data_ interruptRequest_ progressed].
      destruct (read_flag fl2) as [b fl]. do 2 eexists. split; [reflexivity|].
      cbn [indexing_data_ w0] in *. rewrite H1, H2, zlen_app, Hinv. reflexivity.
Qed.

End HashOfTheIndex.

Lemma sample_well_formed : @well_formed_encodings sample.
Proof. split; [|intros c]; unfold well_formed; cbn; lia. Qed.

Lemma sample_single_byte : @single_byte_encodings sample.
Proof. split; [|intros c]; reflexivity. Qed.

Section Hash.

Context {collaborators : Collaborators}.

Hypothesis Hwf : well_formed_encodings.

(** C4, amended. For every readable file F that is not empty, after a
    full index that runs without interruption [hash()] is the MD5 of all
    bytes of F with size [len F]; for the empty file it is the empty byte
    array with size 0, which is not the MD5 of no bytes. Every [addAll]
    feeds its block to the running hash and adds the block's length to the
    size, so that after every full or partial index operation, interrupted
    or not, [hash.size] is the number of bytes passed to [addAll] since the
    index was cleared; the commit of the synthetic final entry passes an
    empty block and leaves hash and size as the previous commit left them. *)
Theorem hash_after_full_index :
  (forall forced F w,
      interruptRequest_ w = None -> F <> [] ->
      exists w',
        FullIndexOperation_start forced (Openable F) w = Done (Completion true, w')
        /\ getHash (indexing_data_ w') = {| hash := md5 F; size := zlen F |})
  /\ (forall forced w,
        interruptRequest_ w = None ->
        exists w',
          FullIndexOperation_start forced (Openable []) w
          = Done (Completion true, w')
          /\ getHash (indexing_data_ w') = {| hash := []; size := 0 |})
  /\ (forall block length lines encoding d,
        indexHash_ (addAll block length lines encoding d) = indexHash_ d ++ block
        /\ size (hash_ (addAll block length lines encoding d))
           = size (hash_ d) + zlen block)
  /\ (forall forced file w,
        exists r w',
          FullIndexOperation_start forced file w = Done (r, w')
          /\ size (hash_ (indexing_data_ w'))
             = zlen (indexHash_ (indexing_data_ w')))
  /\ (forall file w,
        size (hash_ (indexing_data_ w)) = zlen (indexHash_ (indexing_data_ w)) ->
        exists r w',
          PartialIndexOperation_start file w = Done (r, w')
          /\ size (hash_ (indexing_data_ w'))
             = zlen (indexHash_ (indexing_data_ w')))
  /\ (forall block length lines encoding length' lines' encoding' d,
        hash_ (addAll [] length' lines' encoding'
                      (addAll block length lines encoding d))
        = hash_ (addAll block length lines encoding d)).
Proof.
  split; [|split; [|split; [|split; [|split]]]].
  - intros forced F w Hfl Hne.
    destruct (full_index_hash Hwf forced F w Hfl) as (d & events & Hrun & _ & Hh).
    eexists. split; [exact Hrun|]. cbn [indexing_data_].
    destruct F; [contradiction|exact Hh].
  - intros forced w Hfl.
    destruct (full_index_hash Hwf forced [] w Hfl) as (d & events & Hrun & _ & Hh).
    eexists. split; [exact Hrun|exact Hh].
  - intros. split; reflexivity.
  - apply (index_operations_keep_size_of_hash Hwf).
  - apply (index_operations_keep_size_of_hash Hwf).
  - intros. cbn [addAll hash_ indexHash_ size].
    rewrite app_nil_r. change (zlen (@nil byte)) with 0. rewrite Z.add_0_r.
    reflexivity.
Qed.

(** C8, amended. For every file that is not empty, is below 2 GiB and was
    indexed in full without interruption (more generally, whenever the
    indexed hash is the MD5 and the length of the file), two consecutive
    checks on the unchanged file both return Unchanged and leave the index
    as it is. A file that is empty is reported as Truncated by both. *)
Theorem check_file_changes_idempotent :
  (forall forced F w,
      interruptRequest_ w = None -> F <> [] -> zlen F < 2 ^ 31 ->
      exists w',
        FullIndexOperation_start forced (Openable F) w = Done (Completion true, w')
        /\ check_twice (Openable F) w'
           = Done ((FileStatus Unchanged, FileStatus Unchanged), w'))
  /\ (forall F w,
        F <> [] -> zlen F < 2 ^ 31 ->
        getHash (indexing_data_ w) = {| hash := md5 F; size := zlen F |} ->
        check_twice (Openable F) w
        = Done ((FileStatus Unchanged, FileStatus Unchanged), w))
  /\ (forall w,
        check_twice (Openable []) w
        = Done ((FileStatus Truncated, FileStatus Truncated), w)).
Proof.
  assert (Htwice : forall F w,
             F <> [] -> zlen F < 2 ^ 31 ->
             getHash (indexing_data_ w) = {| hash := md5 F; size := zlen F |} ->
             check_twice (Openable F) w
             = Done ((FileStatus Unchanged, FileStatus Unchanged), w)).
  { intros F w Hne Hlen Hh. unfold check_twice, bind.
    rewrite (check_unchanged F w Hne Hlen Hh).
    rewrite (check_unchanged F w Hne Hlen Hh). reflexivity. }
  split; [|split].
  - intros forced F w Hfl Hne Hlen.
    destruct (full_index_hash Hwf forced F w Hfl) as (d & events & Hrun & _ & Hh).
    eexists. split; [exact Hrun|]. apply Htwice; [exact Hne|exact Hlen|].
    cbn [indexing_data_]. destruct F; [contradiction|exact Hh].
  - exact Htwice.
  - intros w. reflexivity.
Qed.

End Hash.

Lemma hash_after_full_index_witness :
  @well_formed_encodings sample
  /\ exists w',
       FullIndexOperation_start None (Openable three_lines) idle
       = Done (Completion true, w')
       /\ getHash (indexing_data_ w')
          = {| hash := md5 three_lines; size := zlen three_lines |}.
Proof.
  split; [exact sample_well_formed|].
  destruct (@hash_after_full_index sample sample_well_formed) as [H _].
  apply (H None three_lines idle); [reflexivity|discriminate].
Defined.

(** The empty file: the indexed hash is the empty byte array, the MD5 of no
    bytes is sixteen bytes long. *)
Lemma hash_of_empty_file :
  exists w',
    FullIndexOperation_start None (Openable []) idle = Done (Completion true, w')
    /\ hash (getHash (indexing_data_ w')) = []
    /\ md5 [] <> []
    /\ getHash (indexing_data_ w') <> {| hash := md5 []; size := 0 |}.
Proof.
  eexists. split; [vm_compute; reflexivity|].
  split; [reflexivity|]. split; vm_compute; discriminate.
Qed.

Lemma check_file_changes_idempotent_witness :
  @well_formed_encodings sample
  /\ exists w',
       FullIndexOperation_start None (Openable three_lines) idle
       = Done (Completion true, w')
       /\ check_twice (Openable three_lines) w'
          = Done ((FileStatus Unchanged, FileStatus Unchanged), w').
Proof.
  split; [exact sample_well_formed|].
  destruct (@check_file_changes_idempotent sample sample_well_formed) as [H _].
  apply (H None three_lines idle); [reflexivity|discriminate|vm_compute; reflexivity].
Defined.

(** The empty file, indexed and never changed: both checks say Truncated. *)
Lemma check_of_empty_file_is_truncated :
  exists w',
    FullIndexOperation_start None (Openable []) idle = Done (Completion true, w')
    /\ getSize (indexing_data_ w') = 0
    /\ check_twice (Openable []) w'
       = Done ((FileStatus Truncated, FileStatus Truncated), w').
Proof.
  eexists. split; [vm_compute; reflexivity|]. split; reflexivity.
Qed.

Lemma check_file_changes_status_witness :
  (0 <= 9 < 2 ^ 31)
  /\ exists status,
       CheckFileChangesOperation_start
         (Openable (three_lines ++ ["d"; "d"; x0a]%byte))
         {| indexing_data_ :=
              addAll three_lines 3 emptyLinePositionArray None clear;
            interruptRequest_ := None; progressed := [] |}
       = Done (FileStatus status,
               {| indexing_data_ :=
                    addAll three_lines 3 emptyLinePositionArray None clear;
                  interruptRequest_ := None; progressed := [] |})
       /\ status = DataAdded.
Proof.
  split; [lia|].
  destruct (@check_file_changes_status sample
              (Openable (three_lines ++ ["d"; "d"; x0a]%byte))
              {| indexing_data_ :=
                   addAll three_lines 3 emptyLinePositionArray None clear;
                 interruptRequest_ := None; progressed := [] |})
    as (s & Hrun & _ & _ & Hs).
  - vm_compute. split; [discriminate|reflexivity].
  - exists s. split; [exact Hrun|].
    destruct (Hs _ eq_refl) as (_ & Hadded & _).
    apply Hadded; vm_compute; reflexivity.
Defined.

Lemma count_LF_line_starts l : forall i, zlen (line_starts i l) = count_LF l.
Proof.
  unfold count_LF.
  induction l as [|b r IH]; intros i; cbn [line_starts filter]; [reflexivity|].
  destruct (Byte.eqb b LF); [rewrite !zlen_cons, IH; reflexivity|apply IH].
Qed.

Lemma ends_in_LF_cons b r : r <> [] -> ends_in_LF (b :: r) = ends_in_LF r.
Proof.
  intros H. unfold ends_in_LF. destruct r; [contradiction|reflexivity].
Qed.

Lemma ends_in_LF_app l1 l2 : l2 <> [] -> ends_in_LF (l1 ++ l2) = ends_in_LF l2.
Proof.
  intros H. induction l1 as [|b r IH]; [reflexivity|].
  change ((b :: r) ++ l2) with (b :: (r ++ l2)).
  rewrite ends_in_LF_cons; [exact IH|].
  intros E. apply app_eq_nil in E. destruct E. contradiction.
Qed.

Lemma line_starts_cons i b r :
  line_starts i (b :: r)
  = if Byte.eqb b LF then (i + 1) :: line_starts (i + 1) r
    else line_starts (i + 1) r.
Proof. reflexivity. Qed.

Lemma column_after_cons col b r :
  column_after col (b :: r)
  = if Byte.eqb b LF then column_after 0 r
    else if Byte.eqb b TAB then column_after (col + (tabStop - col mod tabStop)) r
         else column_after (col + 1) r.
Proof. reflexivity. Qed.

(** The line start after a stretch of bytes is its end exactly when the
    stretch ends in a line feed. *)
Lemma last_line_start l : forall i d,
  l <> [] -> d <= i ->
  (ends_in_LF l = true -> last (line_starts i l) d = i + zlen l)
  /\ (ends_in_LF l = false -> last (line_starts i l) d < i + zlen l).
Proof.
  induction l as [|b r IH]; intros i d Hne Hd; [contradiction|].
  rewrite zlen_cons. pose proof (zlen_nonneg r) as Hr.
  destruct r as [|b' r'].
  - unfold ends_in_LF. cbn [last line_starts]. change (zlen (@nil byte)) with 0.
    destruct (Byte.eqb b LF); cbn [last]; split; intros; try discriminate; lia.
  - rewrite ends_in_LF_cons by discriminate.
    rewrite line_starts_cons.
    destruct (Byte.eqb b LF).
    + rewrite last_cons.
      destruct (IH (i + 1) (i + 1) ltac:(discriminate) ltac:(lia)) as [H1 H2].
      split; intros H; [rewrite (H1 H)|specialize (H2 H)]; lia.
    + destruct (IH (i + 1) d ltac:(discriminate) ltac:(lia)) as [H1 H2].
      split; intros H; [rewrite (H1 H)|specialize (H2 H)]; lia.
Qed.

Lemma column_after_ends_in_LF l : forall col,
  ends_in_LF l = true -> column_after col l = 0.
Proof.
  induction l as [|b r IH]; intros col H; [discriminate|].
  destruct r as [|b' r'].
  - unfold ends_in_LF in H. cbn [last] in H. cbn [column_after]. rewrite H.
    reflexivity.
  - rewrite ends_in_LF_cons in H by discriminate.
    rewrite column_after_cons.
    destruct (Byte.eqb b LF); [|destruct (Byte.eqb b TAB)]; apply IH, H.
Qed.

Section FullIndex.

Context {collaborators : Collaborators}.

Lemma index_closed_at_end (d d1 : IndexingData) p0 (content : list byte) B g :
  B <> [] ->
  zlen content = p0 + zlen B ->
  index_grown d d1 p0 B g ->
  0 <= maxLength_ d ->
  index_closed true (zlen content) p0 B (Some g) d1
  = {| linePosition_ :=
         if ends_in_LF B
         then {| array := real_entries (linePosition_ d) ++ line_starts p0 B;
                 fakeFinalLF := false |}
         else {| array := (real_entries (linePosition_ d) ++ line_starts p0 B)
                          ++ [zlen content + 1];
                 fakeFinalLF := true |};
       maxLength_ := maxLength_ d1;
       hash_ := {| hash := md5 (indexHash_ d ++ B);
                   size := size (hash_ d) + zlen B |};
       indexHash_ := indexHash_ d ++ B;
       encodingGuess_ := Some g;
       encodingForced_ := encodingForced_ d |}.
Proof.
  intros Hne Hlen Hgrown Hm.
  destruct (last_line_start B p0 p0 Hne ltac:(lia)) as [Hend Hopen].
  destruct B as [|b r]; [contradiction|].
  cbn [index_grown] in Hgrown. destruct Hgrown as (H1 & H2 & H3 & H4 & H5 & H6).
  unfold index_closed. cbn [andb].
  destruct (ends_in_LF (b :: r)) eqn:E.
  - rewrite (Hend eq_refl).
    replace (zlen content >? p0 + zlen (b :: r)) with false by (symmetry; lia).
    unfold with_default_guess, getEncodingGuess. rewrite H4.
    destruct d1; cbn in *; subst; reflexivity.
  - specialize (Hopen eq_refl).
    replace (zlen content >? last (line_starts p0 (b :: r)) p0) with true
      by (symmetry; lia).
    unfold with_default_guess, getEncodingGuess.
    cbn [addAll encodingGuess_ linePosition_ maxLength_ hash_ indexHash_
         encodingForced_ append_list fake_final_entry setFakeFinalLF append
         array fakeFinalLF real_entries emptyLinePositionArray app].
    unfold addAll, append_list, fake_final_entry, setFakeFinalLF, append.
    cbn [array fakeFinalLF real_entries emptyLinePositionArray app].
    rewrite H1, H2, H3, H5. cbn [size fakeFinalLF array real_entries].
    rewrite app_nil_r. change (zlen (@nil byte)) with 0.
    rewrite Z.add_0_r, Z.max_l by lia. reflexivity.
Qed.

Hypothesis Hsb : single_byte_encodings.

(** An uninterrupted full index of a readable file below 2 GiB. *)
Lemma full_index_uninterrupted forced F w :
  zlen F < 2 ^ 31 ->
  interruptRequest_ w = None ->
  exists m events,
    FullIndexOperation_start forced (Openable F) w
    = Done (Completion true,
            {| indexing_data_ := index_of forced F m;
               interruptRequest_ := None;
               progressed := progressed w ++ events |})
    /\ 0 <= m
    /\ (forall seen,
          one_tab_per_line seen F = true -> 8 * zlen F < 2 ^ 31 ->
          m = widest_line 0 0 F).
Proof.
  intros Hlen Hfl. unfold FullIndexOperation_start.
  unfold bind at 1. unfold emitIndexingProgressed at 1.
  unfold bind at 1. unfold modifyData at 1.
  unfold bind at 1. unfold modifyData at 1.
  cbn [indexing_data_ interruptRequest_ progressed]. rewrite Hfl.
  set (w0 := {| indexing_data_ := forceEncoding forced clear;
                interruptRequest_ := None;
                progressed := progressed w ++ [0] |}).
  destruct (doIndex_single_byte Hsb 0 F w0 Hlen ltac:(lia))
    as (d1 & events & Hrun & Hgrown & Htab).
  cbn [indexing_data_ interruptRequest_ progressed w0 consumed flag_after_reader
       read_flag fst snd negb getEncodingGuess forceEncoding clear encodingGuess_
       maxLength_] in Hrun, Hgrown, Htab.
  change (skipn (Z.to_nat 0) F) with F in *.
  unfold bind at 1. rewrite Hrun.
  unfold bind, interruptRequested, ret.
  cbn [indexing_data_ interruptRequest_ progressed read_flag].
  destruct F as [|b r].
  - exists 0, ([0] ++ events). rewrite app_assoc.
    cbn [index_grown] in Hgrown. subst d1.
    split; [reflexivity|]. split; [lia|].
    intros. reflexivity.
  - exists (maxLength_ d1), ([0] ++ events). rewrite app_assoc.
    pose proof Hgrown as Hg'. cbn [index_grown] in Hg'.
    destruct Hg' as (_ & _ & _ & _ & _ & Hmax). cbn [maxLength_] in Hmax.
    split; [|split; [exact Hmax|]].
    + rewrite (index_closed_at_end _ d1 0 (b :: r) (b :: r) _
                 ltac:(discriminate) ltac:(lia) Hgrown ltac:(cbn; lia)).
      reflexivity.
    + intros seen Hone Hb. rewrite (Htab seen Hone Hb ltac:(lia)).
      pose proof (widest_line_ge (b :: r) 0 0). lia.
Qed.

End FullIndex.

Lemma widths_0 lines : widths 0 lines = map display_width lines.
Proof. destruct lines; reflexivity. Qed.

Lemma list_max_nonneg l : 0 <= list_max l.
Proof. induction l as [|a r IH]; cbn [list_max fold_right]; [lia|]. fold (list_max r). lia. Qed.

Lemma lines_of_cons b r :
  lines_of (b :: r)
  = (if Byte.eqb b LF then ([] :: fst (lines_of r), snd (lines_of r))
     else match fst (lines_of r) with
          | [] => ([], b :: snd (lines_of r))
          | first :: others => ((b :: first) :: others, snd (lines_of r))
          end).
Proof. cbn [lines_of]. destruct (lines_of r) as [closed rest]. reflexivity. Qed.

(** The longest line of the byte-wise reading is the largest display width
    among the lines that a line feed closes. *)
Lemma widest_line_widths l : forall col m,
  0 <= m ->
  widest_line col m l = Z.max m (list_max (widths col (fst (lines_of l)))).
Proof.
  induction l as [|b r IH]; intros col m Hm.
  - cbn. lia.
  - rewrite lines_of_cons. cbn [widest_line].
    destruct (Byte.eqb b LF) eqn:ELF.
    + rewrite IH by lia. cbn [fst widths expand list_max fold_right].
      rewrite widths_0. fold (list_max (map display_width (fst (lines_of r)))).
      lia.
    + destruct (Byte.eqb b TAB) eqn:ETAB; rewrite IH by exact Hm;
        destruct (fst (lines_of r)) as [|first others]; cbn [fst widths expand];
        rewrite ?ETAB; reflexivity.
Qed.

Lemma widest_line_of_file F :
  widest_line 0 0 F = list_max (map display_width (fst (lines_of F))).
Proof.
  rewrite widest_line_widths, widths_0 by lia.
  pose proof (list_max_nonneg (map display_width (fst (lines_of F)))). lia.
Qed.

Section LineCount.

Context {collaborators : Collaborators}.

Hypothesis Hsb : single_byte_encodings.

(** Where no line has a second tab, and the columns fit an [int], the
    maximal length after an uninterrupted full index is the largest display
    width, tabs expanded to stops of 8, among the lines closed by a line
    feed, however many blocks a line spans. *)
Theorem max_length_one_tab_per_line forced F w :
  8 * zlen F < 2 ^ 31 ->
  interruptRequest_ w = None ->
  one_tab_per_line false F = true ->
  exists w',
    FullIndexOperation_start forced (Openable F) w = Done (Completion true, w')
    /\ getMaxLength (indexing_data_ w')
       = list_max (map display_width (fst (lines_of F))).
Proof.
  intros Hlen Hfl Hone. pose proof (zlen_nonneg F).
  destruct (full_index_uninterrupted Hsb forced F w ltac:(lia) Hfl)
    as (m & events & Hrun & _ & Hm).
  eexists. split; [exact Hrun|]. cbn [indexing_data_].
  rewrite <- widest_line_of_file. destruct F as [|b r]; [reflexivity|].
  cbn [index_of getMaxLength maxLength_]. exact (Hm false Hone Hlen).
Qed.

End LineCount.

(** The empty file does not end in 0x0A, and its index has no line and no
    synthetic entry. *)
Lemma line_count_of_empty_file :
  exists w',
    FullIndexOperation_start None (Openable []) idle = Done (Completion true, w')
    /\ ends_in_LF [] = false
    /\ getNbLines (indexing_data_ w') = 0
    /\ getNbLines (indexing_data_ w') <> count_LF [] + 1
    /\ fakeFinalLF (linePosition_ (indexing_data_ w')) = false.
Proof.
  eexists. split; [vm_compute; reflexivity|].
  split; [reflexivity|]. split; [reflexivity|]. split; [discriminate|reflexivity].
Qed.

(** C5. The maximal length is meant to be the largest display width of a
    line, tabs expanded to stops of 8. On the file [two_tabs_then_one] the
    lines are 16 and 8 columns wide, and the index says 22: after a tab the
    tab search does not take the tab itself off the bytes left to search, so
    from the second tab of a line on it runs past the line feed and counts
    the tab of the next line for the first. *)
Theorem tab_search_runs_past_the_line :
  exists w',
    FullIndexOperation_start None (Openable two_tabs_then_one) idle
    = Done (Completion true, w')
    /\ map display_width (fst (lines_of two_tabs_then_one)) = [16; 8]
    /\ getMaxLength (indexing_data_ w') = 22.
Proof.
  eexists. split; [vm_compute; reflexivity|]. split; reflexivity.
Qed.

Section PartialIndex.

Context {collaborators : Collaborators}.

Lemma index_of_fields forced F m :
  0 <= m ->
  getSize (index_of forced F m) = zlen F
  /\ real_entries (linePosition_ (index_of forced F m)) = line_starts 0 F
  /\ indexHash_ (index_of forced F m) = F
  /\ getEncodingGuess (index_of forced F m) = Some (first_guess F)
  /\ encodingForced_ (index_of forced F m) = forced
  /\ 0 <= maxLength_ (index_of forced F m)
  /\ (F <> [] -> maxLength_ (index_of forced F m) = m)
  /\ (F = [] -> maxLength_ (index_of forced F m) = 0).
Proof.
  intros Hm. destruct F as [|b r].
  - cbn. repeat split; try reflexivity; try lia. intros H. contradiction.
  - unfold getSize, getEncodingGuess, first_guess.
    cbn [index_of hash_ size linePosition_ indexHash_ encodingGuess_
         encodingForced_ maxLength_].
    repeat split; try reflexivity; try assumption; try discriminate.
    destruct (ends_in_LF (b :: r)); unfold real_entries; cbn [fakeFinalLF array];
      [reflexivity|apply removelast_last].
Qed.

Hypothesis Hsb : single_byte_encodings.

(** An uninterrupted partial index of a readable file below 2 GiB. *)
Lemma partial_index_uninterrupted content w :
  zlen content < 2 ^ 31 ->
  interruptRequest_ w = None ->
  0 <= getSize (indexing_data_ w) ->
  let d := indexing_data_ w in
  let p0 := getSize d in
  let B := skipn (Z.to_nat p0) content in
  let g := match getEncodingGuess d with
           | Some c => c
           | None => detectEncoding (file_read content p0 sizeChunk)
           end in
  let guess := match B with [] => getEncodingGuess d | _ => Some g end in
  exists d1 events,
    PartialIndexOperation_start (Openable content) w
    = Done (Completion true,
            {| indexing_data_ := index_closed true (zlen content) p0 B guess d1;
               interruptRequest_ := None;
               progressed := progressed w ++ events |})
    /\ index_grown d d1 p0 B g
    /\ (forall seen,
          one_tab_per_line seen B = true -> 8 * zlen B < 2 ^ 31 ->
          0 <= maxLength_ d ->
          maxLength_ d1 = Z.max (maxLength_ d) (widest_line 0 0 B)).
Proof.
  intros Hlen Hfl Hsize d p0 B g guess.
  unfold PartialIndexOperation_start.
  unfold bind at 1. unfold getData at 1.
  unfold bind at 1. unfold emitIndexingProgressed at 1.
  rewrite Hfl.
  set (w0 := {| indexing_data_ := indexing_data_ w;
                interruptRequest_ := None;
                progressed := progressed w ++ [0] |}).
  destruct (doIndex_single_byte Hsb p0 content w0 Hlen Hsize)
    as (d1 & events & Hrun & Hgrown & Htab).
  cbn [indexing_data_ interruptRequest_ progressed w0 consumed flag_after_reader
       read_flag fst snd negb] in Hrun, Hgrown, Htab.
  fold d p0 B g guess in Hrun, Hgrown, Htab.
  unfold bind at 1. fold d p0. rewrite Hrun.
  unfold bind, interruptRequested, ret.
  cbn [indexing_data_ interruptRequest_ progressed read_flag].
  exists d1, ([0] ++ events). rewrite app_assoc.
  split; [reflexivity|]. split; [exact Hgrown|exact Htab].
Qed.

End PartialIndex.

Section AppendedTail.

Context {collaborators : Collaborators}.

Hypothesis Hsb : single_byte_encodings.

(** Where a partial index agrees with a full one. For every file content F
    and every suffix S with F||S below 2 GiB, under single-byte encodings
    and without interruption, a full index of F followed by the append of S
    and a partial index yields the same line positions, fake-final-LF flag,
    hash and size (and running hash state and forced encoding) as a full
    index of F||S. The encoding guess is the same where a full index settles
    on the same guess for F as for F||S: the partial index keeps the guess
    it finds. The maximal length is the same where the last line of F is
    closed (F is empty or ends in a line feed), no line has a second tab and
    the columns fit an [int]. *)
Theorem partial_index_after_append forced F S w :
  zlen (F ++ S) < 2 ^ 31 ->
  interruptRequest_ w = None ->
  exists wFS wF wP,
    FullIndexOperation_start forced (Openable (F ++ S)) w
    = Done (Completion true, wFS)
    /\ FullIndexOperation_start forced (Openable F) w = Done (Completion true, wF)
    /\ PartialIndexOperation_start (Openable (F ++ S)) wF
       = Done (Completion true, wP)
    /\ linePosition_ (indexing_data_ wP) = linePosition_ (indexing_data_ wFS)
    /\ hash_ (indexing_data_ wP) = hash_ (indexing_data_ wFS)
    /\ indexHash_ (indexing_data_ wP) = indexHash_ (indexing_data_ wFS)
    /\ encodingForced_ (indexing_data_ wP) = encodingForced_ (indexing_data_ wFS)
    /\ (first_guess (F ++ S) = first_guess F ->
        encodingGuess_ (indexing_data_ wP) = encodingGuess_ (indexing_data_ wFS))
    /\ (F = [] \/ ends_in_LF F = true ->
        one_tab_per_line false (F ++ S) = true ->
        8 * zlen (F ++ S) < 2 ^ 31 ->
        maxLength_ (indexing_data_ wP) = maxLength_ (indexing_data_ wFS)).
Proof.
  intros Hlen Hfl.
  pose proof (zlen_nonneg F) as HF0. pose proof (zlen_nonneg S) as HS0.
  rewrite zlen_app in Hlen.
  destruct (full_index_uninterrupted Hsb forced (F ++ S) w
              ltac:(rewrite zlen_app; lia) Hfl)
    as (m & eventsFS & HrunFS & Hm0 & Hm).
  destruct (full_index_uninterrupted Hsb forced F w ltac:(lia) Hfl)
    as (m1 & eventsF & HrunF & Hm10 & Hm1).
  set (dF := index_of forced F m1) in *.
  set (wF := {| indexing_data_ := dF; interruptRequest_ := None;
                progressed := progressed w ++ eventsF |}) in *.
  destruct (index_of_fields forced F m1 Hm10)
    as (Hsize & Hreal & Hih & Hguess & Hforced & Hmax0 & HmaxF & HmaxE).
  fold dF in Hsize, Hreal, Hih, Hguess, Hforced, Hmax0, HmaxF, HmaxE.
  destruct (partial_index_uninterrupted Hsb (F ++ S) wF)
    as (d1 & eventsP & HrunP & Hgrown & Htab).
  { rewrite zlen_app. lia. }
  { reflexivity. }
  { cbn [indexing_data_ wF]. rewrite Hsize. exact HF0. }
  cbn [indexing_data_ wF] in HrunP, Hgrown, Htab.
  rewrite Hsize, Hguess in HrunP, Hgrown. rewrite Hsize in Htab.
  rewrite skipn_zlen_app in HrunP, Hgrown, Htab.
  do 3 eexists.
  split; [exact HrunFS|]. split; [exact HrunF|]. split; [exact HrunP|].
  cbn [indexing_data_].
  destruct S as [|s S'].
  - (* nothing was appended *)
    cbn [index_grown] in Hgrown. subst d1.
    assert (Hclosed : index_closed true (zlen (F ++ [])) (zlen F) []
                                   (Some (first_guess F)) dF = dF).
    { unfold index_closed. cbn [line_starts last andb].
      rewrite app_nil_r.
      replace (zlen F >? zlen F) with false by (symmetry; lia).
      unfold with_default_guess. rewrite Hguess. reflexivity. }
    cbv beta iota. rewrite Hclosed, app_nil_r.
    unfold dF.
    do 4 (split; [destruct F; reflexivity|]). split.
    + intros _. destruct F; reflexivity.
    + intros _ Hone Hb. rewrite app_nil_r in Hm.
      destruct F as [|b r]; [reflexivity|].
      cbn [index_of maxLength_].
      rewrite (Hm false Hone Hb), (Hm1 false Hone Hb). reflexivity.
  - (* some bytes were appended *)
    rewrite (index_closed_at_end dF d1 (zlen F) (F ++ s :: S') (s :: S')
               (first_guess F) ltac:(discriminate)
               ltac:(rewrite zlen_app; reflexivity) Hgrown Hmax0).
    unfold getSize in Hsize. rewrite Hreal, Hih, Hsize, Hforced.
    assert (HFS : exists b r, F ++ s :: S' = b :: r).
    { destruct F; cbn; eauto. }
    destruct HFS as (b & r & HFS).
    assert (Hindex : index_of forced (F ++ s :: S') m
                     = {| linePosition_ :=
                            if ends_in_LF (F ++ s :: S')
                            then {| array := line_starts 0 (F ++ s :: S');
                                    fakeFinalLF := false |}
                            else {| array := line_starts 0 (F ++ s :: S')
                                             ++ [zlen (F ++ s :: S') + 1];
                                    fakeFinalLF := true |};
                          maxLength_ := m;
                          hash_ := {| hash := md5 (F ++ s :: S');
                                      size := zlen (F ++ s :: S') |};
                          indexHash_ := F ++ s :: S';
                          encodingGuess_ :=
                            Some (detectEncoding
                                    (file_read (F ++ s :: S') 0 sizeChunk));
                          encodingForced_ := forced |}).
    { rewrite HFS. reflexivity. }
    rewrite Hindex. cbn [linePosition_ hash_ indexHash_ encodingForced_
                         encodingGuess_ maxLength_].
    rewrite ends_in_LF_app by discriminate.
    rewrite line_starts_app, Z.add_0_l, zlen_app.
    split; [reflexivity|]. split; [reflexivity|]. split; [reflexivity|].
    split; [reflexivity|]. split.
    + intros Hg. rewrite <- Hg. unfold first_guess. rewrite HFS. reflexivity.
    + intros HF Hone Hb.
      rewrite one_tab_per_line_app in Hone. apply andb_true_iff in Hone.
      destruct Hone as [HoneF HoneS].
      rewrite (Htab _ HoneS ltac:(lia) Hmax0).
      assert (HoneFS : one_tab_per_line false (F ++ s :: S') = true)
        by (rewrite one_tab_per_line_app, HoneF, HoneS; reflexivity).
      assert (HbFS : 8 * zlen (F ++ s :: S') < 2 ^ 31)
        by (rewrite zlen_app; lia).
      rewrite (Hm false HoneFS HbFS).
      rewrite widest_line_app.
      assert (Hcol : column_after 0 F = 0).
      { destruct HF as [->|HF]; [reflexivity|apply column_after_ends_in_LF, HF]. }
      rewrite Hcol.
      rewrite (widest_line_from (s :: S') 0 (widest_line 0 0 F))
        by apply widest_line_ge.
      f_equal.
      destruct F as [|b' r'].
      * rewrite HmaxE by reflexivity. reflexivity.
      * rewrite HmaxF by discriminate. apply (Hm1 false HoneF). lia.
Qed.

End AppendedTail.

Lemma partial_index_after_append_witness :
  @single_byte_encodings sample
  /\ zlen (three_lines ++ closing_tail) < 2 ^ 31
  /\ exists wFS wF wP,
       FullIndexOperation_start None (Openable (three_lines ++ closing_tail)) idle
       = Done (Completion true, wFS)
       /\ FullIndexOperation_start None (Openable three_lines) idle
          = Done (Completion true, wF)
       /\ PartialIndexOperation_start (Openable (three_lines ++ closing_tail)) wF
          = Done (Completion true, wP)
       /\ linePosition_ (indexing_data_ wP) = linePosition_ (indexing_data_ wFS)
       /\ hash_ (indexing_data_ wP) = hash_ (indexing_data_ wFS).
Proof.
  split; [exact sample_single_byte|]. split; [vm_compute; reflexivity|].
  destruct (@partial_index_after_append sample sample_single_byte None
              three_lines closing_tail idle)
    as (wFS & wF & wP & H1 & H2 & H3 & H4 & H5 & _).
  - vm_compute. reflexivity.
  - reflexivity.
  - exists wFS, wF, wP. repeat split; assumption.
Defined.

(** C3. A full index of F||S and a full index of F followed by the append
    of S and a partial index are claimed to leave the same index, maximal
    length included. With F the four bytes of an open line and S one more
    byte and the line feed, the full index of F||S has measured the line of
    five bytes; the partial index resumes at offset 4, measures the line
    from there on, and leaves a maximal length of 1. *)
Theorem partial_index_of_open_line :
  exists wFS wF wP,
    FullIndexOperation_start None (Openable (open_line ++ closing_tail)) idle
    = Done (Completion true, wFS)
    /\ FullIndexOperation_start None (Openable open_line) idle
       = Done (Completion true, wF)
    /\ PartialIndexOperation_start (Openable (open_line ++ closing_tail)) wF
       = Done (Completion true, wP)
    /\ getMaxLength (indexing_data_ wFS) = 5
    /\ getMaxLength (indexing_data_ wP) = 1
    /\ indexing_data_ wP <> indexing_data_ wFS.
Proof.
  do 3 eexists.
  split; [vm_compute; reflexivity|]. split; [vm_compute; reflexivity|].
  split; [vm_compute; reflexivity|]. split; [reflexivity|]. split; [reflexivity|].
  intros E. apply (f_equal getMaxLength) in E. vm_compute in E. discriminate.
Qed.

(** The guess of an index that starts from the empty file stays the codec of
    the locale, where a full index asks the detector. *)
Lemma partial_index_keeps_the_guess :
  exists wFS wF wP,
    FullIndexOperation_start None (Openable closing_tail) idle
    = Done (Completion true, wFS)
    /\ FullIndexOperation_start None (Openable []) idle = Done (Completion true, wF)
    /\ PartialIndexOperation_start (Openable closing_tail) wF
       = Done (Completion true, wP)
    /\ getEncodingGuess (indexing_data_ wFS) = Some (detectEncoding closing_tail)
    /\ getEncodingGuess (indexing_data_ wP) = Some codecForLocale.
Proof.
  do 3 eexists.
  split; [vm_compute; reflexivity|]. split; [vm_compute; reflexivity|].
  split; [vm_compute; reflexivity|]. split; reflexivity.
Qed.

Lemma first_blocks_all n : forall content fp,
  0 <= fp -> (blocks_from content fp <= n)%nat ->
  first_blocks n content fp = skipn (Z.to_nat fp) content.
Proof.
  induction n as [|n IH]; intros content fp Hfp Hn.
  - destruct (Z_lt_ge_dec fp (zlen content)) as [Hlt|Hge].
    + rewrite (blocks_from_step content fp Hfp Hlt) in Hn. lia.
    + cbn [first_blocks]. symmetry. apply skipn_all2. unfold zlen in Hge. lia.
  - destruct (Z_lt_ge_dec fp (zlen content)) as [Hlt|Hge].
    + rewrite first_blocks_succ.
      rewrite (blocks_from_step content fp Hfp Hlt) in Hn.
      rewrite IH; [|pose proof (zlen_nonneg (file_read content fp sizeChunk)); lia
                   |lia].
      symmetry. apply file_read_split; [exact Hfp|].
      pose proof sizeChunk_pos. lia.
    + rewrite first_blocks_at_end by lia.
      symmetry. apply skipn_all2. unfold zlen in Hge. lia.
Qed.

Section Interruption.

Context {collaborators : Collaborators}.

Hypothesis Hsb : single_byte_encodings.

Lemma doIndex_interrupted p0 content w n :
  zlen content < 2 ^ 31 -> 0 <= p0 ->
  interruptRequest_ w = Some n ->
  (n <= reads_by_reader content p0)%nat ->
  exists d1 events g,
    doIndex p0 (Openable content) w
    = Done (tt, {| indexing_data_ := with_default_guess d1;
                   interruptRequest_ := Some O;
                   progressed := progressed w ++ events |})
    /\ index_grown (indexing_data_ w) d1 p0 (first_blocks n content p0) g.
Proof.
  intros Hlen Hp0 Hfl Hn.
  destruct (doIndex_single_byte Hsb p0 content w Hlen Hp0)
    as (d1 & events & Hrun & Hgrown & _).
  rewrite Hfl in Hrun, Hgrown. cbn [consumed flag_after_reader] in Hrun, Hgrown.
  unfold reads_by_reader in Hn.
  replace (n - S (blocks_from content p0))%nat with O in Hrun by lia.
  cbn [read_flag fst snd negb] in Hrun. unfold index_closed in Hrun.
  cbn [andb] in Hrun.
  exists d1, events. eexists. split; [exact Hrun|exact Hgrown].
Qed.

Lemma with_default_guess_fields (d : IndexingData) :
  linePosition_ (with_default_guess d) = linePosition_ d
  /\ hash_ (with_default_guess d) = hash_ d
  /\ indexHash_ (with_default_guess d) = indexHash_ d
  /\ maxLength_ (with_default_guess d) = maxLength_ d.
Proof.
  unfold with_default_guess. destruct (getEncodingGuess d); repeat split.
Qed.

End Interruption.


(** ** More on the detection of changes *)

Section CheckVerdict.

Context {collaborators : Collaborators}.

Lemma firstn_zlen {A} (l : list A) : firstn (Z.to_nat (zlen l)) l = l.
Proof. unfold zlen. rewrite Nat2Z.id. apply firstn_all. Qed.

Lemma zlen_zero {A} (l : list A) : zlen l = 0 -> l = [].
Proof. destruct l; [reflexivity|]. rewrite zlen_cons. pose proof (zlen_nonneg l). lia. Qed.

(** X1. The verdict of [CheckFileChangesOperation::start] read backwards,
    for an indexed size below 2^31: Unchanged is returned exactly for a
    readable file that is not empty, has the indexed size and whose MD5 is
    the indexed hash; DataAdded exactly for a readable file longer than the
    indexed size whose first bytes, as many as were indexed, have the indexed
    hash. Everything else is Truncated. *)
Theorem check_file_changes_verdict file w :
  0 <= size (getHash (indexing_data_ w)) < 2 ^ 31 ->
  let indexedHash := getHash (indexing_data_ w) in
  exists status,
    CheckFileChangesOperation_start file w = Done (FileStatus status, w)
    /\ (status = Unchanged <->
        exists content,
          file = Openable content /\ content <> []
          /\ zlen content = size indexedHash
          /\ md5 content = hash indexedHash)
    /\ (status = DataAdded <->
        exists content,
          file = Openable content
          /\ size indexedHash < zlen content
          /\ md5 (firstn (Z.to_nat (size indexedHash)) content)
             = hash indexedHash).
Proof.
  intros Hsize h. fold h in Hsize.
  destruct (check_file_changes_cases file w Hsize)
    as (status & Hrun & Hzero & Hunop & Hop).
  fold h in Hzero, Hop.
  exists status. split; [exact Hrun|].
  destruct file as [n|content].
  - rewrite (Hunop n eq_refl).
    split; (split; [discriminate|intros (c & E & _); discriminate]).
  - destruct (Hop content eq_refl) as (Hne & Hadd & Hunch).
    cbn [info_size] in *.
    pose proof (zlen_nonneg content) as Hnn.
    destruct (Z.eq_dec (zlen content) 0) as [Hz|Hz].
    { rewrite (Hzero (or_introl Hz)).
      split; (split; [discriminate|intros (c & E & H1 & H2); inversion E; subst c]).
      - destruct H2 as [H2 _]. apply zlen_zero in Hz. contradiction.
      - lia. }
    destruct (Z_lt_ge_dec (zlen content) (size h)) as [Hlt|Hge].
    { rewrite (Hzero (or_intror Hlt)).
      split; (split; [discriminate|intros (c & E & H1 & H2); inversion E; subst c]).
      - destruct H2 as [H2 _]. lia.
      - lia. }
    destruct (list_eq_dec Byte.byte_eq_dec
                (md5 (firstn (Z.to_nat (size h)) content)) (hash h)) as [Heq|Hneq].
    + destruct (Z.eq_dec (zlen content) (size h)) as [Hs|Hs].
      * rewrite (Hunch Heq Hs Hz). split.
        -- split; [intros _|reflexivity].
           exists content. split; [reflexivity|].
           split; [intros E; subst content; apply Hz; reflexivity|].
           split; [exact Hs|]. rewrite <- Hs, firstn_zlen in Heq. exact Heq.
        -- split; [discriminate|].
           intros (c & E & H1 & _). inversion E; subst c. lia.
      * rewrite (Hadd Heq ltac:(lia)). split.
        -- split; [discriminate|].
           intros (c & E & _ & H1 & _). inversion E; subst c. lia.
        -- split; [intros _|reflexivity].
           exists content. split; [reflexivity|]. split; [lia|exact Heq].
    + rewrite (Hne Hneq). split.
      * split; [discriminate|].
        intros (c & E & _ & H1 & H2). inversion E; subst c.
        exfalso. apply Hneq. rewrite <- H1, firstn_zlen. exact H2.
      * split; [discriminate|].
        intros (c & E & _ & H2). inversion E; subst c. contradiction.
Qed.

Lemma read_loop_empty_buffer content indexed_size fuel :
  read_loop (S fuel) content 0 indexed_size 0 0 [] = Done [].
Proof. reflexivity. Qed.

(** With an empty read buffer the loop reads nothing, and the indexed hash
    is compared with the MD5 of no bytes. *)
Lemma check_empty_buffer_cases content w :
  let indexedHash := getHash (indexing_data_ w) in
  Z.max 0 (to_int (size indexedHash)) = 0 ->
  0 < zlen content ->
  size indexedHash <= zlen content ->
  CheckFileChangesOperation_start (Openable content) w
  = Done (FileStatus
            (if bytes_eqb (hash indexedHash) (md5 [])
             then if zlen content >? size indexedHash then DataAdded else Unchanged
             else Truncated),
          w).
Proof.
  intros h Hbuf Hz Hlen.
  unfold CheckFileChangesOperation_start, bind, getData. fold h.
  cbn [info_size].
  replace (zlen content =? 0) with false by (symmetry; lia).
  replace (zlen content <? size h) with false by (symmetry; lia).
  cbn [orb]. rewrite Hbuf, read_loop_empty_buffer. unfold lift.
  destruct (bytes_eqb (hash h) (md5 [])); cbn [negb]; [|reflexivity].
  destruct (zlen content >? size h); reflexivity.
Qed.

(** X2. When the indexed size, cast to [int], is not positive (the size is
    0, or it lies between 2^31 and 2^32 and its low 32 bits read as a
    negative [int]), the read buffer is empty and no byte of the file is
    hashed: for a readable file at least as long as the indexed size and not
    empty, the indexed hash is compared with the MD5 of no bytes, whatever
    the file holds. *)
Theorem check_with_empty_buffer content w :
  let indexedHash := getHash (indexing_data_ w) in
  size indexedHash = 0 \/ 2 ^ 31 <= size indexedHash < 2 ^ 32 ->
  content <> [] ->
  size indexedHash <= zlen content ->
  CheckFileChangesOperation_start (Openable content) w
  = Done (FileStatus
            (if bytes_eqb (hash indexedHash) (md5 [])
             then if zlen content >? size indexedHash then DataAdded else Unchanged
             else Truncated),
          w).
Proof.
  intros h Hsize Hne Hlen.
  apply check_empty_buffer_cases; [| |exact Hlen].
  - fold h. destruct Hsize as [E|E].
    + rewrite E. reflexivity.
    + unfold to_int.
      replace (size h + 2 ^ 31) with (size h - 2 ^ 31 + 1 * 2 ^ 32) by lia.
      rewrite Z.mod_add by lia. rewrite Z.mod_small by lia. lia.
  - destruct content; [contradiction|]. rewrite zlen_cons.
    pose proof (zlen_nonneg content). lia.
Qed.

Lemma md5_of_nothing : md5 [] <> [].
Proof. vm_compute. discriminate. Qed.

(** X3. A file that was empty when it was indexed and holds data now is
    reported Truncated, not DataAdded: the full index of the empty file
    leaves the empty byte array as hash, which is not the MD5 of no bytes. *)
Theorem data_after_empty_index forced S w :
  interruptRequest_ w = None ->
  S <> [] ->
  exists w1,
    FullIndexOperation_start forced (Openable []) w = Done (Completion true, w1)
    /\ getHash (indexing_data_ w1) = emptyIndexedHash
    /\ CheckFileChangesOperation_start (Openable S) w1
       = Done (FileStatus Truncated, w1).
Proof.
  intros Hfl Hne.
  eexists. split; [|split].
  - unfold FullIndexOperation_start, bind, emitIndexingProgressed, modifyData,
      doIndex, getData, interruptRequested, indexingGraph.
    cbn [indexing_data_ interruptRequest_ progressed length].
    rewrite Hfl. cbn [read_flag atEnd negb ret andb].
    cbn [interruptRequest_ read_flag indexing_data_ progressed].
    unfold atEnd. change (zlen (@nil byte)) with 0. cbn [Z.leb Z.compare negb].
    unfold ret. cbn [interruptRequest_ read_flag indexing_data_ progressed
                     file_size pos negb andb].
    change (zlen (@nil byte)) with 0. cbn [Z.gtb Z.compare].
    cbn [getEncodingGuess forceEncoding clear encodingGuess_].
    unfold modifyData. cbn [interruptRequest_ read_flag indexing_data_ progressed].
    reflexivity.
  - reflexivity.
  - rewrite check_empty_buffer_cases.
    + cbn [getHash indexing_data_ setEncodingGuess forceEncoding clear hash_
           emptyIndexedHash hash size].
      replace (bytes_eqb [] (md5 [])) with false; [reflexivity|].
      symmetry. destruct (bytes_eqb [] (md5 [])) eqn:E; [|reflexivity].
      apply bytes_eqb_eq in E. exfalso. apply md5_of_nothing. symmetry. exact E.
    + reflexivity.
    + destruct S; [contradiction|]. rewrite zlen_cons.
      pose proof (zlen_nonneg S). lia.
    + cbn [getHash indexing_data_ setEncodingGuess forceEncoding clear hash_
           emptyIndexedHash hash size]. apply zlen_nonneg.
Qed.

End CheckVerdict.
Lemma check_file_changes_verdict_witness :
  0 <= size (getHash (indexing_data_ idle)) < 2 ^ 31
  /\ exists status,
       CheckFileChangesOperation_start (Openable three_lines) idle
       = Done (FileStatus status, idle)
       /\ (status = Unchanged <->
           exists content,
             Openable three_lines = Openable content /\ content <> []
             /\ zlen content = size (getHash (indexing_data_ idle))
             /\ md5 content = hash (getHash (indexing_data_ idle)))
       /\ (status = DataAdded <->
           exists content,
             Openable three_lines = Openable content
             /\ size (getHash (indexing_data_ idle)) < zlen content
             /\ md5 (firstn (Z.to_nat (size (getHash (indexing_data_ idle))))
                            content)
                = hash (getHash (indexing_data_ idle))).
Proof.
  split; [cbn; lia|].
  apply (check_file_changes_verdict (Openable three_lines) idle). cbn. lia.
Defined.

Lemma check_with_empty_buffer_witness :
  (size (getHash (indexing_data_ idle)) = 0
   \/ 2 ^ 31 <= size (getHash (indexing_data_ idle)) < 2 ^ 32)
  /\ one_byte <> []
  /\ size (getHash (indexing_data_ idle)) <= zlen one_byte
  /\ CheckFileChangesOperation_start (Openable one_byte) idle
     = Done (FileStatus Truncated, idle).
Proof.
  split; [left; reflexivity|]. split; [discriminate|].
  split; [vm_compute; discriminate|].
  rewrite (check_with_empty_buffer one_byte idle);
    [reflexivity|left; reflexivity|discriminate|vm_compute; discriminate].
Defined.

Lemma data_after_empty_index_witness :
  interruptRequest_ idle = None
  /\ one_byte <> []
  /\ exists w1,
       FullIndexOperation_start None (Openable []) idle = Done (Completion true, w1)
       /\ getHash (indexing_data_ w1) = emptyIndexedHash
       /\ CheckFileChangesOperation_start (Openable one_byte) w1
          = Done (FileStatus Truncated, w1).
Proof.
  split; [reflexivity|]. split; [discriminate|].
  apply (data_after_empty_index None one_byte idle); [reflexivity|discriminate].
Defined.

Section Growth.

Context {collaborators : Collaborators}.

Hypothesis Hwf : well_formed_encodings.

(** An uninterrupted partial index hashes the bytes that follow the
    indexed size, whatever the encoding. *)
Lemma partial_index_hash content w :
  interruptRequest_ w = None ->
  0 <= getSize (indexing_data_ w) ->
  let d := indexing_data_ w in
  let B := skipn (Z.to_nat (getSize d)) content in
  exists d2 events,
    PartialIndexOperation_start (Openable content) w
    = Done (Completion true,
            {| indexing_data_ := d2; interruptRequest_ := None;
               progressed := progressed w ++ events |})
    /\ indexHash_ d2 = indexHash_ d ++ B
    /\ size (hash_ d2) = size (hash_ d) + zlen B
    /\ hash (hash_ d2)
       = match B with [] => hash (hash_ d) | _ => md5 (indexHash_ d ++ B) end.
Proof.
  intros Hfl Hsize d B.
  unfold PartialIndexOperation_start.
  unfold bind at 1. unfold getData at 1.
  unfold bind at 1. unfold emitIndexingProgressed at 1.
  rewrite Hfl.
  set (w0 := {| indexing_data_ := indexing_data_ w;
                interruptRequest_ := None;
                progressed := progressed w ++ [0] |}).
  destruct (doIndex_total Hwf (getSize d) content w0 Hsize)
    as (d2 & events & Hrun & H1 & H2 & H3).
  cbn [indexing_data_ interruptRequest_ progressed w0 consumed flag_after_reader
       read_flag snd] in Hrun, H1, H2, H3.
  fold d B in Hrun, H1, H2, H3.
  unfold bind at 1. fold d. rewrite Hrun.
  unfold bind, interruptRequested, ret.
  cbn [indexing_data_ interruptRequest_ progressed read_flag].
  exists d2, ([0] ++ events). rewrite app_assoc.
  split; [reflexivity|]. split; [exact H1|]. split; [exact H2|exact H3].
Qed.

(** X4. Growth is detected, indexed and then settled, whatever the encoding:
    after an uninterrupted full index of a file [F] that is not empty, once
    bytes [S] have been appended, the check returns DataAdded; the partial
    index that follows runs to completion and leaves the MD5 of [F ++ S]
    with its length as hash; and the next check returns Unchanged. *)
Theorem growth_detected_then_indexed forced F S w :
  interruptRequest_ w = None ->
  F <> [] -> S <> [] ->
  zlen (F ++ S) < 2 ^ 31 ->
  exists w1 w2,
    FullIndexOperation_start forced (Openable F) w = Done (Completion true, w1)
    /\ CheckFileChangesOperation_start (Openable (F ++ S)) w1
       = Done (FileStatus DataAdded, w1)
    /\ PartialIndexOperation_start (Openable (F ++ S)) w1
       = Done (Completion true, w2)
    /\ getHash (indexing_data_ w2)
       = {| hash := md5 (F ++ S); size := zlen (F ++ S) |}
    /\ CheckFileChangesOperation_start (Openable (F ++ S)) w2
       = Done (FileStatus Unchanged, w2).
Proof.
  intros Hfl HF HS Hlen.
  pose proof (zlen_nonneg F) as HnF. pose proof (zlen_nonneg S) as HnS.
  rewrite zlen_app in Hlen.
  assert (HzS : 0 < zlen S).
  { destruct S; [contradiction|]. rewrite zlen_cons.
    pose proof (zlen_nonneg S). lia. }
  destruct (full_index_hash Hwf forced F w Hfl) as (d1 & ev1 & Hfull & Hih & Hh).
  destruct F as [|b r] eqn:EF; [contradiction|]. rewrite <- EF in *.
  set (w1 := {| indexing_data_ := d1; interruptRequest_ := None;
                progressed := progressed w ++ ev1 |}) in *.
  assert (Hsz : getSize d1 = zlen F) by (unfold getSize; fold (getHash d1); rewrite Hh; reflexivity).
  destruct (partial_index_hash (F ++ S) w1 eq_refl) as (d2 & ev2 & Hpart & P1 & P2 & P3).
  { cbn [indexing_data_ w1]. lia. }
  cbn [indexing_data_ w1 progressed] in Hpart, P1, P2, P3.
  rewrite Hsz, skipn_zlen_app in P1, P2, P3. rewrite Hih in P1, P3.
  fold (getHash d1) in P2. rewrite Hh in P2. cbn [size] in P2.
  set (w2 := {| indexing_data_ := d2; interruptRequest_ := None;
                progressed := (progressed w ++ ev1) ++ ev2 |}) in *.
  assert (Hh2 : getHash d2 = {| hash := md5 (F ++ S); size := zlen (F ++ S) |}).
  { unfold getHash. apply indexed_hash_eq.
    - rewrite P3. destruct S; [contradiction|reflexivity].
    - rewrite P2, zlen_app. reflexivity. }
  exists w1, w2. split; [exact Hfull|]. split; [|split; [exact Hpart|split; [exact Hh2|]]].
  - destruct (check_file_changes_cases (Openable (F ++ S)) w1)
      as (s & Hrun & _ & _ & Hs).
    + cbn [indexing_data_ w1]. rewrite Hh. cbn [size]. lia.
    + rewrite Hrun. destruct (Hs (F ++ S) eq_refl) as (_ & Ha & _).
      cbn [indexing_data_ w1] in Ha. rewrite Hh in Ha. cbn [size hash] in Ha.
      rewrite Ha; [reflexivity| |].
      * rewrite firstn_zlen_app. reflexivity.
      * cbn [info_size]. rewrite zlen_app. lia.
  - apply check_unchanged.
    + destruct F; [discriminate|discriminate].
    + rewrite zlen_app. lia.
    + exact Hh2.
Qed.

End Growth.

Lemma growth_detected_then_indexed_witness :
  interruptRequest_ idle = None
  /\ open_line <> [] /\ closing_tail <> []
  /\ zlen (open_line ++ closing_tail) < 2 ^ 31
  /\ exists w1 w2,
       FullIndexOperation_start None (Openable open_line) idle
       = Done (Completion true, w1)
       /\ CheckFileChangesOperation_start (Openable (open_line ++ closing_tail)) w1
          = Done (FileStatus DataAdded, w1)
       /\ PartialIndexOperation_start (Openable (open_line ++ closing_tail)) w1
          = Done (Completion true, w2)
       /\ getHash (indexing_data_ w2)
          = {| hash := md5 (open_line ++ closing_tail);
               size := zlen (open_line ++ closing_tail) |}
       /\ CheckFileChangesOperation_start (Openable (open_line ++ closing_tail)) w2
          = Done (FileStatus Unchanged, w2).
Proof.
  split; [reflexivity|]. split; [discriminate|]. split; [discriminate|].
  split; [vm_compute; reflexivity|].
  apply (growth_detected_then_indexed sample_well_formed None open_line
           closing_tail idle);
    [reflexivity|discriminate|discriminate|vm_compute; reflexivity].
Defined.

(** ** The table of line positions *)

Lemma line_starts_increasing l : forall i, increasing (line_starts i l).
Proof.
  induction l as [|b r IH]; intros i a c p q Hac Hp Hq.
  - destruct a; discriminate.
  - rewrite line_starts_cons in Hp, Hq.
    destruct (Byte.eqb b LF); [|exact (IH (i + 1) a c p q Hac Hp Hq)].
    destruct c as [|c]; [lia|].
    destruct a as [|a].
    + cbn [nth_error] in Hp, Hq. injection Hp as <-.
      apply nth_error_In, line_starts_bounds in Hq. lia.
    + cbn [nth_error] in Hp, Hq.
      apply (IH (i + 1) a c p q); [lia|exact Hp|exact Hq].
Qed.

Lemma increasing_snoc l y :
  increasing l -> (forall x, In x l -> x < y) -> increasing (l ++ [y]).
Proof.
  intros Hl Hy a c p q Hac Hp Hq.
  assert (Hc : (c < length (l ++ [y]))%nat) by (apply nth_error_Some; congruence).
  rewrite length_app in Hc. cbn [length] in Hc.
  assert (Ha : (a < length l)%nat) by lia.
  rewrite nth_error_app1 in Hp by exact Ha.
  destruct (Nat.eq_dec c (length l)) as [E|E].
  - rewrite nth_error_app2 in Hq by lia.
    replace (c - length l)%nat with O in Hq by lia.
    injection Hq as <-. apply Hy. exact (nth_error_In _ _ Hp).
  - rewrite nth_error_app1 in Hq by lia. exact (Hl a c p q Hac Hp Hq).
Qed.

(** The offsets collected are those that follow a line feed. *)
Lemma line_starts_In l : forall i p,
  In p (line_starts i l)
  <-> i < p <= i + zlen l /\ nth_error l (Z.to_nat (p - i - 1)) = Some LF.
Proof.
  induction l as [|b r IH]; intros i p.
  - cbn [line_starts In]. change (zlen (@nil byte)) with 0. split; [contradiction|lia].
  - rewrite line_starts_cons, zlen_cons. pose proof (zlen_nonneg r) as Hr.
    destruct (Z.eq_dec p (i + 1)) as [->|Hp].
    + replace (i + 1 - i - 1) with 0 by lia. cbn [Z.to_nat nth_error].
      destruct (Byte.eqb b LF) eqn:E.
      * apply Byte.byte_dec_bl in E. subst b.
        split; [intros _; split; [lia|reflexivity]|intros _; left; reflexivity].
      * split.
        -- intros H. apply line_starts_bounds in H. lia.
        -- intros [_ H]. injection H as ->. discriminate.
    + assert (Hstep : In p (line_starts (i + 1) r)
                      <-> i < p <= i + (1 + zlen r)
                          /\ nth_error (b :: r) (Z.to_nat (p - i - 1)) = Some LF).
      { rewrite IH. split.
        - intros [H1 H2]. split; [lia|].
          replace (Z.to_nat (p - i - 1)) with (S (Z.to_nat (p - (i + 1) - 1))) by lia.
          exact H2.
        - intros [H1 H2]. split; [lia|].
          replace (Z.to_nat (p - i - 1)) with (S (Z.to_nat (p - (i + 1) - 1))) in H2
            by lia.
          exact H2. }
      destruct (Byte.eqb b LF); [|exact Hstep].
      rewrite <- Hstep. cbn [In]. split; [intros [H|H]; [lia|exact H]|].
      intros H; right; exact H.
Qed.

Section LinePositions.

Context {collaborators : Collaborators}.

Hypothesis Hsb : single_byte_encodings.

(** X5. After an uninterrupted full index of a readable file (single-byte
    encodings, below 2 GiB) the line positions grow strictly with the line
    number, the synthetic last entry included, and lie between 1 and the
    file size plus one. *)
Theorem line_positions_increase forced F w :
  zlen F < 2 ^ 31 ->
  interruptRequest_ w = None ->
  exists w',
    FullIndexOperation_start forced (Openable F) w = Done (Completion true, w')
    /\ (forall i j p q,
          (i < j)%nat ->
          getPosForLine i (indexing_data_ w') = Some p ->
          getPosForLine j (indexing_data_ w') = Some q ->
          p < q)
    /\ (forall i p,
          getPosForLine i (indexing_data_ w') = Some p -> 1 <= p <= zlen F + 1).
Proof.
  intros Hlen Hfl.
  destruct (full_index_uninterrupted Hsb forced F w Hlen Hfl)
    as (m & events & Hrun & Hm & _).
  eexists. split; [exact Hrun|].
  cbn [indexing_data_]. unfold getPosForLine.
  assert (Hall : forall x, In x (line_starts 0 F) -> 1 <= x <= zlen F).
  { intros x H. apply line_starts_bounds in H. lia. }
  destruct F as [|b r]; [split; intros; destruct i; discriminate|].
  cbn [index_of linePosition_].
  destruct (ends_in_LF (b :: r)); cbn [array].
  - split; [apply line_starts_increasing|].
    intros i p H. apply nth_error_In, Hall in H. lia.
  - split.
    + apply increasing_snoc; [apply line_starts_increasing|].
      intros x H. apply Hall in H. lia.
    + intros i p H. apply nth_error_In, in_app_or in H.
      destruct H as [H|[<-|[]]]; [apply Hall in H; lia|].
      pose proof (zlen_nonneg (b :: r)). lia.
Qed.

(** X6. After an uninterrupted full index of a readable file (single-byte
    encodings, below 2 GiB) the entries other than the synthetic one are
    exactly the offsets that follow a line feed: [p] is such an entry if
    and only if [1 <= p <= file size] and the byte at offset [p - 1] is
    0x0A. *)
Theorem line_positions_follow_line_feeds forced F w :
  zlen F < 2 ^ 31 ->
  interruptRequest_ w = None ->
  exists w',
    FullIndexOperation_start forced (Openable F) w = Done (Completion true, w')
    /\ forall p,
         In p (real_entries (linePosition_ (indexing_data_ w')))
         <-> 1 <= p <= zlen F /\ nth_error F (Z.to_nat (p - 1)) = Some LF.
Proof.
  intros Hlen Hfl.
  destruct (full_index_uninterrupted Hsb forced F w Hlen Hfl)
    as (m & events & Hrun & Hm & _).
  eexists. split; [exact Hrun|].
  cbn [indexing_data_]. intros p.
  destruct (index_of_fields forced F m Hm) as (_ & -> & _).
  rewrite line_starts_In. replace (p - 0 - 1) with (p - 1) by lia.
  split; intros [H1 H2]; (split; [lia|exact H2]).
Qed.

End LinePositions.

Lemma line_positions_increase_witness :
  zlen three_lines < 2 ^ 31
  /\ interruptRequest_ idle = None
  /\ exists w',
       FullIndexOperation_start None (Openable three_lines) idle
       = Done (Completion true, w')
       /\ (forall i j p q,
             (i < j)%nat ->
             getPosForLine i (indexing_data_ w') = Some p ->
             getPosForLine j (indexing_data_ w') = Some q ->
             p < q)
       /\ (forall i p,
             getPosForLine i (indexing_data_ w') = Some p ->
             1 <= p <= zlen three_lines + 1).
Proof.
  split; [vm_compute; reflexivity|]. split; [reflexivity|].
  apply (line_positions_increase sample_single_byte None three_lines idle);
    [vm_compute; reflexivity|reflexivity].
Defined.

Lemma line_positions_follow_line_feeds_witness :
  zlen three_lines < 2 ^ 31
  /\ interruptRequest_ idle = None
  /\ exists w',
       FullIndexOperation_start None (Openable three_lines) idle
       = Done (Completion true, w')
       /\ forall p,
            In p (real_entries (linePosition_ (indexing_data_ w')))
            <-> 1 <= p <= zlen three_lines
                /\ nth_error three_lines (Z.to_nat (p - 1)) = Some LF.
Proof.
  split; [vm_compute; reflexivity|]. split; [reflexivity|].
  apply (line_positions_follow_line_feeds sample_single_byte None three_lines idle);
    [vm_compute; reflexivity|reflexivity].
Defined.

(** ** A partial index that finds nothing new *)

Section NothingNew.

Context {collaborators : Collaborators}.

Lemma doIndex_without_new_bytes p0 content d fl evs :
  zlen content <= p0 ->
  doIndex p0 (Openable content)
    {| indexing_data_ := d; interruptRequest_ := fl; progressed := evs |}
  = Done (tt, {| indexing_data_ := with_default_guess d;
                 interruptRequest_ := snd (read_flag (snd (read_flag fl)));
                 progressed := evs |}).
Proof.
  intros Hsize.
  assert (Hend : atEnd content p0 = true) by (unfold atEnd; lia).
  unfold doIndex, bind, getData.
  cbn [indexing_data_ interruptRequest_ progressed pos indexingGraph].
  unfold bind, interruptRequested.
  cbn [indexing_data_ interruptRequest_ progressed].
  rewrite Hend. cbn [negb].
  destruct (read_flag fl) as [b1 fl1]. cbn [snd].
  destruct b1; unfold ret;
    cbn [indexing_data_ interruptRequest_ progressed file_size pos];
    destruct (read_flag fl1) as [b2 fl2]; cbn [snd];
    replace (zlen content >? p0) with false by (symmetry; lia);
    rewrite andb_false_r;
    cbn [indexing_data_ interruptRequest_ progressed];
    unfold with_default_guess, modifyData;
    destruct (getEncodingGuess d); reflexivity.
Qed.

(** A partial index of a file that is not longer than the indexed size:
    three reads of the interrupt request, and no block. *)
Lemma partial_index_reads_nothing content d fl evs :
  zlen content <= getSize d ->
  let last_read := read_flag (snd (read_flag (snd (read_flag fl)))) in
  PartialIndexOperation_start (Openable content)
    {| indexing_data_ := d; interruptRequest_ := fl; progressed := evs |}
  = Done (Completion (if fst last_read then false else true),
          {| indexing_data_ := with_default_guess d;
             interruptRequest_ := snd last_read;
             progressed := evs ++ [0] |}).
Proof.
  intros Hsize last_read.
  unfold PartialIndexOperation_start.
  unfold bind at 1. unfold getData at 1.
  unfold bind at 1. unfold emitIndexingProgressed at 1.
  cbn [indexing_data_ interruptRequest_ progressed].
  unfold bind at 1. rewrite (doIndex_without_new_bytes _ _ _ _ _ Hsize).
  unfold bind, interruptRequested, ret.
  cbn [indexing_data_ interruptRequest_ progressed].
  fold last_read. destruct last_read as [b fl3]. reflexivity.
Qed.

(** X7. When the readable file on disk is not longer than the indexed size
    (nothing was appended, or the file has shrunk), [PartialIndexOperation]
    reads no block: it emits the opening progress 0 and nothing else, and
    leaves line positions, maximal length, hash and forced encoding as they
    were; only a missing encoding guess is replaced by the codec of the
    locale. This holds for every encoding and whenever the interrupt request
    is raised; the result is [Completion true] if it never is. *)
Theorem partial_index_without_new_bytes content w :
  zlen content <= getSize (indexing_data_ w) ->
  exists finished flag,
    PartialIndexOperation_start (Openable content) w
    = Done (Completion finished,
            {| indexing_data_ := with_default_guess (indexing_data_ w);
               interruptRequest_ := flag;
               progressed := progressed w ++ [0] |})
    /\ (interruptRequest_ w = None -> finished = true /\ flag = None).
Proof.
  intros Hsize. destruct w as [d fl evs].
  cbn [indexing_data_ interruptRequest_ progressed] in *.
  rewrite (partial_index_reads_nothing content d fl evs Hsize).
  eexists. eexists. split; [reflexivity|].
  intros ->. split; reflexivity.
Qed.

End NothingNew.

Lemma partial_index_without_new_bytes_witness :
  zlen (@nil byte) <= getSize (indexing_data_ idle)
  /\ exists finished flag,
       PartialIndexOperation_start (Openable []) idle
       = Done (Completion finished,
               {| indexing_data_ := with_default_guess (indexing_data_ idle);
                  interruptRequest_ := flag;
                  progressed := progressed idle ++ [0] |})
       /\ (interruptRequest_ idle = None -> finished = true /\ flag = None).
Proof.
  split; [vm_compute; discriminate|].
  apply (partial_index_without_new_bytes [] idle). vm_compute. discriminate.
Defined.

(** ** The number of lines under appends *)

Lemma line_starts_ends_in_LF l : forall i,
  ends_in_LF l = true -> line_starts i l <> [].
Proof.
  induction l as [|b r IH]; intros i H; [discriminate|].
  rewrite line_starts_cons. destruct r as [|b' r'].
  - unfold ends_in_LF in H. cbn [last] in H. rewrite H. discriminate.
  - rewrite ends_in_LF_cons in H by discriminate.
    destruct (Byte.eqb b LF); [discriminate|]. apply IH. exact H.
Qed.

Lemma real_entries_length (a : LinePositionArray) :
  zlen (array a) <= zlen (real_entries a) + 1.
Proof.
  unfold real_entries. destruct (fakeFinalLF a); [|lia].
  destruct (array a) as [|x l] using rev_ind.
  - cbn. lia.
  - rewrite removelast_last, zlen_app, zlen_cons.
    change (zlen (@nil Z)) with 0. lia.
Qed.

Section LinesUnderAppends.

Context {collaborators : Collaborators}.

Hypothesis Hsb : single_byte_encodings.

(** X8. An uninterrupted partial index never lowers the number of lines
    (single-byte encodings, readable file below 2 GiB), whatever index it
    starts from and whether or not its last entry is the synthetic one: the
    synthetic entry that is dropped is made up for by a line position found
    in the new bytes or by a new synthetic entry. *)
Theorem partial_index_keeps_the_lines content w :
  zlen content < 2 ^ 31 ->
  interruptRequest_ w = None ->
  0 <= getSize (indexing_data_ w) ->
  0 <= maxLength_ (indexing_data_ w) ->
  exists w',
    PartialIndexOperation_start (Openable content) w = Done (Completion true, w')
    /\ getNbLines (indexing_data_ w) <= getNbLines (indexing_data_ w').
Proof.
  intros Hlen Hfl Hsize Hmax.
  set (d := indexing_data_ w) in *.
  destruct (Z_le_gt_dec (zlen content) (getSize d)) as [Hold|Hnew].
  - (* nothing new on disk *)
    destruct w as [d0 fl evs]. cbn [indexing_data_ interruptRequest_] in *.
    subst fl d. rewrite (partial_index_reads_nothing content d0 None evs Hold).
    cbn [read_flag fst snd]. eexists. split; [reflexivity|].
    cbn [indexing_data_]. unfold getNbLines.
    destruct (with_default_guess_fields d0) as (-> & _). lia.
  - destruct (partial_index_uninterrupted Hsb content w Hlen Hfl Hsize)
      as (d1 & events & Hrun & Hgrown & _).
    fold d in Hrun, Hgrown.
    set (B := skipn (Z.to_nat (getSize d)) content) in *.
    assert (HzB : zlen content = getSize d + zlen B).
    { unfold B, zlen. rewrite length_skipn. unfold zlen in Hnew. lia. }
    assert (HB : B <> []).
    { intros E. rewrite E in HzB. change (zlen (@nil byte)) with 0 in HzB. lia. }
    assert (Hclosed : exists g,
               index_grown d d1 (getSize d) B g
               /\ PartialIndexOperation_start (Openable content) w
                  = Done (Completion true,
                          {| indexing_data_ :=
                               index_closed true (zlen content) (getSize d) B
                                            (Some g) d1;
                             interruptRequest_ := None;
                             progressed := progressed w ++ events |})).
    { destruct B as [|b r]; [contradiction|].
      eexists. split; [exact Hgrown|exact Hrun]. }
    destruct Hclosed as (g & Hgrown' & Hrun').
    rewrite (index_closed_at_end d d1 (getSize d) content B g HB HzB Hgrown' Hmax)
      in Hrun'.
    eexists. split; [exact Hrun'|].
    cbn [indexing_data_]. unfold getNbLines. cbn [linePosition_].
    pose proof (real_entries_length (linePosition_ d)) as Hreal.
    pose proof (zlen_nonneg (line_starts (getSize d) B)) as Hls.
    destruct (ends_in_LF B) eqn:E; cbn [array].
    + pose proof (line_starts_ends_in_LF B (getSize d) E) as Hne.
      rewrite zlen_app.
      destruct (line_starts (getSize d) B) as [|x l]; [contradiction|].
      rewrite zlen_cons in *. pose proof (zlen_nonneg l). lia.
    + rewrite !zlen_app, zlen_cons. change (zlen (@nil Z)) with 0. lia.
Qed.

End LinesUnderAppends.

Lemma partial_index_keeps_the_lines_witness :
  @single_byte_encodings sample
  /\ zlen three_lines < 2 ^ 31
  /\ interruptRequest_ idle = None
  /\ 0 <= getSize (indexing_data_ idle)
  /\ 0 <= maxLength_ (indexing_data_ idle)
  /\ exists w',
       PartialIndexOperation_start (Openable three_lines) idle
       = Done (Completion true, w')
       /\ getNbLines (indexing_data_ idle) <= getNbLines (indexing_data_ w').
Proof.
  split; [exact sample_single_byte|]. split; [vm_compute; reflexivity|].
  split; [reflexivity|]. split; [vm_compute; discriminate|].
  split; [vm_compute; discriminate|].
  apply (partial_index_keeps_the_lines sample_single_byte three_lines idle);
    [vm_compute; reflexivity|reflexivity|vm_compute; discriminate
    |vm_compute; discriminate].
Defined.

(** ** An interrupted index and its completion *)

Lemma first_blocks_prefix n : forall content fp,
  0 <= fp ->
  exists rest, skipn (Z.to_nat fp) content = first_blocks n content fp ++ rest.
Proof.
  induction n as [|n IH]; intros content fp Hfp.
  - exists (skipn (Z.to_nat fp) content). reflexivity.
  - rewrite first_blocks_succ.
    set (block := file_read content fp sizeChunk).
    destruct (IH content (fp + zlen block)) as [rest Hrest].
    { pose proof (zlen_nonneg block). lia. }
    exists rest. rewrite <- app_assoc, <- Hrest.
    apply file_read_split; [exact Hfp|pose proof sizeChunk_pos; lia].
Qed.

Lemma first_blocks_short n : forall content fp,
  0 <= fp -> (n < blocks_from content fp)%nat ->
  fp + zlen (first_blocks n content fp) < zlen content.
Proof.
  induction n as [|n IH]; intros content fp Hfp Hn.
  - cbn [first_blocks]. change (zlen (@nil byte)) with 0.
    destruct (Z_lt_ge_dec fp (zlen content)) as [H|H]; [lia|].
    rewrite blocks_from_at_end in Hn by lia. lia.
  - destruct (Z_lt_ge_dec fp (zlen content)) as [H|H];
      [|rewrite blocks_from_at_end in Hn by lia; lia].
    rewrite first_blocks_succ, zlen_app.
    rewrite (blocks_from_step content fp Hfp H) in Hn.
    set (block := file_read content fp sizeChunk) in *.
    pose proof (zlen_nonneg block).
    specialize (IH content (fp + zlen block) ltac:(lia) ltac:(lia)). lia.
Qed.

Section Resume.

Context {collaborators : Collaborators}.

Lemma with_default_guess_encodings (d : IndexingData) :
  encodingForced_ (with_default_guess d) = encodingForced_ d
  /\ getEncodingGuess (with_default_guess d) <> None.
Proof.
  unfold with_default_guess.
  destruct (getEncodingGuess d) eqn:E; [split; [reflexivity|congruence]|].
  split; [reflexivity|discriminate].
Qed.

Hypothesis Hsb : single_byte_encodings.

(** A full index of a file below 2 GiB that the interrupt request stops
    while the reader is at work, after [n] blocks. *)
Lemma full_index_interrupted forced F w n :
  zlen F < 2 ^ 31 ->
  interruptRequest_ w = Some n ->
  (n <= reads_by_reader F 0)%nat ->
  let P := first_blocks n F 0 in
  exists d events,
    FullIndexOperation_start forced (Openable F) w
    = Done (Completion false,
            {| indexing_data_ := d; interruptRequest_ := Some O;
               progressed := progressed w ++ events |})
    /\ linePosition_ d = {| array := line_starts 0 P; fakeFinalLF := false |}
    /\ indexHash_ d = P
    /\ hash_ d = match P with
                 | [] => emptyIndexedHash
                 | _ => {| hash := md5 P; size := zlen P |}
                 end
    /\ getSize d = zlen P
    /\ encodingForced_ d = forced
    /\ getEncodingGuess d <> None
    /\ 0 <= maxLength_ d.
Proof.
  intros Hlen Hfl Hn P.
  unfold FullIndexOperation_start.
  unfold bind at 1. unfold emitIndexingProgressed at 1.
  unfold bind at 1. unfold modifyData at 1.
  unfold bind at 1. unfold modifyData at 1.
  cbn [indexing_data_ interruptRequest_ progressed].
  set (w0 := {| indexing_data_ := forceEncoding forced clear;
                interruptRequest_ := interruptRequest_ w;
                progressed := progressed w ++ [0] |}).
  destruct (doIndex_interrupted Hsb 0 F w0 n Hlen ltac:(lia) Hfl Hn)
    as (d1 & events & g & Hrun & Hgrown).
  unfold bind at 1. rewrite Hrun.
  unfold bind, interruptRequested, ret.
  cbn [indexing_data_ interruptRequest_ progressed read_flag].
  exists (with_default_guess d1), ([0] ++ events). rewrite app_assoc.
  split; [reflexivity|]. cbn [indexing_data_ w0] in Hgrown. fold P in Hgrown.
  destruct (with_default_guess_fields d1) as (H1 & H2 & H3 & H4).
  destruct (with_default_guess_encodings d1) as (H5 & H6).
  unfold getSize. rewrite H1, H2, H3, H4, H5.
  destruct P as [|b r]; cbn [index_grown] in Hgrown.
  - subst d1.
    cbn [forceEncoding clear linePosition_ hash_ indexHash_ size
         emptyIndexedHash maxLength_ encodingForced_ line_starts].
    change (zlen (@nil byte)) with 0.
    split; [reflexivity|]. split; [reflexivity|]. split; [reflexivity|].
    split; [reflexivity|]. split; [reflexivity|]. split; [exact H6|lia].
  - destruct Hgrown as (G1 & G2 & G3 & _ & G5 & G6). rewrite G1, G2, G3, G5.
    cbn [forceEncoding clear linePosition_ hash_ indexHash_ size
         emptyIndexedHash real_entries emptyLinePositionArray fakeFinalLF
         array app encodingForced_ maxLength_] in *.
    split; [reflexivity|]. split; [reflexivity|]. split; [f_equal; lia|].
    split; [lia|]. split; [reflexivity|]. split; [exact H6|lia].
Qed.

(** X9. The index left by an interrupted full index is a prefix of the
    complete one (single-byte encodings, file below 2 GiB): its line
    positions are the first line positions of the complete index, the bytes
    it has hashed are the first bytes of the file, as many as its size says. *)
Theorem interrupted_index_is_a_prefix forced F w w0 n :
  zlen F < 2 ^ 31 ->
  interruptRequest_ w = Some n ->
  (n <= reads_by_reader F 0)%nat ->
  interruptRequest_ w0 = None ->
  exists wi wc,
    FullIndexOperation_start forced (Openable F) w = Done (Completion false, wi)
    /\ FullIndexOperation_start forced (Openable F) w0 = Done (Completion true, wc)
    /\ (exists later,
          real_entries (linePosition_ (indexing_data_ wc))
          = array (linePosition_ (indexing_data_ wi)) ++ later)
    /\ indexHash_ (indexing_data_ wi)
       = firstn (Z.to_nat (getSize (indexing_data_ wi))) F
    /\ getSize (indexing_data_ wi) <= getSize (indexing_data_ wc).
Proof.
  intros Hlen Hfl Hn Hfl0.
  destruct (full_index_interrupted forced F w n Hlen Hfl Hn)
    as (d & events & Hrun & H1 & H2 & _ & H4 & _).
  destruct (full_index_uninterrupted Hsb forced F w0 Hlen Hfl0)
    as (m & events0 & Hrun0 & Hm & _).
  destruct (index_of_fields forced F m Hm) as (I1 & I2 & _).
  destruct (first_blocks_prefix n F 0 ltac:(lia)) as [rest Hrest].
  change (skipn (Z.to_nat 0) F) with F in Hrest.
  set (P := first_blocks n F 0) in *.
  eexists. eexists. split; [exact Hrun|]. split; [exact Hrun0|].
  cbn [indexing_data_]. rewrite I1, I2, H1, H2, H4. cbn [array].
  split; [|split].
  - exists (line_starts (0 + zlen P) rest).
    rewrite Hrest at 1. apply line_starts_app.
  - rewrite Hrest. rewrite firstn_zlen_app. reflexivity.
  - rewrite Hrest. rewrite zlen_app. pose proof (zlen_nonneg rest). lia.
Qed.

(** X10. An interrupted full index is completed by a partial index
    (single-byte encodings, file below 2 GiB): when the request stops the
    reader before it has read the last block, the partial index run next,
    with the request cleared, ends with the line positions, the flag of the
    synthetic entry, the hash and the forced encoding of an uninterrupted
    full index of the same file. *)
Theorem partial_index_completes_interrupted forced F w w0 n :
  zlen F < 2 ^ 31 ->
  interruptRequest_ w = Some n ->
  (n < blocks_from F 0)%nat ->
  interruptRequest_ w0 = None ->
  exists wi w2 wc,
    FullIndexOperation_start forced (Openable F) w = Done (Completion false, wi)
    /\ (clearInterrupt ;;; PartialIndexOperation_start (Openable F)) wi
       = Done (Completion true, w2)
    /\ FullIndexOperation_start forced (Openable F) w0 = Done (Completion true, wc)
    /\ linePosition_ (indexing_data_ w2) = linePosition_ (indexing_data_ wc)
    /\ hash_ (indexing_data_ w2) = hash_ (indexing_data_ wc)
    /\ indexHash_ (indexing_data_ w2) = indexHash_ (indexing_data_ wc)
    /\ encodingForced_ (indexing_data_ w2) = encodingForced_ (indexing_data_ wc).
Proof.
  intros Hlen Hfl Hn Hfl0.
  destruct (full_index_interrupted forced F w n Hlen Hfl)
    as (d & events & Hrun & H1 & H2 & H3 & H4 & H5 & H6 & H7);
    [unfold reads_by_reader; lia|].
  destruct (full_index_uninterrupted Hsb forced F w0 Hlen Hfl0)
    as (m & events0 & Hrun0 & Hm & _).
  destruct (first_blocks_prefix n F 0 ltac:(lia)) as [rest Hrest].
  change (skipn (Z.to_nat 0) F) with F in Hrest.
  pose proof (first_blocks_short n F 0 ltac:(lia) Hn) as Hshort.
  set (P := first_blocks n F 0) in *.
  assert (Hne : rest <> []).
  { intros E. rewrite E, app_nil_r in Hrest. rewrite Hrest in Hshort. lia. }
  set (w1 := {| indexing_data_ := d; interruptRequest_ := None;
                progressed := progressed w ++ events |}).
  destruct (partial_index_uninterrupted Hsb F w1 Hlen eq_refl)
    as (d1 & events1 & Hpart & Hgrown & _).
  { cbn [indexing_data_ w1]. rewrite H4. apply zlen_nonneg. }
  cbn [indexing_data_ w1 progressed] in Hpart, Hgrown.
  rewrite H4 in Hpart, Hgrown.
  assert (Hskip : skipn (Z.to_nat (zlen P)) F = rest)
    by (rewrite Hrest; apply skipn_zlen_app).
  rewrite Hskip in Hpart, Hgrown.
  assert (HF : F <> []).
  { intros E. rewrite E in Hrest. symmetry in Hrest.
    apply app_eq_nil in Hrest. destruct Hrest. contradiction. }
  assert (Hguess : exists g,
             index_grown d d1 (zlen P) rest g
             /\ PartialIndexOperation_start (Openable F) w1
                = Done (Completion true,
                        {| indexing_data_ :=
                             index_closed true (zlen F) (zlen P) rest (Some g) d1;
                           interruptRequest_ := None;
                           progressed := (progressed w ++ events) ++ events1 |})).
  { destruct rest as [|rb rr]; [contradiction|].
    eexists. split; [exact Hgrown|exact Hpart]. }
  clear Hpart Hgrown. destruct Hguess as (g & Hgrown & Hpart).
  rewrite (index_closed_at_end d d1 (zlen P) F rest g) in Hpart.
  - eexists. eexists. eexists.
    split; [exact Hrun|]. split; [|split; [exact Hrun0|]].
    + unfold bind at 1. unfold clearInterrupt.
      cbn [indexing_data_ interruptRequest_ progressed]. fold w1. exact Hpart.
    + cbn [indexing_data_ linePosition_ hash_ indexHash_ encodingForced_].
      rewrite H1, H2, H5. cbn [real_entries fakeFinalLF array].
      assert (Hls : line_starts 0 P ++ line_starts (zlen P) rest = line_starts 0 F).
      { rewrite Hrest, line_starts_app. reflexivity. }
      assert (Hends : ends_in_LF rest = ends_in_LF F).
      { rewrite Hrest. symmetry. apply ends_in_LF_app. exact Hne. }
      assert (Hsz : size (hash_ d) + zlen rest = zlen F).
      { fold (getSize d). rewrite H4, Hrest, zlen_app. reflexivity. }
      rewrite Hls, Hends, Hsz, <- Hrest.
      destruct F as [|b r]; [contradiction|].
      cbn [index_of linePosition_ hash_ indexHash_ encodingForced_].
      repeat split.
  - exact Hne.
  - rewrite Hrest. apply zlen_app.
  - exact Hgrown.
  - exact H7.
Qed.

Lemma with_default_guess_settled (d : IndexingData) :
  getEncodingGuess d <> None -> with_default_guess d = d.
Proof.
  intros H. unfold with_default_guess.
  destruct (getEncodingGuess d); [reflexivity|contradiction].
Qed.

(** X11. An interruption that arrives once the reader has read the last
    block loses an unterminated last line (single-byte encodings, file below
    2 GiB, not empty, not ending in a line feed): the full index reports the
    interruption and holds the whole file without the synthetic final entry;
    the partial index run next finds nothing new and changes nothing; the
    number of lines stays the number of line feeds, one short of the
    complete index, and the check that follows returns Unchanged. *)
Theorem late_interruption_loses_the_last_line forced F w n :
  zlen F < 2 ^ 31 ->
  F <> [] ->
  ends_in_LF F = false ->
  interruptRequest_ w = Some n ->
  (blocks_from F 0 <= n <= reads_by_reader F 0)%nat ->
  exists wi w2,
    FullIndexOperation_start forced (Openable F) w = Done (Completion false, wi)
    /\ (clearInterrupt ;;; PartialIndexOperation_start (Openable F)) wi
       = Done (Completion true, w2)
    /\ indexing_data_ w2 = indexing_data_ wi
    /\ getNbLines (indexing_data_ w2) = count_LF F
    /\ fakeFinalLF (linePosition_ (indexing_data_ w2)) = false
    /\ getHash (indexing_data_ w2) = {| hash := md5 F; size := zlen F |}
    /\ CheckFileChangesOperation_start (Openable F) w2
       = Done (FileStatus Unchanged, w2).
Proof.
  intros Hlen HF Hopen Hfl Hn.
  destruct (full_index_interrupted forced F w n Hlen Hfl ltac:(lia))
    as (d & events & Hrun & H1 & H2 & H3 & H4 & H5 & H6 & H7).
  rewrite first_blocks_all in H1, H2, H3, H4 by lia.
  change (skipn (Z.to_nat 0) F) with F in *.
  set (wi := {| indexing_data_ := d; interruptRequest_ := Some O;
                progressed := progressed w ++ events |}) in *.
  set (w1 := {| indexing_data_ := d; interruptRequest_ := None;
                progressed := progressed w ++ events |}).
  assert (Hpart : PartialIndexOperation_start (Openable F) w1
                  = Done (Completion true,
                          {| indexing_data_ := with_default_guess d;
                             interruptRequest_ := None;
                             progressed := (progressed w ++ events) ++ [0] |})).
  { unfold w1. rewrite partial_index_reads_nothing; [reflexivity|].
    rewrite H4. lia. }
  rewrite (with_default_guess_settled d H6) in Hpart.
  assert (Hh : getHash d = {| hash := md5 F; size := zlen F |}).
  { unfold getHash. rewrite H3. destruct F; [contradiction|reflexivity]. }
  eexists. eexists. split; [exact Hrun|]. split; [exact Hpart|].
  cbn [indexing_data_]. split; [reflexivity|].
  split; [unfold getNbLines; rewrite H1; apply count_LF_line_starts|].
  split; [rewrite H1; reflexivity|]. split; [exact Hh|].
  apply check_unchanged; [exact HF|exact Hlen|exact Hh].
Qed.

End Resume.

Lemma interrupted_index_is_a_prefix_witness :
  zlen three_lines < 2 ^ 31
  /\ interruptRequest_ (raised_after 1) = Some 1%nat
  /\ (1 <= reads_by_reader three_lines 0)%nat
  /\ interruptRequest_ idle = None
  /\ exists wi wc,
       FullIndexOperation_start None (Openable three_lines) (raised_after 1)
       = Done (Completion false, wi)
       /\ FullIndexOperation_start None (Openable three_lines) idle
          = Done (Completion true, wc)
       /\ (exists later,
             real_entries (linePosition_ (indexing_data_ wc))
             = array (linePosition_ (indexing_data_ wi)) ++ later)
       /\ indexHash_ (indexing_data_ wi)
          = firstn (Z.to_nat (getSize (indexing_data_ wi))) three_lines
       /\ getSize (indexing_data_ wi) <= getSize (indexing_data_ wc)
       /\ array (linePosition_ (indexing_data_ wi)) = [2; 5; 9]
       /\ getSize (indexing_data_ wi) = 9.
Proof.
  assert (H3 : (1 <= reads_by_reader three_lines 0)%nat).
  { unfold reads_by_reader. apply le_n_S, Nat.le_0_l. }
  split; [vm_compute; reflexivity|]. split; [reflexivity|].
  split; [exact H3|]. split; [reflexivity|].
  destruct (interrupted_index_is_a_prefix sample_single_byte None three_lines
              (raised_after 1) idle 1%nat)
    as (wi & wc & Hi & Hc & Hprefix & Hbytes & Hsize);
    [vm_compute; reflexivity|reflexivity|exact H3|reflexivity|].
  exists wi, wc. split; [exact Hi|]. split; [exact Hc|].
  split; [exact Hprefix|]. split; [exact Hbytes|]. split; [exact Hsize|].
  assert (E := Hi). vm_compute in E. injection E as E. rewrite <- E.
  split; reflexivity.
Defined.

Lemma partial_index_completes_interrupted_witness :
  zlen three_lines < 2 ^ 31
  /\ interruptRequest_ (raised_after 0) = Some O
  /\ (0 < blocks_from three_lines 0)%nat
  /\ interruptRequest_ idle = None
  /\ exists wi w2 wc,
       FullIndexOperation_start None (Openable three_lines) (raised_after 0)
       = Done (Completion false, wi)
       /\ (clearInterrupt ;;; PartialIndexOperation_start (Openable three_lines)) wi
          = Done (Completion true, w2)
       /\ FullIndexOperation_start None (Openable three_lines) idle
          = Done (Completion true, wc)
       /\ linePosition_ (indexing_data_ w2) = linePosition_ (indexing_data_ wc)
       /\ hash_ (indexing_data_ w2) = hash_ (indexing_data_ wc)
       /\ indexHash_ (indexing_data_ w2) = indexHash_ (indexing_data_ wc)
       /\ encodingForced_ (indexing_data_ w2)
          = encodingForced_ (indexing_data_ wc).
Proof.
  split; [vm_compute; reflexivity|]. split; [reflexivity|].
  split; [vm_compute; apply le_n|]. split; [reflexivity|].
  apply (partial_index_completes_interrupted sample_single_byte None three_lines
           (raised_after 0) idle O);
    [vm_compute; reflexivity|reflexivity|vm_compute; apply le_n|reflexivity].
Defined.

Lemma late_interruption_loses_the_last_line_witness :
  zlen one_byte < 2 ^ 31
  /\ one_byte <> []
  /\ ends_in_LF one_byte = false
  /\ interruptRequest_ (raised_after 1) = Some 1%nat
  /\ (blocks_from one_byte 0 <= 1 <= reads_by_reader one_byte 0)%nat
  /\ exists wi w2,
       FullIndexOperation_start None (Openable one_byte) (raised_after 1)
       = Done (Completion false, wi)
       /\ (clearInterrupt ;;; PartialIndexOperation_start (Openable one_byte)) wi
          = Done (Completion true, w2)
       /\ indexing_data_ w2 = indexing_data_ wi
       /\ getNbLines (indexing_data_ w2) = count_LF one_byte
       /\ fakeFinalLF (linePosition_ (indexing_data_ w2)) = false
       /\ getHash (indexing_data_ w2)
          = {| hash := md5 one_byte; size := zlen one_byte |}
       /\ CheckFileChangesOperation_start (Openable one_byte) w2
          = Done (FileStatus Unchanged, w2).
Proof.
  assert (Hb : (blocks_from one_byte 0 <= 1 <= reads_by_reader one_byte 0)%nat).
  { vm_compute. split; [apply le_n|apply le_S, le_n]. }
  split; [vm_compute; reflexivity|]. split; [discriminate|].
  split; [reflexivity|]. split; [reflexivity|]. split; [exact Hb|].
  apply (late_interruption_loses_the_last_line sample_single_byte None one_byte
           (raised_after 1) 1%nat);
    [vm_compute; reflexivity|discriminate|reflexivity|reflexivity|exact Hb].
Defined.

(** ** Invariants of the flow graph *)

Section GraphInvariant.

Context {collaborators : Collaborators}.

Variable content : list byte.

(** A property of the file position, the scan state, the index and the
    progress signals that every block through the parser preserves. *)
Variable Inv : Z -> IndexingState -> IndexingData -> list Z -> Prop.

Hypothesis parser_keeps_Inv : forall fp st d fl evs,
  0 <= fp < zlen content ->
  Inv fp st d evs ->
  let block := file_read content fp sizeChunk in
  exists st' d' evs',
    blockParser fp block st
      {| indexing_data_ := d; interruptRequest_ := fl; progressed := evs |}
    = Done (st', {| indexing_data_ := d'; interruptRequest_ := fl;
                    progressed := evs' |})
    /\ Inv (fp + zlen block) st' d' evs'.

(** The graph comes to an end in a state that satisfies the invariant, at
    the file position that follows the blocks read. *)
Lemma indexingGraph_invariant fuel : forall fp st w,
  0 <= fp ->
  Z.max 0 (zlen content - fp) < Z.of_nat fuel ->
  Inv fp st (indexing_data_ w) (progressed w) ->
  exists st' d' evs',
    indexingGraph fuel content fp st w
    = Done (st', {| indexing_data_ := d';
                    interruptRequest_ :=
                      flag_after_reader (interruptRequest_ w) content fp;
                    progressed := evs' |})
    /\ Inv (fp + zlen (consumed (interruptRequest_ w) content fp)) st' d' evs'.
Proof.
  induction fuel as [|fuel IH]; intros fp st w Hfp Hfuel HI; [lia|].
  cbn [indexingGraph]. unfold bind at 1. unfold interruptRequested.
  destruct w as [d fl evs]. cbn [interruptRequest_ indexing_data_ progressed] in *.
  assert (Hstop : forall fl',
             consumed fl content fp = [] ->
             flag_after_reader fl content fp = fl' ->
             exists st' d' evs',
               Done (st, {| indexing_data_ := d; interruptRequest_ := fl';
                            progressed := evs |})
               = Done (st', {| indexing_data_ := d';
                               interruptRequest_ := flag_after_reader fl content fp;
                               progressed := evs' |})
               /\ Inv (fp + zlen (consumed fl content fp)) st' d' evs').
  { intros fl' HB Hfl. exists st, d, evs. rewrite HB, Hfl.
    change (zlen (@nil byte)) with 0. rewrite Z.add_0_r.
    split; [reflexivity|exact HI]. }
  destruct (atEnd content fp) eqn:Hend.
  - apply atEnd_true in Hend.
    assert (HB : consumed fl content fp = []) by (apply consumed_at_end; lia).
    destruct fl as [[|n]|]; cbn [read_flag ret negb];
      apply Hstop; try exact HB; cbn [flag_after_reader];
      rewrite ?blocks_from_at_end by exact Hend; try reflexivity.
    f_equal. lia.
  - apply atEnd_false in Hend.
    set (block := file_read content fp sizeChunk) in *.
    set (fp1 := fp + zlen block).
    assert (Hzb : zlen block = Z.min sizeChunk (zlen content - fp)).
    { unfold block. rewrite file_read_length by (pose proof sizeChunk_pos; lia).
      pose proof sizeChunk_pos. lia. }
    assert (Hstep : forall fl0,
               consumed fl content fp = block ++ consumed fl0 content fp1 ->
               flag_after_reader fl content fp = flag_after_reader fl0 content fp1 ->
               exists st' d' evs',
                 (state' <- blockParser fp block st ;;
                  indexingGraph fuel content fp1 state')
                   {| indexing_data_ := d; interruptRequest_ := fl0;
                      progressed := evs |}
                 = Done (st', {| indexing_data_ := d';
                                 interruptRequest_ := flag_after_reader fl content fp;
                                 progressed := evs' |})
                 /\ Inv (fp + zlen (consumed fl content fp)) st' d' evs').
    { intros fl0 HB Hfl.
      destruct (parser_keeps_Inv fp st d fl0 evs ltac:(lia) HI)
        as (st1 & d1 & evs1 & Hbp & HI1).
      fold block in Hbp, HI1. fold fp1 in HI1.
      destruct (IH fp1 st1
                   {| indexing_data_ := d1; interruptRequest_ := fl0;
                      progressed := evs1 |})
        as (st' & d' & evs' & Hrun & HI');
        [unfold fp1; pose proof sizeChunk_pos; lia
        |unfold fp1; pose proof sizeChunk_pos; lia
        |exact HI1|].
      cbn [indexing_data_ interruptRequest_ progressed] in *.
      exists st', d', evs'.
      unfold bind. rewrite Hbp, Hrun, Hfl.
      split; [reflexivity|].
      rewrite HB, zlen_app. unfold fp1 in HI'.
      rewrite Z.add_assoc. exact HI'. }
    destruct fl as [[|n]|]; cbn [read_flag ret negb].
    + apply Hstop; reflexivity.
    + apply Hstep.
      * reflexivity.
      * cbn [flag_after_reader]. rewrite (blocks_from_step content fp) by lia.
        reflexivity.
    + apply Hstep.
      * cbn [consumed]. apply file_read_split; [lia|].
        pose proof sizeChunk_pos. lia.
      * reflexivity.
Qed.

End GraphInvariant.

(** ** Scanning with the default parameters *)

Lemma nondecreasing_nil : nondecreasing [].
Proof. intros i j p q _ H. destruct i; discriminate. Qed.

Lemma nondecreasing_snoc l y :
  nondecreasing l -> (forall x, In x l -> x <= y) -> nondecreasing (l ++ [y]).
Proof.
  intros Hl Hy a c p q Hac Hp Hq.
  assert (Hc : (c < length (l ++ [y]))%nat) by (apply nth_error_Some; congruence).
  rewrite length_app in Hc. cbn [length] in Hc.
  destruct (Nat.eq_dec c (length l)) as [E|E].
  - rewrite (nth_error_app2 l [y]) in Hq by lia.
    replace (c - length l)%nat with O in Hq by lia.
    injection Hq as <-.
    destruct (Nat.eq_dec a (length l)) as [Ea|Ea].
    + rewrite (nth_error_app2 l [y]) in Hp by lia.
      replace (a - length l)%nat with O in Hp by lia.
      injection Hp as <-. lia.
    + rewrite nth_error_app1 in Hp by lia. apply Hy. exact (nth_error_In _ _ Hp).
  - rewrite nth_error_app1 in Hq by lia. rewrite nth_error_app1 in Hp by lia.
    exact (Hl a c p q Hac Hp Hq).
Qed.

Lemma nondecreasing_cons x l :
  nondecreasing l -> (forall y, In y l -> x <= y) -> nondecreasing (x :: l).
Proof.
  intros Hl Hx a c p q Hac Hp Hq.
  destruct a as [|a]; destruct c as [|c]; cbn [nth_error] in Hp, Hq.
  - injection Hp as <-. injection Hq as <-. lia.
  - injection Hp as <-. apply Hx. exact (nth_error_In _ _ Hq).
  - lia.
  - apply (Hl a c p q); [lia|exact Hp|exact Hq].
Qed.

Lemma prefix_unique {A} (a b x y : list A) :
  a ++ x = b ++ y -> zlen a = zlen b -> a = b.
Proof.
  intros H Hlen.
  assert (Ha : firstn (length a) (a ++ x) = a).
  { rewrite firstn_app, Nat.sub_diag, firstn_all. cbn [firstn]. apply app_nil_r. }
  assert (Hb : firstn (length b) (b ++ y) = b).
  { rewrite firstn_app, Nat.sub_diag, firstn_all. cbn [firstn]. apply app_nil_r. }
  assert (E : length a = length b) by (unfold zlen in Hlen; lia).
  rewrite <- Ha, <- Hb, H, E. reflexivity.
Qed.

Section Scanning.

Context {collaborators : Collaborators}.

Lemma guessEncoding_scans block (state : IndexingState) d :
  scans_single_byte state ->
  scans_single_byte (guessEncoding block state d)
  /\ fileTextCodec (guessEncoding block state d) <> None.
Proof.
  intros [Hp Hc]. unfold scans_single_byte, guessEncoding.
  destruct (fileTextCodec state) as [c|]; cbn [encodingParams fileTextCodec].
  - split; [split; [exact Hp|left; discriminate]|discriminate].
  - destruct Hc as [Hc|Hc]; [contradiction|].
    split; [split; [apply Hc|left; discriminate]|discriminate].
Qed.

Lemma scan_keeps_codec l : forall i (s : IndexingState),
  fileTextCodec (scan i l s) = fileTextCodec s.
Proof.
  induction l as [|b r IH]; intros i s; cbn [scan]; [reflexivity|].
  destruct (Byte.eqb b LF); [exact (IH (i + 1) (line_found 0 i s))|].
  destruct (Byte.eqb b TAB);
    [exact (IH (i + 1) (tab_found 0 i s)) | exact (IH (i + 1) s)].
Qed.

Lemma guessEncoding_codec block (state : IndexingState) d :
  fileTextCodec (guessEncoding block state d) <> None.
Proof.
  unfold guessEncoding. destruct (fileTextCodec state); cbn [fileTextCodec];
    discriminate.
Qed.

Lemma guessEncoding_settled block (state : IndexingState) d :
  fileTextCodec state <> None ->
  encodingParams (guessEncoding block state d) = encodingParams state.
Proof.
  unfold guessEncoding. destruct (fileTextCodec state); [reflexivity|contradiction].
Qed.

(** One block through the parser node when [guessEncoding] leaves it the
    parameters of a single-byte encoding. *)
Lemma blockParser_lines block_beginning block (state : IndexingState) w :
  encodingParams (guessEncoding block state (indexing_data_ w)) = single_byte ->
  block <> [] ->
  zlen block < 2 ^ 31 ->
  - 2 ^ 31 <= pos state - block_beginning <= 0 ->
  exists state' p,
    blockParser block_beginning block state w
    = Done (state',
            {| indexing_data_ :=
                 addAll block (max_length state')
                        {| array := line_starts block_beginning block;
                           fakeFinalLF := false |}
                        (Some (settled_guess state block)) (indexing_data_ w);
               interruptRequest_ := interruptRequest_ w;
               progressed := progressed w ++ [p] |})
    /\ pos state' = last (line_starts block_beginning block) (pos state)
    /\ encodingParams state' = single_byte
    /\ fileTextCodec state' <> None
    /\ file_size state' = file_size state
    /\ encodingGuess state' = Some (settled_guess state block)
    /\ progress_of state' = Done p.
Proof.
  intros Hp0 Hne Hlen Hpos.
  set (st0 := guessEncoding block state (indexing_data_ w)).
  pose proof (guessEncoding_codec block state (indexing_data_ w)) as Hcodec0.
  destruct (guessEncoding_fields block state (indexing_data_ w))
    as (Hpos0 & Hadd0 & Hfs0 & Hg0).
  fold st0 in Hp0, Hcodec0, Hpos0, Hadd0, Hfs0, Hg0.
  destruct (parseDataBlock_scan block_beginning block st0 Hp0)
    as (st' & Hrun & Hcur & _).
  { rewrite Hpos0. exact Hpos. }
  { exact Hlen. }
  destruct (progress_of_total st') as [p Hprog].
  destruct (scan_pos block block_beginning (set_max_length 0 st0) Hp0) as [Hsp Hse].
  destruct (scan_keeps block block_beginning (set_max_length 0 st0)) as [Hsf Hsg].
  destruct Hcur as (C1 & C2 & C3 & C4 & C5 & C6).
  assert (Hcodec : fileTextCodec st' <> None).
  { rewrite C6, scan_keeps_codec. exact Hcodec0. }
  exists st', p. split.
  - unfold blockParser, bind, getData. fold st0.
    destruct block as [|b r]; [contradiction|].
    unfold lift. rewrite Hrun. unfold modifyData. rewrite Hprog.
    unfold emitIndexingProgressed, ret. cbn [indexing_data_ interruptRequest_ progressed].
    rewrite C5, Hsg. cbn [encodingGuess set_max_length]. rewrite Hg0. reflexivity.
  - split; [rewrite C2, Hsp; cbn [pos set_max_length]; rewrite Hpos0; reflexivity|].
    split; [rewrite C1; exact Hse|]. split; [exact Hcodec|].
    split; [rewrite C4, Hsf; exact Hfs0|].
    split; [rewrite C5, Hsg; exact Hg0|exact Hprog].
Qed.

(** One block through the parser node when it scans as for a single-byte
    encoding. *)
Lemma blockParser_positions block_beginning block (state : IndexingState) w :
  scans_single_byte state ->
  block <> [] ->
  zlen block < 2 ^ 31 ->
  - 2 ^ 31 <= pos state - block_beginning <= 0 ->
  exists state' p,
    blockParser block_beginning block state w
    = Done (state',
            {| indexing_data_ :=
                 addAll block (max_length state')
                        {| array := line_starts block_beginning block;
                           fakeFinalLF := false |}
                        (Some (settled_guess state block)) (indexing_data_ w);
               interruptRequest_ := interruptRequest_ w;
               progressed := progressed w ++ [p] |})
    /\ pos state' = last (line_starts block_beginning block) (pos state)
    /\ scans_single_byte state'
    /\ file_size state' = file_size state
    /\ encodingGuess state' = Some (settled_guess state block)
    /\ progress_of state' = Done p.
Proof.
  intros Hscan Hne Hlen Hpos.
  destruct (guessEncoding_scans block state (indexing_data_ w) Hscan)
    as [[Hp0 _] _].
  destruct (blockParser_lines block_beginning block state w Hp0 Hne Hlen Hpos)
    as (st' & p & Hrun & H1 & H2 & H3 & H4 & H5 & H6).
  exists st', p. split; [exact Hrun|]. split; [exact H1|].
  split; [split; [exact H2|left; exact H3]|].
  split; [exact H4|]. split; [exact H5|exact H6].
Qed.

Lemma index_grown_snoc (d0 d : IndexingData) p0 seg block m g :
  block <> [] ->
  index_grown d0 d p0 seg g ->
  index_grown d0
    (addAll block m {| array := line_starts (p0 + zlen seg) block;
                       fakeFinalLF := false |} (Some g) d)
    p0 (seg ++ block) g.
Proof.
  intros Hne H. destruct seg as [|b r].
  - cbn [index_grown] in H. subst d.
    change (zlen (@nil byte)) with 0. rewrite Z.add_0_r.
    change ([] ++ block) with block. rewrite <- (app_nil_r block) at 3.
    apply (index_grown_step d0 _ p0 block m [] g Hne). reflexivity.
  - cbn [index_grown] in H. destruct H as (H1 & H2 & H3 & H4 & H5 & H6).
    change ((b :: r) ++ block) with (b :: (r ++ block)).
    cbn [index_grown].
    change (b :: (r ++ block)) with ((b :: r) ++ block).
    cbn [addAll linePosition_ hash_ indexHash_ encodingGuess_ encodingForced_
         maxLength_ append_list array fakeFinalLF].
    rewrite H1, H2, H3, H5. cbn [real_entries fakeFinalLF array size].
    rewrite line_starts_app, zlen_app, <- !app_assoc.
    repeat split.
    + unfold append_list. cbn [real_entries fakeFinalLF array].
      rewrite <- app_assoc. reflexivity.
    + f_equal. lia.
    + lia.
Qed.

End Scanning.
Section ScanningGraph.

Context {collaborators : Collaborators}.

Variable content : list byte.
Variable p0 : Z.
Variable st0 : IndexingState.
Variable d0 : IndexingData.
Variable evs0 : list Z.

Hypothesis Hp0 : 0 <= p0.
Hypothesis Hpos0 : pos st0 = p0.
Hypothesis Hshort : short_lines p0 (skipn (Z.to_nat p0) content).

Lemma scanned_pos seg :
  p0 <= last (line_starts p0 seg) p0 <= p0 + zlen seg.
Proof.
  pose proof (zlen_nonneg seg).
  destruct (last_in_or (line_starts p0 seg) p0) as [E|E].
  - rewrite E. lia.
  - apply line_starts_bounds in E. lia.
Qed.

Lemma scanned_step fp st d fl evs :
  0 <= fp < zlen content ->
  scanned content p0 st0 d0 evs0 fp st d evs ->
  let block := file_read content fp sizeChunk in
  exists st' d' evs',
    blockParser fp block st
      {| indexing_data_ := d; interruptRequest_ := fl; progressed := evs |}
    = Done (st', {| indexing_data_ := d'; interruptRequest_ := fl;
                    progressed := evs' |})
    /\ scanned content p0 st0 d0 evs0 (fp + zlen block) st' d' evs'.
Proof.
  intros Hfp (seg & events & Hseg & Hsplit & Hscan & Hfs & Hpos & Hguess
              & Hgrown & Hevs & Hmono & Hbound) block.
  rewrite Hpos0 in Hpos.
  pose proof sizeChunk_pos as HN.
  pose proof (scanned_pos seg) as Hrange. rewrite <- Hpos, <- Hseg in Hrange.
  assert (Hzb : zlen block = Z.min sizeChunk (zlen content - fp)).
  { unfold block. rewrite file_read_length by lia. lia. }
  assert (Hchunk : sizeChunk < 2 ^ 31) by reflexivity.
  assert (Hne : block <> []).
  { intros E. rewrite E in Hzb. change (zlen (@nil byte)) with 0 in Hzb. lia. }
  assert (Hline : fp - pos st <= 2 ^ 31).
  { assert (Hk : (length seg <= length (skipn (Z.to_nat p0) content))%nat).
    { rewrite Hsplit, length_app. lia. }
    pose proof (Hshort (length seg) Hk) as Hs.
    rewrite Hsplit in Hs at 1. rewrite firstn_app, Nat.sub_diag, firstn_all in Hs.
    cbn [firstn] in Hs. rewrite app_nil_r in Hs.
    fold (zlen seg) in Hs. rewrite <- Hpos, <- Hseg in Hs. exact Hs. }
  destruct Hscan as [Hscan|Hscan]; [lia|].
  destruct (blockParser_lines fp block st
              {| indexing_data_ := d; interruptRequest_ := fl; progressed := evs |}
              Hscan Hne ltac:(lia) ltac:(lia))
    as (st' & p & Hbp & Hpos' & Hparams' & Hcodec' & Hfs' & Hguess' & Hprog).
  cbn [indexing_data_ interruptRequest_ progressed] in Hbp.
  set (g := settled_guess st0 (file_read content p0 sizeChunk)) in *.
  assert (Hg : settled_guess st block = g).
  { unfold settled_guess at 1. rewrite Hguess.
    destruct seg as [|b r]; [|reflexivity].
    change (zlen (@nil byte)) with 0 in Hseg. rewrite Z.add_0_r in Hseg.
    unfold g, settled_guess, block. rewrite Hseg. reflexivity. }
  rewrite Hg in Hbp, Hguess'.
  assert (Hpos'' : pos st' = last (line_starts p0 (seg ++ block)) p0).
  { rewrite line_starts_app, last_app_default, <- Hpos, <- Hseg. exact Hpos'. }
  pose proof (scanned_pos (seg ++ block)) as Hrange'.
  rewrite <- Hpos'', zlen_app in Hrange'.
  assert (Hup : pos st <= pos st').
  { rewrite Hpos'.
    destruct (last_in_or (line_starts fp block) (pos st)) as [E|E].
    - rewrite E. lia.
    - apply line_starts_bounds in E. lia. }
  assert (Hp : p = progress_at (pos st') (zlen content)).
  { destruct (progress_of_cases st') as (p' & Hp' & Hpositive & _).
    rewrite Hprog in Hp'. injection Hp' as <-.
    rewrite Hfs', Hfs in Hpositive. apply Hpositive. lia. }
  assert (Hp12 : 0 <= p <= 100).
  { rewrite Hp. apply progress_at_bounds; lia. }
  assert (Hp3 : progress_at (pos st) (zlen content) <= p).
  { rewrite Hp. apply progress_at_mono; lia. }
  eexists st', _, _. split; [exact Hbp|].
  exists (seg ++ block), (events ++ [p]).
  split; [rewrite zlen_app; lia|].
  split.
  { rewrite Hsplit, <- app_assoc. f_equal.
    apply file_read_split; lia. }
  split.
  { right. rewrite guessEncoding_settled by exact Hcodec'. exact Hparams'. }
  split; [congruence|]. split; [rewrite Hpos0; exact Hpos''|].
  split.
  { rewrite Hguess'. destruct seg; [|reflexivity].
    destruct block; [contradiction|reflexivity]. }
  split.
  { rewrite Hseg. apply index_grown_snoc; [exact Hne|exact Hgrown]. }
  split; [rewrite Hevs, app_assoc; reflexivity|].
  rewrite Forall_forall in Hbound.
  split.
  - apply nondecreasing_snoc; [exact Hmono|].
    intros x Hx. destruct (Hbound x Hx) as [_ Hx']. lia.
  - apply Forall_app. split.
    + apply Forall_forall. intros x Hx. destruct (Hbound x Hx) as [H1 H2].
      split; [exact H1|]. rewrite <- Hp. lia.
    + constructor; [|constructor]. split; [lia|]. rewrite <- Hp. lia.
Qed.

(** The reader and the parser over the rest of the file when the parser
    scans as for a single-byte encoding and no line is longer than 2 GiB. *)
Lemma indexingGraph_scanning fl :
  zlen content <= p0
  \/ encodingParams (guessEncoding (file_read content p0 sizeChunk) st0 d0)
     = single_byte ->
  file_size st0 = zlen content ->
  let B := consumed fl content p0 in
  let g := settled_guess st0 (file_read content p0 sizeChunk) in
  exists state' d' events,
    indexingGraph (S (length content)) content p0 st0
      {| indexing_data_ := d0; interruptRequest_ := fl; progressed := evs0 |}
    = Done (state',
            {| indexing_data_ := d';
               interruptRequest_ := flag_after_reader fl content p0;
               progressed := evs0 ++ events |})
    /\ index_grown d0 d' p0 B g
    /\ pos state' = last (line_starts p0 B) p0
    /\ file_size state' = zlen content
    /\ encodingGuess state'
       = match B with [] => encodingGuess st0 | _ => Some g end
    /\ nondecreasing events
    /\ Forall (fun p => 0 <= p <= 100) events.
Proof.
  intros Hscan Hfs B g.
  destruct (indexingGraph_invariant content (scanned content p0 st0 d0 evs0)
              scanned_step (S (length content)) p0 st0
              {| indexing_data_ := d0; interruptRequest_ := fl; progressed := evs0 |})
    as (st' & d' & evs' & Hrun & HI).
  - lia.
  - rewrite Nat2Z.inj_succ. fold (zlen content).
    pose proof (zlen_nonneg content). lia.
  - cbn [indexing_data_ progressed]. exists [], [].
    change (zlen (@nil byte)) with 0. rewrite Z.add_0_r, app_nil_r.
    cbn [app line_starts last index_grown].
    repeat split; try assumption; try reflexivity.
    + apply nondecreasing_nil.
    + constructor.
  - cbn [indexing_data_ interruptRequest_ progressed] in Hrun, HI.
    fold B in HI.
    destruct HI as (seg & events & Hseg & Hsplit & _ & Hfs' & Hpos & Hguess
                    & Hgrown & Hevs & Hmono & Hbound).
    assert (HB : seg = B).
    { assert (Hpre : exists rest, skipn (Z.to_nat p0) content = B ++ rest).
      { unfold B. destruct fl as [n|]; cbn [consumed].
        - apply first_blocks_prefix. lia.
        - exists []. symmetry. apply app_nil_r. }
      destruct Hpre as [rest Hrest].
      apply (prefix_unique seg B (skipn (Z.to_nat (p0 + zlen B)) content) rest).
      - rewrite <- Hsplit. exact Hrest.
      - lia. }
    subst seg. fold g in Hguess, Hgrown. rewrite Hpos0 in Hpos.
    exists st', d', events. rewrite Hrun, Hevs.
    split; [reflexivity|]. split; [exact Hgrown|]. split; [exact Hpos|].
    split; [exact Hfs'|]. split; [exact Hguess|]. split; [exact Hmono|].
    apply Forall_forall. rewrite Forall_forall in Hbound.
    intros x Hx. apply (Hbound x Hx).
Qed.

End ScanningGraph.
Section DoIndexScanning.

Context {collaborators : Collaborators}.

Lemma short_lines_below p0 content :
  0 <= p0 -> zlen content < 2 ^ 31 ->
  short_lines p0 (skipn (Z.to_nat p0) content).
Proof.
  intros Hp0 Hlen k Hk.
  destruct (last_in_or (line_starts p0 (firstn k (skipn (Z.to_nat p0) content))) p0)
    as [E|E].
  - rewrite E. rewrite length_skipn in Hk. unfold zlen in Hlen. lia.
  - apply line_starts_bounds in E. rewrite length_skipn in Hk.
    unfold zlen in Hlen. lia.
Qed.

(** [doIndex] on a readable file in which no line is longer than 2 GiB,
    when the first block is scanned with single-byte parameters. *)
Lemma doIndex_lines p0 content w :
  0 <= p0 ->
  zlen content <= p0
  \/ parameters_scanned_with (indexing_data_ w) (file_read content p0 sizeChunk)
     = single_byte ->
  short_lines p0 (skipn (Z.to_nat p0) content) ->
  let d := indexing_data_ w in
  let B := consumed (interruptRequest_ w) content p0 in
  let g := match getEncodingGuess d with
           | Some c => c
           | None => detectEncoding (file_read content p0 sizeChunk)
           end in
  let guess := match B with [] => getEncodingGuess d | _ => Some g end in
  let fl1 := flag_after_reader (interruptRequest_ w) content p0 in
  exists d1 events,
    doIndex p0 (Openable content) w
    = Done (tt,
            {| indexing_data_ :=
                 index_closed (negb (fst (read_flag fl1))) (zlen content) p0 B
                              guess d1;
               interruptRequest_ := snd (read_flag fl1);
               progressed := progressed w ++ events |})
    /\ index_grown d d1 p0 B g
    /\ nondecreasing events
    /\ Forall (fun p => 0 <= p <= 100) events.
Proof.
  intros Hp0 Hparams Hshort d B g guess fl1.
  cbn [doIndex]. unfold bind at 1. unfold getData at 1.
  set (st0 := {| encodingParams := defaultEncodingParameters; pos := p0;
                 max_length := 0; additional_spaces := 0; end_ := 0;
                 file_size := zlen content;
                 encodingGuess := getEncodingGuess (indexing_data_ w);
                 fileTextCodec := _ |}).
  destruct w as [d' fl evs]. cbn [indexing_data_ interruptRequest_ progressed] in *.
  subst d.
  assert (Hscan : zlen content <= p0
                  \/ encodingParams
                       (guessEncoding (file_read content p0 sizeChunk) st0 d')
                     = single_byte).
  { destruct Hparams as [H|H]; [left; exact H|right].
    unfold parameters_scanned_with in H.
    unfold guessEncoding. cbn [fileTextCodec encodingGuess st0 encodingParams].
    destruct (getForcedEncoding d') as [c|]; cbn [encodingParams]; [exact H|].
    destruct (getEncodingGuess d') as [c|]; cbn [encodingParams]; exact H. }
  destruct (indexingGraph_scanning content p0 st0 d' evs Hp0 eq_refl Hshort
              fl Hscan eq_refl)
    as (st' & d1 & events & Hrun & Hgrown & Hpos & Hfs & Hg & Hmono & Hbound).
  exists d1, events. split; [|split; [exact Hgrown|split; [exact Hmono|exact Hbound]]].
  unfold bind at 1. cbn [pos st0] in Hrun |- *. rewrite Hrun.
  unfold bind at 1. unfold interruptRequested.
  cbn [interruptRequest_ indexing_data_ progressed].
  fold fl1. destruct (read_flag fl1) as [b fl2] eqn:Hread.
  cbn [fst snd]. rewrite Hfs, Hpos, Hg. cbn [file_size pos st0 encodingGuess].
  fold B. unfold settled_guess. cbn [encodingGuess st0]. fold g guess.
  unfold index_closed, with_default_guess.
  change (setFakeFinalLF (append (zlen content + 1) emptyLinePositionArray))
    with (fake_final_entry (zlen content)).
  destruct (negb b && (zlen content >? last (line_starts p0 B) p0));
    unfold bind, modifyData, ret, getData;
    cbn [indexing_data_ interruptRequest_ progressed];
    match goal with
    | |- context [getEncodingGuess ?x] => destruct (getEncodingGuess x)
    end; reflexivity.
Qed.

(** [doIndex] on a readable file below 2 GiB when it scans with the default
    parameters and these are single-byte. *)
Lemma doIndex_scanning p0 content w :
  defaultEncodingParameters = single_byte ->
  keeps_default_parameters (indexing_data_ w) ->
  zlen content < 2 ^ 31 -> 0 <= p0 ->
  let d := indexing_data_ w in
  let B := consumed (interruptRequest_ w) content p0 in
  let g := match getEncodingGuess d with
           | Some c => c
           | None => detectEncoding (file_read content p0 sizeChunk)
           end in
  let guess := match B with [] => getEncodingGuess d | _ => Some g end in
  let fl1 := flag_after_reader (interruptRequest_ w) content p0 in
  exists d1 events,
    doIndex p0 (Openable content) w
    = Done (tt,
            {| indexing_data_ :=
                 index_closed (negb (fst (read_flag fl1))) (zlen content) p0 B
                              guess d1;
               interruptRequest_ := snd (read_flag fl1);
               progressed := progressed w ++ events |})
    /\ index_grown d d1 p0 B g
    /\ nondecreasing events
    /\ Forall (fun p => 0 <= p <= 100) events.
Proof.
  intros Hdef Hkeep Hlen Hp0.
  apply doIndex_lines; [exact Hp0| |apply short_lines_below; assumption].
  right. unfold parameters_scanned_with.
  destruct Hkeep as [H|[H|H]].
  - destruct (getForcedEncoding (indexing_data_ w)); [|contradiction].
    destruct (getEncodingGuess (indexing_data_ w)); exact Hdef.
  - destruct (getEncodingGuess (indexing_data_ w)); [|contradiction].
    destruct (getForcedEncoding (indexing_data_ w)); exact Hdef.
  - destruct (getForcedEncoding (indexing_data_ w));
      destruct (getEncodingGuess (indexing_data_ w)); try exact Hdef. apply H.
Qed.

Lemma real_entries_closed (d d1 : IndexingData) p0 (content : list byte) B g :
  zlen content = p0 + zlen B ->
  index_grown d d1 p0 B g ->
  0 <= maxLength_ d ->
  real_entries
    (linePosition_
       (index_closed true (zlen content) p0 B
          (match B with [] => getEncodingGuess d | _ => Some g end) d1))
  = real_entries (linePosition_ d) ++ line_starts p0 B.
Proof.
  intros Hlen Hgrown Hm. destruct B as [|b r] eqn:EB.
  - cbn [index_grown] in Hgrown. subst d1.
    unfold index_closed. cbn [line_starts last andb].
    change (zlen (@nil byte)) with 0 in Hlen.
    replace (zlen content >? p0) with false by (symmetry; lia).
    destruct (with_default_guess_fields d) as (-> & _).
    symmetry. apply app_nil_r.
  - rewrite <- EB in *.
    rewrite (index_closed_at_end d d1 p0 content B g);
      [|rewrite EB; discriminate|exact Hlen
       |rewrite EB in *; exact Hgrown|exact Hm].
    cbn [linePosition_].
    destruct (ends_in_LF B); unfold real_entries; cbn [fakeFinalLF array];
      [reflexivity|apply removelast_last].
Qed.

(** X12. A forced encoding does not change where lines are found.
    [doIndex] takes the forced codec as the codec of the file before the
    first block, so that [guessEncoding] never builds the encoding
    parameters of that codec and the scan keeps the parameters a fresh
    [IndexingState] has. When these are single-byte, an uninterrupted full
    index of a readable file below 2 GiB under a forced codec is the index
    of a single-byte file (a line starts after each 0x0A byte), whatever the
    width of a line feed in the forced codec. *)
Theorem forced_encoding_keeps_default_parameters c F w :
  defaultEncodingParameters = single_byte ->
  zlen F < 2 ^ 31 ->
  interruptRequest_ w = None ->
  exists m w',
    FullIndexOperation_start (Some c) (Openable F) w = Done (Completion true, w')
    /\ indexing_data_ w' = index_of (Some c) F m.
Proof.
  intros Hdef Hlen Hfl. unfold FullIndexOperation_start.
  unfold bind at 1. unfold emitIndexingProgressed at 1.
  unfold bind at 1. unfold modifyData at 1.
  unfold bind at 1. unfold modifyData at 1.
  cbn [indexing_data_ interruptRequest_ progressed]. rewrite Hfl.
  set (w0 := {| indexing_data_ := forceEncoding (Some c) clear;
                interruptRequest_ := None;
                progressed := progressed w ++ [0] |}).
  destruct (doIndex_scanning 0 F w0 Hdef) as (d1 & events & Hrun & Hgrown & _).
  { left. discriminate. }
  { exact Hlen. }
  { lia. }
  cbn [indexing_data_ interruptRequest_ progressed w0 consumed flag_after_reader
       read_flag fst snd negb getEncodingGuess forceEncoding clear encodingGuess_
       maxLength_] in Hrun, Hgrown.
  change (skipn (Z.to_nat 0) F) with F in *.
  unfold bind at 1. rewrite Hrun.
  unfold bind, interruptRequested, ret.
  cbn [indexing_data_ interruptRequest_ progressed read_flag].
  destruct F as [|b r].
  - exists 0. eexists. split; [reflexivity|].
    cbn [index_grown] in Hgrown. subst d1. reflexivity.
  - exists (maxLength_ d1). eexists. split; [reflexivity|].
    cbn [indexing_data_].
    rewrite (index_closed_at_end _ d1 0 (b :: r) (b :: r) _
               ltac:(discriminate) ltac:(lia) Hgrown ltac:(cbn; lia)).
    reflexivity.
Qed.

(** X13. A partial index scans with the default parameters whenever the
    index holds an encoding guess, which every index operation leaves: the
    guess becomes the codec of the file before the first block, and
    [guessEncoding] never builds the parameters of that codec. When the
    default parameters are single-byte, an uninterrupted partial index of a
    readable file below 2 GiB adds a line start after each 0x0A byte that
    follows the indexed size, whatever the width of a line feed in the
    guessed codec. *)
Theorem partial_index_keeps_default_parameters content w :
  defaultEncodingParameters = single_byte ->
  getEncodingGuess (indexing_data_ w) <> None ->
  zlen content < 2 ^ 31 ->
  0 <= getSize (indexing_data_ w) <= zlen content ->
  0 <= maxLength_ (indexing_data_ w) ->
  interruptRequest_ w = None ->
  exists w',
    PartialIndexOperation_start (Openable content) w = Done (Completion true, w')
    /\ real_entries (linePosition_ (indexing_data_ w'))
       = real_entries (linePosition_ (indexing_data_ w))
         ++ line_starts (getSize (indexing_data_ w))
              (skipn (Z.to_nat (getSize (indexing_data_ w))) content).
Proof.
  intros Hdef Hguess Hlen Hsize Hmax Hfl.
  unfold PartialIndexOperation_start.
  unfold bind at 1. unfold getData at 1.
  unfold bind at 1. unfold emitIndexingProgressed at 1.
  rewrite Hfl.
  set (d := indexing_data_ w) in *.
  set (w0 := {| indexing_data_ := d; interruptRequest_ := None;
                progressed := progressed w ++ [0] |}).
  destruct (doIndex_scanning (getSize d) content w0 Hdef)
    as (d1 & events & Hrun & Hgrown & _).
  { right. left. exact Hguess. }
  { exact Hlen. }
  { lia. }
  cbn [indexing_data_ interruptRequest_ progressed w0 consumed flag_after_reader
       read_flag fst snd negb] in Hrun, Hgrown.
  unfold bind at 1. rewrite Hrun.
  unfold bind, interruptRequested, ret.
  cbn [indexing_data_ interruptRequest_ progressed read_flag].
  eexists. split; [reflexivity|]. cbn [indexing_data_].
  apply (real_entries_closed d d1 (getSize d) content _ _); [|exact Hgrown|exact Hmax].
  unfold zlen. rewrite length_skipn. unfold zlen in Hsize. lia.
Qed.

Hypothesis Hsb : single_byte_encodings.

Lemma single_byte_keeps_default (d : IndexingData) : keeps_default_parameters d.
Proof. right. right. apply Hsb. Qed.

(** X14. The progress signals of an index operation on a readable file
    (single-byte encodings, file below 2 GiB, whenever the interrupt request
    is raised), computed in single precision as the code does: the first is
    0, they never decrease, and each lies between 0 and 100. *)
Theorem progress_signals_bounded :
  (forall forced F w,
      zlen F < 2 ^ 31 ->
      exists r w' events,
        FullIndexOperation_start forced (Openable F) w = Done (r, w')
        /\ progressed w' = progressed w ++ 0 :: events
        /\ nondecreasing (0 :: events)
        /\ Forall (fun p => 0 <= p <= 100) events)
  /\ (forall F w,
        zlen F < 2 ^ 31 ->
        0 <= getSize (indexing_data_ w) ->
        exists r w' events,
          PartialIndexOperation_start (Openable F) w = Done (r, w')
          /\ progressed w' = progressed w ++ 0 :: events
          /\ nondecreasing (0 :: events)
          /\ Forall (fun p => 0 <= p <= 100) events).
Proof.
  assert (Hcons : forall events,
             nondecreasing events -> Forall (fun p => 0 <= p <= 100) events ->
             nondecreasing (0 :: events)).
  { intros events Hmono Hbound. apply nondecreasing_cons; [exact Hmono|].
    rewrite Forall_forall in Hbound. intros y Hy. apply (Hbound y Hy). }
  split.
  - intros forced F w Hlen. unfold FullIndexOperation_start.
    unfold bind at 1. unfold emitIndexingProgressed at 1.
    unfold bind at 1. unfold modifyData at 1.
    unfold bind at 1. unfold modifyData at 1.
    cbn [indexing_data_ interruptRequest_ progressed].
    set (w0 := {| indexing_data_ := forceEncoding forced clear;
                  interruptRequest_ := interruptRequest_ w;
                  progressed := progressed w ++ [0] |}).
    destruct (doIndex_scanning 0 F w0 ltac:(apply Hsb)
                (single_byte_keeps_default _) Hlen ltac:(lia))
      as (d1 & events & Hrun & _ & Hmono & Hbound).
    unfold bind at 1. rewrite Hrun.
    unfold bind, interruptRequested, ret.
    cbn [indexing_data_ interruptRequest_ progressed].
    match goal with
    | |- context [read_flag (snd ?x)] => destruct (read_flag (snd x)) as [b fl2]
    end.
    eexists. eexists. exists events. split; [reflexivity|].
    cbn [progressed w0]. rewrite <- app_assoc.
    split; [reflexivity|]. split; [apply Hcons; assumption|exact Hbound].
  - intros F w Hlen Hsize. unfold PartialIndexOperation_start.
    unfold bind at 1. unfold getData at 1.
    unfold bind at 1. unfold emitIndexingProgressed at 1.
    set (w0 := {| indexing_data_ := indexing_data_ w;
                  interruptRequest_ := interruptRequest_ w;
                  progressed := progressed w ++ [0] |}).
    destruct (doIndex_scanning (getSize (indexing_data_ w)) F w0 ltac:(apply Hsb)
                (single_byte_keeps_default _) Hlen Hsize)
      as (d1 & events & Hrun & _ & Hmono & Hbound).
    unfold bind at 1. rewrite Hrun.
    unfold bind, interruptRequested, ret.
    cbn [indexing_data_ interruptRequest_ progressed].
    match goal with
    | |- context [read_flag (snd ?x)] => destruct (read_flag (snd x)) as [b fl2]
    end.
    eexists. eexists. exists events. split; [reflexivity|].
    cbn [progressed w0]. rewrite <- app_assoc.
    split; [reflexivity|]. split; [apply Hcons; assumption|exact Hbound].
Qed.

End DoIndexScanning.
Lemma forced_encoding_keeps_default_parameters_witness :
  @defaultEncodingParameters wide = single_byte
  /\ zlen hi_utf16 < 2 ^ 31
  /\ @interruptRequest_ wide (undisturbed clear) = None
  /\ exists m (w' : @World wide),
       @FullIndexOperation_start wide (Some Utf16LE) (Openable hi_utf16)
         (undisturbed clear)
       = Done (Completion true, w')
       /\ indexing_data_ w' = @index_of wide (Some Utf16LE) hi_utf16 m.
Proof.
  split; [reflexivity|]. split; [vm_compute; reflexivity|]. split; [reflexivity|].
  apply (@forced_encoding_keeps_default_parameters wide Utf16LE hi_utf16
           (undisturbed clear));
    [reflexivity|vm_compute; reflexivity|reflexivity].
Defined.

(** The line feed of [hi_utf16] by detection and under the forced codec:
    the detector's codec gives the offset 6 that follows the two bytes of
    the line feed, the forced codec the offset 5 of a single-byte line feed
    and a line of one more byte after it. *)
Lemma utf16_line_feed_detected_and_forced :
  (exists w' : @World wide,
     @FullIndexOperation_start wide None (Openable hi_utf16) (undisturbed clear)
     = Done (Completion true, w')
     /\ linePosition_ (indexing_data_ w')
        = {| array := [6]; fakeFinalLF := false |})
  /\ (exists w' : @World wide,
        @FullIndexOperation_start wide (Some Utf16LE) (Openable hi_utf16)
          (undisturbed clear)
        = Done (Completion true, w')
        /\ linePosition_ (indexing_data_ w')
           = {| array := [5; 7]; fakeFinalLF := true |}).
Proof.
  split; (eexists; split; [vm_compute; reflexivity|reflexivity]).
Qed.

Lemma partial_index_keeps_default_parameters_witness :
  @defaultEncodingParameters wide = single_byte
  /\ @getEncodingGuess wide (indexing_data_ (undisturbed index_of_nothing)) <> None
  /\ zlen hi_utf16 < 2 ^ 31
  /\ 0 <= @getSize wide (indexing_data_ (undisturbed index_of_nothing))
       <= zlen hi_utf16
  /\ 0 <= @maxLength_ wide (indexing_data_ (undisturbed index_of_nothing))
  /\ @interruptRequest_ wide (undisturbed index_of_nothing) = None
  /\ exists w' : @World wide,
       @PartialIndexOperation_start wide (Openable hi_utf16)
         (undisturbed index_of_nothing)
       = Done (Completion true, w')
       /\ real_entries (linePosition_ (indexing_data_ w'))
          = real_entries (linePosition_
                            (indexing_data_ (undisturbed index_of_nothing)))
            ++ line_starts (getSize (indexing_data_ (undisturbed index_of_nothing)))
                 (skipn (Z.to_nat (getSize (indexing_data_
                                              (undisturbed index_of_nothing))))
                        hi_utf16).
Proof.
  split; [reflexivity|]. split; [discriminate|].
  split; [vm_compute; reflexivity|].
  split; [vm_compute; split; discriminate|].
  split; [vm_compute; discriminate|]. split; [reflexivity|].
  apply (@partial_index_keeps_default_parameters wide hi_utf16
           (undisturbed index_of_nothing));
    [reflexivity|discriminate|vm_compute; reflexivity
    |vm_compute; split; discriminate|vm_compute; discriminate|reflexivity].
Defined.

Lemma progress_signals_bounded_witness :
  @single_byte_encodings sample
  /\ zlen three_lines < 2 ^ 31
  /\ exists r w' events,
       FullIndexOperation_start None (Openable three_lines) idle = Done (r, w')
       /\ progressed w' = progressed idle ++ 0 :: events
       /\ nondecreasing (0 :: events)
       /\ Forall (fun p => 0 <= p <= 100) events.
Proof.
  split; [exact sample_single_byte|]. split; [vm_compute; reflexivity|].
  destruct (@progress_signals_bounded sample sample_single_byte) as [H _].
  apply (H None three_lines idle). vm_compute. reflexivity.
Defined.

(** ** The encoding of a file is decided once *)

Section GuessOnce.

Context {collaborators : Collaborators}.

(** X15. [guessEncoding] settles the encoding at the first block: after one
    call the state has a guess and a codec, and a later call changes nothing
    of the state, whatever block it is given and whatever the index then
    holds. The detector is asked only when the state has no guess; the
    codec, unless the state has one, is the forced encoding, else the guess
    of the index, else the guess of the state. *)
Theorem guessEncoding_settles block block' (state : IndexingState) d d' :
  let settled := guessEncoding block state d in
  guessEncoding block' settled d' = settled
  /\ encodingGuess settled
     = Some (match encodingGuess state with
             | Some c => c
             | None => detectEncoding block
             end)
  /\ fileTextCodec settled
     = match fileTextCodec state, getForcedEncoding d, getEncodingGuess d with
       | Some c, _, _ => Some c
       | None, Some c, _ => Some c
       | None, None, Some c => Some c
       | None, None, None => encodingGuess settled
       end
  /\ (fileTextCodec state <> None -> encodingParams settled = encodingParams state).
Proof.
  unfold guessEncoding.
  destruct (fileTextCodec state) as [c|] eqn:Ec;
    cbn [encodingGuess fileTextCodec encodingParams pos max_length
         additional_spaces end_ file_size].
  - repeat split.
  - destruct (getForcedEncoding d) as [cf|]; [|destruct (getEncodingGuess d) as [cg|]];
      (split; [reflexivity|]); (split; [reflexivity|]);
      (split; [reflexivity|intros H; contradiction]).
Qed.

End GuessOnce.

(** ** One block, one tab *)

Section OneBlock.

Context {collaborators : Collaborators}.

(** X16. The line positions that [parseDataBlock] returns do not depend on
    tabs. Under single-byte parameters, for a block below 2 GiB that starts
    at or after the position of the state and at most 2^31 bytes after it
    ([state.pos - block_beginning] lies between -2^31 and 0, where the cast
    to [int] keeps it), it returns the offsets that
    follow the line feeds of the block, in order, and leaves the position of
    the state at the last of them (where it was if the block has no line
    feed), whatever tabs the block holds and whatever carry the state brings
    from the blocks before. *)
Theorem parseDataBlock_line_positions block_beginning block
    (state : IndexingState) :
  encodingParams state = single_byte ->
  - 2 ^ 31 <= pos state - block_beginning <= 0 ->
  zlen block < 2 ^ 31 ->
  exists state',
    parseDataBlock block_beginning block state
    = Done (state', {| array := line_starts block_beginning block;
                       fakeFinalLF := false |})
    /\ pos state' = last (line_starts block_beginning block) (pos state)
    /\ encodingParams state' = encodingParams state
    /\ file_size state' = file_size state.
Proof.
  intros Hp Hpos Hlen.
  destruct (parseDataBlock_scan block_beginning block state Hp Hpos Hlen)
    as (st' & Hrun & (C1 & C2 & _ & C4 & _) & _).
  destruct (scan_pos block block_beginning (set_max_length 0 state) Hp) as [Hsp Hse].
  destruct (scan_keeps block block_beginning (set_max_length 0 state)) as [Hsf _].
  exists st'. split; [exact Hrun|].
  split; [rewrite C2, Hsp; reflexivity|].
  split; [rewrite C1, Hse, Hp; reflexivity|].
  rewrite C4, Hsf. reflexivity.
Qed.

(** X17. The statement that a tab executes moves the column to the next
    tab stop. With [col] the display column of the tab (its offset from the
    start of the line plus the spaces added so far), for
    [0 <= col < 2^31]: the spaces added grow by [7 - col mod 8], between 0
    and 7, and the column that follows the tab is the least multiple of 8
    above [col]. *)
Theorem tab_found_next_stop block_beginning p (state : IndexingState) :
  let col := (block_beginning - pos state) + p + additional_spaces state in
  let state' := tab_found block_beginning p state in
  let col' := (block_beginning - pos state') + (p + 1) + additional_spaces state' in
  0 <= col < 2 ^ 31 ->
  additional_spaces state' = additional_spaces state + (7 - col mod 8)
  /\ col' = 8 * (col / 8 + 1)
  /\ col < col' <= col + 8
  /\ pos state' = pos state.
Proof.
  intros col state' col' Hcol.
  assert (Hadd : additional_spaces state'
                 = additional_spaces state + (7 - col mod 8)).
  { unfold state', tab_found. cbn [additional_spaces set_additional_spaces].
    fold col. rewrite to_int_id by lia.
    rewrite Z.rem_mod_nonneg by (unfold tabStop; lia).
    unfold tabStop. lia. }
  assert (Hpos : pos state' = pos state) by reflexivity.
  pose proof (Z.div_mod col 8 ltac:(lia)) as Hdm.
  pose proof (Z.mod_pos_bound col 8 ltac:(lia)) as Hm.
  split; [exact Hadd|].
  assert (Hcol' : col' = 8 * (col / 8 + 1)).
  { unfold col'. rewrite Hadd, Hpos. unfold col in *. lia. }
  split; [exact Hcol'|]. split; [lia|exact Hpos].
Qed.

End OneBlock.

Lemma parseDataBlock_line_positions_witness :
  encodingParams at_start = single_byte
  /\ - 2 ^ 31 <= pos at_start - 0 <= 0
  /\ zlen two_tabs_then_one < 2 ^ 31
  /\ exists state',
       parseDataBlock 0 two_tabs_then_one at_start
       = Done (state', {| array := line_starts 0 two_tabs_then_one;
                          fakeFinalLF := false |})
       /\ pos state' = last (line_starts 0 two_tabs_then_one) (pos at_start)
       /\ encodingParams state' = encodingParams at_start
       /\ file_size state' = file_size at_start.
Proof.
  split; [reflexivity|]. split; [vm_compute; split; discriminate|].
  split; [vm_compute; reflexivity|].
  apply (parseDataBlock_line_positions 0 two_tabs_then_one at_start);
    [reflexivity|vm_compute; split; discriminate|vm_compute; reflexivity].
Defined.

Lemma tab_found_next_stop_witness :
  0 <= (0 - pos at_start) + 3 + additional_spaces at_start < 2 ^ 31
  /\ additional_spaces (tab_found 0 3 at_start)
     = additional_spaces at_start
       + (7 - ((0 - pos at_start) + 3 + additional_spaces at_start) mod 8)
  /\ (0 - pos (tab_found 0 3 at_start)) + (3 + 1)
     + additional_spaces (tab_found 0 3 at_start)
     = 8 * (((0 - pos at_start) + 3 + additional_spaces at_start) / 8 + 1)
  /\ (0 - pos at_start) + 3 + additional_spaces at_start
     < (0 - pos (tab_found 0 3 at_start)) + (3 + 1)
       + additional_spaces (tab_found 0 3 at_start)
     <= (0 - pos at_start) + 3 + additional_spaces at_start + 8
  /\ pos (tab_found 0 3 at_start) = pos at_start.
Proof.
  split; [vm_compute; split; [discriminate|reflexivity]|].
  apply (tab_found_next_stop 0 3 at_start). vm_compute. split; [discriminate|reflexivity].
Defined.

(** ** Line positions under any encoding *)

Lemma find_from_nth c l : forall i k,
  find_from c l i = Some k -> nth_error l (Z.to_nat (k - i)) = Some c.
Proof.
  induction l as [|b r IH]; intros i k H; cbn [find_from] in H; [discriminate|].
  destruct (Byte.eqb b c) eqn:E.
  - injection H as <-. apply Byte.byte_dec_bl in E. subst b.
    replace (i - i) with 0 by lia. reflexivity.
  - pose proof (find_from_range c r (i + 1) k H) as Hr.
    apply IH in H.
    replace (Z.to_nat (k - i)) with (S (Z.to_nat (k - (i + 1)))) by lia.
    exact H.
Qed.

Lemma memchr_nth block s c n t :
  0 <= s -> memchr block s c n = Some t ->
  nth_error block (Z.to_nat t) = Some c.
Proof.
  intros Hs H. pose proof (memchr_range block s c n t Hs H) as Hr.
  unfold memchr in H. apply find_from_nth in H.
  assert (Hlt : (Z.to_nat (t - s) < length (firstn (Z.to_nat n)
                                             (skipn (Z.to_nat s) block)))%nat)
    by (apply nth_error_Some; congruence).
  rewrite nth_error_firstn in H.
  destruct (Nat.ltb (Z.to_nat (t - s)) (Z.to_nat n)); [|discriminate].
  rewrite nth_error_skipn in H.
  replace (Z.to_nat s + Z.to_nat (t - s))%nat with (Z.to_nat t) in H by lia.
  exact H.
Qed.

Section AnyEncodingPositions.

Context {collaborators : Collaborators}.

Lemma lines_unchanged (lines : LinePositionArray) :
  fakeFinalLF lines = false ->
  lines = {| array := array lines ++ []; fakeFinalLF := false |}.
Proof. destruct lines as [a f]. cbn. intros ->. rewrite app_nil_r. reflexivity. Qed.

(** The loop of [parseDataBlock] under any encoding: every position it
    appends follows a [0x0A] byte of the block, and the positions grow. *)
Lemma parse_loop_sound fuel block_beginning block :
  forall (state : IndexingState) lines,
    well_formed (encodingParams state) ->
    zlen block <= 2 ^ 30 ->
    - 2 ^ 31 <= pos state - block_beginning < 2 ^ 31 ->
    Z.max 0 (zlen block - Z.max (to_int (pos state - block_beginning)) 0)
    < Z.of_nat fuel ->
    fakeFinalLF lines = false ->
    exists state' new,
      parse_loop fuel block_beginning block state lines
      = Done (state', {| array := array lines ++ new; fakeFinalLF := false |})
      /\ same_encoding state state'
      /\ pos state' = last new (pos state)
      /\ follow_line_feeds (encodingParams state) block_beginning block new
      /\ Forall (fun p => pos state < p) new
      /\ increasing new.
Proof.
  induction fuel as [|fuel IH]; intros st lines Hwf Hlen Hrange Hfuel Hfake.
  - exfalso. lia.
  - cbn [parse_loop]. rewrite (to_int_id _ Hrange) in *.
    set (p := Z.max (pos st - block_beginning) 0) in *.
    assert (Hp : 0 <= p) by (unfold p; lia).
    assert (Hnone : forall v,
               exists state' new,
                 Done (set_additional_spaces v st, lines)
                 = Done (state', {| array := array lines ++ new;
                                    fakeFinalLF := false |})
                 /\ same_encoding st state'
                 /\ pos state' = last new (pos st)
                 /\ follow_line_feeds (encodingParams st) block_beginning block new
                 /\ Forall (fun q => pos st < q) new
                 /\ increasing new).
    { intros v. exists (set_additional_spaces v st), [].
      split; [f_equal; f_equal; apply lines_unchanged, Hfake|].
      split; [repeat split|]. split; [reflexivity|].
      split; [constructor|]. split; [constructor|].
      intros i j a b _ H. destruct i; discriminate. }
    destruct (zlen block - p >? 0) eqn:Hpos.
    2:{ cbn [Z.eqb]. rewrite <- (set_additional_spaces_same st). apply Hnone. }
    destruct (memchr block p LF (zlen block - p)) as [nl|] eqn:Hm.
    + pose proof (memchr_nth block p LF _ nl Hp Hm) as Hnth.
      apply memchr_range in Hm; [|exact Hp].
      destruct (expandTabs_total block_beginning block p (nl - p) st Hp) as [v Hv].
      rewrite Hv. unfold adjustToCharWidth. cbn [encodingParams set_additional_spaces].
      destruct (nl - beforeCrOffset (encodingParams st) =? -1); [apply Hnone|].
      set (st2 := line_found _ _ _).
      destruct Hwf as [Hw1 Hw2].
      assert (Hpos2 : pos st2 = block_beginning + nl
                                - beforeCrOffset (encodingParams st)
                                + lineFeedWidth (encodingParams st)).
      { unfold st2, line_found. cbn [pos encodingParams set_additional_spaces]. lia. }
      assert (Hup : pos st < pos st2) by (rewrite Hpos2; unfold p in *; lia).
      destruct (IH st2 (append (pos st2) lines)) as (st' & new & Hrun & Hsame & Hlast
                                                     & Hfollow & Hgt & Hinc).
      * exact (conj Hw1 Hw2).
      * exact Hlen.
      * rewrite Hpos2. lia.
      * rewrite to_int_id by (rewrite Hpos2; lia). rewrite Hpos2. lia.
      * reflexivity.
      * exists st', (pos st2 :: new). rewrite Hrun.
        unfold append at 1. unfold real_entries. rewrite Hfake.
        cbn [array]. rewrite <- app_assoc. cbn [app].
        split; [reflexivity|].
        split.
        { destruct Hsame as (H1 & H2 & H3 & H4). repeat split; assumption. }
        split; [rewrite last_cons; exact Hlast|].
        rewrite Forall_forall in Hgt.
        split; [|split].
        -- constructor; [|exact Hfollow].
           unfold line_feed_byte. rewrite Hpos2.
           replace (block_beginning + nl - beforeCrOffset (encodingParams st)
                    + lineFeedWidth (encodingParams st)
                    - lineFeedWidth (encodingParams st)
                    + beforeCrOffset (encodingParams st))
             with (block_beginning + nl) by lia.
           replace (block_beginning + nl - block_beginning) with nl by lia.
           split; [lia|exact Hnth].
        -- constructor; [exact Hup|].
           apply Forall_forall. intros q Hq. specialize (Hgt q Hq). lia.
        -- intros i j a b Hij Ha Hb.
           destruct j as [|j]; [lia|]. destruct i as [|i]; cbn [nth_error] in Ha, Hb.
           ++ injection Ha as <-. apply Hgt. exact (nth_error_In _ _ Hb).
           ++ apply (Hinc i j a b); [lia|exact Ha|exact Hb].
    + destruct (expandTabs_total block_beginning block p (zlen block - p) st Hp)
        as [v Hv].
      rewrite Hv. cbn [Z.eqb]. apply Hnone.
Qed.

End AnyEncodingPositions.
Lemma sizeChunk_small : sizeChunk <= 2 ^ 30.
Proof. vm_compute. discriminate. Qed.

Lemma increasing_app l1 l2 :
  increasing l1 -> increasing l2 ->
  (forall x y, In x l1 -> In y l2 -> x < y) ->
  increasing (l1 ++ l2).
Proof.
  intros H1 H2 H12 i j p q Hij Hp Hq.
  destruct (Nat.lt_ge_cases j (length l1)) as [Hj|Hj].
  - rewrite nth_error_app1 in Hp, Hq by lia. exact (H1 i j p q Hij Hp Hq).
  - rewrite (nth_error_app2 l1 l2) in Hq by lia.
    destruct (Nat.lt_ge_cases i (length l1)) as [Hi|Hi].
    + rewrite nth_error_app1 in Hp by lia.
      exact (H12 p q (nth_error_In _ _ Hp) (nth_error_In _ _ Hq)).
    + rewrite (nth_error_app2 l1 l2) in Hp by lia.
      apply (H2 (i - length l1)%nat (j - length l1)%nat p q); [lia|exact Hp|exact Hq].
Qed.

Lemma increasing_last l :
  increasing l -> forall d x, In x l -> x <= last l d.
Proof.
  induction l as [|a r IH]; intros Hinc d x Hx; [contradiction|].
  rewrite last_cons.
  assert (Hr : increasing r).
  { intros i j p q Hij Hp Hq. apply (Hinc (S i) (S j) p q); [lia|exact Hp|exact Hq]. }
  destruct Hx as [<-|Hx]; [|exact (IH Hr a x Hx)].
  destruct (last_in_or r a) as [E|E]; [rewrite E; lia|].
  apply In_nth_error in E. destruct E as [n Hn].
  assert (a < last r a); [|lia].
  apply (Hinc O (S n) a (last r a)); [lia|reflexivity|exact Hn].
Qed.

Lemma file_read_nth content fp n t :
  0 <= fp -> 0 <= t ->
  nth_error (file_read content fp n) (Z.to_nat t) = Some LF ->
  nth_error content (Z.to_nat (fp + t)) = Some LF.
Proof.
  intros Hfp Ht H. unfold file_read in H.
  rewrite nth_error_firstn in H.
  destruct (Nat.ltb (Z.to_nat t) (Z.to_nat n)); [|discriminate].
  rewrite nth_error_skipn in H.
  replace (Z.to_nat (fp + t)) with (Z.to_nat fp + Z.to_nat t)%nat by lia.
  exact H.
Qed.

Section AnyEncodingBlocks.

Context {collaborators : Collaborators}.

Lemma parseDataBlock_sound block_beginning block (state : IndexingState) :
  well_formed (encodingParams state) ->
  zlen block <= 2 ^ 30 ->
  - 2 ^ 31 <= pos state - block_beginning < 2 ^ 31 ->
  exists state' new,
    parseDataBlock block_beginning block state
    = Done (state', {| array := new; fakeFinalLF := false |})
    /\ same_encoding state state'
    /\ pos state' = last new (pos state)
    /\ follow_line_feeds (encodingParams state) block_beginning block new
    /\ Forall (fun p => pos state < p) new
    /\ increasing new.
Proof.
  intros Hwf Hlen Hrange. unfold parseDataBlock.
  destruct (parse_loop_sound (S (length block)) block_beginning block
              (set_max_length 0 state) emptyLinePositionArray)
    as (st' & new & Hrun & Hsame & Hrest).
  - exact Hwf.
  - exact Hlen.
  - exact Hrange.
  - rewrite Nat2Z.inj_succ. fold (zlen block). cbn [pos set_max_length].
    pose proof (zlen_nonneg block). lia.
  - reflexivity.
  - exists st', new. split; [exact Hrun|]. split; [|exact Hrest].
    destruct Hsame as (H1 & H2 & H3 & H4). repeat split; assumption.
Qed.

(** X18. The line positions that [parseDataBlock] returns under any
    encoding whose line feed is at most four bytes wide, with the [0x0A]
    byte inside it, for a block of at most 2^30 bytes, when
    [state.pos - block_beginning] is within the range of [int] (from -2^31
    to 2^31 - 1): each position follows a [0x0A] byte of the block, at the
    distance of that encoding; the positions grow strictly and lie beyond the
    position the state had; the state is left at the last of them. *)
Theorem parseDataBlock_any_encoding block_beginning block
    (state : IndexingState) :
  well_formed (encodingParams state) ->
  zlen block <= 2 ^ 30 ->
  - 2 ^ 31 <= pos state - block_beginning < 2 ^ 31 ->
  exists state' new,
    parseDataBlock block_beginning block state
    = Done (state', {| array := new; fakeFinalLF := false |})
    /\ pos state' = last new (pos state)
    /\ follow_line_feeds (encodingParams state) block_beginning block new
    /\ Forall (fun p => pos state < p) new
    /\ increasing new.
Proof.
  intros Hwf Hlen Hrange.
  destruct (parseDataBlock_sound block_beginning block state Hwf Hlen Hrange)
    as (st' & new & Hrun & _ & Hrest).
  exists st', new. split; [exact Hrun|exact Hrest].
Qed.

(** X19. The value -1 stands both for no line feed and for a line feed
    found one byte before the offset of its [0x0A] byte. When the first
    [0x0A] byte of a block that starts at or after the position of the state
    and at most 2^31 bytes after it ([state.pos - block_beginning] lies
    between -2^31 and 0, where the cast to [int] keeps it) is at index
    [beforeCrOffset - 1] (for UTF-16 BE the first byte of the
    block), [parseDataBlock] stops there: it returns no line position and
    leaves the position of the state where it was, whatever line feeds
    follow in the block. *)
Theorem line_feed_taken_for_none block_beginning pre post
    (state : IndexingState) :
  - 2 ^ 31 <= pos state - block_beginning <= 0 ->
  ~ In LF pre ->
  zlen pre = beforeCrOffset (encodingParams state) - 1 ->
  exists state',
    parseDataBlock block_beginning (pre ++ LF :: post) state
    = Done (state', emptyLinePositionArray)
    /\ pos state' = pos state.
Proof.
  intros Hrange Hpre Hoff. unfold parseDataBlock.
  set (block := pre ++ LF :: post).
  cbn [parse_loop length]. cbn [pos set_max_length].
  rewrite to_int_id by lia. rewrite Z.max_r by lia. rewrite Z.sub_0_r.
  assert (Hz : (zlen block >? 0) = true).
  { unfold block. rewrite zlen_app, zlen_cons.
    pose proof (zlen_nonneg pre). pose proof (zlen_nonneg post). lia. }
  rewrite Hz.
  assert (Hm : memchr block 0 LF (zlen block) = Some (zlen pre)).
  { unfold memchr. change (skipn (Z.to_nat 0) block) with block.
    unfold zlen at 1. rewrite Nat2Z.id, firstn_all. unfold block.
    rewrite find_from_first by exact Hpre. reflexivity. }
  rewrite Hm.
  destruct (expandTabs_total block_beginning block 0 (zlen pre - 0)
              (set_max_length 0 state) ltac:(lia)) as [v Hv].
  rewrite Hv. unfold adjustToCharWidth.
  cbn [encodingParams set_additional_spaces set_max_length].
  replace (zlen pre - beforeCrOffset (encodingParams state) =? -1) with true
    by (symmetry; lia).
  eexists. split; reflexivity.
Qed.

End AnyEncodingBlocks.

Lemma parseDataBlock_any_encoding_witness :
  well_formed (encodingParams at_start_utf16_be)
  /\ zlen gurmukhi_line <= 2 ^ 30
  /\ - 2 ^ 31 <= pos at_start_utf16_be - 1 < 2 ^ 31
  /\ exists state' new,
       parseDataBlock 1 (tl gurmukhi_line) at_start_utf16_be
       = Done (state', {| array := new; fakeFinalLF := false |})
       /\ pos state' = last new (pos at_start_utf16_be)
       /\ follow_line_feeds (encodingParams at_start_utf16_be) 1
            (tl gurmukhi_line) new
       /\ Forall (fun p => pos at_start_utf16_be < p) new
       /\ increasing new.
Proof.
  split; [vm_compute; repeat split; discriminate|].
  split; [vm_compute; discriminate|].
  split; [vm_compute; split; [discriminate|reflexivity]|].
  apply (parseDataBlock_any_encoding 1 (tl gurmukhi_line) at_start_utf16_be);
    [vm_compute; repeat split; discriminate|vm_compute; discriminate
    |vm_compute; split; [discriminate|reflexivity]].
Defined.

Lemma line_feed_taken_for_none_witness :
  - 2 ^ 31 <= pos at_start_utf16_be - 0 <= 0
  /\ ~ In LF []
  /\ zlen (@nil byte) = beforeCrOffset (encodingParams at_start_utf16_be) - 1
  /\ exists state',
       parseDataBlock 0 gurmukhi_line at_start_utf16_be
       = Done (state', emptyLinePositionArray)
       /\ pos state' = pos at_start_utf16_be.
Proof.
  split; [vm_compute; split; discriminate|]. split; [intros []|].
  split; [reflexivity|].
  apply (line_feed_taken_for_none 0 [] [x41; x00; x0a]%byte at_start_utf16_be);
    [vm_compute; split; discriminate|intros []|reflexivity].
Defined.
Section AnyEncodingIndex.

Context {collaborators : Collaborators}.

(** One block through the parser node, whatever the encoding. *)
Lemma blockParser_sound block_beginning block (state : IndexingState) w :
  well_formed (encodingParams (guessEncoding block state (indexing_data_ w))) ->
  block <> [] ->
  zlen block <= 2 ^ 30 ->
  - 2 ^ 31 <= pos state - block_beginning < 2 ^ 31 ->
  exists state' new p,
    blockParser block_beginning block state w
    = Done (state',
            {| indexing_data_ :=
                 addAll block (max_length state')
                        {| array := new; fakeFinalLF := false |}
                        (Some (settled_guess state block)) (indexing_data_ w);
               interruptRequest_ := interruptRequest_ w;
               progressed := progressed w ++ [p] |})
    /\ encodingParams state'
       = encodingParams (guessEncoding block state (indexing_data_ w))
    /\ fileTextCodec state' <> None
    /\ file_size state' = file_size state
    /\ pos state' = last new (pos state)
    /\ follow_line_feeds (encodingParams state') block_beginning block new
    /\ Forall (fun q => pos state < q) new
    /\ increasing new.
Proof.
  intros Hwf Hne Hlen Hrange.
  set (st0 := guessEncoding block state (indexing_data_ w)) in *.
  destruct (guessEncoding_fields block state (indexing_data_ w))
    as (Hpos0 & _ & Hfs0 & Hg0).
  fold st0 in Hpos0, Hfs0, Hg0.
  assert (Hcodec0 : fileTextCodec st0 <> None).
  { unfold st0, guessEncoding. destruct (fileTextCodec state); discriminate. }
  destruct (parseDataBlock_sound block_beginning block st0 Hwf Hlen)
    as (st' & new & Hrun & (C1 & C2 & C3 & C4) & Hlast & Hfollow & Hgt & Hinc).
  { rewrite Hpos0. exact Hrange. }
  destruct (progress_of_total st') as [p Hprog].
  exists st', new, p. split.
  - unfold blockParser, bind, getData. fold st0.
    destruct block as [|b r]; [contradiction|].
    unfold lift. rewrite Hrun. unfold modifyData. rewrite Hprog.
    unfold emitIndexingProgressed, ret. cbn [indexing_data_ interruptRequest_ progressed].
    rewrite <- C3, Hg0. reflexivity.
  - split; [symmetry; exact C1|]. split; [rewrite <- C4; exact Hcodec0|].
    split; [rewrite <- C2; exact Hfs0|].
    split; [rewrite Hlast, Hpos0; reflexivity|].
    split; [rewrite <- C1; exact Hfollow|].
    split; [rewrite <- Hpos0; exact Hgt|exact Hinc].
Qed.

Variable forced : option Codec.
Variable F : list byte.

Hypothesis Hwf : well_formed_encodings.
Hypothesis Hlen : zlen F < 2 ^ 31 - 8.

Lemma parameters_in_use_well_formed : well_formed (parameters_in_use forced F).
Proof. unfold parameters_in_use. destruct forced; apply Hwf. Qed.

Lemma sound_so_far_step fp st d fl evs :
  0 <= fp < zlen F ->
  sound_so_far forced F fp st d evs ->
  let block := file_read F fp sizeChunk in
  exists st' d' evs',
    blockParser fp block st
      {| indexing_data_ := d; interruptRequest_ := fl; progressed := evs |}
    = Done (st', {| indexing_data_ := d'; interruptRequest_ := fl;
                    progressed := evs' |})
    /\ sound_so_far forced F (fp + zlen block) st' d' evs'.
Proof.
  intros Hfp (Hpos & Hfs & Hfake & Hinc & Hle & Hfollow & Hphase) block.
  pose proof sizeChunk_pos as HN. pose proof sizeChunk_small as HS.
  pose proof parameters_in_use_well_formed as HwfP.
  assert (Hzb : zlen block = Z.min sizeChunk (zlen F - fp)).
  { unfold block. rewrite file_read_length by lia. lia. }
  assert (Hne : block <> []).
  { intros E. rewrite E in Hzb. change (zlen (@nil byte)) with 0 in Hzb. lia. }
  assert (Hparams : encodingParams (guessEncoding block st d)
                    = parameters_in_use forced F).
  { destruct Hphase as [(Hfp0 & -> & ->)|(Hp & Hc)].
    - unfold block. rewrite Hfp0. unfold guessEncoding, parameters_in_use.
      cbn [fileTextCodec full_index_start encodingGuess getForcedEncoding
           getEncodingGuess forceEncoding clear encodingForced_ encodingGuess_].
      destruct forced; reflexivity.
    - unfold guessEncoding. destruct (fileTextCodec st); [exact Hp|contradiction]. }
  destruct (blockParser_sound fp block st
              {| indexing_data_ := d; interruptRequest_ := fl; progressed := evs |})
    as (st' & new & p & Hbp & Hp' & Hc' & Hfs' & Hlast & Hnew & Hgt & Hincn).
  { cbn [indexing_data_]. rewrite Hparams. exact HwfP. }
  { exact Hne. }
  { lia. }
  { lia. }
  cbn [indexing_data_ interruptRequest_ progressed] in Hbp, Hp'.
  rewrite Hparams in Hp'. rewrite Hp' in Hnew.
  eexists st', _, _. split; [exact Hbp|].
  assert (Hup : pos st <= pos st').
  { rewrite Hlast. destruct (last_in_or new (pos st)) as [E|E]; [rewrite E; lia|].
    rewrite Forall_forall in Hgt. specialize (Hgt _ E). lia. }
  unfold follow_line_feeds in *. rewrite Forall_forall in Hnew, Hgt, Hle, Hfollow.
  assert (Hnew' : forall q, In q new ->
            0 <= line_feed_byte (parameters_in_use forced F) q < 0 + zlen F
            /\ nth_error F (Z.to_nat (line_feed_byte (parameters_in_use forced F) q - 0))
               = Some LF).
  { intros q Hq. destruct (Hnew q Hq) as [H1 H2].
    split; [lia|]. rewrite Z.sub_0_r.
    replace (line_feed_byte (parameters_in_use forced F) q)
      with (fp + (line_feed_byte (parameters_in_use forced F) q - fp)) by lia.
    apply (file_read_nth F fp sizeChunk); [lia|lia|exact H2]. }
  unfold sound_so_far.
  cbn [addAll linePosition_ append_list array fakeFinalLF].
  unfold real_entries. rewrite Hfake.
  split.
  { split; [lia|]. rewrite Hlast.
    destruct (last_in_or new (pos st)) as [E|E]; [rewrite E; lia|].
    destruct (Hnew _ E) as [H1 _]. unfold line_feed_byte in H1.
    destruct HwfP as [Hw1 Hw2]. lia. }
  split; [congruence|]. split; [reflexivity|].
  split.
  { apply increasing_app; [exact Hinc|exact Hincn|].
    intros x y Hx Hy. specialize (Hle x Hx). specialize (Hgt y Hy). lia. }
  split.
  { apply Forall_forall. intros x Hx. apply in_app_or in Hx.
    destruct Hx as [Hx|Hx]; [specialize (Hle x Hx); lia|].
    rewrite Hlast. apply increasing_last; assumption. }
  split.
  { apply Forall_forall. intros x Hx. apply in_app_or in Hx.
    destruct Hx as [Hx|Hx]; [exact (Hfollow x Hx)|exact (Hnew' x Hx)]. }
  right. split; [exact Hp'|exact Hc'].
Qed.

(** X20. Every line position of a full index follows a line feed, under
    any encoding whose line feed is at most four bytes wide with the
    [0x0A] byte inside it, forced or detected, and whenever the interrupt
    request is raised: for a readable file below 2 GiB, each entry [p] other
    than the synthetic one has the byte [0x0A] at offset
    [p - lineFeedWidth + beforeCrOffset] of the file, and the entries, the
    synthetic one included, grow strictly with the line number. The
    parameters are those of the codec the detector names for the first
    block, or the default ones under a forced encoding. *)
Theorem line_positions_any_encoding w :
  exists r w',
    FullIndexOperation_start forced (Openable F) w = Done (r, w')
    /\ follow_line_feeds (parameters_in_use forced F) 0 F
         (real_entries (linePosition_ (indexing_data_ w')))
    /\ increasing (array (linePosition_ (indexing_data_ w'))).
Proof.
  unfold FullIndexOperation_start.
  unfold bind at 1. unfold emitIndexingProgressed at 1.
  unfold bind at 1. unfold modifyData at 1.
  unfold bind at 1. unfold modifyData at 1.
  cbn [indexing_data_ interruptRequest_ progressed].
  set (w0 := {| indexing_data_ := forceEncoding forced clear;
                interruptRequest_ := interruptRequest_ w;
                progressed := progressed w ++ [0] |}).
  unfold bind at 1. unfold doIndex.
  unfold bind at 1. unfold getData at 1.
  cbn [indexing_data_ w0 getForcedEncoding getEncodingGuess forceEncoding clear
       encodingForced_ encodingGuess_ pos].
  assert (Hst : {| encodingParams := defaultEncodingParameters; pos := 0;
                   max_length := 0; additional_spaces := 0; end_ := 0;
                   file_size := zlen F; encodingGuess := None;
                   fileTextCodec := match forced with
                                    | Some c => Some c
                                    | None => None
                                    end |}
                = full_index_start forced F).
  { unfold full_index_start. destruct forced; reflexivity. }
  rewrite Hst.
  destruct (indexingGraph_invariant F (sound_so_far forced F) sound_so_far_step
              (S (length F)) 0 (full_index_start forced F) w0)
    as (st' & d' & evs' & Hrun & HI).
  { lia. }
  { rewrite Nat2Z.inj_succ. fold (zlen F). pose proof (zlen_nonneg F). lia. }
  { unfold sound_so_far. cbn [indexing_data_ w0 pos full_index_start file_size
                              forceEncoding clear linePosition_
                              emptyLinePositionArray array fakeFinalLF].
    split; [lia|]. split; [reflexivity|]. split; [reflexivity|].
    split; [intros i j p q _ H; destruct i; discriminate|].
    split; [constructor|]. split; [constructor|].
    left. repeat split. }
  unfold bind at 1. rewrite Hrun.
  destruct HI as (Hpos & Hfs & Hfake & Hinc & Hle & Hfollow & _).
  unfold bind at 1. unfold interruptRequested.
  cbn [indexing_data_ interruptRequest_ progressed].
  destruct (read_flag (flag_after_reader (interruptRequest_ w0) F 0)) as [b fl2].
  rewrite Hfs.
  assert (Hreal : real_entries (linePosition_ d') = array (linePosition_ d'))
    by (unfold real_entries; rewrite Hfake; reflexivity).
  destruct (negb b && (zlen F >? pos st')) eqn:Hclose.
  - (* the synthetic entry *)
    apply andb_true_iff in Hclose. destruct Hclose as [_ Hgt].
    unfold bind, modifyData, getData, interruptRequested, ret.
    cbn [indexing_data_ interruptRequest_ progressed].
    match goal with
    | |- context [getEncodingGuess ?x] => destruct (getEncodingGuess x)
    end;
      cbn [indexing_data_ interruptRequest_ progressed];
      destruct (read_flag fl2) as [b3 fl3];
      (eexists; eexists; split; [reflexivity|]);
      cbn [indexing_data_ addAll setEncodingGuess linePosition_ append_list
           setFakeFinalLF append array fakeFinalLF real_entries
           emptyLinePositionArray app];
      rewrite Hreal, removelast_last;
      (split; [exact Hfollow|]);
      (apply increasing_snoc; [exact Hinc|]);
      rewrite Forall_forall in Hle; intros x Hx; specialize (Hle x Hx); lia.
  - unfold bind, modifyData, getData, interruptRequested, ret.
    cbn [indexing_data_ interruptRequest_ progressed].
    match goal with
    | |- context [getEncodingGuess ?x] => destruct (getEncodingGuess x)
    end;
      cbn [indexing_data_ interruptRequest_ progressed];
      destruct (read_flag fl2) as [b3 fl3];
      (eexists; eexists; split; [reflexivity|]);
      cbn [indexing_data_ setEncodingGuess linePosition_];
      rewrite Hreal; (split; [exact Hfollow|exact Hinc]).
Qed.

End AnyEncodingIndex.
Lemma wide_well_formed : @well_formed_encodings wide.
Proof.
  split; [|intros []]; unfold well_formed; cbn; lia.
Qed.

Lemma line_positions_any_encoding_witness :
  @well_formed_encodings wide
  /\ zlen hi_utf16 < 2 ^ 31 - 8
  /\ exists r (w' : @World wide),
       @FullIndexOperation_start wide None (Openable hi_utf16) (undisturbed clear)
       = Done (r, w')
       /\ follow_line_feeds (@parameters_in_use wide None hi_utf16) 0 hi_utf16
            (real_entries (linePosition_ (indexing_data_ w')))
       /\ increasing (array (linePosition_ (indexing_data_ w'))).
Proof.
  split; [exact wide_well_formed|]. split; [vm_compute; reflexivity|].
  apply (@line_positions_any_encoding wide None hi_utf16 wide_well_formed).
  vm_compute. reflexivity.
Defined.

(** ** The longest line is never under-reported *)

Lemma column_after_plain l : forall col,
  ~ In LF l -> ~ In TAB l -> column_after col l = col + zlen l.
Proof.
  induction l as [|b r IH]; intros col HL HT.
  - change (zlen (@nil byte)) with 0. cbn [column_after]. lia.
  - rewrite column_after_cons, zlen_cons.
    rewrite (eqb_neq b LF), (eqb_neq b TAB).
    + rewrite IH; [lia| |]; intros H; [apply HL|apply HT]; right; exact H.
    + intros ->. apply HT. left. reflexivity.
    + intros ->. apply HL. left. reflexivity.
Qed.

Lemma column_after_tab l1 l2 col :
  ~ In LF l1 -> ~ In TAB l1 ->
  column_after col (l1 ++ TAB :: l2)
  = column_after (8 * ((col + zlen l1) / 8 + 1)) l2.
Proof.
  intros HL HT. rewrite column_after_app, (column_after_plain l1) by assumption.
  rewrite column_after_cons.
  change (Byte.eqb TAB LF) with false. change (Byte.eqb TAB TAB) with true.
  cbn iota. f_equal. unfold tabStop.
  pose proof (Z.div_mod (col + zlen l1) 8 ltac:(lia)). lia.
Qed.

Lemma widest_line_no_LF l : forall col m, ~ In LF l -> widest_line col m l = m.
Proof.
  induction l as [|b r IH]; intros col m HL; [reflexivity|].
  cbn [widest_line]. rewrite (eqb_neq b LF)
    by (intros ->; apply HL; left; reflexivity).
  destruct (Byte.eqb b TAB); apply IH; intros H; apply HL; right; exact H.
Qed.

Lemma widest_line_line line rest col m :
  ~ In LF line ->
  widest_line col m (line ++ LF :: rest)
  = widest_line 0 (Z.max m (column_after col line)) rest.
Proof.
  intros HL. rewrite widest_line_app, (widest_line_no_LF line) by exact HL.
  cbn [widest_line]. change (Byte.eqb LF LF) with true. reflexivity.
Qed.

Lemma column_after_line line rest col :
  column_after col (line ++ LF :: rest) = column_after 0 rest.
Proof.
  rewrite column_after_app, column_after_cons.
  change (Byte.eqb LF LF) with true. reflexivity.
Qed.

(** The first tab of [line ++ tail] within [zlen line + k] bytes. *)
Lemma first_tab_cases (line tail : list byte) k :
  0 <= k ->
  let R := firstn (Z.to_nat (zlen line + k)) (line ++ tail) in
  (~ In TAB R /\ ~ In TAB line)
  \/ (exists l1 l2, line = l1 ++ TAB :: l2 /\ ~ In TAB l1
                    /\ exists R2, R = l1 ++ TAB :: R2)
  \/ (~ In TAB line
      /\ exists t1 t2, tail = t1 ++ TAB :: t2 /\ ~ In TAB t1 /\ zlen t1 < k
                       /\ exists R2, R = (line ++ t1) ++ TAB :: R2).
Proof.
  intros Hk R.
  assert (HR : R = line ++ firstn (Z.to_nat k) tail).
  { unfold R, zlen. rewrite firstn_app.
    rewrite firstn_all2 by lia. f_equal. f_equal. lia. }
  destruct (find_from_cases TAB line 0) as [[_ Hn]|(l1 & l2 & Hl & H1 & _)].
  - destruct (find_from_cases TAB (firstn (Z.to_nat k) tail) 0)
      as [[_ Hn2]|(t1 & t2' & Ht & H1 & _)].
    + left. split; [|exact Hn]. rewrite HR. intros H. apply in_app_or in H.
      destruct H; contradiction.
    + right. right. split; [exact Hn|].
      exists t1, (t2' ++ skipn (Z.to_nat k) tail).
      assert (Hlen : zlen t1 < k).
      { assert (Hle : (length (firstn (Z.to_nat k) tail) <= Z.to_nat k)%nat)
          by apply firstn_le_length.
        rewrite Ht, length_app in Hle. cbn [length] in Hle. unfold zlen. lia. }
      split.
      { rewrite <- (firstn_skipn (Z.to_nat k) tail) at 1. rewrite Ht.
        rewrite <- app_assoc. reflexivity. }
      split; [exact H1|]. split; [exact Hlen|].
      exists t2'. rewrite HR, Ht, app_assoc. reflexivity.
  - right. left. exists l1, l2. split; [exact Hl|]. split; [exact H1|].
    exists (l2 ++ firstn (Z.to_nat k) tail).
    rewrite HR, Hl, <- app_assoc. reflexivity.
Qed.

Section Dominates.

Context {collaborators : Collaborators}.

Lemma tab_found_spaces block_beginning p (state : IndexingState) :
  let col := (block_beginning - pos state) + p + additional_spaces state in
  0 <= col < 2 ^ 31 ->
  additional_spaces (tab_found block_beginning p state)
  = additional_spaces state + (7 - col mod 8).
Proof.
  intros col Hcol. unfold tab_found. cbn [additional_spaces set_additional_spaces].
  fold col. rewrite to_int_id by lia.
  rewrite Z.rem_mod_nonneg by (unfold tabStop; lia).
  unfold tabStop. lia.
Qed.

(** The tab search over a line of the block and whatever it reads past the
    line: the column it arrives at is not below the display column. *)
Lemma expandTabs_loop_dominates fuel block_beginning :
  forall pre line tail k (state : IndexingState) c,
    beforeCrOffset (encodingParams state) = 0 ->
    ~ In LF line ->
    0 <= k ->
    let block := pre ++ line ++ tail in
    let ours := (block_beginning - pos state) + zlen pre + additional_spaces state in
    0 <= c <= ours ->
    ours + 8 * (zlen line + zlen tail) < 2 ^ 31 ->
    zlen line + zlen tail < Z.of_nat fuel ->
    exists v,
      expandTabs_loop fuel block_beginning block (zlen pre) (zlen line + k)
                      (memchr block (zlen pre) TAB (zlen line + k)) state
      = Done (set_additional_spaces v state)
      /\ column_after c line
         <= (block_beginning - pos state) + (zlen pre + zlen line) + v
      /\ additional_spaces state <= v
         <= additional_spaces state + 7 * (zlen line + zlen tail).
Proof.
  induction fuel as [|fuel IH];
    intros pre line tail k st c Hbco HL Hk block ours Hc Hbound Hfuel.
  - pose proof (zlen_nonneg line). pose proof (zlen_nonneg tail). lia.
  - pose proof (zlen_nonneg pre) as Hpre. pose proof (zlen_nonneg line) as Hline.
    pose proof (zlen_nonneg tail) as Htail.
    unfold block at 2. rewrite memchr_app.
    destruct (first_tab_cases line tail k Hk)
      as [[HnR Hn]|[(l1 & l2 & Hl & H1 & R2 & HR)|(Hn & t1 & t2 & Ht & H1 & Hlt & R2 & HR)]].
    + (* no tab in reach *)
      rewrite find_from_none by exact HnR.
      exists (additional_spaces st). cbn [expandTabs_loop].
      rewrite set_additional_spaces_same. split; [reflexivity|].
      rewrite column_after_plain by assumption. fold ours. lia.
    + (* a tab of the line *)
      rewrite HR, find_from_first by exact H1.
      cbn [expandTabs_loop]. unfold adjustToCharWidth. rewrite Hbco, Z.sub_0_r.
      assert (HLl : ~ In LF l1 /\ ~ In LF l2).
      { split; intros H; apply HL; rewrite Hl; apply in_or_app;
          [left; exact H|right; right; exact H]. }
      destruct HLl as [HL1 HL2].
      pose proof (zlen_nonneg l1) as Hl1. pose proof (zlen_nonneg l2) as Hl2.
      assert (Hzl : zlen line = zlen l1 + 1 + zlen l2)
        by (rewrite Hl, zlen_app, zlen_cons; lia).
      set (t := zlen pre + zlen l1).
      set (st1 := tab_found block_beginning t st).
      assert (Hadd1 : additional_spaces st1
                      = additional_spaces st + (7 - (ours + zlen l1) mod 8)).
      { unfold st1. rewrite tab_found_spaces; [|unfold t; fold ours; lia].
        f_equal. f_equal. f_equal. unfold t, ours. lia. }
      pose proof (Z.mod_pos_bound (ours + zlen l1) 8 ltac:(lia)) as Hm.
      pose proof (Z.div_mod (ours + zlen l1) 8 ltac:(lia)) as Hdm.
      replace (zlen line + k - (t - zlen pre)) with (zlen l2 + (k + 1))
        by (unfold t; lia).
      replace (zlen l2 + (k + 1) >? 0) with true by (symmetry; lia).
      assert (Hblock : block = (pre ++ l1 ++ [TAB]) ++ l2 ++ tail).
      { unfold block. rewrite Hl, <- !app_assoc. reflexivity. }
      assert (Hzp : zlen (pre ++ l1 ++ [TAB]) = t + 1).
      { rewrite !zlen_app, zlen_cons. change (zlen (@nil byte)) with 0.
        unfold t. lia. }
      rewrite Hblock, <- Hzp.
      destruct (IH (pre ++ l1 ++ [TAB]) l2 tail (k + 1) st1
                   (8 * ((c + zlen l1) / 8 + 1)))
        as (v & Hrun & Hcol & Hv).
      * exact Hbco.
      * exact HL2.
      * lia.
      * cbn zeta. rewrite Hzp. unfold st1. cbn [pos tab_found set_additional_spaces].
        fold st1. rewrite Hadd1.
        assert ((c + zlen l1) / 8 <= (ours + zlen l1) / 8)
          by (apply Z.div_le_mono; lia).
        assert (0 <= (c + zlen l1) / 8) by (apply Z.div_pos; lia).
        unfold t, ours in *. lia.
      * cbn zeta. rewrite Hzp. unfold st1. cbn [pos tab_found set_additional_spaces].
        fold st1. rewrite Hadd1. unfold t, ours in *. lia.
      * lia.
      * exists v. rewrite Hrun. unfold st1 at 1.
        unfold tab_found. rewrite set_additional_spaces_twice.
        split; [reflexivity|].
        rewrite Hzp in Hcol. unfold st1 in Hcol.
        cbn [pos tab_found set_additional_spaces] in Hcol.
        rewrite Hl, column_after_tab by assumption.
        rewrite zlen_app, zlen_cons.
        split; [unfold t in Hcol; lia|].
        rewrite Hadd1 in Hv. lia.
    + (* a tab past the line *)
      rewrite HR, find_from_first
        by (intros H; apply in_app_or in H; destruct H; contradiction).
      cbn [expandTabs_loop]. unfold adjustToCharWidth. rewrite Hbco, Z.sub_0_r.
      pose proof (zlen_nonneg t1) as Ht1. pose proof (zlen_nonneg t2) as Ht2.
      assert (Hzt : zlen tail = zlen t1 + 1 + zlen t2)
        by (rewrite Ht, zlen_app, zlen_cons; lia).
      rewrite zlen_app.
      set (t := zlen pre + (zlen line + zlen t1)).
      set (st1 := tab_found block_beginning t st).
      assert (Hadd1 : additional_spaces st1
                      = additional_spaces st
                        + (7 - (ours + zlen line + zlen t1) mod 8)).
      { unfold st1. rewrite tab_found_spaces; [|unfold t; fold ours; lia].
        f_equal. f_equal. f_equal. unfold t, ours. lia. }
      pose proof (Z.mod_pos_bound (ours + zlen line + zlen t1) 8 ltac:(lia)) as Hm.
      replace (zlen line + k - (t - zlen pre)) with (k - zlen t1)
        by (unfold t; lia).
      replace (k - zlen t1 >? 0) with true by (symmetry; lia).
      assert (Hblock : block = (pre ++ line ++ t1 ++ [TAB]) ++ [] ++ t2).
      { unfold block. rewrite Ht, <- !app_assoc. reflexivity. }
      assert (Hzp : zlen (pre ++ line ++ t1 ++ [TAB]) = t + 1).
      { rewrite !zlen_app, zlen_cons. change (zlen (@nil byte)) with 0.
        unfold t. lia. }
      rewrite Hblock, <- Hzp.
      destruct (IH (pre ++ line ++ t1 ++ [TAB]) [] t2 (k - zlen t1) st1 0)
        as (v & Hrun & _ & Hv).
      * exact Hbco.
      * intros [].
      * lia.
      * cbn zeta. rewrite Hzp. unfold st1. cbn [pos tab_found set_additional_spaces].
        fold st1. rewrite Hadd1. unfold t, ours in *. lia.
      * cbn zeta. rewrite Hzp. unfold st1. cbn [pos tab_found set_additional_spaces].
        fold st1. rewrite Hadd1. change (zlen (@nil byte)) with 0.
        unfold t, ours in *. lia.
      * change (zlen (@nil byte)) with 0. lia.
      * change (zlen (@nil byte) + (k - zlen t1)) with (k - zlen t1) in Hrun.
        exists v. rewrite Hrun. unfold st1 at 1.
        unfold tab_found. rewrite set_additional_spaces_twice.
        split; [reflexivity|].
        rewrite column_after_plain by assumption.
        rewrite Hadd1 in Hv. change (zlen (@nil byte)) with 0 in Hv.
        unfold ours in *. lia.
Qed.

End Dominates.
Section DominatesBlock.

Context {collaborators : Collaborators}.

(** The loop of [parseDataBlock] under single-byte parameters, whatever the
    tabs: each line it closes is measured at its display width or more. *)
Lemma parse_loop_dominates fuel block_beginning :
  forall pre seg (state : IndexingState) lines c,
    encodingParams state = single_byte ->
    Z.max (to_int (pos state - block_beginning)) 0 = zlen pre ->
    pos state <= block_beginning + zlen pre ->
    let ours := (block_beginning - pos state) + zlen pre
                + additional_spaces state in
    0 <= c <= ours ->
    ours + 8 * zlen seg < 2 ^ 31 ->
    zlen (pre ++ seg) < 2 ^ 31 ->
    0 <= max_length state ->
    zlen seg < Z.of_nat fuel ->
    exists state' lines',
      parse_loop fuel block_beginning (pre ++ seg) state lines
      = Done (state', lines')
      /\ widest_line c (max_length state) seg <= max_length state'
      /\ column_after c seg
         <= (block_beginning + zlen (pre ++ seg)) - pos state'
            + additional_spaces state'
         <= ours + 8 * zlen seg.
Proof.
  induction fuel as [|fuel IH];
    intros pre seg st lines c Hsb Hp Hle ours Hc Hbound Hlen Hmax Hfuel.
  - pose proof (zlen_nonneg seg). lia.
  - pose proof (zlen_nonneg pre) as Hpre.
    cbn [parse_loop]. rewrite Hp.
    replace (zlen (pre ++ seg) - zlen pre) with (zlen seg)
      by (rewrite zlen_app; lia).
    destruct (zlen seg >? 0) eqn:Hpos.
    2:{ assert (seg = []) as ->.
        { destruct seg; [reflexivity|]. rewrite zlen_cons in Hpos.
          pose proof (zlen_nonneg seg). lia. }
        cbn [Z.eqb]. exists st, lines. split; [reflexivity|].
        cbn [widest_line column_after]. rewrite app_nil_r.
        change (zlen (@nil byte)) with 0. unfold ours in *. lia. }
    rewrite memchr_app.
    replace (firstn (Z.to_nat (zlen seg)) seg) with seg
      by (unfold zlen; rewrite Nat2Z.id, firstn_all; reflexivity).
    assert (Hbco : beforeCrOffset (encodingParams st) = 0)
      by (rewrite Hsb; reflexivity).
    destruct (find_from_cases LF seg (zlen pre))
      as [[Hf Hn]|(line & rest & -> & Hn & Hf)]; rewrite Hf.
    + (* no line feed left in the block *)
      unfold expandTabs.
      destruct (expandTabs_loop_dominates (S (length (pre ++ seg)))
                  block_beginning pre seg [] 0 st c Hbco Hn ltac:(lia))
        as (v & Hv & Hcol & Hvb).
      * exact Hc.
      * change (zlen (@nil byte)) with 0. fold ours. lia.
      * change (zlen (@nil byte)) with 0. rewrite Nat2Z.inj_succ.
        fold (zlen (pre ++ seg)). rewrite zlen_app. lia.
      * rewrite app_nil_r, Z.add_0_r in Hv. rewrite Hv. cbn [Z.eqb].
        exists (set_additional_spaces v st), lines. split; [reflexivity|].
        cbn [max_length pos additional_spaces set_additional_spaces].
        rewrite widest_line_no_LF by exact Hn. split; [lia|].
        rewrite zlen_app. change (zlen (@nil byte)) with 0 in Hvb.
        unfold ours in *. lia.
    + (* a line feed at offset [zlen pre + zlen line] *)
      replace (zlen pre + zlen line - zlen pre) with (zlen line) by lia.
      pose proof (zlen_nonneg line) as Hline.
      pose proof (zlen_nonneg rest) as Hrest.
      rewrite !zlen_app, zlen_cons in Hlen.
      rewrite zlen_app, zlen_cons in Hfuel, Hbound.
      unfold expandTabs.
      destruct (expandTabs_loop_dominates
                  (S (length (pre ++ line ++ LF :: rest)))
                  block_beginning pre line (LF :: rest) 0 st c Hbco Hn ltac:(lia))
        as (v & Hv & Hcol & Hvb).
      * exact Hc.
      * rewrite zlen_cons. fold ours. lia.
      * rewrite zlen_cons, Nat2Z.inj_succ.
        fold (zlen (pre ++ line ++ LF :: rest)).
        rewrite !zlen_app, zlen_cons. lia.
      * rewrite Z.add_0_r in Hv. rewrite Hv. rewrite zlen_cons in Hvb.
        unfold adjustToCharWidth. cbn [encodingParams set_additional_spaces].
        rewrite Hsb. cbn [beforeCrOffset single_byte]. rewrite Z.sub_0_r.
        replace (zlen pre + zlen line =? -1) with false by (symmetry; lia).
        set (st1 := set_additional_spaces v st).
        set (st2 := line_found block_beginning (zlen pre + zlen line) st1).
        set (L := (block_beginning - pos st) + (zlen pre + zlen line) + v) in *.
        assert (HL : column_after c line <= L <= ours + 8 * zlen line
                                                 + 7 * (1 + zlen rest)).
        { split; [exact Hcol|]. unfold L, ours in *. lia. }
        pose proof (column_after_bounds line c ltac:(lia)) as Hcb.
        assert (Hpos2 : pos st2 = block_beginning + zlen pre + zlen line + 1).
        { unfold st2, line_found, st1. cbn. rewrite Hsb. cbn. lia. }
        assert (Hmax2 : max_length st2 = Z.max (max_length st) L).
        { unfold st2, line_found, st1.
          cbn [max_length pos additional_spaces set_additional_spaces].
          replace (zlen pre + zlen line + block_beginning - pos st + v) with L
            by (unfold L; lia).
          rewrite to_int_id by lia.
          destruct (L >? max_length st) eqn:E; lia. }
        assert (Hadd2 : additional_spaces st2 = 0) by reflexivity.
        assert (Hzp : zlen (pre ++ line ++ [LF]) = zlen pre + zlen line + 1).
        { rewrite !zlen_app, zlen_cons. change (zlen (@nil byte)) with 0. lia. }
        destruct (IH (pre ++ line ++ [LF]) rest st2 (append (pos st2) lines) 0)
          as (st' & lines' & Hrun & Hwide & Hcol').
        -- unfold st2, st1. cbn. exact Hsb.
        -- rewrite Hpos2, Hzp. rewrite to_int_id by lia. lia.
        -- rewrite Hpos2, Hzp. lia.
        -- cbn zeta. rewrite Hpos2, Hzp, Hadd2. lia.
        -- cbn zeta. rewrite Hpos2, Hzp, Hadd2. lia.
        -- rewrite <- !app_assoc. cbn [app]. rewrite !zlen_app, zlen_cons. lia.
        -- rewrite Hmax2. lia.
        -- lia.
        -- rewrite <- !app_assoc in Hrun, Hcol'.
           change ([LF] ++ rest) with (LF :: rest) in Hrun, Hcol'.
           exists st', lines'. split; [exact Hrun|].
           rewrite widest_line_line, column_after_line by exact Hn.
           cbn zeta in Hcol'. rewrite Hpos2, Hzp, Hadd2 in Hcol'.
           split.
           ++ rewrite Hmax2 in Hwide.
              rewrite (widest_line_from rest 0 (Z.max (max_length st)
                                                   (column_after c line)))
                by lia.
              rewrite (widest_line_from rest 0 (Z.max (max_length st) L))
                in Hwide by lia.
              lia.
           ++ rewrite !zlen_app, zlen_cons in Hcol' |- *. unfold ours in *. lia.
Qed.

(** One call of [parseDataBlock], whatever the tabs. *)
Lemma parseDataBlock_dominates block_beginning block (state : IndexingState) c :
  encodingParams state = single_byte ->
  - 2 ^ 31 <= pos state - block_beginning <= 0 ->
  let ours := (block_beginning - pos state) + additional_spaces state in
  0 <= c <= ours ->
  ours + 8 * zlen block < 2 ^ 31 ->
  zlen block < 2 ^ 31 ->
  exists state' lines',
    parseDataBlock block_beginning block state = Done (state', lines')
    /\ widest_line c 0 block <= max_length state'
    /\ column_after c block
       <= (block_beginning + zlen block) - pos state' + additional_spaces state'
       <= ours + 8 * zlen block.
Proof.
  intros Hsb Hrange ours Hc Hbound Hlen. unfold parseDataBlock.
  destruct (parse_loop_dominates (S (length block)) block_beginning [] block
              (set_max_length 0 state) emptyLinePositionArray c)
    as (st' & lines' & Hrun & Hwide & Hcol).
  - exact Hsb.
  - cbn [pos set_max_length]. rewrite to_int_id by lia.
    change (zlen (@nil byte)) with 0. lia.
  - cbn [pos set_max_length]. change (zlen (@nil byte)) with 0. lia.
  - cbn [pos additional_spaces set_max_length].
    change (zlen (@nil byte)) with 0. unfold ours in Hc. lia.
  - cbn [pos additional_spaces set_max_length].
    change (zlen (@nil byte)) with 0. unfold ours in Hbound. lia.
  - exact Hlen.
  - cbn [max_length set_max_length]. lia.
  - rewrite Nat2Z.inj_succ. fold (zlen block). lia.
  - cbn [app] in Hrun, Hcol. exists st', lines'. split; [exact Hrun|].
    cbn [max_length set_max_length] in Hwide. split; [exact Hwide|].
    cbn [pos additional_spaces set_max_length] in Hcol.
    change (zlen (@nil byte)) with 0 in Hcol. unfold ours. lia.
Qed.

End DominatesBlock.
Lemma firstn_plus {A} (a b : nat) : forall l : list A,
  firstn (a + b) l = firstn a l ++ firstn b (skipn a l).
Proof.
  induction a as [|a IH]; intros l; [reflexivity|].
  destruct l as [|x l]; cbn [Nat.add firstn skipn app].
  - rewrite firstn_nil. reflexivity.
  - rewrite IH. reflexivity.
Qed.

Lemma firstn_file_read (F : list byte) fp n :
  0 <= fp -> 0 <= n ->
  firstn (Z.to_nat (fp + zlen (file_read F fp n))) F
  = firstn (Z.to_nat fp) F ++ file_read F fp n.
Proof.
  intros Hfp Hn.
  replace (Z.to_nat (fp + zlen (file_read F fp n)))
    with (Z.to_nat fp + length (file_read F fp n))%nat by (unfold zlen; lia).
  rewrite firstn_plus. f_equal. unfold file_read.
  rewrite length_firstn, <- firstn_firstn, firstn_all. reflexivity.
Qed.

Lemma list_max_ge l : forall x, In x l -> x <= list_max l.
Proof.
  induction l as [|a r IH]; intros x Hx; [contradiction|].
  cbn [list_max fold_right]. fold (list_max r).
  destruct Hx as [<-|Hx]; [lia|]. specialize (IH x Hx). lia.
Qed.

Section FullIndexInvariant.

Context {collaborators : Collaborators}.

(** The state that [blockParser] returns is the one [parseDataBlock]
    leaves. *)
Lemma blockParser_state block_beginning block (state state' : IndexingState)
    w w' :
  block <> [] ->
  blockParser block_beginning block state w = Done (state', w') ->
  exists lines,
    parseDataBlock block_beginning block
      (guessEncoding block state (indexing_data_ w))
    = Done (state', lines).
Proof.
  intros Hne H. unfold blockParser, bind, getData in H.
  destruct block as [|b r]; [contradiction|].
  unfold lift in H.
  destruct (parseDataBlock block_beginning (b :: r)
              (guessEncoding (b :: r) state (indexing_data_ w)))
    as [[st lines]|f]; [|discriminate].
  unfold modifyData in H.
  destruct (progress_of st) as [p|f]; [|discriminate].
  unfold emitIndexingProgressed, ret in H. injection H as <- _.
  exists lines. reflexivity.
Qed.

Variable forced : option Codec.
Variable F : list byte.
Variable Inv : Z -> IndexingState -> IndexingData -> list Z -> Prop.

Hypothesis parser_keeps_Inv : forall fp st d fl evs,
  0 <= fp < zlen F ->
  Inv fp st d evs ->
  let block := file_read F fp sizeChunk in
  exists st' d' evs',
    blockParser fp block st
      {| indexing_data_ := d; interruptRequest_ := fl; progressed := evs |}
    = Done (st', {| indexing_data_ := d'; interruptRequest_ := fl;
                    progressed := evs' |})
    /\ Inv (fp + zlen block) st' d' evs'.

Hypothesis Inv_file_size : forall fp st d evs,
  Inv fp st d evs -> file_size st = zlen F.

(** A full index of a readable file, by an invariant of its graph: the
    index it ends with is the index [d'] left by the graph, closed by the
    synthetic entry when the request is found lowered and the last line is
    open, and given the guess of the locale if it has none. *)
Lemma full_index_by_invariant w :
  Inv 0 (full_index_start forced F) (forceEncoding forced clear)
      (progressed w ++ [0]) ->
  exists st' d' evs' lowered r flag,
    FullIndexOperation_start forced (Openable F) w
    = Done (r, {| indexing_data_ :=
                    with_default_guess
                      (if lowered && (zlen F >? pos st')
                       then addAll [] 0 (fake_final_entry (zlen F))
                                   (encodingGuess st') d'
                       else d');
                  interruptRequest_ := flag;
                  progressed := evs' |})
    /\ Inv (0 + zlen (consumed (interruptRequest_ w) F 0)) st' d' evs'
    /\ (interruptRequest_ w = None -> lowered = true /\ r = Completion true).
Proof.
  intros Hinit.
  unfold FullIndexOperation_start.
  unfold bind at 1. unfold emitIndexingProgressed at 1.
  unfold bind at 1. unfold modifyData at 1.
  unfold bind at 1. unfold modifyData at 1.
  cbn [indexing_data_ interruptRequest_ progressed].
  set (w0 := {| indexing_data_ := forceEncoding forced clear;
                interruptRequest_ := interruptRequest_ w;
                progressed := progressed w ++ [0] |}).
  unfold bind at 1. unfold doIndex.
  unfold bind at 1. unfold getData at 1.
  cbn [indexing_data_ w0 getForcedEncoding getEncodingGuess forceEncoding clear
       encodingForced_ encodingGuess_ pos].
  assert (Hst : {| encodingParams := defaultEncodingParameters; pos := 0;
                   max_length := 0; additional_spaces := 0; end_ := 0;
                   file_size := zlen F; encodingGuess := None;
                   fileTextCodec := match forced with
                                    | Some c => Some c
                                    | None => None
                                    end |}
                = full_index_start forced F).
  { unfold full_index_start. destruct forced; reflexivity. }
  rewrite Hst.
  destruct (indexingGraph_invariant F Inv parser_keeps_Inv
              (S (length F)) 0 (full_index_start forced F) w0)
    as (st' & d' & evs' & Hrun & HI).
  { lia. }
  { rewrite Nat2Z.inj_succ. fold (zlen F). pose proof (zlen_nonneg F). lia. }
  { exact Hinit. }
  cbn [interruptRequest_ w0] in Hrun, HI.
  unfold bind at 1. rewrite Hrun.
  unfold bind at 1. unfold interruptRequested.
  cbn [indexing_data_ interruptRequest_ progressed].
  rewrite (Inv_file_size _ _ _ _ HI).
  destruct (read_flag (flag_after_reader (interruptRequest_ w) F 0))
    as [b fl2] eqn:Hread.
  change (setFakeFinalLF (append (zlen F + 1) emptyLinePositionArray))
    with (fake_final_entry (zlen F)).
  exists st', d', evs', (negb b).
  assert (Hnone : interruptRequest_ w = None -> b = false /\ fl2 = None).
  { intros E. rewrite E in Hread. cbn in Hread. injection Hread as <- <-.
    split; reflexivity. }
  unfold with_default_guess.
  destruct (negb b && (zlen F >? pos st'));
    unfold bind, modifyData, getData, interruptRequested, ret;
    cbn [indexing_data_ interruptRequest_ progressed];
    match goal with
    | |- context [getEncodingGuess ?x] => destruct (getEncodingGuess x)
    end;
    cbn [indexing_data_ interruptRequest_ progressed];
    destruct (read_flag fl2) as [b3 fl3] eqn:Hread3;
    (eexists; eexists; split; [reflexivity|]);
    (split; [exact HI|]);
    intros E; destruct (Hnone E) as [-> ->];
    cbn in Hread3; injection Hread3 as <- <-; split; reflexivity.
Qed.

End FullIndexInvariant.
Section LongestLine.

Context {collaborators : Collaborators}.

Variable F : list byte.

Hypothesis Hlen : 8 * zlen F < 2 ^ 31.

Lemma measured_so_far_step fp st d fl evs :
  0 <= fp < zlen F ->
  measured_so_far F fp st d evs ->
  let block := file_read F fp sizeChunk in
  exists st' d' evs',
    blockParser fp block st
      {| indexing_data_ := d; interruptRequest_ := fl; progressed := evs |}
    = Done (st', {| indexing_data_ := d'; interruptRequest_ := fl;
                    progressed := evs' |})
    /\ measured_so_far F (fp + zlen block) st' d' evs'.
Proof.
  intros Hfp (Hscan & Hfs & Hpos & Hfp' & Hmax & Hwide & Hcol) block.
  pose proof sizeChunk_pos as HN. pose proof (zlen_nonneg F) as HF.
  assert (Hzb : zlen block = Z.min sizeChunk (zlen F - fp)).
  { unfold block. rewrite file_read_length by lia. lia. }
  assert (Hne : block <> []).
  { intros E. rewrite E in Hzb. change (zlen (@nil byte)) with 0 in Hzb. lia. }
  set (w := {| indexing_data_ := d; interruptRequest_ := fl; progressed := evs |}).
  destruct (blockParser_positions fp block st w Hscan Hne ltac:(lia) ltac:(lia))
    as (st' & p & Hbp & Hpos' & Hscan' & Hfs' & _ & _).
  destruct (blockParser_state fp block st st' w _ Hne Hbp) as [lines Hparse].
  cbn [indexing_data_ interruptRequest_ progressed w] in Hbp, Hparse.
  set (st0 := guessEncoding block st d) in *.
  destruct (guessEncoding_scans block st d Hscan) as [[Hp0 _] _].
  destruct (guessEncoding_fields block st d) as (Hpos0 & Hadd0 & _ & _).
  fold st0 in Hp0, Hpos0, Hadd0.
  set (seg := firstn (Z.to_nat fp) F) in *.
  pose proof (column_after_bounds seg 0 ltac:(lia)) as Hcb.
  destruct (parseDataBlock_dominates fp block st0 (column_after 0 seg) Hp0)
    as (stP & linesP & HparseP & HwideP & HcolP).
  { rewrite Hpos0. lia. }
  { rewrite Hpos0, Hadd0. lia. }
  { rewrite Hpos0, Hadd0. lia. }
  { lia. }
  rewrite Hparse in HparseP. injection HparseP as <- <-.
  rewrite Hpos0, Hadd0 in HcolP.
  eexists st', _, _. split; [exact Hbp|].
  assert (Hseg : firstn (Z.to_nat (fp + zlen block)) F = seg ++ block)
    by (apply firstn_file_read; lia).
  assert (Hrange : pos st <= pos st' <= fp + zlen block).
  { rewrite Hpos'. pose proof (zlen_nonneg block).
    destruct (last_in_or (line_starts fp block) (pos st)) as [E|E].
    - rewrite E. lia.
    - apply line_starts_bounds in E. lia. }
  pose proof (widest_line_ge seg 0 0) as Hw0.
  pose proof (widest_line_ge block (column_after 0 seg) 0) as Hw1.
  unfold measured_so_far. rewrite Hseg.
  cbn [addAll maxLength_].
  split; [exact Hscan'|]. split; [congruence|]. split; [lia|]. split; [lia|].
  split; [lia|]. split.
  - rewrite widest_line_app.
    rewrite (widest_line_from block (column_after 0 seg) (widest_line 0 0 seg))
      by lia.
    lia.
  - rewrite column_after_app. lia.
Qed.

Lemma measured_so_far_file_size fp st d evs :
  measured_so_far F fp st d evs -> file_size st = zlen F.
Proof. intros (_ & H & _). exact H. Qed.

Hypothesis Hsb : single_byte_encodings.

(** X21. The longest line of the index is never below the display width of
    a line, however many tabs the lines hold: after an uninterrupted full
    index of a readable file [F] (single-byte encodings, [8 * len F] below
    2^31), the maximal length is at least the display width, tabs expanded
    to the next multiple of 8, of every line of [F] that a line feed closes.
    The tab search that runs past the line can only add to the length. *)
Theorem max_length_covers_every_line forced w :
  interruptRequest_ w = None ->
  exists w',
    FullIndexOperation_start forced (Openable F) w = Done (Completion true, w')
    /\ forall line,
         In line (fst (lines_of F)) ->
         display_width line <= getMaxLength (indexing_data_ w').
Proof.
  intros Hfl.
  destruct (full_index_by_invariant forced F (measured_so_far F)
              measured_so_far_step measured_so_far_file_size w)
    as (st' & d' & evs' & lowered & r & flag & Hrun & HI & Hnone).
  - unfold measured_so_far.
    cbn [full_index_start file_size pos additional_spaces forceEncoding clear
         maxLength_ Z.to_nat firstn widest_line column_after].
    pose proof (zlen_nonneg F).
    split; [|repeat split; lia].
    split; [apply Hsb|]. right. apply Hsb.
  - destruct (Hnone Hfl) as [-> ->]. rewrite Hfl in HI. cbn [consumed] in HI.
    change (skipn (Z.to_nat 0) F) with F in HI. rewrite Z.add_0_l in HI.
    destruct HI as (_ & _ & _ & _ & Hmax & Hwide & _).
    rewrite firstn_zlen in Hwide.
    eexists. split; [exact Hrun|].
    intros line Hline. cbn [indexing_data_]. unfold getMaxLength.
    destruct (with_default_guess_fields
                (if true && (zlen F >? pos st')
                 then addAll [] 0 (fake_final_entry (zlen F)) (encodingGuess st') d'
                 else d')) as (_ & _ & _ & ->).
    assert (Hge : maxLength_ d'
                  <= maxLength_ (if true && (zlen F >? pos st')
                                 then addAll [] 0 (fake_final_entry (zlen F))
                                             (encodingGuess st') d'
                                 else d')).
    { destruct (true && (zlen F >? pos st')); cbn [addAll maxLength_]; lia. }
    rewrite widest_line_of_file in Hwide.
    assert (display_width line <= list_max (map display_width (fst (lines_of F)))).
    { apply list_max_ge. apply in_map. exact Hline. }
    lia.
Qed.

End LongestLine.

Lemma max_length_covers_every_line_witness :
  8 * zlen two_tabs_then_one < 2 ^ 31
  /\ @single_byte_encodings sample
  /\ interruptRequest_ idle = None
  /\ exists w',
       FullIndexOperation_start None (Openable two_tabs_then_one) idle
       = Done (Completion true, w')
       /\ forall line,
            In line (fst (lines_of two_tabs_then_one)) ->
            display_width line <= getMaxLength (indexing_data_ w').
Proof.
  split; [vm_compute; reflexivity|]. split; [exact sample_single_byte|].
  split; [reflexivity|].
  apply (@max_length_covers_every_line sample two_tabs_then_one);
    [vm_compute; reflexivity|exact sample_single_byte|reflexivity].
Defined.

(** ** The width of the line-number gutter *)

Lemma leading_zeroes_log2 n : forall value,
  0 < value < 2 ^ Z.of_nat n ->
  leading_zeroes n value = Z.of_nat n - 1 - Z.log2 value.
Proof.
  induction n as [|k IH]; intros value Hv.
  - change (2 ^ Z.of_nat 0) with 1 in Hv. lia.
  - cbn [leading_zeroes]. rewrite Nat2Z.inj_succ in *.
    rewrite Z.pow_succ_r in Hv by lia.
    destruct (Z_lt_ge_dec value (2 ^ Z.of_nat k)) as [Hlt|Hge].
    + rewrite Z.bits_above_log2; [|lia|apply Z.log2_lt_pow2; lia].
      rewrite IH by lia. lia.
    + assert (Hlog : Z.log2 value = Z.of_nat k).
      { apply Z.log2_unique; [lia|]. rewrite Z.pow_succ_r by lia. lia. }
      rewrite <- Hlog at 1. rewrite Z.bit_log2 by lia. lia.
Qed.

Lemma intLog2_log2 x : 0 <= x < 2 ^ 64 -> intLog2 x = Z.log2 x.
Proof.
  intros Hx. unfold intLog2, countLeadingZeroes.
  assert (Hlog : Z.log2 (Z.lor x 1) = Z.log2 x).
  { rewrite Z.log2_lor by lia. change (Z.log2 1) with 0.
    pose proof (Z.log2_nonneg x). lia. }
  assert (Hpos : 0 < Z.lor x 1).
  { assert (0 <= Z.lor x 1) by (apply Z.lor_nonneg; lia).
    assert (Z.lor x 1 <> 0) by (rewrite Z.lor_eq_0_iff; lia).
    lia. }
  rewrite leading_zeroes_log2.
  - rewrite Hlog. lia.
  - split; [exact Hpos|]. apply Z.log2_lt_pow2; [exact Hpos|].
    rewrite Hlog. destruct (Z.eq_dec x 0) as [->|Hne]; [cbn; lia|].
    apply Z.log2_lt_pow2; lia.
Qed.

Lemma log2_bracket_64 x :
  0 <= x < 2 ^ 64 ->
  0 <= Z.log2 x <= 63
  /\ (1 <= x -> 2 ^ Z.log2 x <= x < 2 ^ (Z.log2 x + 1)).
Proof.
  intros Hx. split.
  - split; [apply Z.log2_nonneg|].
    destruct (Z.eq_dec x 0) as [->|Hne]; [cbn; lia|].
    assert (Z.log2 x < 64) by (apply Z.log2_lt_pow2; lia). lia.
  - intros H1. pose proof (Z.log2_spec x ltac:(lia)) as H.
    rewrite <- Z.add_1_r in H. exact H.
Qed.

(** X22. [intLog2] is the position of the highest set bit: for a 64-bit value
    [x] that is not zero, [2 ^ intLog2 x <= x < 2 ^ (intLog2 x + 1)]; and
    [intLog2 0 = 0]. *)
Theorem intLog2_bracket x :
  0 <= x < 2 ^ 64 ->
  0 <= intLog2 x <= 63
  /\ (x = 0 -> intLog2 x = 0)
  /\ (1 <= x -> 2 ^ intLog2 x <= x < 2 ^ (intLog2 x + 1)).
Proof.
  intros Hx. rewrite (intLog2_log2 x Hx).
  destruct (log2_bracket_64 x Hx) as [Hk Hb].
  split; [exact Hk|]. split; [|exact Hb].
  intros ->. reflexivity.
Qed.

Lemma intLog2_bracket_witness :
  0 <= 1000 < 2 ^ 64
  /\ 0 <= intLog2 1000 <= 63
  /\ (1000 = 0 -> intLog2 1000 = 0)
  /\ (1 <= 1000 -> 2 ^ intLog2 1000 <= 1000 < 2 ^ (intLog2 1000 + 1)).
Proof.
  split; [lia|]. apply (intLog2_bracket 1000). lia.
Defined.

Lemma digits_bracket_all k : 0 <= k <= 63 -> digits_bracket k = true.
Proof.
  intros Hk.
  assert (H : forallb digits_bracket (map Z.of_nat (seq 0 64)) = true)
    by (vm_compute; reflexivity).
  rewrite forallb_forall in H. apply H.
  apply in_map_iff. exists (Z.to_nat k). split; [lia|].
  apply in_seq. lia.
Qed.

(** X23. [countDigits] returns the number of decimal digits of a 64-bit
    value: between 1 and 20, with [x < 10 ^ countDigits x], and
    [10 ^ (countDigits x - 1) <= x] unless [x] is zero. The last entry of
    the table is never read. *)
Theorem countDigits_decimal x :
  0 <= x < 2 ^ 64 ->
  1 <= countDigits x <= 20
  /\ x < 10 ^ countDigits x
  /\ (1 <= x -> 10 ^ (countDigits x - 1) <= x).
Proof.
  intros Hx.
  destruct (log2_bracket_64 x Hx) as [Hk Hb].
  rewrite <- (intLog2_log2 x Hx) in Hk, Hb.
  pose proof (digits_bracket_all (intLog2 x) Hk) as Hd.
  unfold digits_bracket in Hd. unfold countDigits.
  set (k := intLog2 x) in *. set (a := Z.shiftr (77 * k) 8) in *.
  repeat rewrite andb_true_iff in Hd.
  destruct Hd as ((((Ha1 & Ha2) & Ht') & Hlo') & Hhi').
  assert (Ha : 0 <= a <= 18) by lia.
  assert (Ht : nth (Z.to_nat a) table 0 = 10 ^ (a + 1) - 1) by lia.
  assert (Hlo : 10 ^ a <= 2 ^ k) by lia.
  assert (Hhi : 2 ^ (k + 1) <= 10 ^ (a + 2)) by lia.
  rewrite Ht.
  assert (Hone : 0 < 10 ^ (a + 1)) by (apply Z.pow_pos_nonneg; lia).
  destruct (x >? 10 ^ (a + 1) - 1) eqn:E.
  - assert (1 <= x) by lia. specialize (Hb ltac:(lia)).
    replace (a + 1 + 1 - 1) with (a + 1) by lia.
    replace (a + 1 + 1) with (a + 2) by lia.
    repeat split; lia.
  - replace (a + 1 - 1) with a by lia.
    split; [lia|]. split; [lia|].
    intros H1. specialize (Hb H1). lia.
Qed.

Lemma countDigits_decimal_witness :
  0 <= 18446744073709551615 < 2 ^ 64
  /\ 1 <= countDigits 18446744073709551615 <= 20
  /\ 18446744073709551615 < 10 ^ countDigits 18446744073709551615
  /\ (1 <= 18446744073709551615 ->
      10 ^ (countDigits 18446744073709551615 - 1) <= 18446744073709551615).
Proof.
  split; [lia|]. apply (countDigits_decimal 18446744073709551615). lia.
Defined.

(** ** Line positions for the file's own encoding *)

Section LinesOfTheFile.

Context {collaborators : Collaborators}.

Lemma parameters_of_full_index forced F :
  parameters_scanned_with (forceEncoding forced clear) (file_read F 0 sizeChunk)
  = parameters_in_use forced F.
Proof. destruct forced; reflexivity. Qed.

(** A full index of a readable file in which no line is longer than 2 GiB
    and whose first block is scanned with single-byte parameters, at
    whatever moment the interrupt request is raised. *)
Lemma full_index_lines forced F w :
  F = [] \/ parameters_in_use forced F = single_byte ->
  short_lines 0 F ->
  let fl := interruptRequest_ w in
  let B := consumed fl F 0 in
  let g := detectEncoding (file_read F 0 sizeChunk) in
  let guess := match B with [] => None | _ => Some g end in
  let fl1 := flag_after_reader fl F 0 in
  let last_read := read_flag (snd (read_flag fl1)) in
  exists d1 events,
    FullIndexOperation_start forced (Openable F) w
    = Done (Completion (if fst last_read then false else true),
            {| indexing_data_ :=
                 index_closed (negb (fst (read_flag fl1))) (zlen F) 0 B guess d1;
               interruptRequest_ := snd last_read;
               progressed := progressed w ++ 0 :: events |})
    /\ index_grown (forceEncoding forced clear) d1 0 B g.
Proof.
  intros Hparams Hshort fl B g guess fl1 last_read.
  unfold FullIndexOperation_start.
  unfold bind at 1. unfold emitIndexingProgressed at 1.
  unfold bind at 1. unfold modifyData at 1.
  unfold bind at 1. unfold modifyData at 1.
  cbn [indexing_data_ interruptRequest_ progressed].
  set (w0 := {| indexing_data_ := forceEncoding forced clear;
                interruptRequest_ := interruptRequest_ w;
                progressed := progressed w ++ [0] |}).
  destruct (doIndex_lines 0 F w0 ltac:(lia)) as (d1 & events & Hrun & Hgrown & _).
  { cbn [indexing_data_ w0]. rewrite parameters_of_full_index.
    destruct Hparams as [H|H]; [left; rewrite H; reflexivity|right; exact H]. }
  { exact Hshort. }
  cbn [indexing_data_ interruptRequest_ progressed w0 getEncodingGuess
       forceEncoding clear encodingGuess_] in Hrun, Hgrown.
  fold fl B g guess fl1 in Hrun, Hgrown.
  exists d1, events. split; [|exact Hgrown].
  unfold bind at 1. rewrite Hrun.
  unfold bind, interruptRequested, ret.
  cbn [indexing_data_ interruptRequest_ progressed].
  fold last_read. destruct last_read as [b fl2]. cbn [fst snd].
  rewrite <- app_assoc. reflexivity.
Qed.


(** An uninterrupted full index under these conditions leaves the index of
    a single-byte file. *)
Lemma full_index_of_lines forced F w :
  F = [] \/ parameters_in_use forced F = single_byte ->
  short_lines 0 F ->
  interruptRequest_ w = None ->
  exists m events,
    FullIndexOperation_start forced (Openable F) w
    = Done (Completion true,
            {| indexing_data_ := index_of forced F m;
               interruptRequest_ := None;
               progressed := progressed w ++ events |})
    /\ 0 <= m.
Proof.
  intros Hparams Hshort Hfl.
  destruct (full_index_lines forced F w Hparams Hshort)
    as (d1 & events & Hrun & Hgrown).
  rewrite Hfl in Hrun, Hgrown.
  cbn [consumed flag_after_reader read_flag fst snd negb] in Hrun, Hgrown.
  change (skipn (Z.to_nat 0) F) with F in *.
  destruct F as [|b r].
  - exists 0, (0 :: events). split; [|lia]. rewrite Hrun.
    cbn [index_grown] in Hgrown. subst d1. reflexivity.
  - exists (maxLength_ d1), (0 :: events).
    rewrite (index_closed_at_end _ d1 0 (b :: r) (b :: r) _
               ltac:(discriminate) ltac:(lia) Hgrown ltac:(cbn; lia)) in Hrun.
    split; [exact Hrun|].
    cbn [index_grown] in Hgrown. destruct Hgrown as (_ & _ & _ & _ & _ & Hm).
    cbn [forceEncoding clear maxLength_] in Hm. exact Hm.
Qed.

(** C2, amended. For every readable file F that is scanned with the
    parameters of a single-byte encoding (line feed one byte wide) and in
    which no line is longer than 2 GiB, after a full index that runs without
    interruption: if F ends in 0x0A then [nb_lines()] is the number of 0x0A
    bytes in F and the fake-final-LF flag is unset; if F is not empty and
    does not end in 0x0A then [nb_lines()] is that number plus one, the last
    stored line position is [file_size + 1] and the flag is set; if F is
    empty then [nb_lines()] is 0 and the flag is unset. *)
Theorem line_count_after_full_index forced F w :
  F = [] \/ parameters_in_use forced F = single_byte ->
  short_lines 0 F ->
  interruptRequest_ w = None ->
  exists w',
    FullIndexOperation_start forced (Openable F) w = Done (Completion true, w')
    /\ (ends_in_LF F = true ->
        getNbLines (indexing_data_ w') = count_LF F
        /\ fakeFinalLF (linePosition_ (indexing_data_ w')) = false)
    /\ (F <> [] -> ends_in_LF F = false ->
        getNbLines (indexing_data_ w') = count_LF F + 1
        /\ getPosForLine (Z.to_nat (count_LF F)) (indexing_data_ w')
           = Some (zlen F + 1)
        /\ fakeFinalLF (linePosition_ (indexing_data_ w')) = true)
    /\ (F = [] ->
        getNbLines (indexing_data_ w') = 0
        /\ fakeFinalLF (linePosition_ (indexing_data_ w')) = false).
Proof.
  intros Hparams Hshort Hfl.
  destruct (full_index_of_lines forced F w Hparams Hshort Hfl)
    as (m & events & Hrun & _).
  eexists. split; [exact Hrun|]. cbn [indexing_data_].
  destruct F as [|b r].
  - split; [discriminate|]. split; [intros H; contradiction|].
    intros _. split; reflexivity.
  - unfold getNbLines, getPosForLine. cbn [index_of linePosition_].
    split; [|split; [|discriminate]].
    + intros E. rewrite E. cbn [array fakeFinalLF].
      split; [apply count_LF_line_starts|reflexivity].
    + intros _ E. rewrite E. cbn [array fakeFinalLF].
      rewrite zlen_app, count_LF_line_starts.
      split; [reflexivity|]. split; [|reflexivity].
      replace (Z.to_nat (count_LF (b :: r)))
        with (length (line_starts 0 (b :: r)))
        by (rewrite <- (count_LF_line_starts (b :: r) 0); unfold zlen; lia).
      rewrite nth_error_app2, Nat.sub_diag by lia. reflexivity.
Qed.

End LinesOfTheFile.

(** ** Interruption *)

Section InterruptedRuns.

Context {collaborators : Collaborators}.




End InterruptedRuns.

(** ** The check of a file indexed beyond 2 GiB *)

Section LargeIndex.

Context {collaborators : Collaborators}.

(** C1. [CheckFileChangesOperation::start] sizes its read buffer with
    [static_cast<int>( indexedHash.size )]. For an indexed size between 2^31
    and 2^32 the cast is negative, the buffer is empty and no byte of the
    file is hashed: where the MD5 of the first [hash.size] bytes on disk is
    the indexed hash, and the claim says DataAdded or Unchanged, the result
    is Truncated, unless that MD5 is the MD5 of no bytes. *)
Theorem check_file_changes_beyond_int content w :
  let indexedHash := getHash (indexing_data_ w) in
  2 ^ 31 <= size indexedHash < 2 ^ 32 ->
  size indexedHash <= zlen content ->
  md5 (firstn (Z.to_nat (size indexedHash)) content) = hash indexedHash ->
  CheckFileChangesOperation_start (Openable content) w
  = Done (FileStatus
            (if bytes_eqb (md5 (firstn (Z.to_nat (size indexedHash)) content))
                          (md5 [])
             then if zlen content >? size indexedHash then DataAdded else Unchanged
             else Truncated),
          w).
Proof.
  intros h Hsize Hlen Hmatch. rewrite Hmatch.
  apply check_empty_buffer_cases; fold h.
  - unfold to_int.
    replace (size h + 2 ^ 31) with (size h - 2 ^ 31 + 1 * 2 ^ 32) by lia.
    rewrite Z.mod_add by lia. rewrite Z.mod_small by lia. lia.
  - lia.
  - exact Hlen.
Qed.

End LargeIndex.

Lemma zlen_two_gib_of_zeroes : zlen two_gib_of_zeroes = 2 ^ 31.
Proof.
  unfold two_gib_of_zeroes, zlen. rewrite repeat_length. apply Z2Nat.id. lia.
Qed.

Lemma check_file_changes_beyond_int_witness :
  2 ^ 31 <= size (getHash (indexing_data_ (indexed_in_full two_gib_of_zeroes)))
  < 2 ^ 32
  /\ size (getHash (indexing_data_ (indexed_in_full two_gib_of_zeroes)))
     <= zlen two_gib_of_zeroes
  /\ md5 (firstn (Z.to_nat (size (getHash (indexing_data_
                                             (indexed_in_full two_gib_of_zeroes)))))
                 two_gib_of_zeroes)
     = hash (getHash (indexing_data_ (indexed_in_full two_gib_of_zeroes)))
  /\ CheckFileChangesOperation_start (Openable two_gib_of_zeroes)
       (indexed_in_full two_gib_of_zeroes)
     = Done (FileStatus
               (if bytes_eqb (md5 two_gib_of_zeroes) (md5 [])
                then Unchanged else Truncated),
             indexed_in_full two_gib_of_zeroes).
Proof.
  set (w := indexed_in_full two_gib_of_zeroes).
  set (indexedHash := getHash (indexing_data_ w)).
  assert (Hsize : size indexedHash = zlen two_gib_of_zeroes) by reflexivity.
  assert (Hfirst : firstn (Z.to_nat (size indexedHash)) two_gib_of_zeroes
                   = two_gib_of_zeroes).
  { rewrite Hsize. apply firstn_zlen. }
  assert (H1 : 2 ^ 31 <= size indexedHash < 2 ^ 32).
  { rewrite Hsize, zlen_two_gib_of_zeroes. split; [apply Z.le_refl|reflexivity]. }
  assert (H2 : size indexedHash <= zlen two_gib_of_zeroes).
  { rewrite Hsize. apply Z.le_refl. }
  assert (H3 : md5 (firstn (Z.to_nat (size indexedHash)) two_gib_of_zeroes)
               = hash indexedHash).
  { rewrite Hfirst. reflexivity. }
  split; [exact H1|]. split; [exact H2|]. split; [exact H3|].
  rewrite (check_file_changes_beyond_int two_gib_of_zeroes w H1 H2 H3).
  fold indexedHash. rewrite Hfirst, Hsize, Z.gtb_ltb, Z.ltb_irrefl. reflexivity.
Defined.

(** ** The claims at concrete inputs *)

Lemma line_count_after_full_index_witness :
  (three_lines = [] \/ @parameters_in_use wide None three_lines = single_byte)
  /\ short_lines 0 three_lines
  /\ @interruptRequest_ wide (undisturbed clear) = None
  /\ exists w' : @World wide,
       @FullIndexOperation_start wide None (Openable three_lines)
         (undisturbed clear)
       = Done (Completion true, w')
       /\ getNbLines (indexing_data_ w') = 3
       /\ fakeFinalLF (linePosition_ (indexing_data_ w')) = false.
Proof.
  assert (H1 : three_lines = []
               \/ @parameters_in_use wide None three_lines = single_byte).
  { right. vm_compute. reflexivity. }
  assert (H2 : short_lines 0 three_lines).
  { apply (short_lines_below 0 three_lines); [lia|vm_compute; reflexivity]. }
  split; [exact H1|]. split; [exact H2|]. split; [reflexivity|].
  destruct (@line_count_after_full_index wide None three_lines (undisturbed clear)
              H1 H2 eq_refl)
    as (w' & Hrun & Hclosed & _).
  exists w'. split; [exact Hrun|]. apply Hclosed. vm_compute. reflexivity.
Defined.


Lemma progress_never_divides_by_zero_witness :
  well_formed (encodingParams (guessEncoding [x0a]%byte opened_empty
                                 (indexing_data_ idle)))
  /\ [x0a]%byte <> []
  /\ zlen [x0a]%byte <= 2 ^ 30
  /\ (exists state' d',
        blockParser 0 [x0a]%byte opened_empty idle
        = Done (state', {| indexing_data_ := d'; interruptRequest_ := None;
                           progressed := [100] |}))
  /\ (exists state' d',
        blockParser 671088 [x0a]%byte before_last_block idle
        = Done (state', {| indexing_data_ := d'; interruptRequest_ := None;
                           progressed := [99] |})
        /\ pos state' = file_size state').
Proof.
  assert (H1 : well_formed (encodingParams (guessEncoding [x0a]%byte opened_empty
                                              (indexing_data_ idle)))).
  { unfold well_formed. vm_compute. repeat split; discriminate. }
  assert (H1' : well_formed (encodingParams (guessEncoding [x0a]%byte
                                               before_last_block
                                               (indexing_data_ idle)))).
  { unfold well_formed. vm_compute. repeat split; discriminate. }
  assert (H2 : [x0a]%byte <> []) by discriminate.
  assert (H3 : zlen [x0a]%byte <= 2 ^ 30) by discriminate.
  split; [exact H1|]. split; [exact H2|]. split; [exact H3|].
  destruct (@progress_never_divides_by_zero sample) as (_ & Hsignal & Hreturns & _).
  split.
  - destruct (Hreturns 0 [x0a]%byte opened_empty idle H1 H2 H3)
      as (st' & d' & p & Hrun).
    destruct (Hsignal _ _ _ _ _ _ H2 Hrun) as (p' & Hsent & Hzero & _).
    cbn [progressed idle app] in Hsent. injection Hsent as <-.
    exists st', d'. rewrite Hrun, (Hzero ltac:(reflexivity)). reflexivity.
  - destruct (Hreturns 671088 [x0a]%byte before_last_block idle H1' H2 H3)
      as (st' & d' & p & Hrun).
    destruct (Hsignal _ _ _ _ _ _ H2 Hrun) as (p' & Hsent & _ & Hpositive).
    cbn [progressed idle app] in Hsent. injection Hsent as <-.
    exists st', d'. rewrite Hrun.
    assert (Hst : st' = fst (match blockParser 671088 [x0a]%byte
                                     before_last_block idle with
                             | Done r => r
                             | Fault _ => (before_last_block, idle)
                             end)) by (rewrite Hrun; reflexivity).
    assert (Hpos : pos st' = 671089) by (rewrite Hst; vm_compute; reflexivity).
    split; [|rewrite Hpos, Hst; vm_compute; reflexivity].
    rewrite (Hpositive ltac:(reflexivity)), Hpos. vm_compute. reflexivity.
Defined.

(** ** What the conditions above leave out *)

(** Under a line feed two bytes wide, a line position can lie past the
    bytes committed: in UTF-16 LE the bytes 05 0A are one character, the
    byte 0x0A is taken for a line feed, and the entry is the offset two
    bytes after it. *)
Lemma entry_past_the_committed_bytes :
  exists w' : @World wide,
    @FullIndexOperation_start wide None (Openable [x41; x00; x05; x0a]%byte)
      (@raised_after wide 1)
    = Done (Completion false, w')
    /\ array (linePosition_ (indexing_data_ w')) = [5]
    /\ getSize (indexing_data_ w') = 4.
Proof.
  eexists. split; [vm_compute; reflexivity|]. split; reflexivity.
Qed.

Section LongLines.

Context {collaborators : Collaborators}.

(** A block that starts more than 2^31 bytes after the start of its line:
    [static_cast<int>( state.pos - block_beginning )] wraps to an offset
    past the end of the block, nothing is searched, and no line feed of the
    block is found. *)
Lemma line_feeds_of_a_long_line block_beginning block (state : IndexingState) :
  2 ^ 31 < block_beginning - pos state <= 2 ^ 32 - zlen block ->
  parseDataBlock block_beginning block state
  = Done (set_max_length 0 state, emptyLinePositionArray).
Proof.
  intros H. pose proof (zlen_nonneg block) as Hz.
  unfold parseDataBlock. cbn [parse_loop]. cbn [pos set_max_length].
  assert (E : to_int (pos state - block_beginning)
              = pos state - block_beginning + 2 ^ 32).
  { unfold to_int.
    replace (pos state - block_beginning + 2 ^ 31)
      with (pos state - block_beginning + 2 ^ 31 + 2 ^ 32 + (-1) * 2 ^ 32) by lia.
    rewrite Z.mod_add by lia. rewrite Z.mod_small by lia. lia. }
  rewrite E. rewrite Z.max_l by lia.
  replace (zlen block - (pos state - block_beginning + 2 ^ 32) >? 0) with false
    by (symmetry; lia).
  reflexivity.
Qed.

End LongLines.

Lemma line_feeds_of_a_long_line_at_2_gib :
  parseDataBlock (2 ^ 31 + 1) [x0a]%byte in_a_long_line
  = Done (in_a_long_line, emptyLinePositionArray).
Proof.
  rewrite line_feeds_of_a_long_line; [reflexivity|].
  split; vm_compute; [reflexivity|discriminate].
Qed.


(** ** A line longer than 2 GiB *)

Lemma sizeChunk_value : sizeChunk = 2 ^ 20.
Proof. vm_compute. reflexivity. Qed.

Lemma zlen_repeat {A} (a : A) n : zlen (repeat a n) = Z.of_nat n.
Proof. unfold zlen. rewrite repeat_length. reflexivity. Qed.

Lemma zlen_long_line : zlen long_line = 2 ^ 31 + 2 ^ 20 + 1.
Proof.
  unfold long_line. rewrite zlen_app, zlen_repeat, Z2Nat.id by lia. reflexivity.
Qed.

Lemma skipn_repeat_app {A} (a : A) l : forall n k,
  (k <= n)%nat -> skipn k (repeat a n ++ l) = repeat a (n - k) ++ l.
Proof.
  induction n as [|n IH]; intros k Hk.
  - replace k with O by lia. reflexivity.
  - destruct k as [|k]; [reflexivity|]. cbn [repeat app skipn].
    rewrite IH by lia. reflexivity.
Qed.

Lemma firstn_repeat_app {A} (a : A) l : forall n m,
  (m <= n)%nat -> firstn m (repeat a n ++ l) = repeat a m.
Proof.
  induction n as [|n IH]; intros m Hm.
  - replace m with O by lia. reflexivity.
  - destruct m as [|m]; [reflexivity|]. cbn [repeat app firstn].
    rewrite IH by lia. reflexivity.
Qed.

Lemma long_line_block fp :
  0 <= fp -> fp + sizeChunk <= 2 ^ 31 + 2 ^ 20 ->
  file_read long_line fp sizeChunk = repeat "a"%byte (Z.to_nat sizeChunk).
Proof.
  intros H0 H1. pose proof sizeChunk_pos as Hc.
  unfold file_read, long_line.
  rewrite skipn_repeat_app by lia. apply firstn_repeat_app. lia.
Qed.

Lemma long_line_last_block :
  file_read long_line (2 ^ 31 + 2 ^ 20) sizeChunk = [LF].
Proof.
  pose proof sizeChunk_pos as Hc.
  unfold file_read, long_line.
  rewrite skipn_repeat_app by lia. rewrite Nat.sub_diag. cbn [repeat app].
  apply firstn_all2. cbn [length]. lia.
Qed.

Lemma plain_bytes n : ~ In LF (repeat "a"%byte n).
Proof. intros H. apply repeat_spec in H. discriminate. Qed.

Lemma ends_in_LF_long_line : ends_in_LF long_line = true.
Proof. unfold ends_in_LF, long_line. rewrite last_last. reflexivity. Qed.

(** The parser node on a block whose parse is known. *)
Lemma blockParser_parsed {collaborators : Collaborators} block_beginning block
    (state state' : IndexingState) lines w :
  block <> [] ->
  parseDataBlock block_beginning block
    (guessEncoding block state (indexing_data_ w))
  = Done (state', lines) ->
  exists p,
    blockParser block_beginning block state w
    = Done (state',
            {| indexing_data_ :=
                 addAll block (max_length state') lines (encodingGuess state')
                        (indexing_data_ w);
               interruptRequest_ := interruptRequest_ w;
               progressed := progressed w ++ [p] |}).
Proof.
  intros Hne Hparse. destruct (progress_of_total state') as [p Hprog].
  exists p. unfold blockParser, bind, getData.
  destruct block as [|b r]; [contradiction|].
  unfold lift. rewrite Hparse. unfold modifyData.
  cbn [indexing_data_ interruptRequest_ progressed].
  rewrite Hprog. reflexivity.
Qed.

Lemma in_the_long_line_step fp st d fl evs :
  0 <= fp < zlen long_line ->
  in_the_long_line fp st d evs ->
  let block := file_read long_line fp sizeChunk in
  exists st' d' evs',
    blockParser fp block st
      {| indexing_data_ := d; interruptRequest_ := fl; progressed := evs |}
    = Done (st', {| indexing_data_ := d'; interruptRequest_ := fl;
                    progressed := evs' |})
    /\ in_the_long_line (fp + zlen block) st' d' evs'.
Proof.
  intros Hfp (Hfs & Hpos & Hparams & Hlines & Hat) block.
  rewrite zlen_long_line in Hfp.
  pose proof sizeChunk_pos as Hc. pose proof sizeChunk_value as Hv.
  destruct Hat as [[Hmod Hrange]|Hend]; [|lia].
  assert (Hparams1 : encodingParams (guessEncoding block st d) = single_byte
                     /\ fileTextCodec (guessEncoding block st d) <> None).
  { split; [|apply guessEncoding_codec].
    unfold guessEncoding. destruct (fileTextCodec st) as [c|] eqn:Ec.
    - cbn [encodingParams]. apply Hparams. discriminate.
    - reflexivity. }
  destruct Hparams1 as [Hp1 Hc1].
  destruct (guessEncoding_fields block st d) as (Hpos1 & _ & Hfs1 & _).
  assert (Hk : fp <= 2 ^ 31 \/ fp = 2 ^ 31 + 2 ^ 20).
  { apply Z.mod_divide in Hmod; [|lia]. destruct Hmod as [k Hk].
    rewrite Hv in Hk. subst fp.
    assert (k <= 2049) by lia.
    destruct (Z.eq_dec k 2049) as [->|Hne]; [right; reflexivity|left; lia]. }
  destruct Hk as [Hlow|Hlast].
  - assert (Hblock : block = repeat "a"%byte (Z.to_nat sizeChunk)).
    { unfold block. apply long_line_block; lia. }
    assert (Hzb : zlen block = sizeChunk).
    { rewrite Hblock, zlen_repeat, Z2Nat.id by lia. reflexivity. }
    assert (Hne : block <> []).
    { intros E. rewrite E in Hzb. change (zlen (@nil byte)) with 0 in Hzb. lia. }
    destruct (blockParser_lines fp block st
                {| indexing_data_ := d; interruptRequest_ := fl; progressed := evs |}
                Hp1 Hne ltac:(lia) ltac:(lia))
      as (st' & p & Hrun & Hpos' & Hparams' & Hcodec' & Hfs' & _).
    rewrite line_starts_no_LF in Hrun, Hpos'
      by (rewrite Hblock; apply plain_bytes).
    cbn [last] in Hpos'.
    eexists st', _, _. split; [exact Hrun|].
    split; [congruence|]. split; [congruence|].
    split; [intros _; exact Hparams'|].
    split.
    { cbn [indexing_data_ addAll linePosition_]. rewrite Hlines. reflexivity. }
    left. rewrite Hzb. split; [|lia].
    rewrite <- Z.add_mod_idemp_l, Hmod, Z.add_0_l by lia.
    apply Z.mod_same. lia.
  - assert (Hblock : block = [LF]).
    { unfold block. rewrite Hlast. apply long_line_last_block. }
    destruct (blockParser_parsed fp block st
                (set_max_length 0 (guessEncoding block st d))
                emptyLinePositionArray
                {| indexing_data_ := d; interruptRequest_ := fl; progressed := evs |})
      as (p & Hrun).
    { rewrite Hblock. discriminate. }
    { cbn [indexing_data_]. apply line_feeds_of_a_long_line.
      rewrite Hpos1, Hpos, Hblock, Hlast. vm_compute. split; [reflexivity|discriminate]. }
    cbn [indexing_data_ interruptRequest_ progressed] in Hrun.
    eexists _, _, _. split; [exact Hrun|].
    split; [cbn [set_max_length file_size]; congruence|].
    split; [cbn [set_max_length pos]; congruence|].
    split; [intros _; exact Hp1|].
    split.
    { cbn [addAll linePosition_]. rewrite Hlines. reflexivity. }
    right. rewrite Hblock, Hlast. reflexivity.
Qed.

(** The full index of a file whose only line is longer than 2 GiB: the block
    that holds the line feed starts more than 2^31 bytes after the start of
    the line, the line feed is missed, and the file that ends in a line feed
    is indexed as one that does not, with the synthetic final entry and its
    flag. *)
Lemma line_count_of_a_long_line :
  parameters_in_use None long_line = single_byte
  /\ ends_in_LF long_line = true
  /\ exists w',
       FullIndexOperation_start None (Openable long_line) idle
       = Done (Completion true, w')
       /\ linePosition_ (indexing_data_ w')
          = {| array := [zlen long_line + 1]; fakeFinalLF := true |}.
Proof.
  split; [reflexivity|]. split; [exact ends_in_LF_long_line|].
  destruct (full_index_by_invariant None long_line in_the_long_line
              in_the_long_line_step (fun fp st d evs H => proj1 H) idle)
    as (st' & d' & evs' & lowered & r & flag & Hrun & HI & Hnone).
  - split; [reflexivity|]. split; [reflexivity|].
    split; [intros H; exfalso; apply H; reflexivity|].
    split; [reflexivity|]. left. split; [reflexivity|].
    vm_compute. split; discriminate.
  - destruct (Hnone eq_refl) as [-> ->].
    destruct HI as (Hfs & Hpos & _ & Hlines & _).
    eexists. split; [exact Hrun|]. cbn [indexing_data_].
    rewrite Hpos.
    replace (zlen long_line >? 0) with true
      by (rewrite zlen_long_line; reflexivity).
    cbn [andb].
    destruct (with_default_guess_fields
                (addAll [] 0 (fake_final_entry (zlen long_line))
                        (encodingGuess st') d')) as (-> & _).
    cbn [addAll linePosition_]. rewrite Hlines. reflexivity.
Qed.

